(* ===== verification/_CoqProject ===== *)
-Q . S2P
Prelude.v
Text.v
NetTypes.v
CidrModel.v
NetText.v
HostInfo.v
Packet.v
IdleGuard.v
HostCodec.v
CodecModel.v
Wire.v
Decoded.v
Routes.v
RoutingTable.v
NetRoute.v
Reconcile.v
Session.v
Wireguard.v
Peer.v
RelayPeers.v
Token.v
Relay.v
RelayTasks.v
DerperClient.v
Daemon.v
Membership.v
SubnetRoute.v
Convergence.v
DirectPath.v
Discovery.v
StunAnswers.v
Network.v
Departure.v
Delivery.v
RouteService.v
Config.v
Syscalls.v
Macos.v
ConfigFiles.v
Endpoints.v
Forwarding.v
Nftables.v
NftRules.v
NftKernel.v
NftDump.v
SubnetNat.v
Lifecycle.v
Console.v
TokenCli.v
