(* ===== verification/Prelude.v ===== *)
(** * noeio-core: a verification library

    noeio is an overlay VPN. Every node runs a daemon ([noeio/src]) that owns
    one virtual nic per overlay network, encrypts what leaves a nic for the peer
    that owns the destination, and decrypts what arrives. Nodes learn of each
    other from a relay ([noeio-derp/src]): a node reports itself with a signed
    token, the relay keeps a table of live peers and broadcasts who joined, moved
    or died; it also forwards packets between nodes that have no direct path yet.
    A node may advertise subnets behind it; others route those subnets to it. This
    library models the two programs and their shared wire formats
    ([noeio-common/src], [noeio-net-route/src]) and proves what makes them correct.

    ** How to read it

    Definitions keep the names of the Rust items they translate, in a Module per
    Rust type where the type has methods: [Router.update_info] of the file
    [RoutingTable] is [Router::update_info] of [noeio/src/daemon/router.rs]. Rust
    [Result] is [result], [Option] is [option]; integers are [Z] in the range of
    their width, with the wrap-around written where the code can wrap; byte
    strings are [list byte], [&str] is [string], the bytes of its UTF-8 form.
    Concurrent maps are [gmap]s; a shared [Arc] value lives in a store (a [gmap]
    from handles) when two tables point at it, so that an update through one is
    seen through the other. An [async] task is one definition per turn, taking the
    state and what the turn reads and returning the state and the datagrams sent;
    the interleaving of tasks is a step relation ([Session.UdpSession.step],
    [RoutingTable.Router.step], the steps of [Peer] and [DerperClient],
    [Membership.turn], [DirectPath.path_turn], [Convergence.step], [Lifecycle.node_step],
    [Network.net_step]) or, where the
    turns are data, the fold over any list of them ([RelayTasks.run],
    [IdleGuard.run]), over which the invariants are proved. The clock is a number the caller gives; random
    numbers are arguments.

    Third-party code and the machine are classes of operations with, where a proof
    needs it, a class of documented laws: [CidrApi]/[CidrLaws] (smoltcp's
    [Ipv4Cidr]), [Ipv4Wire] (its packet parser), [ProtoApi]/[ProtoLaws] (prost),
    [UuidApi]/[UuidLaws], [CacheApi]/[CacheLaws] (moka), [JwtApi]/[JwtLaws]
    (jsonwebtoken), [TunnApi]/[TunnLaws] (boringtun), [KeyApi] (x25519 and hkdf), [StunApi]
    (stun_codec), [RouteHandle]/[KernelLaws] (net-route and the kernel's routes),
    [NetlinkKernel]/[NfLaws]/[NfDumpLaws] (netfilter's end of a netlink socket),
    [NftVm]/[VmLaws] (what an nf_tables expression does to a packet),
    [RouteSocket]/[RouteSocketLaws] (macOS's routing socket and its structures),
    [TomlFormat]/[TomlLaws] (toml), [ChannelApi]/[ChannelLaws] (tokio's broadcast
    channel) and [CliTexts] (what clap and [Debug] print). [CidrModel],
    [CodecModel], [RelayPeers.TtlCache], [Token.PlainJwt], the [fib] of [NetRoute],
    [NftKernel.NfModel], the evaluator of [NftRules], [Macos]'s Darwin,
    [Delivery.Scenario.talk] and [RelayTasks.Example.ring] are runnable instances that
    satisfy the laws; the witnesses compute with them, and nothing else uses them.
    Inside the program the interfaces are classes too: [RoutingTable.PeerLike] is
    what the router needs of a peer, [Session.TunnelSession] what a peer needs of
    a session and of the codec, [Peer.SessionOpen] how it opens one.

    ** Files and what they model

    Foundations. [Prelude] (this file): [result], machine integers and bytes,
    sorting and deduplication, tactics and hint databases. [Text]: UTF-8, [trim],
    [split_once], [lines], decimal. [NetTypes], [NetText]: addresses of [std::net]
    and their text. [CidrModel], [CodecModel]: the instances.

    Shared formats. [HostInfo], [HostCodec], [Wire]: [noeio-common/src/host_info.rs]
    and [packet/report.rs]. [Decoded]: what is known of any value that was decoded. [Packet]: [packet.rs] and [packet/token_frame.rs].

    The relay. [Token]: [noeio-derp/src/token.rs], [config.rs], [rpc/service.rs] and
    the duration parser of [cli.rs]. [TokenCli]: the token commands of [main.rs] and
    [cli.rs]. [RelayPeers]: [connection/peer.rs]. [Relay]: [connection.rs], one
    definition per task turn: [on_datagram], [sync_round], [gone_round].
    [RelayTasks]: the tasks that take those turns, the channel between the first two
    and their end.

    The node's control plane. [Routes]: [noeio/src/daemon/routes.rs].
    [RoutingTable]: [daemon/router.rs]. [NetRoute]: [noeio-net-route/src/lib.rs].
    [Reconcile]: [daemon/reconciler.rs]. [DerperClient]: [daemon/derper.rs].
    [Config]: [config.rs]. [ConfigFiles]: [Config::load] of the node and of the relay,
    over the file system. [RouteService]: [rpc/service/route.rs]. [Console]: the
    other services, [rpc/client.rs] and the commands of [main.rs] with what they
    print. [Endpoints]: the sockets and pipes of the RPCs ([rpc.rs] of both programs,
    [noeio-common/src/named_pipe.rs]). [Macos]: [noeio-net-route/src/macos.rs].

    The node's data plane. [Session]: [tunnel/session.rs] and [session/udp.rs].
    [Wireguard]: [tunnel/wireguard.rs] and [session/wireguard.rs]. [Peer]:
    [daemon/peer.rs]. [Daemon]: [daemon.rs] and [daemon/nic.rs]. [IdleGuard]:
    [common/idle_guard.rs].

    The subnet router. [Syscalls]: programs of system calls, faults and crashes.
    [Forwarding]: [noeio-net-route/src/forwarding.rs]. [Nftables]: [nftables.rs].
    [NftRules]: what the rules mean; [NftKernel]: what a batch does; [NftDump]: what
    [read_back] reports. [SubnetNat]: [noeio/src/daemon/nat.rs].

    Compositions. [Membership]: the daemon as a refinement of a map of members.
    [Discovery]: a node's report, the relay's table and broadcast and the other
    node's daemon, end to end. [StunAnswers]: the daemon's own address, from the STUN
    answer to the relay. [Network]: any number of relays and daemons over a wire that
    loses, repeats, reorders and lets anybody inject. [Delivery]: two daemons, their
    relay and the WireGuard handshake, from nic to nic. [DirectPath]: the hole punch of
    two daemons and what may select a path. [SubnetRoute]: members, election, table,
    kernel and codec on the node that uses a subnet. [Convergence]: the reconciler's loop
    beside the daemon's other tasks. [Departure]: a peer whose reports stop, from the
    relay's sweep to the other nodes' kernels, and one whose reports go on. [Lifecycle]: [main.rs] (Boot), [NoeioDaemon::new],
    the reconciler's loop, [shutdown], [daemon/stun.rs].

    ** What the theorems show

    - Packets. What reaches a nic was decrypted by the tunnel of the peer it names
      and has a source that peer may use ([inbound_plaintext]); what leaves takes
      the path of the peer its destination resolves to ([outbound_path]), which is
      the exact address first and the longest accepted prefix otherwise
      ([lookup_longest_prefix]); the relay forwards under the sender's own id
      ([forward_authentic]). Put together, packets between two nodes that know each
      other all arrive, in order, handshake included ([packets_delivered]).
    - Membership. Over any turns the daemon holds exactly the fold of what it heard
      announced ([membership_refines]), well typed ([members_typed]), whatever the
      order and repetition ([announcements_converge]); only the relay can announce
      ([inbound_gate], with the datagrams that panic the task); a report reaches
      every member's table in one broadcast ([discovery]), and nothing gets into a
      table but by tokens of the network, whatever anybody sends
      ([network_authentic]) - though a token is enough to withdraw others
      ([forged_withdrawal]). A peer that dies is forgotten by everybody, its routes and
      exits included ([dead_peer_forgotten]); one that goes on reporting stays, and only
      a tombstone removes one ([steady_peer_stays]). The relay's side is [report_scope], [report_takeover],
      [heartbeat_versions], [sender_index], [tombstones_exact], [sync_broadcast] and
      [token_lifecycle]; its tasks together do what one loop does on the datagrams
      that are not lost between them ([relay_interleaving]) and do not end
      ([shutdown_times_out]). What a STUN answer does is [stun_answers].
    - Routes. Which advertisements a node makes ([advertisement_safe],
      [boot_advertises], [route_rpcs]) and accepts ([decide_installs]), and that
      the kernel converges to them ([reconcile_converges]) across crashes
      ([state_file_roundtrip]) and beside everything else the daemon does
      ([no_lost_wakeup]); the exit, the table, the kernel's route, the codec and the
      check of the answers agree on a subnet ([subnet_routed]); on macOS through messages that say what was asked
      ([route_message_readable], [mac_route_calls]).
    - Operating it. The commands' effects, outputs and exit codes ([route_commands],
      [vnic_created], [net_check_choice], [token_commands]), a listing that can be
      read back ([route_list_readable]), the endpoints they talk to
      ([rpc_socket_private], [pipe_stream]), and the configuration files across faults
      and crashes ([relay_secret_survives], [node_config_file]).
    - The host. The generated rules mean what they say ([ruleset_semantics], for the
      prefix of [nat_target_overlay]), are replaced atomically ([apply_atomic]) and
      read back as applied ([read_back_intended]);
      the sysctl's original survives crashes ([forwarding_survives]); sweeping or
      exiting leaves the host as it was ([subnet_router_clean], [clean_exit]),
      except as [failed_setup_leaks] and [exit_during_setup] say.
    - Paths. The states of a session under every interleaving ([session_lifecycle],
      [hole_punch_completes], [silent_handshake_times_out],
      [send_failure_wedges]); keys never go stale ([peer_codec_keys]); when the
      path changes ([selection_debounce]) and the relay ([derper_ranking]). A punch
      leads to traffic on the direct path ([direct_path_opens]), which only ever goes
      where an answer to a punch was heard ([direct_path_confirmed]); a session does
      not outlive a change of our own id ([renamed_session_unheard]).
    - Formats. [header_codec], [report_roundtrip]; whatever is decoded is well formed
      and canonical ([decoded_canonical]).
    Further theorems of the same files (the index with distinct ids, candidate
    sessions, packet mutators, tombstone broadcasts and others) are stated and
    proved in full beside these.

    ** Bounds and fuel

    [NoeioDaemon.delivery_loop] takes the number of replies the codec may have
    queued; [inbound_plaintext] shows that [drains] calls suffice, so the loop
    returns. [NfSocket.collect_acks] takes the number of buffers it may read; ten
    are enough for the longest batch, whose acknowledgements a healthy kernel
    sends ([apply_atomic], [subnet_router_clean]), and for both dumps
    ([read_back_intended]). [Delivery.settle] takes the number of hops left; eight are
    enough for a packet that has to wait for the handshake over the relay, and three
    replies for a codec in it ([packets_delivered]). [Syscalls.exec n] runs at most
    [n] system calls: the process dies there; [run] is the undisturbed end. All
    other recursion is structural.

    ** Not modelled

    Name resolution, argument parsing, logging, signals and the bytes of the RPC
    transport (their results are arguments); the tasks' socket reads and timers (a
    turn is taken when they fire); the TUN device; generated protobuf code and build
    scripts; the choice of the run directory and of random numbers. Of the third-party code only what the
    classes above say: in particular no cryptography - [Wireguard] shows which keys
    are used and [inbound_plaintext] that only decrypted packets get through, not
    that a decrypted packet is authentic.
    What remains of the implementation is imports, comments, log statements and such
    glue: its values are the arguments of the definitions here, and a definition of
    it would state nothing. *)

From Stdlib Require Import ZArith Lia.
From Stdlib Require Import Strings.Byte.
From stdpp Require Import base list strings gmap sorting.

#[global] Open Scope Z_scope.

(** ** Rust's [Result] *)

Declare Scope rust_scope.
Delimit Scope rust_scope with rust.

Inductive result (A E : Type) : Type :=
  | Ok (a : A)
  | Err (e : E).
Arguments Ok {A E} a.
Arguments Err {A E} e.

#[export] Instance result_eq_dec {A E} `{EqDecision A, EqDecision E} :
  EqDecision (result A E).
Proof. solve_decision. Defined.

(** The [?] operator. *)
Notation "'let?' x ':=' e 'in' k" :=
  (match e with Ok x => k | Err err => Err err end)
  (at level 10, x pattern, e at level 100, k at level 200) : rust_scope.
#[global] Open Scope rust_scope.

(** [Option::ok_or], [Result::ok], [Result::is_err]. *)
Definition ok_or {A E} (e : E) (o : option A) : result A E :=
  match o with Some a => Ok a | None => Err e end.
Definition result_ok {A E} (r : result A E) : option A :=
  match r with Ok a => Some a | Err _ => None end.
Definition is_err {A E} (r : result A E) : bool :=
  match r with Ok _ => false | Err _ => true end.

(** [iter.map(f).collect::<Result<Vec<_>, _>>()]: the first error wins. *)
Fixpoint collect {A B E} (f : A → result B E) (l : list A) : result (list B) E :=
  match l with
  | [] => Ok []
  | a :: l' => let? b := f a in let? bs := collect f l' in Ok (b :: bs)
  end.

(** The errors of a check over a list, in order. *)
Definition errors_of {A B E} (f : A → result B E) (l : list A) : list E :=
  omap (λ a, match f a with Err e => Some e | Ok _ => None end) l.

Lemma errors_of_nil {A B E} (f : A → result B E) l :
  errors_of f l = [] ↔ ∀ a, a ∈ l → ∃ b, f a = Ok b.
Proof.
  unfold errors_of. induction l as [|a l IH]; cbn; [set_solver|].
  destruct (f a) as [b|e] eqn:Hf.
  - rewrite IH. setoid_rewrite elem_of_cons. naive_solver.
  - split; [done|]. intros H. destruct (H a ltac:(by left)) as [b Hb]. congruence.
Qed.

(** [collect] stops at the first error. *)
Lemma collect_Err {A B E} (f : A → result B E) l e :
  collect f l = Err e →
  ∃ pre a post, l = pre ++ a :: post ∧ (∀ a', a' ∈ pre → ∃ b, f a' = Ok b) ∧ f a = Err e.
Proof.
  induction l as [|a l IH]; [done|]. cbn [collect]. destruct (f a) as [b|e'] eqn:Hf.
  - destruct (collect f l) as [bs|e']; [done|]. intros [= ->].
    destruct (IH eq_refl) as (pre & a' & post & -> & Hpre & Ha'). exists (a :: pre), a', post.
    split_and!; [done| |done]. intros x [->|Hx]%elem_of_cons; [by exists b|by apply Hpre].
  - intros [= ->]. exists [], a, l. split_and!; [done| |done]. by intros x ?%not_elem_of_nil.
Qed.

(** ** Machine integers: values in [Z] with their width written out *)

Definition is_uint (w z : Z) : Prop := 0 ≤ z < 2 ^ w.
Definition wrap (w z : Z) : Z := z mod 2 ^ w.
(** [saturating_sub] and [saturating_add] at width [w]. *)
Definition saturating_sub (a b : Z) : Z := Z.max 0 (a - b).
Definition saturating_add (w a b : Z) : Z := Z.min (2 ^ w - 1) (a + b).
Definition U64_MAX : Z := 2 ^ 64 - 1.
Definition U32_MAX : Z := 2 ^ 32 - 1.

Create HintDb noeio discriminated.
Create Rewrite HintDb noeio.

Lemma wrap_uint w z : 0 ≤ w → is_uint w (wrap w z).
Proof. intros Hw. apply Z.mod_pos_bound. apply Z.pow_pos_nonneg; lia. Qed.

Lemma wrap_small w z : is_uint w z → wrap w z = z.
Proof. apply Z.mod_small. Qed.

#[export] Hint Resolve wrap_uint : noeio.
#[export] Hint Rewrite wrap_small using done : noeio.

#[export] Instance is_uint_dec w z : Decision (is_uint w z).
Proof. unfold is_uint. apply _. Defined.

(** ** Bytes *)

Notation byte := Byte.byte.

#[export] Instance byte_eq_dec : EqDecision byte := Byte.byte_eq_dec.

Definition Z_of_byte (b : byte) : Z := Z.of_N (Byte.to_N b).

(** Rust's [as u8]: truncation to the low eight bits. *)
Definition byte_of_Z (z : Z) : byte :=
  default x00 (Byte.of_N (Z.to_N (z mod 256))).

Lemma Z_of_byte_bound b : 0 ≤ Z_of_byte b < 256.
Proof.
  unfold Z_of_byte. pose proof (Byte.to_N_bounded b). lia.
Qed.

Lemma byte_of_Z_of_byte b : byte_of_Z (Z_of_byte b) = b.
Proof.
  unfold byte_of_Z. rewrite Z.mod_small by apply Z_of_byte_bound.
  unfold Z_of_byte. by rewrite N2Z.id, Byte.of_to_N.
Qed.

Lemma Z_of_byte_of_Z z : Z_of_byte (byte_of_Z z) = z mod 256.
Proof.
  pose proof (Z.mod_pos_bound z 256 ltac:(lia)) as Hb.
  unfold byte_of_Z, Z_of_byte.
  destruct (Byte.of_N (Z.to_N (z mod 256))) as [b|] eqn:Hof; simpl.
  - apply Byte.to_of_N in Hof. rewrite Hof. lia.
  - apply Byte.of_N_None_iff in Hof. lia.
Qed.

Lemma Z_of_byte_inj a b : Z_of_byte a = Z_of_byte b → a = b.
Proof. intros H. by rewrite <-(byte_of_Z_of_byte a), H, byte_of_Z_of_byte. Qed.

#[export] Instance byte_countable : Countable byte.
Proof.
  refine (inj_countable' Z_of_byte byte_of_Z _).
  apply byte_of_Z_of_byte.
Defined.

(** ** Big-endian integers: [to_be_bytes] / [from_be_bytes] *)

Fixpoint be_bytes (n : nat) (z : Z) : list byte :=
  match n with
  | O => []
  | S m => byte_of_Z (z / 256 ^ Z.of_nat m) :: be_bytes m z
  end.

Fixpoint be_val (bs : list byte) : Z :=
  match bs with
  | [] => 0
  | b :: bs' => Z_of_byte b * 256 ^ Z.of_nat (length bs') + be_val bs'
  end.

Lemma length_be_bytes n z : length (be_bytes n z) = n.
Proof. induction n; simpl; auto. Qed.

Lemma pow256_pos n : 0 < 256 ^ Z.of_nat n.
Proof. apply Z.pow_pos_nonneg; lia. Qed.

Lemma pow256_S n : 256 ^ Z.of_nat (S n) = 256 * 256 ^ Z.of_nat n.
Proof. rewrite Nat2Z.inj_succ, Z.pow_succ_r; lia. Qed.

Lemma be_val_bound bs : 0 ≤ be_val bs < 256 ^ Z.of_nat (length bs).
Proof.
  induction bs as [|b bs IH]; [simpl; lia|].
  cbn [be_val length]. rewrite pow256_S.
  pose proof (Z_of_byte_bound b). pose proof (pow256_pos (length bs)). nia.
Qed.

Lemma be_val_be_bytes n z : be_val (be_bytes n z) = z mod 256 ^ Z.of_nat n.
Proof.
  induction n as [|n IH]; [simpl; by rewrite Z.mod_1_r|].
  cbn [be_bytes be_val]. rewrite length_be_bytes, IH, Z_of_byte_of_Z, pow256_S.
  pose proof (pow256_pos n) as Hp.
  rewrite (Z.mul_comm 256), Z.rem_mul_r by lia. lia.
Qed.

Lemma be_bytes_mod n m z : (n ≤ m)%nat →
  be_bytes n (z mod 256 ^ Z.of_nat m) = be_bytes n z.
Proof.
  revert z. induction n as [|n IH]; intros z Hm; [done|].
  cbn [be_bytes]. f_equal; [|apply IH; lia].
  apply Z_of_byte_inj. rewrite !Z_of_byte_of_Z.
  replace (256 ^ Z.of_nat m) with (256 ^ Z.of_nat n * 256 ^ Z.of_nat (m - n))
    by (rewrite <-Z.pow_add_r by lia; f_equal; lia).
  pose proof (pow256_pos n). pose proof (pow256_pos (m - n)).
  rewrite Z.rem_mul_r, Z.mul_comm, Z.div_add by lia.
  rewrite Z.div_small by (apply Z.mod_pos_bound; lia). rewrite Z.add_0_l.
  replace (256 ^ Z.of_nat (m - n)) with (256 * 256 ^ Z.of_nat (m - S n))
    by (rewrite <-pow256_S; f_equal; lia).
  pose proof (pow256_pos (m - S n)).
  rewrite Z.rem_mul_r by lia.
  rewrite (Z.mul_comm 256), Z.mod_add by lia. by apply Z.mod_mod.
Qed.

Lemma be_bytes_be_val bs : be_bytes (length bs) (be_val bs) = bs.
Proof.
  induction bs as [|b bs IH]; [done|].
  cbn [length be_bytes be_val]. pose proof (be_val_bound bs) as Hb. f_equal.
  - rewrite Z.add_comm, Z.div_add, Z.div_small, Z.add_0_l by lia.
    apply byte_of_Z_of_byte.
  - rewrite <-(be_bytes_mod (length bs) (length bs)) by lia.
    rewrite Z.add_comm, Z.mod_add, Z.mod_small by lia. apply IH.
Qed.

Lemma be_val_be_bytes_small n z :
  0 ≤ z < 256 ^ Z.of_nat n → be_val (be_bytes n z) = z.
Proof. intros Hz. rewrite be_val_be_bytes. by apply Z.mod_small. Qed.

Arguments be_bytes : simpl never.
Arguments be_val : simpl never.

(** ** Slices *)

(** [l.get(lo..hi)] *)
Definition slice {A} (lo hi : nat) (l : list A) : option (list A) :=
  if decide (lo ≤ hi ∧ hi ≤ length l)%nat
  then Some (take (hi - lo) (drop lo l)) else None.

(** [out[lo..lo+bs.len()].copy_from_slice(bs)] on an array that is long enough. *)
Definition copy_at {A} (lo : nat) (bs out : list A) : list A :=
  take lo out ++ bs ++ drop (lo + length bs) out.

(** [v.resize(n, x)] *)
Definition resize {A} (n : nat) (x : A) (l : list A) : list A :=
  take n l ++ replicate (n - length l) x.

Lemma slice_Some {A} lo hi (l s : list A) :
  slice lo hi l = Some s ↔ (lo ≤ hi ≤ length l)%nat ∧ s = take (hi - lo) (drop lo l).
Proof. unfold slice. case_decide; naive_solver. Qed.

Lemma slice_app_exact {A} (l1 l2 l3 : list A) :
  slice (length l1) (length l1 + length l2) (l1 ++ l2 ++ l3) = Some l2.
Proof.
  apply slice_Some. rewrite !length_app. split; [lia|].
  rewrite drop_app_length. replace (_ + _ - _)%nat with (length l2) by lia.
  by rewrite take_app_length.
Qed.

Lemma length_resize {A} n (x : A) l : length (resize n x l) = n.
Proof. unfold resize. rewrite length_app, length_take, length_replicate. lia. Qed.

(** ** Lists *)

(** [iter.min_by_key(key)]: the first element of least key. *)
Fixpoint min_by_key {A} (key : A → Z) (l : list A) : option A :=
  match l with
  | [] => None
  | a :: l' =>
      match min_by_key key l' with
      | Some b => if key b <? key a then Some b else Some a
      | None => Some a
      end
  end.

Lemma min_by_key_Some {A} key (l : list A) a :
  min_by_key key l = Some a → a ∈ l ∧ ∀ b, b ∈ l → key a ≤ key b.
Proof.
  revert a. induction l as [|x l IH]; intros a; simpl; [done|].
  destruct (min_by_key key l) as [m|] eqn:Hm.
  - destruct (IH m eq_refl) as [Hin Hle].
    destruct (Z.ltb_spec (key m) (key x)); intros [= <-]; split; [set_solver| |set_solver|];
      intros b [->|Hb]%elem_of_cons; try apply Hle in Hb; lia.
  - intros [= <-]. destruct l as [|y l'].
    + split; [set_solver|]. intros b [->|Hb]%elem_of_cons; [lia|set_solver].
    + exfalso. simpl in Hm. destruct (min_by_key key l') as [z|];
        [destruct (_ <? _)|]; done.
Qed.

Lemma min_by_key_None {A} key (l : list A) : min_by_key key l = None ↔ l = [].
Proof.
  split; [|by intros ->]. destruct l as [|x l]; [done|]. simpl.
  destruct (min_by_key key l); [destruct (_ <? _)|]; done.
Qed.

(** [vec.dedup()]: drop consecutive repeats. *)
Fixpoint dedup `{EqDecision A} (l : list A) : list A :=
  match l with
  | [] => []
  | a :: l' =>
      match l' with
      | b :: _ => if decide (a = b) then dedup l' else a :: dedup l'
      | [] => [a]
      end
  end.

Lemma elem_of_dedup `{EqDecision A} (l : list A) x : x ∈ dedup l ↔ x ∈ l.
Proof.
  induction l as [|a [|b l] IH]; [done|done|]. simpl in *.
  case_decide as Hab; subst; set_solver.
Qed.

(** On a sorted list [dedup] removes every repeat. *)
Lemma dedup_sorted `{EqDecision A} (R : relation A) `{!AntiSymm (=) R} (l : list A) :
  StronglySorted R l → StronglySorted R (dedup l) ∧ NoDup (dedup l).
Proof.
  induction l as [|a l IH]; intros Hs; [split; constructor|].
  apply StronglySorted_inv in Hs as [Hs Ha]. destruct (IH Hs) as [IHs IHn].
  destruct l as [|b l']; [split; [repeat constructor|apply NoDup_singleton]|].
  change (dedup (a :: b :: l')) with (if decide (a = b) then dedup (b :: l') else a :: dedup (b :: l')).
  case_decide as Hab; [done|].
  assert (Forall (R a) (dedup (b :: l'))) as Hd.
  { apply Forall_forall. intros x Hx. rewrite elem_of_dedup in Hx.
    rewrite Forall_forall in Ha. by apply Ha. }
  split; [by constructor|]. constructor; [|done].
  rewrite elem_of_dedup. intros Hin. apply Hab. apply StronglySorted_inv in Hs as [_ Hb].
  apply elem_of_cons in Hin as [|Hin]; [done|].
  apply (anti_symm R); [by apply Forall_cons in Ha as []|].
  rewrite Forall_forall in Hb. by apply Hb.
Qed.

(** Sorting then deduplicating depends on the set of elements only. *)
Lemma dedup_merge_sort_canonical `{EqDecision A} (R : relation A) `{!∀ x y, Decision (R x y)}
    `{!Total R, !Transitive R, !AntiSymm (=) R} (l l' : list A) :
  (∀ x, x ∈ l ↔ x ∈ l') → dedup (merge_sort R l) = dedup (merge_sort R l').
Proof.
  intros Hl.
  destruct (dedup_sorted R _ (StronglySorted_merge_sort R l)) as [Hs Hn].
  destruct (dedup_sorted R _ (StronglySorted_merge_sort R l')) as [Hs' Hn'].
  eapply (StronglySorted_unique R); [done|done|].
  apply NoDup_Permutation; [done|done|]. intros x.
  rewrite !elem_of_dedup, !merge_sort_Permutation. apply Hl.
Qed.

Lemma elem_of_dedup_merge_sort `{EqDecision A} (R : relation A) `{!∀ x y, Decision (R x y)}
    (l : list A) x : x ∈ dedup (merge_sort R l) ↔ x ∈ l.
Proof. by rewrite elem_of_dedup, merge_sort_Permutation. Qed.

(** [find] on a sorted list returns a least match. *)
Lemma find_sorted_least {A} (R : relation A) (f : A → bool) l a :
  StronglySorted R l → List.find f l = Some a →
  a ∈ l ∧ f a = true ∧ ∀ b, b ∈ l → f b = true → a = b ∨ R a b.
Proof.
  induction l as [|x l IH]; simpl; [done|]. intros [Hs Hx]%StronglySorted_inv.
  rewrite Forall_forall in Hx. destruct (f x) eqn:Hfx.
  - intros [= <-]. split_and!; [set_solver|done|].
    intros b [->|Hb]%elem_of_cons _; [by left|right; by apply Hx].
  - intros (Ha & Hfa & Hle)%IH; [|done]. split_and!; [set_solver|done|].
    intros b [->|Hb]%elem_of_cons Hfb; [congruence|by apply Hle].
Qed.

Lemma find_Some_first {A} (f : A → bool) l a :
  List.find f l = Some a →
  ∃ l1 l2, l = l1 ++ a :: l2 ∧ f a = true ∧ Forall (λ x, f x = false) l1.
Proof.
  induction l as [|x l IH]; simpl; [done|].
  destruct (f x) eqn:Hx.
  - intros [= <-]. by exists [], l.
  - intros (l1 & l2 & -> & Ha & Hl)%IH. exists (x :: l1), l2.
    split_and!; [done|done|by constructor].
Qed.

Lemma find_None_Forall {A} (f : A → bool) l :
  List.find f l = None ↔ Forall (λ x, f x = false) l.
Proof.
  induction l as [|x l IH]; simpl; [done|].
  rewrite Forall_cons. destruct (f x); naive_solver.
Qed.

Lemma existsb_true {A} (f : A → bool) l :
  existsb f l = true ↔ ∃ x, x ∈ l ∧ f x = true.
Proof. rewrite existsb_exists. by setoid_rewrite list_elem_of_In. Qed.

(** ** State machines *)

(** Rule induction for an invariant along a run. *)
Lemma rtc_invariant {A} (R : A → A → Prop) (I : A → Prop) :
  (∀ x y, I x → R x y → I y) → ∀ x y, rtc R x y → I x → I y.
Proof. intros Hstep x y. induction 1; eauto. Qed.

(** ** Automation *)

(** Split on the matches and ifs of the goal or of a hypothesis, closing what is
    contradictory. *)
Ltac step_match :=
  repeat (case_match; simplify_eq/=; try done).

(** Boolean guards to propositions. *)
Ltac bool_to_prop :=
  repeat match goal with
  | H : bool_decide _ = true |- _ => apply bool_decide_eq_true in H
  | H : bool_decide _ = false |- _ => apply bool_decide_eq_false in H
  | H : _ && _ = true |- _ => apply andb_true_iff in H as [? ?]
  | H : _ || _ = false |- _ => apply orb_false_iff in H as [? ?]
  | H : negb _ = true |- _ => apply negb_true_iff in H
  | H : negb _ = false |- _ => apply negb_false_iff in H
  | H : (_ <? _) = true |- _ => apply Z.ltb_lt in H
  | H : (_ <? _) = false |- _ => apply Z.ltb_ge in H
  | H : (_ <=? _) = true |- _ => apply Z.leb_le in H
  | H : (_ <=? _) = false |- _ => apply Z.leb_gt in H
  | H : (_ =? _) = true |- _ => apply Z.eqb_eq in H
  | H : (_ =? _) = false |- _ => apply Z.eqb_neq in H
  end.
