(* ===== verification/Text.v ===== *)
(** The parts of Rust's standard library for text that the program uses:
    UTF-8 validation ([std::str::from_utf8]), [str::trim], [split_once],
    [lines], and the decimal [Display] / [FromStr] of unsigned integers.
    A [&str] is its sequence of bytes, a [string]. *)

From Stdlib Require Import ZArith Lia.
From Stdlib Require Import Strings.Byte Strings.Ascii Strings.String.
From stdpp Require Import base list strings.
From S2P Require Import Prelude.

Local Open Scope string_scope.
Local Open Scope Z_scope.

(** ** UTF-8 *)

Definition in_range (lo hi : Z) (b : byte) : bool :=
  (lo <=? Z_of_byte b) && (Z_of_byte b <=? hi).
Definition is_cont : byte → bool := in_range 128 191.

(** [core::str::validations::run_utf8_validation] *)
Fixpoint utf8_valid (bs : list byte) : bool :=
  match bs with
  | [] => true
  | b1 :: r1 =>
      if in_range 0 127 b1 then utf8_valid r1
      else match r1 with
      | [] => false
      | b2 :: r2 =>
          if in_range 194 223 b1 then is_cont b2 && utf8_valid r2
          else match r2 with
          | [] => false
          | b3 :: r3 =>
              if (in_range 224 224 b1 && in_range 160 191 b2)
                 || (in_range 225 236 b1 && is_cont b2)
                 || (in_range 237 237 b1 && in_range 128 159 b2)
                 || (in_range 238 239 b1 && is_cont b2)
              then is_cont b3 && utf8_valid r3
              else match r3 with
              | [] => false
              | b4 :: r4 =>
                  ((in_range 240 240 b1 && in_range 144 191 b2)
                   || (in_range 241 243 b1 && is_cont b2)
                   || (in_range 244 244 b1 && in_range 128 143 b2))
                  && is_cont b3 && is_cont b4 && utf8_valid r4
              end
          end
      end
  end.

(** ** [str::trim] *)

Definition code (c : ascii) : Z := Z.of_nat (nat_of_ascii c).

Definition ws1 (c : ascii) : bool := ((9 <=? code c) && (code c <=? 13)) || (code c =? 32).
(** U+0085 and U+00A0 *)
Definition ws2 (c d : ascii) : bool :=
  (code c =? 194) && ((code d =? 133) || (code d =? 160)).
(** U+1680, U+2000..200A, U+2028, U+2029, U+202F, U+205F, U+3000 *)
Definition ws3 (c d e : ascii) : bool :=
  ((code c =? 225) && (code d =? 154) && (code e =? 128))
  || ((code c =? 226) && (code d =? 128)
      && (((128 <=? code e) && (code e <=? 138))
          || (code e =? 168) || (code e =? 169) || (code e =? 175)))
  || ((code c =? 226) && (code d =? 129) && (code e =? 159))
  || ((code c =? 227) && (code d =? 128) && (code e =? 128)).

Fixpoint trim_start (s : string) : string :=
  match s with
  | EmptyString => s
  | String c s1 =>
      if ws1 c then trim_start s1 else
      match s1 with
      | EmptyString => s
      | String d s2 =>
          if ws2 c d then trim_start s2 else
          match s2 with
          | EmptyString => s
          | String e s3 => if ws3 c d e then trim_start s3 else s
          end
      end
  end.

(** Trailing white space, on the reversed string. *)
Fixpoint trim_rev (s : string) : string :=
  match s with
  | EmptyString => s
  | String c s1 =>
      if ws1 c then trim_rev s1 else
      match s1 with
      | EmptyString => s
      | String d s2 =>
          if ws2 d c then trim_rev s2 else
          match s2 with
          | EmptyString => s
          | String e s3 => if ws3 e d c then trim_rev s3 else s
          end
      end
  end.

Definition string_rev (s : string) : string :=
  string_of_list_ascii (List.rev (list_ascii_of_string s)).
Definition trim (s : string) : string := string_rev (trim_rev (string_rev (trim_start s))).

(** ** [split_once], [lines] *)

Fixpoint split_once (sep : ascii) (s : string) : option (string * string) :=
  match s with
  | EmptyString => None
  | String c s' =>
      if decide (c = sep) then Some (EmptyString, s')
      else '(a, b) ← split_once sep s'; Some (String c a, b)
  end.

Definition LF : ascii := ascii_of_nat 10.
Definition CR : ascii := ascii_of_nat 13.

(** Lines without their terminator; a final empty line is not one. The optional
    ['\r'] before the ['\n'] is white space that every caller trims away. *)
Fixpoint lines_aux (cur s : string) : list string :=
  match s with
  | EmptyString => if decide (cur = "") then [] else [string_rev cur]
  | String c s' =>
      if decide (c = LF) then string_rev cur :: lines_aux "" s'
      else lines_aux (String c cur) s'
  end.
Definition lines (s : string) : list string := lines_aux "" s.

(** ** Unsigned decimals *)

Definition digit_char (d : Z) : ascii := ascii_of_nat (48 + Z.to_nat d).
Definition digit_val (c : ascii) : option Z :=
  if (48 <=? code c) && (code c <=? 57) then Some (code c - 48) else None.

Fixpoint show_aux (fuel : nat) (n : Z) : string :=
  match fuel with
  | O => ""
  | S f =>
      let last := String (digit_char (n mod 10)) "" in
      if n <? 10 then last else show_aux f (n / 10) +:+ last
  end.
(** [u64::to_string] and narrower. A number has at most as many decimal digits as bits. *)
Definition show_uint (n : Z) : string := show_aux (S (Z.to_nat (Z.log2 n))) n.

Fixpoint parse_digits (w acc : Z) (s : string) : option Z :=
  match s with
  | EmptyString => Some acc
  | String c s' =>
      d ← digit_val c;
      let acc' := acc * 10 + d in
      if acc' <? 2 ^ w then parse_digits w acc' s' else None
  end.

(** [str::parse::<uN>()]: a leading [+] is accepted, an empty string is not. *)
Definition parse_uint (w : Z) (s : string) : option Z :=
  match s with
  | EmptyString => None
  | String c s' =>
      if decide (c = "+"%char)
      then match s' with EmptyString => None | _ => parse_digits w 0 s' end
      else parse_digits w 0 s
  end.

(** ** Facts *)

Arguments digit_char : simpl never.
Arguments digit_val : simpl never.
Arguments code : simpl never.

Lemma digit_val_char d : 0 ≤ d < 10 → digit_val (digit_char d) = Some d.
Proof.
  intros Hd. unfold digit_val, digit_char, code.
  rewrite nat_ascii_embedding by lia.
  destruct (_ && _) eqn:Hc; [f_equal; lia|].
  apply andb_false_iff in Hc as [Hc|Hc]; apply Z.leb_gt in Hc; lia.
Qed.

Lemma digit_char_not c d : 0 ≤ d < 10 →
  (code c < 48 ∨ 57 < code c) → digit_char d ≠ c.
Proof.
  intros Hd Hc <-. unfold digit_char, code in Hc.
  rewrite nat_ascii_embedding in Hc by lia. lia.
Qed.

Lemma parse_digits_app w acc s t :
  parse_digits w acc (s +:+ t) = parse_digits w acc s ≫= λ a, parse_digits w a t.
Proof.
  revert acc. induction s as [|c s IH]; intros acc; [done|]. simpl.
  destruct (digit_val c) as [d|]; simpl; [|done]. case_match; [apply IH|done].
Qed.

Lemma parse_digits_one w acc d : 0 ≤ d < 10 → acc * 10 + d < 2 ^ w →
  parse_digits w acc (String (digit_char d) "") = Some (acc * 10 + d).
Proof.
  intros Hd Hw. cbn [parse_digits]. rewrite digit_val_char by done.
  cbn [mbind option_bind]. by rewrite (proj2 (Z.ltb_lt _ _)) by done.
Qed.

Lemma parse_digits_show w fuel n :
  0 ≤ n → n < 2 ^ w → n < 2 ^ Z.of_nat fuel →
  parse_digits w 0 (show_aux fuel n) = Some n.
Proof.
  revert n. induction fuel as [|f IH]; intros n Hn Hw Hf.
  { simpl in *. f_equal. lia. }
  assert (0 ≤ n mod 10 < 10) as Hm by (apply Z.mod_pos_bound; lia).
  cbn [show_aux]. destruct (Z.ltb_spec n 10).
  - rewrite Z.mod_small, parse_digits_one by lia. f_equal; lia.
  - rewrite Nat2Z.inj_succ, Z.pow_succ_r in Hf by lia.
    assert (n / 10 ≤ n / 2) by (apply Z.div_le_compat_l; lia).
    assert (n / 2 < 2 ^ Z.of_nat f) by (apply Z.div_lt_upper_bound; lia).
    assert (n / 10 ≤ n) by (apply Z.div_le_upper_bound; lia).
    pose proof (Z.div_mod n 10 ltac:(lia)) as Hdm.
    rewrite parse_digits_app, IH by (try apply Z.div_pos; lia).
    cbn [mbind option_bind]. rewrite parse_digits_one by lia. f_equal; lia.
Qed.

Lemma show_aux_head fuel n :
  0 ≤ n → ∃ d s, 0 ≤ d < 10 ∧ show_aux (S fuel) n = String (digit_char d) s.
Proof.
  revert n. induction fuel as [|f IH]; intros n Hn.
  - cbn [show_aux]. assert (0 ≤ n mod 10 < 10) by (apply Z.mod_pos_bound; lia).
    case_match; cbn [String.app]; eauto.
  - assert (0 ≤ n mod 10 < 10) by (apply Z.mod_pos_bound; lia).
    remember (S f) as g. cbn [show_aux]. case_match; [by eauto|].
    destruct (IH (n / 10)) as (d & s & Hd & ->); [apply Z.div_pos; lia|].
    exists d. eexists. by split.
Qed.

Lemma parse_show_uint w n : 0 ≤ w → is_uint w n → parse_uint w (show_uint n) = Some n.
Proof.
  intros Hw [Hn Hlt]. unfold show_uint, parse_uint.
  destruct (show_aux_head (Z.to_nat (Z.log2 n)) n Hn) as (d & s & Hd & Heq).
  rewrite Heq. rewrite decide_False by (apply digit_char_not; [done|left; by vm_compute]).
  rewrite <-Heq. apply parse_digits_show; [done..|].
  rewrite Nat2Z.inj_succ, Z2Nat.id by apply Z.log2_nonneg.
  destruct (decide (n = 0)) as [->|]; [by vm_compute|].
  apply Z.log2_spec. lia.
Qed.

Fixpoint string_all (f : ascii → bool) (s : string) : bool :=
  match s with
  | EmptyString => true
  | String c s' => f c && string_all f s'
  end.

Lemma string_all_app f s t : string_all f (s +:+ t) = string_all f s && string_all f t.
Proof. induction s as [|c s IH]; simpl; [done|]. by rewrite IH, andb_assoc. Qed.

Definition is_digit (c : ascii) : bool := (48 <=? code c) && (code c <=? 57).

Lemma is_digit_char d : 0 ≤ d < 10 → is_digit (digit_char d) = true.
Proof.
  intros Hd. unfold is_digit, digit_char, code. rewrite nat_ascii_embedding by lia.
  apply andb_true_iff. rewrite !Z.leb_le. lia.
Qed.

Lemma show_aux_digits fuel n : 0 ≤ n → string_all is_digit (show_aux fuel n) = true.
Proof.
  revert n. induction fuel as [|f IH]; intros n Hn; [done|]. cbn [show_aux].
  assert (0 ≤ n mod 10 < 10) by (apply Z.mod_pos_bound; lia).
  case_match; rewrite ?string_all_app; cbn [string_all]; rewrite is_digit_char by done; [done|].
  rewrite IH by (apply Z.div_pos; lia). done.
Qed.

Lemma show_uint_digits n : 0 ≤ n → string_all is_digit (show_uint n) = true.
Proof. apply show_aux_digits. Qed.

Lemma split_once_app f sep s t :
  f sep = false → string_all f s = true →
  split_once sep (s +:+ String sep t) = Some (s, t).
Proof.
  intros Hsep. induction s as [|c s IH]; simpl; intros Hs.
  - by rewrite decide_True.
  - apply andb_true_iff in Hs as [Hc Hs]. rewrite decide_False by congruence.
    by rewrite IH.
Qed.

Lemma string_all_impl f g s :
  (∀ c, f c = true → g c = true) → string_all f s = true → string_all g s = true.
Proof.
  intros Hfg. induction s as [|c s IH]; simpl; [done|].
  intros [Hc Hs]%andb_true_iff. by rewrite Hfg, IH.
Qed.

(** ** Reversal, lines and trimming *)

Lemma string_rev_app s t : string_rev (s +:+ t) = string_rev t +:+ string_rev s.
Proof.
  unfold string_rev.
  assert (∀ a b, list_ascii_of_string (a +:+ b)
                 = (list_ascii_of_string a ++ list_ascii_of_string b)%list) as Hl
    by (induction a as [|c a IH]; intros b; [done|]; exact (f_equal _ (IH b))).
  assert (∀ a b, string_of_list_ascii (a ++ b)%list
                 = string_of_list_ascii a +:+ string_of_list_ascii b) as Hs
    by (induction a as [|c a IH]; intros b; [done|]; exact (f_equal _ (IH b))).
  by rewrite Hl, rev_app_distr, Hs.
Qed.

Lemma string_rev_involutive s : string_rev (string_rev s) = s.
Proof.
  unfold string_rev.
  by rewrite list_ascii_of_string_of_list_ascii, rev_involutive, string_of_list_ascii_of_string.
Qed.

Lemma string_rev_cons c s : string_rev (String c s) = string_rev s +:+ String c "".
Proof. change (String c s) with (String c "" +:+ s). by rewrite string_rev_app. Qed.

Lemma string_all_rev f s : string_all f (string_rev s) = string_all f s.
Proof.
  induction s as [|c s IH]; [done|].
  rewrite string_rev_cons, string_all_app, IH. simpl. rewrite andb_true_r. apply andb_comm.
Qed.

Lemma string_app_assoc (s t u : string) : (s +:+ t) +:+ u = s +:+ (t +:+ u).
Proof.
  induction s as [|c s IH]; [done|]. exact (f_equal (String c) IH).
Qed.

Lemma string_app_nil_r (s : string) : s +:+ "" = s.
Proof.
  induction s as [|c s IH]; [done|]. exact (f_equal (String c) IH).
Qed.


Definition not_lf (c : ascii) : bool := negb (bool_decide (c = LF)).

Lemma lines_aux_app cur s t :
  string_all not_lf s = true →
  lines_aux cur (s +:+ String LF t) = (string_rev cur +:+ s) :: lines_aux "" t.
Proof.
  revert cur. induction s as [|c s IH]; intros cur Hs; simpl.
  - by rewrite string_app_nil_r.
  - apply andb_true_iff in Hs as [Hc Hs]. unfold not_lf in Hc.
    apply negb_true_iff, bool_decide_eq_false in Hc. rewrite decide_False by done.
    rewrite IH, string_rev_cons by done. by rewrite string_app_assoc.
Qed.

(** A line followed by its terminator is split off as it is. *)
Lemma lines_cons s t :
  string_all not_lf s = true → lines (s +:+ String LF t) = s :: lines t.
Proof. intros Hs. unfold lines. by rewrite lines_aux_app. Qed.

Definition is_ascii (c : ascii) : bool := code c <? 128.
Definition head_not_ws (s : string) : bool :=
  match s with EmptyString => true | String c _ => negb (ws1 c) end.

Lemma ascii_not_ws23 c d e : is_ascii c = true → ws2 c d = false ∧ ws3 c d e = false.
Proof.
  unfold is_ascii, ws2, ws3. intros Hc%Z.ltb_lt.
  assert ((code c =? 194) = false ∧ (code c =? 225) = false ∧ (code c =? 226) = false ∧
          (code c =? 227) = false) as (-> & -> & -> & ->) by (rewrite !Z.eqb_neq; lia).
  done.
Qed.

Lemma trim_start_id s :
  string_all is_ascii s = true → head_not_ws s = true → trim_start s = s.
Proof.
  destruct s as [|c s]; [done|]. cbn [string_all head_not_ws].
  intros [Hc Hs]%andb_true_iff Hw%negb_true_iff. cbn [trim_start]. rewrite Hw.
  destruct s as [|d s]; [done|]. rewrite (proj1 (ascii_not_ws23 c d d Hc)).
  destruct s as [|e s]; [done|]. by rewrite (proj2 (ascii_not_ws23 c d e Hc)).
Qed.

Lemma trim_rev_id s :
  string_all is_ascii s = true → head_not_ws s = true → trim_rev s = s.
Proof.
  destruct s as [|c s]; [done|]. cbn [string_all head_not_ws].
  intros [Hc Hs]%andb_true_iff Hw%negb_true_iff. cbn [trim_rev]. rewrite Hw.
  destruct s as [|d s]; [done|]. apply andb_true_iff in Hs as [Hd Hs].
  rewrite (proj1 (ascii_not_ws23 d c c Hd)).
  destruct s as [|e s]; [done|]. apply andb_true_iff in Hs as [He _].
  by rewrite (proj2 (ascii_not_ws23 e d c He)).
Qed.

(** [trim] leaves an ASCII string alone whose first and last characters are not
    white space. *)
Lemma trim_id s :
  string_all is_ascii s = true → head_not_ws s = true →
  head_not_ws (string_rev s) = true → trim s = s.
Proof.
  intros Ha Hh Hl. unfold trim. rewrite trim_start_id by done.
  rewrite trim_rev_id by (by rewrite ?string_all_rev). apply string_rev_involutive.
Qed.

Lemma show_uint_head n : 0 ≤ n → ∃ d s, 0 ≤ d < 10 ∧ show_uint n = String (digit_char d) s.
Proof. apply show_aux_head. Qed.

Lemma is_digit_not_ws c : is_digit c = true → ws1 c = false.
Proof.
  unfold is_digit, ws1. intros [H1%Z.leb_le H2%Z.leb_le]%andb_true_iff.
  apply orb_false_iff. rewrite andb_false_iff, !Z.leb_gt, Z.eqb_neq. lia.
Qed.
