(* ===== verification/NetTypes.v ===== *)
(** Addresses of [std::net], the identifiers of [noeio-common/src/host_info.rs],
    and the interface of the third-party [smoltcp::wire::Ipv4Cidr]: a class of
    operations [CidrApi] with its documented laws [CidrLaws], and one concrete
    instance in [CidrModel] that shows the laws can hold. *)

From Stdlib Require Import ZArith Lia.
From Stdlib Require Import Strings.Ascii Strings.String.
From stdpp Require Import base list strings gmap.
From S2P Require Import Prelude Text.

(** ** [std::net] *)

(** An address is its big-endian integer value: [u32] or [u128]. *)
Inductive IpAddr : Type :=
  | IpV4 (a : Z)
  | IpV6 (a : Z).

Inductive SocketAddr : Type :=
  | SockV4 (ip port : Z)
  | SockV6 (ip port flowinfo scope_id : Z).

#[export] Instance IpAddr_eq_dec : EqDecision IpAddr.
Proof. solve_decision. Defined.

#[export] Instance SocketAddr_eq_dec : EqDecision SocketAddr.
Proof. solve_decision. Defined.

#[export] Instance IpAddr_countable : Countable IpAddr.
Proof.
  refine (inj_countable'
    (λ i, match i with IpV4 a => inl a | IpV6 a => inr a end)
    (λ s, match s with inl a => IpV4 a | inr a => IpV6 a end) _).
  by intros [].
Defined.

#[export] Instance SocketAddr_countable : Countable SocketAddr.
Proof.
  refine (inj_countable'
    (λ s, match s with
          | SockV4 a p => inl (a, p)
          | SockV6 a p f i => inr (a, p, f, i) end)
    (λ s, match s with
          | inl (a, p) => SockV4 a p
          | inr (a, p, f, i) => SockV6 a p f i end) _).
  by intros [].
Defined.

(** [SocketAddr::ip], [SocketAddr::port], [SocketAddr::is_ipv4]. *)
Definition sock_ip (s : SocketAddr) : IpAddr :=
  match s with SockV4 a _ => IpV4 a | SockV6 a _ _ _ => IpV6 a end.
Definition sock_port (s : SocketAddr) : Z :=
  match s with SockV4 _ p => p | SockV6 _ p _ _ => p end.
Definition sock_is_ipv4 (s : SocketAddr) : bool :=
  match s with SockV4 _ _ => true | SockV6 _ _ _ _ => false end.

(** [Ipv4Addr::new(a, b, c, d)] and [octets()]. *)
Definition ipv4 (a b c d : Z) : Z := ((a * 256 + b) * 256 + c) * 256 + d.
Definition ipv4_octets (a : Z) : list byte := be_bytes 4 a.

(** [Ipv4Addr::is_loopback] (127.0.0.0/8) and [is_link_local] (169.254.0.0/16). *)
Definition ipv4_is_loopback (a : Z) : bool := a / 2 ^ 24 =? 127.
Definition ipv4_is_link_local (a : Z) : bool := a / 2 ^ 16 =? 169 * 256 + 254.
Definition ipv4_LOCALHOST : Z := ipv4 127 0 0 1.

(** ** Identifiers *)

(** [pub type PeerId = u32] *)
Notation PeerId := Z (only parsing).
(** [pub type NetworkId = [u8; 16]] *)
Notation NetworkId := (list byte) (only parsing).

(** ** [smoltcp::wire::Ipv4Cidr] *)

Class CidrApi : Type := {
  Cidr : Type;
  #[global] Cidr_eq_dec :: EqDecision Cidr;
  #[global] Cidr_countable :: Countable Cidr;
  cidr_new : Z → Z → Cidr;
  cidr_address : Cidr → Z;
  cidr_prefix_len : Cidr → Z;
  cidr_network : Cidr → Cidr;
  cidr_contains_addr : Cidr → Z → bool;
  cidr_contains_subnet : Cidr → Cidr → bool;
  cidr_parse : string → option Cidr;
  cidr_to_string : Cidr → string;
}.

(** The prefix of an address: its [p] leading bits. *)
Definition prefix_bits (p a : Z) : Z := a / 2 ^ (32 - p).

Definition cidr_char (c : ascii) : bool :=
  is_digit c || bool_decide (c = "."%char) || bool_decide (c = "/"%char).

(** What the code relies on: the documented behaviour of the crate. *)
Class CidrLaws {CA : CidrApi} : Prop := {
  cidr_address_u32 : ∀ c, is_uint 32 (cidr_address c);
  cidr_prefix_le_32 : ∀ c, 0 ≤ cidr_prefix_len c ≤ 32;
  cidr_ext : ∀ c d, cidr_address c = cidr_address d →
    cidr_prefix_len c = cidr_prefix_len d → c = d;
  cidr_new_address : ∀ a p, is_uint 32 a → 0 ≤ p ≤ 32 → cidr_address (cidr_new a p) = a;
  cidr_new_prefix : ∀ a p, is_uint 32 a → 0 ≤ p ≤ 32 → cidr_prefix_len (cidr_new a p) = p;
  cidr_network_address : ∀ c, cidr_address (cidr_network c) =
    prefix_bits (cidr_prefix_len c) (cidr_address c) * 2 ^ (32 - cidr_prefix_len c);
  cidr_network_prefix : ∀ c, cidr_prefix_len (cidr_network c) = cidr_prefix_len c;
  cidr_contains_addr_spec : ∀ c a, is_uint 32 a →
    cidr_contains_addr c a = true ↔
    prefix_bits (cidr_prefix_len c) a = prefix_bits (cidr_prefix_len c) (cidr_address c);
  cidr_contains_subnet_spec : ∀ c d,
    cidr_contains_subnet c d = true ↔
    cidr_prefix_len c ≤ cidr_prefix_len d ∧ cidr_contains_addr c (cidr_address d) = true;
  cidr_parse_to_string : ∀ c, cidr_parse (cidr_to_string c) = Some c;
  (** [a.b.c.d/p] ends in a digit and holds digits, dots and the slash *)
  cidr_to_string_chars : ∀ c, string_all cidr_char (cidr_to_string c) = true;
  cidr_to_string_ne : ∀ c, cidr_to_string c ≠ EmptyString;
}.

(** Derived [Ord] of [Ipv4Cidr]: address first, then prefix length. *)
Definition cidr_le {CA : CidrApi} (c d : Cidr) : Prop :=
  cidr_address c < cidr_address d ∨
  (cidr_address c = cidr_address d ∧ cidr_prefix_len c ≤ cidr_prefix_len d).

#[export] Instance cidr_le_dec {CA : CidrApi} : RelDecision cidr_le.
Proof. intros c d. unfold cidr_le. apply _. Defined.

Section laws.
Context {CA : CidrApi} {CL : CidrLaws}.

Lemma cidr_network_idemp c : cidr_network (cidr_network c) = cidr_network c.
Proof.
  pose proof (cidr_prefix_le_32 c).
  apply cidr_ext; rewrite ?cidr_network_prefix; [|done].
  rewrite !cidr_network_address, cidr_network_prefix. unfold prefix_bits.
  by rewrite Z.div_mul by (apply Z.pow_nonzero; lia).
Qed.

Lemma cidr_network_contains c a :
  is_uint 32 a → cidr_contains_addr (cidr_network c) a = cidr_contains_addr c a.
Proof.
  intros Ha. pose proof (cidr_prefix_le_32 c).
  apply eq_bool_prop_intro. rewrite !Is_true_true, !cidr_contains_addr_spec by done.
  rewrite cidr_network_prefix, cidr_network_address. unfold prefix_bits.
  by rewrite Z.div_mul by (apply Z.pow_nonzero; lia).
Qed.

(** A prefix that contains another prefix's bits contains its addresses. *)
Lemma prefix_bits_shorter p q a b :
  0 ≤ p ≤ q → q ≤ 32 → prefix_bits q a = prefix_bits q b →
  prefix_bits p a = prefix_bits p b.
Proof.
  unfold prefix_bits. intros Hp Hq Heq.
  assert (∀ x, x / 2 ^ (32 - p) = x / 2 ^ (32 - q) / 2 ^ (q - p)) as Hdd.
  { intros x. rewrite Z.div_div by (try apply Z.pow_nonzero; try apply Z.pow_pos_nonneg; lia).
    rewrite <-Z.pow_add_r by lia. do 2 f_equal. lia. }
  by rewrite !Hdd, Heq.
Qed.

Lemma cidr_overlap_sym c d a :
  is_uint 32 a → cidr_contains_addr c a = true → cidr_contains_addr d a = true →
  cidr_contains_subnet c d = true ∨ cidr_contains_subnet d c = true.
Proof.
  intros Ha Hc Hd. rewrite !cidr_contains_subnet_spec.
  rewrite cidr_contains_addr_spec in Hc, Hd by done.
  pose proof (cidr_prefix_le_32 c). pose proof (cidr_prefix_le_32 d).
  rewrite !cidr_contains_addr_spec by apply cidr_address_u32.
  destruct (decide (cidr_prefix_len c ≤ cidr_prefix_len d)); [left|right];
    (split; [lia|]).
  - rewrite <-Hc. symmetry.
    eapply (prefix_bits_shorter _ (cidr_prefix_len d)); [lia|lia|done].
  - rewrite <-Hd. symmetry.
    eapply (prefix_bits_shorter _ (cidr_prefix_len c)); [lia|lia|done].
Qed.

#[export] Instance cidr_le_total : Total cidr_le.
Proof. intros c d. unfold cidr_le. lia. Qed.
#[export] Instance cidr_le_trans : Transitive cidr_le.
Proof. intros c d e. unfold cidr_le. lia. Qed.
#[export] Instance cidr_le_antisymm : AntiSymm (=) cidr_le.
Proof. intros c d. unfold cidr_le. intros. apply cidr_ext; lia. Qed.
End laws.
