(* ===== verification/CidrModel.v ===== *)
(** A concrete IPv4 CIDR type that satisfies every law of [CidrLaws]: the
    instance the witnesses compute with. Nothing of the development depends on
    it but the witnesses. *)

From Stdlib Require Import ZArith Lia.
From Stdlib Require Import Strings.Ascii Strings.String Eqdep_dec.
From stdpp Require Import base list strings gmap.
From S2P Require Import Prelude Text NetTypes.

Local Open Scope string_scope.
Local Open Scope Z_scope.

Definition cidr_ok (a p : Z) : bool := (0 <=? a) && (a <? 2 ^ 32) && (0 <=? p) && (p <=? 32).

Record cidr32 : Type := MkCidr {
  c_addr : Z;
  c_len : Z;
  c_ok : cidr_ok c_addr c_len = true;
}.

Lemma cidr_eq c d : c_addr c = c_addr d → c_len c = c_len d → c = d.
Proof.
  destruct c as [a p Hc], d as [a' p' Hd]. simpl. intros -> ->.
  by rewrite (UIP_dec Bool.bool_dec Hc Hd).
Qed.

#[export] Instance cidr_eq_dec : EqDecision cidr32.
Proof.
  intros c d. destruct (decide (c_addr c = c_addr d ∧ c_len c = c_len d)) as [[]|H].
  - left. by apply cidr_eq.
  - right. intros ->. by apply H.
Defined.

(** The canonical [a/p], or [0.0.0.0/0] when it is not one. *)
Definition mk_cidr (a p : Z) : cidr32 :=
  match Bool.bool_dec (cidr_ok a p) true with
  | left H => MkCidr a p H
  | right _ => MkCidr 0 0 eq_refl
  end.

Lemma mk_cidr_eq a p : cidr_ok a p = true → c_addr (mk_cidr a p) = a ∧ c_len (mk_cidr a p) = p.
Proof. unfold mk_cidr. intros H. by destruct (Bool.bool_dec _ _). Qed.

Lemma cidr_ok_true a p : cidr_ok a p = true ↔ is_uint 32 a ∧ 0 ≤ p ≤ 32.
Proof.
  unfold cidr_ok, is_uint. rewrite !andb_true_iff, !Z.leb_le, Z.ltb_lt. naive_solver.
Qed.

#[export] Instance cidr_countable : Countable cidr32.
Proof.
  refine (inj_countable' (λ c, (c_addr c, c_len c)) (λ q, mk_cidr q.1 q.2) _).
  intros c. apply cidr_eq; apply mk_cidr_eq, c_ok.
Defined.

Definition net_addr (c : cidr32) : Z :=
  prefix_bits (c_len c) (c_addr c) * 2 ^ (32 - c_len c).
Definition contains (c : cidr32) (a : Z) : bool :=
  prefix_bits (c_len c) a =? prefix_bits (c_len c) (c_addr c).

Definition DOT : ascii := ".". 
Definition SLASH : ascii := "/".
Definition show_cidr (c : cidr32) : string :=
  let a := c_addr c in
  show_uint (a / 2 ^ 24) +:+ String DOT (
  show_uint (a / 2 ^ 16 mod 256) +:+ String DOT (
  show_uint (a / 2 ^ 8 mod 256) +:+ String DOT (
  show_uint (a mod 256) +:+ String SLASH (show_uint (c_len c))))).
Definition read_cidr (s : string) : option cidr32 :=
  '(o1, s) ← split_once DOT s; '(o2, s) ← split_once DOT s;
  '(o3, s) ← split_once DOT s; '(o4, p) ← split_once SLASH s;
  o1 ← parse_uint 8 o1; o2 ← parse_uint 8 o2;
  o3 ← parse_uint 8 o3; o4 ← parse_uint 8 o4; p ← parse_uint 8 p;
  if p <=? 32 then Some (mk_cidr (ipv4 o1 o2 o3 o4) p) else None.

Lemma read_show_cidr c : read_cidr (show_cidr c) = Some c.
Proof.
  destruct (proj1 (cidr_ok_true _ _) (c_ok c)) as [[Ha1 Ha2] Hp].
  set (a := c_addr c) in *. unfold read_cidr, show_cidr. fold a.
  assert (0 ≤ a / 2 ^ 24 < 256) by (split; [apply Z.div_pos|apply Z.div_lt_upper_bound]; lia).
  pose proof (Z.mod_pos_bound (a / 2 ^ 16) 256 ltac:(lia)).
  pose proof (Z.mod_pos_bound (a / 2 ^ 8) 256 ltac:(lia)).
  pose proof (Z.mod_pos_bound a 256 ltac:(lia)).
  repeat (rewrite (split_once_app is_digit) by
    (done || (apply show_uint_digits; lia)); cbn [mbind option_bind]).
  rewrite !parse_show_uint by (unfold is_uint; lia). cbn [mbind option_bind].
  rewrite (proj2 (Z.leb_le _ _)) by lia. f_equal.
  assert (ipv4 (a / 2 ^ 24) (a / 2 ^ 16 mod 256) (a / 2 ^ 8 mod 256) (a mod 256) = a) as ->.
  { unfold ipv4. clear. Z.div_mod_to_equations. lia. }
  apply cidr_eq; apply mk_cidr_eq, c_ok.
Qed.

Lemma show_cidr_chars c : string_all cidr_char (show_cidr c) = true.
Proof.
  destruct (proj1 (cidr_ok_true _ _) (c_ok c)) as [[Ha1 Ha2] Hp].
  unfold show_cidr. set (a := c_addr c) in *.
  assert (0 ≤ a / 2 ^ 24) by (apply Z.div_pos; lia).
  pose proof (Z.mod_pos_bound (a / 2 ^ 16) 256 ltac:(lia)).
  pose proof (Z.mod_pos_bound (a / 2 ^ 8) 256 ltac:(lia)).
  pose proof (Z.mod_pos_bound a 256 ltac:(lia)).
  assert (∀ n, 0 ≤ n → string_all cidr_char (show_uint n) = true) as Hd.
  { intros n Hn. eapply string_all_impl; [|by apply show_uint_digits].
    intros ch Hch. unfold cidr_char. by rewrite Hch. }
  repeat (rewrite string_all_app; cbn [string_all]). rewrite !Hd by lia. done.
Qed.

Lemma show_cidr_ne c : show_cidr c ≠ EmptyString.
Proof.
  destruct (proj1 (cidr_ok_true _ _) (c_ok c)) as [[Ha1 Ha2] Hp].
  unfold show_cidr. destruct (show_uint_head (c_addr c / 2 ^ 24)) as (d & s & _ & ->); [|done].
  apply Z.div_pos; lia.
Qed.

#[export] Instance cidr_api : CidrApi := {|
  Cidr := cidr32;
  cidr_new := mk_cidr;
  cidr_address := c_addr;
  cidr_prefix_len := c_len;
  cidr_network c := mk_cidr (net_addr c) (c_len c);
  cidr_contains_addr := contains;
  cidr_contains_subnet c d := (c_len c <=? c_len d) && contains c (c_addr d);
  cidr_parse := read_cidr;
  cidr_to_string := show_cidr;
|}.

Lemma net_addr_ok c : cidr_ok (net_addr c) (c_len c) = true.
Proof.
  destruct (proj1 (cidr_ok_true _ _) (c_ok c)) as [[Ha1 Ha2] Hp].
  apply cidr_ok_true. split; [|done]. unfold net_addr, prefix_bits, is_uint.
  assert (0 < 2 ^ (32 - c_len c)) by (apply Z.pow_pos_nonneg; lia).
  pose proof (Z.div_pos (c_addr c) (2 ^ (32 - c_len c)) ltac:(lia) ltac:(lia)).
  pose proof (Z.mul_div_le (c_addr c) (2 ^ (32 - c_len c)) ltac:(lia)). nia.
Qed.

#[export] Instance cidr_laws : CidrLaws.
Proof.
  constructor; simpl.
  - intros c. apply (cidr_ok_true _ (c_len c)), c_ok.
  - intros c. apply (cidr_ok_true (c_addr c)), c_ok.
  - apply cidr_eq.
  - intros a p Ha Hp. by apply mk_cidr_eq, cidr_ok_true.
  - intros a p Ha Hp. by apply mk_cidr_eq, cidr_ok_true.
  - intros c. apply mk_cidr_eq, net_addr_ok.
  - intros c. apply mk_cidr_eq, net_addr_ok.
  - intros c a _. apply Z.eqb_eq.
  - intros c d. by rewrite andb_true_iff, Z.leb_le.
  - apply read_show_cidr.
  - intros c. apply show_cidr_chars.
  - intros c. apply show_cidr_ne.
Qed.
