(* ===== verification/NetText.v ===== *)
(** [Display] and [FromStr] of [std::net]'s addresses, after the standard library's
    parser: IPv4, IPv6 with its compressed and IPv4-mapped forms, and socket
    addresses. The wire formats of [HostCodec] carry addresses as text. *)

From Stdlib Require Import ZArith Lia.
From Stdlib Require Import Strings.Ascii Strings.String.
From stdpp Require Import base list strings.
From S2P Require Import Prelude Text NetTypes.

Local Open Scope string_scope.
Local Open Scope Z_scope.

Definition DOT : ascii := ".".
Definition COLON : ascii := ":".
Definition LBRACK : ascii := "[".
Definition RBRACK : ascii := "]".
Definition PERCENT : ascii := "%".
Definition ZERO : ascii := "0".

(** ** The parser *)

(** [char::to_digit(radix)] for radix 10 and 16. *)
Definition to_digit (radix : Z) (c : ascii) : option Z :=
  let v := code c in
  let d := if (48 <=? v) && (v <=? 57) then v - 48
           else if (97 <=? v) && (v <=? 102) then v - 87
           else if (65 <=? v) && (v <=? 70) then v - 55
           else 99 in
  if d <? radix then Some d else None.

(** The digits at the front, and what follows them. *)
Fixpoint span_digits (radix : Z) (s : string) : list Z * string :=
  match s with
  | EmptyString => ([], s)
  | String c s' =>
      match to_digit radix c with
      | Some d => let '(ds, rest) := span_digits radix s' in (d :: ds, rest)
      | None => ([], s)
      end
  end.

Definition digits_val (radix : Z) (ds : list Z) : Z := foldl (λ acc d, acc * radix + d) 0 ds.

Definition starts_with (c : ascii) (s : string) : bool :=
  match s with String d _ => bool_decide (d = c) | EmptyString => false end.

(** [Parser::read_number] into a [w]-bit integer. *)
Definition read_number (w radix : Z) (max_digits : option nat) (allow_zero_prefix : bool)
    (s : string) : option (Z * string) :=
  let '(ds, rest) := span_digits radix s in
  let too_long := match max_digits with Some m => (m <? length ds)%nat | None => false end in
  if too_long then None
  else if (length ds =? 0)%nat then None
  else if negb allow_zero_prefix && starts_with ZERO s && (1 <? length ds)%nat then None
  else if digits_val radix ds <? 2 ^ w then Some (digits_val radix ds, rest) else None.

Definition read_given_char (c : ascii) (s : string) : option string :=
  match s with String d s' => if decide (d = c) then Some s' else None | EmptyString => None end.

(** [read_separator(sep, index, inner)] *)
Definition read_separator {A} (sep : ascii) (index : nat) (inner : string → option (A * string))
    (s : string) : option (A * string) :=
  match index with
  | O => inner s
  | _ => s ← read_given_char sep s; inner s
  end.

Definition read_octet : string → option (Z * string) := read_number 8 10 (Some 3%nat) false.

Definition read_ipv4 (s : string) : option (Z * string) :=
  '(a, s) ← read_octet s;
  '(b, s) ← read_separator DOT 1 read_octet s;
  '(c, s) ← read_separator DOT 2 read_octet s;
  '(d, s) ← read_separator DOT 3 read_octet s;
  Some (ipv4 a b c d, s).

Definition read_group : string → option (Z * string) := read_number 16 16 (Some 4%nat) true.

(** [read_groups]: from index [i] with [n] slots left; the flag says an embedded
    IPv4 address ended the list. *)
Fixpoint read_groups (n i : nat) (s : string) : list Z * bool * string :=
  match n with
  | O => ([], false, s)
  | S m =>
      let embedded := if (0 <? m)%nat then read_separator COLON i read_ipv4 s else None in
      match embedded with
      | Some (a, rest) => ([a / 2 ^ 16; a mod 2 ^ 16], true, rest)
      | None =>
          match read_separator COLON i read_group s with
          | None => ([], false, s)
          | Some (g, rest) =>
              let '(gs, b, r) := read_groups m (S i) rest in (g :: gs, b, r)
          end
      end
  end.

Definition groups_val (gs : list Z) : Z := foldl (λ acc g, acc * 2 ^ 16 + g) 0 gs.

Definition read_ipv6 (s : string) : option (Z * string) :=
  let '(head, head_ipv4, rest) := read_groups 8 0 s in
  if (length head =? 8)%nat then Some (groups_val head, rest)
  else if head_ipv4 then None
  else
    rest ← read_given_char COLON rest; rest ← read_given_char COLON rest;
    let limit := (8 - (length head + 1))%nat in
    let '(tail, _, rest) := read_groups limit 0 rest in
    Some (groups_val (head ++ replicate (8 - length head - length tail) 0 ++ tail), rest).

Definition read_port (s : string) : option (Z * string) :=
  s ← read_given_char COLON s; read_number 16 10 None true s.
Definition read_scope_id (s : string) : option (Z * string) :=
  s ← read_given_char PERCENT s; read_number 32 10 None true s.

Definition read_socket_addr_v4 (s : string) : option (SocketAddr * string) :=
  '(ip, s) ← read_ipv4 s; '(port, s) ← read_port s; Some (SockV4 ip port, s).

Definition read_socket_addr_v6 (s : string) : option (SocketAddr * string) :=
  s ← read_given_char LBRACK s;
  '(ip, s) ← read_ipv6 s;
  let '(scope_id, s) := match read_scope_id s with Some r => r | None => (0, s) end in
  s ← read_given_char RBRACK s;
  '(port, s) ← read_port s;
  Some (SockV6 ip port 0 scope_id, s).

(** [parse_with]: the whole input must be used. *)
Definition parse_with {A} (inner : string → option (A * string)) (s : string) : option A :=
  match inner s with Some (a, EmptyString) => Some a | _ => None end.

Definition parse_ip (s : string) : option IpAddr :=
  parse_with (λ s, match read_ipv4 s with
                   | Some (a, r) => Some (IpV4 a, r)
                   | None => '(a, r) ← read_ipv6 s; Some (IpV6 a, r)
                   end) s.

Definition parse_socket_addr (s : string) : option SocketAddr :=
  parse_with (λ s, match read_socket_addr_v4 s with
                   | Some r => Some r
                   | None => read_socket_addr_v6 s
                   end) s.

(** ** The printer *)

Definition show_ipv4 (a : Z) : string :=
  show_uint (a / 2 ^ 24) +:+ String DOT (
  show_uint (a / 2 ^ 16 mod 256) +:+ String DOT (
  show_uint (a / 2 ^ 8 mod 256) +:+ String DOT (show_uint (a mod 256)))).

Definition hex_char (d : Z) : ascii :=
  ascii_of_nat (Z.to_nat (if d <? 10 then 48 + d else 87 + d)).

(** [{:x}] of a [u16] *)
Definition hex_digits (g : Z) : list Z :=
  let d k := g / 16 ^ k mod 16 in
  if g <? 16 then [d 0] else if g <? 256 then [d 1; d 0]
  else if g <? 4096 then [d 2; d 1; d 0] else [d 3; d 2; d 1; d 0].
Definition show_hex (g : Z) : string :=
  string_of_list_ascii (map hex_char (hex_digits g)).

Definition segment (a : Z) (i : Z) : Z := a / 2 ^ (16 * (7 - i)) mod 2 ^ 16.
Definition segments (a : Z) : list Z := map (segment a) [0; 1; 2; 3; 4; 5; 6; 7].

(** The first longest run of zero segments: (start, length). *)
Definition span_step (st : nat * (nat * nat) * (nat * nat)) (seg : Z) :
    nat * (nat * nat) * (nat * nat) :=
  let '(i, longest, current) := st in
  if seg =? 0 then
    let current := (if (current.2 =? 0)%nat then i else current.1, S current.2) in
    (S i, if (longest.2 <? current.2)%nat then current else longest, current)
  else (S i, longest, (0%nat, 0%nat)).
Definition longest_zeros (segs : list Z) : nat * nat :=
  (foldl span_step (0%nat, (0%nat, 0%nat), (0%nat, 0%nat)) segs).1.2.

(** [fmt_subslice] *)
Fixpoint show_groups (i : nat) (gs : list Z) : string :=
  match gs with
  | [] => ""
  | g :: gs' =>
      (match i with O => show_hex g | _ => String COLON (show_hex g) end) +:+ show_groups (S i) gs'
  end.

Definition show_ipv6 (a : Z) : string :=
  if a / 2 ^ 32 =? 65535 then "::ffff:" +:+ show_ipv4 (a mod 2 ^ 32)
  else
    let segs := segments a in
    let '(start, len) := longest_zeros segs in
    if (1 <? len)%nat
    then show_groups 0 (take start segs) +:+ "::" +:+ show_groups 0 (drop (start + len) segs)
    else show_groups 0 segs.

Definition show_ip (i : IpAddr) : string :=
  match i with IpV4 a => show_ipv4 a | IpV6 a => show_ipv6 a end.

Definition show_socket_addr (s : SocketAddr) : string :=
  match s with
  | SockV4 ip port => show_ipv4 ip +:+ String COLON (show_uint port)
  | SockV6 ip port _ scope =>
      String LBRACK (show_ipv6 ip +:+
        (if scope =? 0 then "" else String PERCENT (show_uint scope)) +:+
        String RBRACK (String COLON (show_uint port)))
  end.

(** What the textual form preserves: values in range; the flow label of an IPv6
    socket address is not printed. *)
Definition ip_wf (i : IpAddr) : Prop :=
  match i with IpV4 a => is_uint 32 a | IpV6 a => is_uint 128 a end.
Definition sock_wf (s : SocketAddr) : Prop :=
  match s with
  | SockV4 a p => is_uint 32 a ∧ is_uint 16 p
  | SockV6 a p f i => is_uint 128 a ∧ is_uint 16 p ∧ f = 0 ∧ is_uint 32 i
  end.

Example show_v6_1 : show_ipv6 (2 ^ 112 * 8193 + 3512 * 2 ^ 96 + 1) = "2001:db8::1".
Proof. reflexivity. Qed.
Example show_v6_2 : show_ipv6 (65535 * 2 ^ 32 + ipv4 1 2 3 4) = "::ffff:1.2.3.4".
Proof. reflexivity. Qed.
Example parse_v6_1 : parse_ip "::ffff:1.2.3.4" = Some (IpV6 (65535 * 2 ^ 32 + ipv4 1 2 3 4)).
Proof. reflexivity. Qed.
Example parse_v6_2 : parse_socket_addr "[fe80::1%3]:80" = Some (SockV6 (65152 * 2 ^ 112 + 1) 80 0 3).
Proof. reflexivity. Qed.

(** ** Numbers read back *)

Arguments to_digit : simpl never.
Arguments read_number : simpl never.

Lemma to_digit_10 c : to_digit 10 c = digit_val c.
Proof. destruct c as [[] [] [] [] [] [] [] []]; reflexivity. Qed.

Definition not_digit_head (radix : Z) (s : string) : Prop :=
  match s with EmptyString => True | String c _ => to_digit radix c = None end.

Lemma span_stop radix s : not_digit_head radix s → span_digits radix s = ([], s).
Proof. destruct s as [|c s]; [done|]. cbn. by intros ->. Qed.

Lemma span_decimal w acc s rest v :
  parse_digits w acc s = Some v → not_digit_head 10 rest →
  ∃ ds, span_digits 10 (s +:+ rest) = (ds, rest) ∧
    foldl (λ a d, a * 10 + d) acc ds = v ∧ length ds = String.length s.
Proof.
  revert acc. induction s as [|c s IH]; intros acc Hp Hr.
  - injection Hp as <-. exists []. by rewrite span_stop.
  - cbn [parse_digits] in Hp. destruct (digit_val c) as [d|] eqn:Hc; [|done].
    cbn [mbind option_bind] in Hp. destruct (acc * 10 + d <? 2 ^ w); [|done].
    destruct (IH _ Hp Hr) as (ds & Hs & Hv & Hl). exists (d :: ds).
    change ((String c s +:+ rest)) with (String c (s +:+ rest)).
    cbn [span_digits]. rewrite to_digit_10, Hc, Hs. cbn. by rewrite Hl.
Qed.

Lemma starts_with_app c s t : s ≠ "" → starts_with c (s +:+ t) = starts_with c s.
Proof. by destruct s. Qed.

Lemma show_uint_ne n : 0 ≤ n → show_uint n ≠ "".
Proof. intros Hn. destruct (show_uint_head n Hn) as (d & s & _ & ->). done. Qed.

Lemma parse_digits_show_uint w n :
  is_uint w n → parse_digits w 0 (show_uint n) = Some n.
Proof.
  intros [Hn Hw]. unfold show_uint. apply parse_digits_show; [done..|].
  rewrite Nat2Z.inj_succ, Z2Nat.id by apply Z.log2_nonneg.
  destruct (decide (n = 0)) as [->|]; [by vm_compute|]. apply Z.log2_spec. lia.
Qed.

Lemma read_number_show w m z n rest :
  0 ≤ w → is_uint w n → not_digit_head 10 rest →
  match m with Some k => (String.length (show_uint n) ≤ k)%nat | None => True end →
  (z = true ∨ (String.length (show_uint n) ≤ 1)%nat ∨ starts_with ZERO (show_uint n) = false) →
  read_number w 10 m z (show_uint n +:+ rest) = Some (n, rest).
Proof.
  intros Hw Hn Hr Hm Hz. destruct (span_decimal w 0 (show_uint n) rest n) as (ds & Hs & Hv & Hl);
    [by apply parse_digits_show_uint|done|].
  assert (show_uint n ≠ "") as Hne by (apply show_uint_ne, Hn).
  unfold read_number. rewrite Hs. unfold digits_val. rewrite Hv, Hl, starts_with_app by done.
  assert (String.length (show_uint n) ≠ 0%nat) as Hlen by (by destruct (show_uint n)).
  rewrite (proj2 (Z.ltb_lt _ _)) by apply Hn. rewrite (proj2 (Nat.eqb_neq _ _)) by done.
  assert (match m with Some k => (k <? String.length (show_uint n))%nat | None => false end = false)
    as -> by (destruct m; [by apply Nat.ltb_ge|done]).
  destruct Hz as [->|[Hz| ->]]; [done| |by rewrite andb_false_r].
  rewrite (proj2 (Nat.ltb_ge 1 _)) by done. by rewrite andb_false_r.
Qed.

(** An octet's text has at most three digits and no leading zero. *)
Definition octet_text_ok (n : Z) : bool :=
  (String.length (show_uint n) <=? 3)%nat &&
  ((String.length (show_uint n) <=? 1)%nat || negb (starts_with ZERO (show_uint n))).

Lemma octet_text n : is_uint 8 n → octet_text_ok n = true.
Proof.
  intros [Hn Hlt].
  assert (forallb (λ k, octet_text_ok (Z.of_nat k)) (List.seq 0 256) = true) as Hall
    by (vm_compute; reflexivity).
  rewrite forallb_forall in Hall. specialize (Hall (Z.to_nat n)).
  rewrite Z2Nat.id in Hall by done. apply Hall, in_seq. lia.
Qed.

Lemma read_octet_show n rest :
  is_uint 8 n → not_digit_head 10 rest → read_octet (show_uint n +:+ rest) = Some (n, rest).
Proof.
  intros Hn Hr. pose proof (octet_text n Hn) as Ho. unfold octet_text_ok in Ho.
  apply andb_true_iff in Ho as [H3 H1]. apply Nat.leb_le in H3.
  apply read_number_show; [lia|done|done|done|]. right.
  apply orb_true_iff in H1 as [H1|H1]; [left; by apply Nat.leb_le|right; by apply negb_true_iff].
Qed.

Lemma read_ipv4_show a rest :
  is_uint 32 a → not_digit_head 10 rest → read_ipv4 (show_ipv4 a +:+ rest) = Some (a, rest).
Proof.
  intros [Ha1 Ha2] Hr. unfold show_ipv4.
  assert (0 ≤ a / 2 ^ 24 < 256) by (split; [apply Z.div_pos|apply Z.div_lt_upper_bound]; lia).
  pose proof (Z.mod_pos_bound (a / 2 ^ 16) 256 ltac:(lia)).
  pose proof (Z.mod_pos_bound (a / 2 ^ 8) 256 ltac:(lia)).
  pose proof (Z.mod_pos_bound a 256 ltac:(lia)).
  unfold read_ipv4. rewrite string_app_assoc, read_octet_show by (unfold is_uint; done || lia).
  cbn [mbind option_bind read_separator]. repeat
    (change (String DOT ?x +:+ ?y) with (String DOT (x +:+ y));
     cbn [read_given_char]; rewrite decide_True by done; cbn [mbind option_bind];
     rewrite ?string_app_assoc, read_octet_show by (unfold is_uint; done || lia);
     cbn [mbind option_bind]).
  do 2 f_equal. unfold ipv4. clear. Z.div_mod_to_equations. lia.
Qed.

Lemma read_octet_rest s v r : read_octet s = Some (v, r) → r = (span_digits 10 s).2.
Proof.
  unfold read_octet, read_number. destruct (span_digits 10 s) as [ds rest].
  repeat (case_match; try done). by intros [= _ <-].
Qed.

(** No dot after the first number: not an IPv4 address. *)
Lemma read_ipv4_no_dot s : starts_with DOT (span_digits 10 s).2 = false → read_ipv4 s = None.
Proof.
  intros Hd. unfold read_ipv4. destruct (read_octet s) as [[v r]|] eqn:Ho; [|done].
  apply read_octet_rest in Ho as ->. cbn [mbind option_bind read_separator].
  destruct (span_digits 10 s).2 as [|c r]; [done|]. cbn [starts_with read_given_char] in *.
  apply bool_decide_eq_false in Hd. by rewrite decide_False.
Qed.

(** ** IPv6 read back *)

Definition is_hex (c : ascii) : bool := match to_digit 16 c with Some _ => true | None => false end.

Lemma hex_char_digit d : 0 ≤ d < 16 → to_digit 16 (hex_char d) = Some d.
Proof.
  intros Hd. assert (d ∈ [0;1;2;3;4;5;6;7;8;9;10;11;12;13;14;15]) as Hin.
  { rewrite !elem_of_cons. lia. }
  repeat (apply elem_of_cons in Hin as [->|Hin]; [reflexivity|]). by apply elem_of_nil in Hin.
Qed.

Lemma span_hex ds rest :
  Forall (λ d, 0 ≤ d < 16) ds → not_digit_head 16 rest →
  span_digits 16 (string_of_list_ascii (map hex_char ds) +:+ rest) = (ds, rest).
Proof.
  intros Hds Hr. induction Hds as [|d ds Hd _ IH]; [by apply span_stop|].
  cbn [map string_of_list_ascii].
  change (String ?c ?x +:+ rest) with (String c (x +:+ rest)). cbn [span_digits].
  by rewrite hex_char_digit, IH.
Qed.

Lemma hex_digits_spec g :
  is_uint 16 g → Forall (λ d, 0 ≤ d < 16) (hex_digits g) ∧
    digits_val 16 (hex_digits g) = g ∧ (1 ≤ length (hex_digits g) ≤ 4)%nat.
Proof.
  intros [H0 H1]. unfold hex_digits, digits_val.
  change (16 ^ 0) with 1. change (16 ^ 1) with 16. change (16 ^ 2) with 256.
  change (16 ^ 3) with 4096.
  assert (∀ x, 0 ≤ x mod 16 < 16) as Hm by (intros; apply Z.mod_pos_bound; lia).
  destruct (Z.ltb_spec g 16); [|destruct (Z.ltb_spec g 256); [|destruct (Z.ltb_spec g 4096)]];
    (split_and!; [repeat constructor; apply Hm| |cbn; lia|cbn; lia]); cbn [foldl];
    clear Hm; Z.div_mod_to_equations; lia.
Qed.

Lemma read_group_show g rest :
  is_uint 16 g → not_digit_head 16 rest → read_group (show_hex g +:+ rest) = Some (g, rest).
Proof.
  intros Hg Hr. destruct (hex_digits_spec g Hg) as (Hds & Hv & Hl1 & Hl4).
  unfold read_group, read_number, show_hex. rewrite span_hex, Hv by done.
  rewrite (proj2 (Nat.ltb_ge _ _)), (proj2 (Nat.eqb_neq _ _)) by lia. cbn [negb andb].
  by rewrite (proj2 (Z.ltb_lt _ _)) by apply Hg.
Qed.

Lemma hex_not_dot c : is_hex c = true → bool_decide (c = DOT) = false.
Proof. intros Hc. apply bool_decide_eq_false. intros ->. discriminate Hc. Qed.

Lemma show_hex_chars g : is_uint 16 g → string_all is_hex (show_hex g) = true.
Proof.
  intros Hg. destruct (hex_digits_spec g Hg) as (Hds & _). unfold show_hex.
  induction Hds as [|d ds Hd _ IH]; [done|]. cbn [map string_of_list_ascii string_all].
  unfold is_hex at 1. by rewrite hex_char_digit.
Qed.

Lemma no_dot_hex h rest :
  string_all is_hex h = true → starts_with DOT (span_digits 10 rest).2 = false →
  starts_with DOT (span_digits 10 (h +:+ rest)).2 = false.
Proof.
  intros Hh Hr. induction h as [|c h IH]; [done|].
  apply andb_true_iff in Hh as [Hc Hh]. change ((String c h +:+ rest)) with (String c (h +:+ rest)).
  cbn [span_digits]. destruct (to_digit 10 c).
  - specialize (IH Hh). by destruct (span_digits 10 (h +:+ rest)).
  - cbn. by apply hex_not_dot.
Qed.

(** What may follow a list of groups: the end, a bracket, a zone or the [::] gap. *)
Definition stops (s : string) : Prop :=
  match s with
  | EmptyString => True
  | String c s' => c = RBRACK ∨ c = PERCENT ∨ (c = COLON ∧ starts_with COLON s' = true)
  end.

Definition inner_fails (s : string) : Prop := read_ipv4 s = None ∧ read_group s = None.

Lemma inner_fails_head c s :
  c = RBRACK ∨ c = PERCENT ∨ c = COLON → inner_fails (String c s).
Proof. by intros [->|[->| ->]]. Qed.

Lemma stops_fail i s : stops s →
  read_separator COLON i read_ipv4 s = None ∧ read_separator COLON i read_group s = None.
Proof.
  destruct s as [|c s]; [by destruct i|]. intros Hs. destruct i as [|i]; cbn [read_separator].
  - apply inner_fails_head. destruct Hs as [?|[?|[? _]]]; auto.
  - cbn [read_given_char]. case_decide as Hc; [|done]. subst.
    destruct Hs as [|[|[_ Hs]]]; [done|done|].
    destruct s as [|d s]; [done|]. cbn in Hs. apply bool_decide_eq_true in Hs as ->.
    apply inner_fails_head. auto.
Qed.

Lemma stops_head s : stops s → not_digit_head 16 s ∧ not_digit_head 10 s ∧
  starts_with DOT (span_digits 10 s).2 = false.
Proof. destruct s as [|c s]; [done|]. by intros [->|[->|[-> _]]]. Qed.

Lemma groups_head i gs rest :
  (0 < i)%nat → stops rest →
  not_digit_head 16 (show_groups i gs +:+ rest) ∧
  starts_with DOT (span_digits 10 (show_groups i gs +:+ rest)).2 = false.
Proof.
  intros Hi Hr. destruct gs as [|g gs].
  - by destruct (stops_head rest Hr) as (? & ? & ?).
  - cbn [show_groups]. by destruct i; [lia|].
Qed.

Lemma read_groups_stop n i rest : stops rest → read_groups n i rest = ([], false, rest).
Proof.
  intros Hr. destruct n as [|n]; [done|]. cbn [read_groups].
  destruct (stops_fail i rest Hr) as [-> ->]. by destruct (0 <? n)%nat.
Qed.

Lemma read_separator_skip {A} i (inner : string → option (A * string)) h rest :
  read_separator COLON i inner
    ((match i with O => h | _ => String COLON h end) +:+ rest) = inner (h +:+ rest).
Proof. by destruct i. Qed.

Lemma read_groups_show n i gs rest :
  Forall (is_uint 16) gs → (length gs ≤ n)%nat → stops rest →
  read_groups n i (show_groups i gs +:+ rest) = (gs, false, rest).
Proof.
  revert n i. induction gs as [|g gs IH]; intros n i Hgs Hn Hr; [by apply read_groups_stop|].
  apply Forall_cons in Hgs as [Hg Hgs]. destruct n as [|n]; [simpl in Hn; lia|].
  cbn [show_groups read_groups]. rewrite string_app_assoc, !read_separator_skip.
  destruct (groups_head (S i) gs rest ltac:(lia) Hr) as [Hd Hdot].
  rewrite read_ipv4_no_dot by (apply no_dot_hex; [by apply show_hex_chars|done]).
  rewrite read_group_show by done. rewrite IH by (done || (simpl in Hn; lia)).
  by destruct (0 <? n)%nat.
Qed.

Lemma read_colons (s : string) : ("::" +:+ s) = String COLON (String COLON s).
Proof. reflexivity. Qed.

(** ** The zero run *)

Lemma replicate_take_drop {A} (l : list A) s n x :
  (s + n ≤ length l)%nat → (∀ k, (s ≤ k < s + n)%nat → l !! k = Some x) →
  l = (take s l ++ replicate n x ++ drop (s + n) l)%list.
Proof.
  intros Hlen Hall. rewrite <-(take_drop s l) at 1. f_equal.
  rewrite <-(take_drop n (drop s l)), drop_drop. f_equal.
  apply list_eq. intros k. destruct (decide (k < n)%nat).
  - rewrite lookup_take_lt, lookup_drop by lia. rewrite Hall by lia.
    by rewrite lookup_replicate_2.
  - rewrite lookup_take_ge by lia. symmetry. apply lookup_ge_None_2. rewrite length_replicate. lia.
Qed.

Definition zero_run (l : list Z) (r : nat * nat) : Prop :=
  (0 < r.2)%nat → (r.1 + r.2 ≤ length l)%nat ∧
    ∀ k, (r.1 ≤ k < r.1 + r.2)%nat → l !! k = Some 0.

Lemma zero_run_snoc l r seg : zero_run l r → zero_run (l ++ [seg]) r.
Proof.
  intros Hr Hp. destruct (Hr Hp) as [Hl Hk]. rewrite length_app. split; [lia|].
  intros k Hb. rewrite lookup_app_l by lia. by apply Hk.
Qed.

Lemma span_fold l :
  let '(i, longest, current) := foldl span_step (0%nat, (0%nat, 0%nat), (0%nat, 0%nat)) l in
  i = length l ∧ zero_run l longest ∧ zero_run l current ∧
  (0 < current.2 → current.1 + current.2 = length l)%nat.
Proof.
  induction l as [|seg l IH] using rev_ind; [split_and!; unfold zero_run; simpl; lia|].
  rewrite foldl_app. cbn [foldl]. destruct (foldl span_step _ l) as [[i longest] current].
  destruct IH as (-> & Hl & Hc & Hce). unfold span_step. rewrite length_app. cbn [length].
  destruct (Z.eqb_spec seg 0) as [->|Hne].
  - set (cur := (if (current.2 =? 0)%nat then length l else current.1, S current.2)).
    assert (zero_run (l ++ [0]) cur ∧ (cur.1 + cur.2 = length l + 1)%nat) as [Hcur Hcl].
    { unfold cur, zero_run. cbn [fst snd]. destruct (Nat.eqb_spec current.2 0) as [Hz|Hz].
      - rewrite Hz. split; [|lia]. intros _. rewrite length_app. cbn. split; [lia|].
        intros k Hk. assert (k = length l) as -> by lia. by rewrite lookup_app_r, Nat.sub_diag by lia.
      - destruct (Hc ltac:(lia)) as [_ Hk]. specialize (Hce ltac:(lia)). split; [|lia].
        intros _. rewrite length_app. cbn. split; [lia|]. intros k Hb.
        destruct (decide (k < length l)%nat); [rewrite lookup_app_l by lia; apply Hk; lia|].
        assert (k = length l) as -> by lia. by rewrite lookup_app_r, Nat.sub_diag by lia. }
    split_and!; [lia| |done|lia]. destruct (longest.2 <? cur.2)%nat; [done|by apply zero_run_snoc].
  - split_and!; [lia|by apply zero_run_snoc|unfold zero_run; simpl; lia|simpl; lia].
Qed.

Lemma longest_zeros_spec l s n :
  longest_zeros l = (s, n) → (1 < n)%nat →
  (s + n ≤ length l)%nat ∧ l = (take s l ++ replicate n 0 ++ drop (s + n) l)%list.
Proof.
  unfold longest_zeros. pose proof (span_fold l) as H.
  destruct (foldl span_step _ l) as [[i longest] current]. destruct H as (_ & Hl & _).
  cbn [fst snd]. intros -> Hn. destruct (Hl ltac:(cbn; lia)) as [Hlen Hk]. cbn [fst snd] in *.
  split; [done|]. by apply replicate_take_drop.
Qed.

(** ** Segments *)

Lemma segment_uint a i : is_uint 16 (segment a i).
Proof. apply Z.mod_pos_bound. lia. Qed.

Lemma groups_val_segments a : is_uint 128 a → groups_val (segments a) = a.
Proof.
  intros [Ha1 Ha2]. unfold groups_val, segments, segment. cbn [map foldl].
  assert (∀ k, 0 ≤ k → a / 2 ^ (16 * (k + 1)) * 2 ^ 16 + a / 2 ^ (16 * k) mod 2 ^ 16
                       = a / 2 ^ (16 * k)) as Hstep.
  { intros k Hk. replace (16 * (k + 1)) with (16 * k + 16) by lia.
    rewrite Z.pow_add_r, <-Z.div_div by (try apply Z.pow_nonzero; lia).
    pose proof (Z.div_mod (a / 2 ^ (16 * k)) (2 ^ 16) ltac:(lia)). lia. }
  assert (a / 2 ^ (16 * (7 + 1)) = 0) as H8 by (apply Z.div_small; lia).
  pose proof (Hstep 7 ltac:(lia)) as H7. rewrite H8 in H7.
  rewrite <-(Z.div_1_r a) at 9. change 1 with (2 ^ (16 * 0)).
  rewrite <-(Hstep 0), <-(Hstep (0 + 1)), <-(Hstep (0 + 1 + 1)), <-(Hstep (0 + 1 + 1 + 1)),
    <-(Hstep (0 + 1 + 1 + 1 + 1)), <-(Hstep (0 + 1 + 1 + 1 + 1 + 1)),
    <-(Hstep (0 + 1 + 1 + 1 + 1 + 1 + 1)) by lia.
  change (0 + 1 + 1 + 1 + 1 + 1 + 1 + 1) with 7. rewrite <-H7. reflexivity.
Qed.

Lemma segments_uint a : Forall (is_uint 16) (segments a).
Proof. repeat constructor; apply segment_uint. Qed.

(** ** Round trips *)

Definition ends (s : string) : Prop :=
  match s with EmptyString => True | String c _ => c = RBRACK ∨ c = PERCENT end.

Lemma ends_stops s : ends s → stops s.
Proof. destruct s as [|c s]; [done|]. cbn. naive_solver. Qed.

Lemma read_gap s : read_groups 8 0 ("::" +:+ s) = ([], false, "::" +:+ s).
Proof. apply read_groups_stop. by right; right. Qed.

Lemma read_char_cons c s : read_given_char c (String c s) = Some s.
Proof. cbn. by rewrite decide_True. Qed.

Lemma read_groups_S m i s :
  read_groups (S m) i s =
    match (if (0 <? m)%nat then read_separator COLON i read_ipv4 s else None) with
    | Some (a, rest) => ([a / 2 ^ 16; a mod 2 ^ 16], true, rest)
    | None =>
        match read_separator COLON i read_group s with
        | None => ([], false, s)
        | Some (g, rest) => let '(gs, b, r) := read_groups m (S i) rest in (g :: gs, b, r)
        end
    end.
Proof. reflexivity. Qed.

Lemma read_ipv6_mapped v rest :
  is_uint 32 v → ends rest →
  read_ipv6 ("::ffff:" +:+ show_ipv4 v +:+ rest) = Some (65535 * 2 ^ 32 + v, rest).
Proof.
  intros Hv Hr. unfold read_ipv6.
  change ("::ffff:" +:+ show_ipv4 v +:+ rest) with ("::" +:+ ("ffff:" +:+ show_ipv4 v +:+ rest)).
  rewrite read_gap, read_colons. cbn [length Nat.eqb].
  rewrite read_char_cons. cbn [mbind option_bind]. rewrite read_char_cons. cbn [mbind option_bind].
  change (8 - (0 + 1))%nat with 7%nat.
  change ("ffff:" +:+ show_ipv4 v +:+ rest) with
    (show_hex 65535 +:+ String COLON (show_ipv4 v +:+ rest)).
  rewrite read_groups_S. cbn [Nat.ltb Nat.leb read_separator].
  rewrite read_ipv4_no_dot by reflexivity.
  rewrite read_group_show by (done || (split; [discriminate|reflexivity])).
  cbv beta iota. rewrite read_groups_S. cbn [Nat.ltb Nat.leb read_separator read_given_char].
  rewrite decide_True by done. cbn [mbind option_bind].
  rewrite read_ipv4_show; [|done|destruct (stops_head rest (ends_stops _ Hr)) as (_ & ? & _); done].
  cbn [length replicate Nat.sub app groups_val foldl]. do 2 f_equal.
  unfold groups_val. cbn [foldl]. destruct Hv. Z.div_mod_to_equations. lia.
Qed.

Lemma read_ipv6_show a rest :
  is_uint 128 a → ends rest → read_ipv6 (show_ipv6 a +:+ rest) = Some (a, rest).
Proof.
  intros Ha Hr. unfold show_ipv6.
  destruct (Z.eqb_spec (a / 2 ^ 32) 65535) as [Hm|_].
  { rewrite string_app_assoc, read_ipv6_mapped; [|apply Z.mod_pos_bound; lia|done].
    do 2 f_equal. rewrite <-Hm. pose proof (Z.div_mod a (2 ^ 32) ltac:(lia)). lia. }
  pose proof (segments_uint a) as Hsegs. pose proof (groups_val_segments a Ha) as Hval.
  assert (length (segments a) = 8%nat) as Hlen by done.
  destruct (longest_zeros (segments a)) as [start len] eqn:Hz.
  destruct (Nat.ltb_spec 1 len) as [Hgt|_].
  - destruct (longest_zeros_spec _ _ _ Hz Hgt) as [Hle Heq].
    set (pre := take start (segments a)) in *. set (post := drop (start + len) (segments a)) in *.
    assert (length pre = start) as Hpre by (unfold pre; rewrite length_take; lia).
    assert (length post = 8 - (start + len))%nat as Hpost by (unfold post; rewrite length_drop; lia).
    assert (Forall (is_uint 16) pre) as Hfpre by (by apply Forall_take).
    assert (Forall (is_uint 16) post) as Hfpost by (by apply Forall_drop).
    unfold read_ipv6. rewrite string_app_assoc.
    rewrite read_groups_show by (done || lia || by right; right).
    rewrite Hpre, (proj2 (Nat.eqb_neq _ _)) by lia. rewrite string_app_assoc, read_colons.
    rewrite read_char_cons. cbn [mbind option_bind]. rewrite read_char_cons. cbn [mbind option_bind].
    rewrite read_groups_show by (done || lia || by apply ends_stops).
    do 2 f_equal. rewrite Hpost. replace (8 - start - (8 - (start + len)))%nat with len by lia.
    by rewrite <-Heq.
  - unfold read_ipv6. rewrite read_groups_show by (done || lia || by apply ends_stops).
    rewrite Hlen. cbn [Nat.eqb]. by rewrite Hval.
Qed.

Lemma ipv6_not_ipv4 a rest : is_uint 128 a → ends rest → read_ipv4 (show_ipv6 a +:+ rest) = None.
Proof.
  intros Ha Hr. apply read_ipv4_no_dot. unfold show_ipv6.
  destruct (_ =? _); [reflexivity|]. destruct (longest_zeros _) as [start len].
  pose proof (segments_uint a) as Hs.
  assert (∀ gs r, Forall (is_uint 16) gs → stops r →
    starts_with DOT (span_digits 10 (show_groups 0 gs +:+ r)).2 = false) as Hg.
  { intros gs r Hgs Hst. destruct gs as [|g gs]; [by apply stops_head|].
    apply Forall_cons in Hgs as [Hg Hgs]. cbn [show_groups]. rewrite string_app_assoc.
    apply no_dot_hex; [by apply show_hex_chars|]. by apply groups_head; [lia|]. }
  destruct (_ <? _)%nat.
  - rewrite string_app_assoc. apply Hg; [by apply Forall_take|by right; right].
  - apply Hg; [done|by apply ends_stops].
Qed.

Lemma parse_show_ip i : ip_wf i → parse_ip (show_ip i) = Some i.
Proof.
  unfold parse_ip, parse_with, ip_wf. destruct i as [a|a]; intros Ha; cbn [show_ip];
    rewrite <-(string_app_nil_r (_ a)).
  - by rewrite read_ipv4_show.
  - by rewrite ipv6_not_ipv4, read_ipv6_show.
Qed.

Lemma read_port_show p : is_uint 16 p → read_port (String COLON (show_uint p)) = Some (p, "").
Proof.
  intros Hp. unfold read_port. cbn [read_given_char]. rewrite decide_True by done.
  cbn [mbind option_bind]. rewrite <-(string_app_nil_r (show_uint p)).
  by apply read_number_show; [lia|done|done|done|left].
Qed.

Lemma parse_show_sock s : sock_wf s → parse_socket_addr (show_socket_addr s) = Some s.
Proof.
  unfold parse_socket_addr, parse_with. destruct s as [a p|a p f i]; cbn [sock_wf show_socket_addr].
  - intros [Ha Hp]. unfold read_socket_addr_v4. rewrite read_ipv4_show by done.
    cbn [mbind option_bind]. by rewrite read_port_show.
  - intros (Ha & Hp & -> & Hi). unfold read_socket_addr_v4.
    rewrite read_ipv4_no_dot by reflexivity. cbn [mbind option_bind].
    unfold read_socket_addr_v6. cbn [read_given_char]. rewrite decide_True by done.
    cbn [mbind option_bind].
    rewrite read_ipv6_show; [|done|by destruct (i =? 0); [left|right]]. cbn [mbind option_bind].
    destruct (Z.eqb_spec i 0) as [->|Hne].
    + change ("" +:+ ?x) with x.
      change (read_scope_id (String RBRACK ?x)) with (@None (Z * string)). cbv beta iota.
      rewrite read_char_cons. cbn [mbind option_bind]. by rewrite read_port_show.
    + unfold read_scope_id. change ((String PERCENT ?x) +:+ ?y) with (String PERCENT (x +:+ y)).
      cbn [read_given_char]. rewrite decide_True by done. cbn [mbind option_bind].
      rewrite read_number_show; [|lia|done|done|done|by left].
      cbn [read_given_char]. rewrite decide_True by done. cbn [mbind option_bind].
      by rewrite read_port_show.
Qed.

(** No printed address holds a separator of the formats above it. *)
Definition addr_char (c : ascii) : bool :=
  is_hex c || bool_decide (c = DOT) || bool_decide (c = COLON) || bool_decide (c = LBRACK)
  || bool_decide (c = RBRACK) || bool_decide (c = PERCENT).

Lemma digits_addr s : string_all is_digit s = true → string_all addr_char s = true.
Proof.
  apply string_all_impl. intros c Hc. unfold addr_char, is_hex.
  destruct c as [[] [] [] [] [] [] [] []]; vm_compute in Hc |- *; done.
Qed.

Lemma show_ipv4_chars a : is_uint 32 a → string_all addr_char (show_ipv4 a) = true.
Proof.
  intros [Ha1 Ha2]. unfold show_ipv4.
  assert (0 ≤ a / 2 ^ 24) by (apply Z.div_pos; lia).
  pose proof (Z.mod_pos_bound (a / 2 ^ 16) 256 ltac:(lia)).
  pose proof (Z.mod_pos_bound (a / 2 ^ 8) 256 ltac:(lia)).
  pose proof (Z.mod_pos_bound a 256 ltac:(lia)).
  repeat (rewrite string_all_app; cbn [string_all]).
  by rewrite !digits_addr by (apply show_uint_digits; lia).
Qed.

Lemma show_groups_chars i gs :
  Forall (is_uint 16) gs → string_all addr_char (show_groups i gs) = true.
Proof.
  intros Hgs. revert i. induction Hgs as [|g gs Hg _ IH]; intros i; [done|].
  cbn [show_groups]. rewrite string_all_app, IH, andb_true_r.
  assert (string_all addr_char (show_hex g) = true) as Hh.
  { eapply string_all_impl; [|by apply show_hex_chars]. intros c Hc. unfold addr_char. by rewrite Hc. }
  by destruct i.
Qed.

Lemma show_ipv6_chars a : string_all addr_char (show_ipv6 a) = true.
Proof.
  unfold show_ipv6. destruct (_ =? _).
  - rewrite string_all_app, show_ipv4_chars; [done|]. apply Z.mod_pos_bound. lia.
  - destruct (longest_zeros _) as [start len]. pose proof (segments_uint a).
    destruct (_ <? _)%nat; rewrite ?string_all_app, !show_groups_chars by
      (done || by apply Forall_take || by apply Forall_drop); done.
Qed.

Lemma show_sock_chars s : sock_wf s → string_all addr_char (show_socket_addr s) = true.
Proof.
  destruct s as [a p|a p f i]; cbn [sock_wf show_socket_addr].
  - intros [Ha [Hp _]]. rewrite string_all_app. cbn [string_all].
    rewrite show_ipv4_chars by done. by rewrite digits_addr by (by apply show_uint_digits).
  - intros (Ha & [Hp _] & _ & [Hi _]). cbn [string_all].
    repeat (rewrite string_all_app; cbn [string_all]). rewrite show_ipv6_chars.
    rewrite (digits_addr (show_uint p)) by (by apply show_uint_digits).
    destruct (i =? 0); cbn [string_all]; [done|].
    by rewrite digits_addr by (by apply show_uint_digits).
Qed.

Lemma show_sock_ne s : sock_wf s → show_socket_addr s ≠ "".
Proof.
  destruct s as [a p|a p f i]; [|done]. intros [[Ha _] _]. cbn [show_socket_addr]. unfold show_ipv4.
  destruct (show_uint_head (a / 2 ^ 24)) as (d & t & _ & ->); [apply Z.div_pos; lia|done].
Qed.
