(* ===== verification/HostInfo.v ===== *)
(** [noeio-common/src/host_info.rs]: the identities peers and hosts report, their
    constructors and builders. Their wire forms are in [HostCodec]. *)

From Stdlib Require Import ZArith Lia.
From Stdlib Require Import Strings.Byte Strings.Ascii Strings.String.
From stdpp Require Import base list strings.
From S2P Require Import Prelude Text NetTypes.

Local Open Scope string_scope.
Local Open Scope Z_scope.

(** [std::io::Error] as far as the program tells errors apart: the kind and the
    raw OS error. *)
Inductive ErrorKind : Type :=
  | NotFound | AlreadyExists | InvalidInput | InvalidData | Interrupted | PermissionDenied | UnexpectedEof
  | Unsupported | AddrInUse | AddrNotAvailable | TimedOut | BrokenPipe | Other_kind.

#[export] Instance ErrorKind_eq_dec : EqDecision ErrorKind.
Proof. solve_decision. Defined.

Record IoError : Type := MkIoError {
  raw_os_error : option Z;
  io_kind : ErrorKind;
  io_message : string;
}.

#[export] Instance IoError_eq_dec : EqDecision IoError.
Proof. solve_decision. Defined.

(** [std::io::Error::new(kind, message)] *)
Definition io_error (k : ErrorKind) (m : string) : IoError := MkIoError None k m.
Definition invalid_data (m : string) : IoError := io_error InvalidData m.

(** ** [NatType] *)

Inductive NatType : Type := Symmetric | Other.

#[export] Instance NatType_eq_dec : EqDecision NatType.
Proof. solve_decision. Defined.

Definition nat_type_default : NatType := Other.

Definition nat_type_to_u8 (n : NatType) : Z :=
  match n with Symmetric => 0 | Other => 1 end.

Definition nat_type_try_from (v : Z) : result NatType IoError :=
  if v =? 0 then Ok Symmetric
  else if v =? 1 then Ok Other
  else Err (invalid_data "invalid nat type").

(** [u8::try_from(value)] first: the wire field is a [u32]. *)
Definition nat_type_from_proto (value : Z) : result NatType IoError :=
  if value <? 256 then nat_type_try_from value
  else Err (invalid_data "invalid nat type").

Definition nat_type_to_string (n : NatType) : string := show_uint (nat_type_to_u8 n).
Definition nat_type_from_str (s : string) : result NatType IoError :=
  let? v := ok_or (invalid_data "parse int") (parse_uint 8 s) in nat_type_try_from v.

Lemma nat_type_proto_roundtrip n : nat_type_from_proto (nat_type_to_u8 n) = Ok n.
Proof. by destruct n. Qed.
Lemma nat_type_str_roundtrip n : nat_type_from_str (nat_type_to_string n) = Ok n.
Proof. by destruct n. Qed.

(** ** [PeerInfo] and [HostInfo] *)

(** The third-party [uuid::Uuid]: [parse_str] to sixteen bytes, and the
    hyphenated rendering. *)
Class UuidApi : Type := {
  uuid_parse : string → option (list byte);
  uuid_hyphenated : list byte → string;
}.

Class UuidLaws {U : UuidApi} : Prop := {
  uuid_parse_length : ∀ s bs, uuid_parse s = Some bs → length bs = 16%nat;
  uuid_parse_hyphenated : ∀ bs, length bs = 16%nat → uuid_parse (uuid_hyphenated bs) = Some bs;
  (** lower-case hexadecimal digits and hyphens *)
  uuid_hyphenated_chars : ∀ bs,
    string_all (λ c, ((48 <=? code c) && (code c <=? 57))
                     || ((97 <=? code c) && (code c <=? 102)) || (code c =? 45))
      (uuid_hyphenated bs) = true;
}.

(** [SystemTime::now().duration_since(UNIX_EPOCH).unwrap_or_default().as_nanos() as u64]:
    a clock before the epoch reads zero. *)
Definition now_version (nanos : Z) : Z := wrap 64 (Z.max 0 nanos).

Module PeerInfo.
Section peer_info.
Context {CA : CidrApi}.

Record PeerInfo : Type := MkPeerInfo {
  resource_version : Z;
  peer_id : PeerId;
  noeio_ip : IpAddr;
  network_id : NetworkId;
  nat_type : NatType;
  nat_addr : option SocketAddr;
  local_addrs : list SocketAddr;
  advertised_routes : list Cidr;
  withdrawn : bool;
}.

#[global] Instance PeerInfo_eq_dec : EqDecision PeerInfo.
Proof. solve_decision. Defined.

Definition new {U : UuidApi} (id : PeerId) (vip : IpAddr) (network : string) :
    result PeerInfo IoError :=
  let? nid := ok_or (invalid_data "uuid") (uuid_parse network) in
  Ok (MkPeerInfo 0 id vip nid nat_type_default None [] [] false).

Definition with_advertised_routes (p : PeerInfo) (routes : list Cidr) : PeerInfo :=
  MkPeerInfo (resource_version p) (peer_id p) (noeio_ip p) (network_id p) (nat_type p)
    (nat_addr p) (local_addrs p) (map cidr_network routes) (withdrawn p).
Definition with_withdrawn (p : PeerInfo) (w : bool) : PeerInfo :=
  MkPeerInfo (resource_version p) (peer_id p) (noeio_ip p) (network_id p) (nat_type p)
    (nat_addr p) (local_addrs p) (advertised_routes p) w.
Definition with_resource_version (p : PeerInfo) (v : Z) : PeerInfo :=
  MkPeerInfo v (peer_id p) (noeio_ip p) (network_id p) (nat_type p)
    (nat_addr p) (local_addrs p) (advertised_routes p) (withdrawn p).
Definition with_nat_type (p : PeerInfo) (n : NatType) : PeerInfo :=
  MkPeerInfo (resource_version p) (peer_id p) (noeio_ip p) (network_id p) n
    (nat_addr p) (local_addrs p) (advertised_routes p) (withdrawn p).
Definition with_nat_addr (p : PeerInfo) (a : option SocketAddr) : PeerInfo :=
  MkPeerInfo (resource_version p) (peer_id p) (noeio_ip p) (network_id p) (nat_type p)
    a (local_addrs p) (advertised_routes p) (withdrawn p).
Definition with_local_addrs (p : PeerInfo) (l : list SocketAddr) : PeerInfo :=
  MkPeerInfo (resource_version p) (peer_id p) (noeio_ip p) (network_id p) (nat_type p)
    (nat_addr p) l (advertised_routes p) (withdrawn p).
End peer_info.
End PeerInfo.
Notation PeerInfo := PeerInfo.PeerInfo.

Module HostInfo.
Section host_info.
Context {CA : CidrApi}.

Record HostInfo : Type := MkHostInfo {
  resource_version : Z;
  nat_addr : SocketAddr;
  nat_type : NatType;
  hostname : string;
  local_addrs : list SocketAddr;
  peers : list PeerInfo;
}.

#[global] Instance HostInfo_eq_dec : EqDecision HostInfo.
Proof. solve_decision. Defined.

(** [HostInfo::new(nat_addr)]; the clock and the host name are the
    environment's. *)
Definition new (now : Z) (host : string) (addr : SocketAddr) : HostInfo :=
  MkHostInfo (now_version now) addr nat_type_default host [] [].

Definition with_networks (h : HostInfo) (networks : list PeerInfo) : HostInfo :=
  MkHostInfo (resource_version h) (nat_addr h) (nat_type h) (hostname h)
    (local_addrs h) networks.
Definition with_local_addrs (h : HostInfo) (l : list SocketAddr) : HostInfo :=
  MkHostInfo (resource_version h) (nat_addr h) (nat_type h) (hostname h) l (peers h).
End host_info.
End HostInfo.
Notation HostInfo := HostInfo.HostInfo.
