(* ===== verification/Packet.v ===== *)
(** [noeio-common/src/packet.rs] and [packet/token_frame.rs]: the nine-byte
    packet header, the packet buffer and its mutators, the ping payload and the
    credential frame. *)

From Stdlib Require Import ZArith Lia.
From Stdlib Require Import Strings.Byte Strings.String.
From stdpp Require Import base list strings.
From S2P Require Import Prelude Text NetTypes.

Local Open Scope Z_scope.

Definition MAX_PACKET_LEN : nat := 2048.

(** ** [NoeioPacketType] *)

Inductive NoeioPacketType : Type :=
  | Ping
  | Forward
  | SyncRoute
  | Report
  | Seq
  | Ack
  | TunnelPing
  | TunnelPong
  | Delivery.

#[export] Instance NoeioPacketType_eq_dec : EqDecision NoeioPacketType.
Proof. solve_decision. Defined.

(** [impl From<NoeioPacketType> for u8] *)
Definition type_to_u8 (t : NoeioPacketType) : byte :=
  match t with
  | Ping => x00 | Forward => x01 | SyncRoute => x02 | Report => x03 | Seq => x04
  | Ack => x05 | TunnelPing => x06 | Delivery => x07 | TunnelPong => x08
  end.

(** [impl TryFrom<u8> for NoeioPacketType] *)
Definition type_try_from (b : byte) : result NoeioPacketType byte :=
  match b with
  | x00 => Ok Ping | x01 => Ok Forward | x02 => Ok SyncRoute | x03 => Ok Report
  | x04 => Ok Seq | x05 => Ok Ack | x06 => Ok TunnelPing | x07 => Ok Delivery
  | x08 => Ok TunnelPong
  | _ => Err b
  end.

(** ** [PacketHeader] *)

Module PacketHeader.
Record PacketHeader : Type := Header {
  packet_type : NoeioPacketType;
  peer_id : PeerId;
  port : Z;
}.

#[global] Instance PacketHeader_eq_dec : EqDecision PacketHeader.
Proof. solve_decision. Defined.

(** [impl Default for PacketHeader] *)
Definition default_header : PacketHeader := Header Forward 0 0.

(** ["NO"] *)
Definition MAGIC : list byte := [x4e; x4f].
(** 2 magic + 1 type + 4 peer_id + 2 port *)
Definition LEN : nat := 9.

(** A [u32] peer id and a [u16] port. *)
Definition wf (h : PacketHeader) : Prop := is_uint 32 (peer_id h) ∧ is_uint 16 (port h).

Definition to_bytes (h : PacketHeader) : list byte :=
  let out := replicate LEN x00 in
  let out := copy_at 0 MAGIC out in
  let out := copy_at 2 [type_to_u8 (packet_type h)] out in
  let out := copy_at 3 (be_bytes 4 (peer_id h)) out in
  copy_at 7 (be_bytes 2 (port h)) out.

Definition from_bytes (bytes : list byte) : option PacketHeader :=
  if (length bytes <? LEN)%nat then None
  else if negb (bool_decide (take 2 bytes = MAGIC)) then None
  else
    b ← bytes !! 2%nat;
    t ← result_ok (type_try_from b);
    Some (Header t (be_val (take 4 (drop 3 bytes))) (be_val (take 2 (drop 7 bytes)))).

(** [From<PacketHeader> for Vec<u8>] *)
Definition into_vec (h : PacketHeader) : list byte := to_bytes h.
End PacketHeader.
Export PacketHeader (Header, PacketHeader_eq_dec).

(** ** [PingPacketPayload] *)

Module PingPayload.
Record PingPacketPayload : Type := Payload { ip : Z; port : Z }.

Definition LEN : nat := 8.
Definition TERMINATOR : list byte := [x0d; x0a].

Definition wf (p : PingPacketPayload) : Prop := is_uint 32 (ip p) ∧ is_uint 16 (port p).

Definition to_bytes (p : PingPacketPayload) : list byte :=
  let out := replicate LEN x00 in
  let out := copy_at 0 (ipv4_octets (ip p)) out in
  let out := copy_at 4 (be_bytes 2 (port p)) out in
  copy_at 6 TERMINATOR out.

Definition from_bytes (bytes : list byte) : option PingPacketPayload :=
  if (length bytes <? LEN)%nat then None
  else if negb (bool_decide (take 2 (drop 6 bytes) = TERMINATOR)) then None
  else Some (Payload (be_val (take 4 bytes)) (be_val (take 2 (drop 4 bytes)))).

Definition to_socket_addr (p : PingPacketPayload) : SocketAddr := SockV4 (ip p) (port p).

(** [From<SocketAddrV4>], [From<PingPacketPayload> for SocketAddr] and
    [From<PingPacketPayload> for Vec<u8>], by value and by reference. *)
Definition from_v4 (ip port : Z) : PingPacketPayload := Payload ip port.
Definition into_socket_addr (p : PingPacketPayload) : SocketAddr := to_socket_addr p.
Definition into_vec (p : PingPacketPayload) : list byte := to_bytes p.
End PingPayload.

(** ** [NoeioPacket] *)

(** [smoltcp::wire::Ipv4Packet]: the addresses of a well-formed IPv4 packet,
    [None] when [new_checked] rejects it. *)
Class Ipv4Wire : Type := {
  ipv4_src_addr : list byte → option Z;
  ipv4_dst_addr : list byte → option Z;
}.

Module NoeioPacket.
Record NoeioPacket : Type := Packet {
  inner : list byte;
  packet_type : NoeioPacketType;
}.

Definition HEADER_LEN : nat := PacketHeader.LEN.
Definition PAYLOAD_OFFSET : nat := HEADER_LEN.

Definition new (header : PacketHeader.PacketHeader) (payload : list byte) : NoeioPacket :=
  Packet (PacketHeader.to_bytes header ++ payload) (PacketHeader.packet_type header).

Definition parse_header (p : NoeioPacket) : option PacketHeader.PacketHeader :=
  PacketHeader.from_bytes (inner p).

Definition set_header (p : NoeioPacket) (header : PacketHeader.PacketHeader) : NoeioPacket :=
  let buf := if (length (inner p) <? PAYLOAD_OFFSET)%nat
             then resize PAYLOAD_OFFSET x00 (inner p) else inner p in
  Packet (copy_at 0 (PacketHeader.to_bytes header) buf) (PacketHeader.packet_type header).

(** [self.inner.get(PAYLOAD_OFFSET..)] *)
Definition payload (p : NoeioPacket) : option (list byte) :=
  slice PAYLOAD_OFFSET (length (inner p)) (inner p).

Definition ensure_header (p : NoeioPacket) : NoeioPacket :=
  if (PAYLOAD_OFFSET <=? length (inner p))%nat then p
  else
    let header := match parse_header p with
                  | Some h => h
                  | None => Header (packet_type p) 0 0
                  end in
    Packet (copy_at 0 (PacketHeader.to_bytes header) (resize PAYLOAD_OFFSET x00 (inner p)))
      (packet_type p).

Definition set_payload (p : NoeioPacket) (bs : list byte) : NoeioPacket :=
  let p := ensure_header p in
  Packet (take PAYLOAD_OFFSET (inner p) ++ bs) (packet_type p).

Definition parse_ping_payload (p : NoeioPacket) : option PingPayload.PingPacketPayload :=
  if negb (bool_decide (packet_type p = Ping)) then None
  else bs ← payload p; PingPayload.from_bytes bs.

Definition src_ip {W : Ipv4Wire} (p : NoeioPacket) : option Z :=
  bs ← payload p; ipv4_src_addr bs.
Definition dst_ip {W : Ipv4Wire} (p : NoeioPacket) : option Z :=
  bs ← payload p; ipv4_dst_addr bs.

(** [impl TryFrom<&[u8]> for NoeioPacket] *)
Definition try_from (value : list byte) : result NoeioPacket string :=
  let? header := ok_or "invalid noeio packet: failed to parse header"%string
                   (PacketHeader.from_bytes value) in
  Ok (Packet value (PacketHeader.packet_type header)).

(** [TryFrom<Vec<u8>>] *)
Definition try_from_vec (value : list byte) : result NoeioPacket string := try_from value.

(** [packet_type] mirrors the header of [inner]. *)
Definition mirrors (p : NoeioPacket) : Prop :=
  ∃ h, parse_header p = Some h ∧ PacketHeader.packet_type h = packet_type p.
End NoeioPacket.

(** ** [token_frame] *)

Module TokenFrame.
Definition PREFIX_ERR : string := "payload shorter than token length prefix".
Definition LEN_ERR : string := "payload shorter than declared token length".
Definition UTF8_ERR : string := "invalid utf-8".

(** [token.len() as u16] keeps the low sixteen bits. *)
Definition encode (token : list byte) (inner : list byte) : list byte :=
  be_bytes 2 (wrap 16 (Z.of_nat (length token))) ++ token ++ inner.

Definition decode (data : list byte) : result (list byte * list byte) string :=
  let? len_bytes := ok_or PREFIX_ERR (slice 0 2 data) in
  let token_len := Z.to_nat (be_val len_bytes) in
  let? token := ok_or LEN_ERR (slice 2 (2 + token_len) data) in
  if utf8_valid token then Ok (token, drop (2 + token_len) data) else Err UTF8_ERR.
End TokenFrame.

(** ** Header facts *)

Lemma type_roundtrip t : type_try_from (type_to_u8 t) = Ok t.
Proof. by destruct t. Qed.

Lemma type_try_from_Ok b t : type_try_from b = Ok t → b = type_to_u8 t.
Proof. destruct b; simpl; intros [= <-]; done. Qed.

Lemma be_bytes_2 z : ∃ a b, be_bytes 2 z = [a; b].
Proof. do 2 eexists. reflexivity. Qed.
Lemma be_bytes_4 z : ∃ a b c d, be_bytes 4 z = [a; b; c; d].
Proof. do 4 eexists. reflexivity. Qed.

Lemma header_to_bytes_eq h :
  PacketHeader.to_bytes h =
    PacketHeader.MAGIC ++ [type_to_u8 (PacketHeader.packet_type h)] ++
    be_bytes 4 (PacketHeader.peer_id h) ++ be_bytes 2 (PacketHeader.port h).
Proof.
  unfold PacketHeader.to_bytes.
  destruct (be_bytes_4 (PacketHeader.peer_id h)) as (?&?&?&?&->).
  by destruct (be_bytes_2 (PacketHeader.port h)) as (?&?&->).
Qed.

Lemma length_header_bytes h : length (PacketHeader.to_bytes h) = 9%nat.
Proof. rewrite header_to_bytes_eq, !length_app, !length_be_bytes. done. Qed.
#[export] Hint Rewrite length_header_bytes : noeio.

(** Nine bytes, spelled out. *)
Lemma split_nine (bs : list byte) : (9 ≤ length bs)%nat →
  ∃ a b t p1 p2 p3 p4 q1 q2 rest,
    bs = a :: b :: t :: p1 :: p2 :: p3 :: p4 :: q1 :: q2 :: rest.
Proof.
  intros H. do 9 (destruct bs as [|? bs]; [simpl in H; lia|]). by repeat eexists.
Qed.

Lemma be_val_2_uint a b : is_uint 16 (be_val [a; b]).
Proof. apply (be_val_bound [a; b]). Qed.
Lemma be_val_4_uint a b c d : is_uint 32 (be_val [a; b; c; d]).
Proof. apply (be_val_bound [a; b; c; d]). Qed.

Lemma header_from_to_bytes h rest :
  PacketHeader.wf h → PacketHeader.from_bytes (PacketHeader.to_bytes h ++ rest) = Some h.
Proof.
  intros [Hid Hport]. rewrite header_to_bytes_eq.
  destruct (be_bytes_4 (PacketHeader.peer_id h)) as (a&b&c&d&Hi).
  destruct (be_bytes_2 (PacketHeader.port h)) as (e&f&Hp).
  rewrite Hi, Hp. unfold PacketHeader.from_bytes.
  cbn [app length PacketHeader.MAGIC Nat.ltb Nat.leb PacketHeader.LEN take drop lookup list_lookup].
  rewrite bool_decide_eq_true_2 by done. cbn [negb mbind option_bind].
  rewrite type_roundtrip. cbn [result_ok mbind option_bind].
  rewrite take_0, <-Hi, <-Hp, !be_val_be_bytes_small by (unfold is_uint in *; lia).
  by destruct h.
Qed.

Lemma header_from_bytes_inv bs h :
  PacketHeader.from_bytes bs = Some h →
  PacketHeader.wf h ∧ ∃ rest, bs = PacketHeader.to_bytes h ++ rest.
Proof.
  unfold PacketHeader.from_bytes. destruct (Nat.ltb_spec (length bs) PacketHeader.LEN); [done|].
  destruct (split_nine bs) as (a&b&t&p1&p2&p3&p4&q1&q2&rest&->); [done|].
  cbn [take drop lookup list_lookup mbind option_bind]. rewrite !take_0.
  destruct (bool_decide _) eqn:Hm; [|done]. bool_to_prop. cbn [negb].
  destruct (type_try_from t) as [ty|] eqn:Ht; [|done]. cbn [result_ok mbind option_bind].
  intros [= <-]. split; [split; [apply be_val_4_uint|apply be_val_2_uint]|].
  exists rest. rewrite header_to_bytes_eq. apply type_try_from_Ok in Ht.
  cbn [PacketHeader.packet_type PacketHeader.peer_id PacketHeader.port].
  pose proof (be_bytes_be_val [p1; p2; p3; p4]) as H4.
  pose proof (be_bytes_be_val [q1; q2]) as H2. cbn [length] in H4, H2.
  by rewrite H4, H2, <-Ht, <-Hm.
Qed.

(** A ping's payload keeps the address it was made of. *)
Lemma ping_payload_codec ip port rest : is_uint 32 ip → is_uint 16 port →
  PingPayload.from_bytes (PingPayload.into_vec (PingPayload.from_v4 ip port) ++ rest) =
    Some (PingPayload.from_v4 ip port) ∧
  PingPayload.into_socket_addr (PingPayload.from_v4 ip port) = SockV4 ip port.
Proof.
  intros Hi Hp. split; [|done]. unfold PingPayload.into_vec, PingPayload.to_bytes.
  unfold PingPayload.from_v4, ipv4_octets. cbn [PingPayload.ip PingPayload.port].
  destruct (be_bytes_4 ip) as (a & b & c & d & Ei), (be_bytes_2 port) as (e & f & Ep).
  rewrite Ei, Ep. unfold PingPayload.LEN, PingPayload.TERMINATOR.
  change (PingPayload.from_bytes ([a; b; c; d; e; f; x0d; x0a] ++ rest) = Some (PingPayload.Payload ip port)).
  unfold PingPayload.from_bytes. cbn [app length Nat.ltb Nat.leb PingPayload.LEN take drop].
  rewrite bool_decide_eq_true_2 by done. cbn [negb].
  by rewrite ?take_0, <-Ei, <-Ep, !be_val_be_bytes_small by (unfold is_uint in *; lia).
Qed.

(** ** Properties *)

(** C19. The header codec is exact: a byte string parses to a well-formed header
    exactly when it starts with that header's nine bytes, whatever follows. *)
Theorem header_codec h bs :
  PacketHeader.from_bytes bs = Some h ↔
  PacketHeader.wf h ∧ ∃ rest, bs = PacketHeader.to_bytes h ++ rest.
Proof.
  split; [apply header_from_bytes_inv|].
  intros [Hwf [rest ->]]. by apply header_from_to_bytes.
Qed.

Lemma parse_new h bs :
  PacketHeader.wf h → NoeioPacket.parse_header (NoeioPacket.new h bs) = Some h.
Proof. apply header_from_to_bytes. Qed.

Lemma copy_at_0_app {A} (bs out : list A) :
  copy_at 0 bs out = bs ++ drop (length bs) out.
Proof. reflexivity. Qed.

Lemma set_header_inner p h :
  NoeioPacket.inner (NoeioPacket.set_header p h) =
    PacketHeader.to_bytes h ++ drop 9 (NoeioPacket.inner p).
Proof.
  unfold NoeioPacket.set_header. cbn [NoeioPacket.inner].
  rewrite copy_at_0_app, length_header_bytes. f_equal.
  change NoeioPacket.PAYLOAD_OFFSET with 9%nat.
  destruct (Nat.ltb_spec (length (NoeioPacket.inner p)) 9); [|done].
  rewrite !drop_ge; [done|lia|by rewrite length_resize].
Qed.

Lemma payload_drop p :
  (9 ≤ length (NoeioPacket.inner p))%nat →
  NoeioPacket.payload p = Some (drop 9 (NoeioPacket.inner p)).
Proof.
  intros H. apply slice_Some. change NoeioPacket.PAYLOAD_OFFSET with 9%nat.
  split; [lia|]. rewrite take_ge by (rewrite length_drop; lia). done.
Qed.

Lemma payload_new h bs : NoeioPacket.payload (NoeioPacket.new h bs) = Some bs.
Proof.
  rewrite payload_drop; cbn [NoeioPacket.new NoeioPacket.inner].
  - rewrite <-(length_header_bytes h). by rewrite drop_app_length.
  - rewrite length_app, length_header_bytes. lia.
Qed.

Lemma packet_payload_None p :
  NoeioPacket.payload p = None ↔ (length (NoeioPacket.inner p) < 9)%nat.
Proof.
  unfold NoeioPacket.payload, slice. change NoeioPacket.PAYLOAD_OFFSET with 9%nat.
  case_decide; split; intros; try done; lia.
Qed.

Lemma mirrors_length p : NoeioPacket.mirrors p → (9 ≤ length (NoeioPacket.inner p))%nat.
Proof.
  intros (h & Hp & _). apply header_from_bytes_inv in Hp as (_ & rest & ->).
  rewrite length_app, length_header_bytes. lia.
Qed.

Lemma try_from_Ok bs p :
  NoeioPacket.try_from bs = Ok p ↔
  NoeioPacket.inner p = bs ∧ NoeioPacket.mirrors p.
Proof.
  unfold NoeioPacket.try_from, NoeioPacket.mirrors, NoeioPacket.parse_header.
  destruct p as [b t]; simpl.
  destruct (PacketHeader.from_bytes bs) as [h|] eqn:Hh; simpl; naive_solver.
Qed.

Lemma set_payload_inner p bs :
  NoeioPacket.inner (NoeioPacket.set_payload p bs) =
    take 9 (NoeioPacket.inner (NoeioPacket.ensure_header p)) ++ bs.
Proof. reflexivity. Qed.

Lemma ensure_header_long p :
  (9 ≤ length (NoeioPacket.inner p))%nat → NoeioPacket.ensure_header p = p.
Proof.
  intros H. unfold NoeioPacket.ensure_header. by rewrite (proj2 (Nat.leb_le _ _)) by done.
Qed.

Lemma from_bytes_short bs : (length bs < 9)%nat → PacketHeader.from_bytes bs = None.
Proof.
  intros H. unfold PacketHeader.from_bytes. by rewrite (proj2 (Nat.ltb_lt _ _)).
Qed.

Lemma ensure_header_short p :
  (length (NoeioPacket.inner p) < 9)%nat →
  NoeioPacket.ensure_header p =
    NoeioPacket.Packet (PacketHeader.to_bytes (Header (NoeioPacket.packet_type p) 0 0))
      (NoeioPacket.packet_type p).
Proof.
  intros H. unfold NoeioPacket.ensure_header, NoeioPacket.parse_header.
  rewrite (proj2 (Nat.leb_gt _ _)), from_bytes_short by done.
  rewrite copy_at_0_app, length_header_bytes, drop_ge by (by rewrite length_resize).
  by rewrite app_nil_r.
Qed.

Lemma parse_header_prefix p q :
  take 9 (NoeioPacket.inner p) = take 9 (NoeioPacket.inner q) →
  NoeioPacket.parse_header p = NoeioPacket.parse_header q.
Proof.
  unfold NoeioPacket.parse_header. intros Heq.
  assert (∀ bs h, PacketHeader.from_bytes bs = Some h →
            PacketHeader.from_bytes (take 9 bs) = Some h) as Hcut.
  { intros bs h (Hwf & rest & ->)%header_from_bytes_inv.
    rewrite <-(length_header_bytes h), take_app_length.
    rewrite <-(app_nil_r (PacketHeader.to_bytes h)). by apply header_from_to_bytes. }
  assert (∀ bs h, PacketHeader.from_bytes (take 9 bs) = Some h →
            PacketHeader.from_bytes bs = Some h) as Hext.
  { intros bs h (Hwf & rest & Hb)%header_from_bytes_inv.
    rewrite <-(take_drop 9 bs), Hb, <-app_assoc. by apply header_from_to_bytes. }
  apply option_eq. intros h. split; intros H%Hcut; apply Hext; congruence.
Qed.

(** The mutators keep [packet_type] and the wire header in step and touch only
    their own part: [set_header] installs any well-formed header and keeps the
    payload, [set_payload] installs any payload and keeps the header. *)
Theorem packet_mutators p h bs :
  NoeioPacket.mirrors p → PacketHeader.wf h →
  let p1 := NoeioPacket.set_header p h in
  let p2 := NoeioPacket.set_payload p bs in
  NoeioPacket.mirrors p1 ∧ NoeioPacket.mirrors p2 ∧
  NoeioPacket.parse_header p1 = Some h ∧
  NoeioPacket.payload p1 = NoeioPacket.payload p ∧
  NoeioPacket.parse_header p2 = NoeioPacket.parse_header p ∧
  NoeioPacket.payload p2 = Some bs.
Proof.
  intros Hm Hwf p1 p2. pose proof (mirrors_length p Hm) as Hlen.
  assert (NoeioPacket.parse_header p1 = Some h) as Hp1.
  { unfold NoeioPacket.parse_header, p1. rewrite set_header_inner.
    by apply header_from_to_bytes. }
  assert (NoeioPacket.inner p2 = take 9 (NoeioPacket.inner p) ++ bs) as Hi2.
  { unfold p2. by rewrite set_payload_inner, ensure_header_long. }
  assert (length (take 9 (NoeioPacket.inner p)) = 9%nat) as Hl9 by (rewrite length_take; lia).
  assert (NoeioPacket.parse_header p2 = NoeioPacket.parse_header p) as Hp2.
  { apply parse_header_prefix. rewrite Hi2, <-Hl9 at 1. by rewrite take_app_length. }
  assert (NoeioPacket.packet_type p2 = NoeioPacket.packet_type p) as Ht2.
  { unfold p2, NoeioPacket.set_payload. by rewrite ensure_header_long. }
  split_and!; [|rewrite <-?Hp2 in Hm|done| |done|].
  - by exists h.
  - destruct Hm as (h' & Hh' & Hty). exists h'. by rewrite Hp2, Ht2.
  - rewrite !payload_drop; [|lia|unfold p1; rewrite set_header_inner, length_app,
      length_header_bytes; lia].
    unfold p1. rewrite set_header_inner, <-(length_header_bytes h) at 1.
    by rewrite drop_app_length.
  - rewrite payload_drop by (rewrite Hi2, length_app; lia).
    rewrite Hi2, <-Hl9 at 1. by rewrite drop_app_length.
Qed.

Definition forward_example : NoeioPacket.NoeioPacket :=
  NoeioPacket.new (Header Forward 42 0) [x01; x02; x03].

Lemma packet_mutators_witness :
  NoeioPacket.mirrors forward_example ∧ PacketHeader.wf (Header Delivery 7 0) ∧
  NoeioPacket.payload (NoeioPacket.set_header forward_example (Header Delivery 7 0))
    = Some [x01; x02; x03].
Proof.
  assert (NoeioPacket.mirrors forward_example) as Hm by (eexists; split; reflexivity).
  assert (PacketHeader.wf (Header Delivery 7 0)) as Hw by (split; unfold is_uint; simpl; lia).
  split; [exact Hm|split; [exact Hw|]].
  destruct (packet_mutators forward_example (Header Delivery 7 0) [] Hm Hw) as (_&_&_&H&_).
  rewrite H. reflexivity.
Defined.

Lemma token_frame_decode_length token inner t' i' :
  TokenFrame.decode (TokenFrame.encode token inner) = Ok (t', i') →
  Z.of_nat (length t') = wrap 16 (Z.of_nat (length token)).
Proof.
  unfold TokenFrame.decode, TokenFrame.encode.
  destruct (be_bytes_2 (wrap 16 (Z.of_nat (length token)))) as (a & b & Hab).
  assert (be_val [a; b] = wrap 16 (Z.of_nat (length token))) as Hv.
  { rewrite <-Hab. apply be_val_be_bytes_small. apply (wrap_uint 16). lia. }
  rewrite Hab. cbn [app slice]. unfold slice at 1. rewrite decide_True by (simpl; lia).
  cbn [ok_or take drop Nat.sub]. rewrite !take_0, Hv.
  pose proof (wrap_uint 16 (Z.of_nat (length token)) ltac:(lia)) as [Hlo _].
  destruct (slice 2 _ _) as [s|] eqn:Hs; [|done]. cbn [ok_or].
  apply slice_Some in Hs as [Hlen ->]. destruct (utf8_valid _); [|done].
  intros [= <- _]. rewrite length_take, length_drop. cbn [length] in *. lia.
Qed.

Lemma token_frame_decode_encode token inner :
  utf8_valid token = true → Z.of_nat (length token) < 65536 →
  TokenFrame.decode (TokenFrame.encode token inner) = Ok (token, inner).
Proof.
  intros Hutf Hlen. unfold TokenFrame.decode, TokenFrame.encode.
  rewrite wrap_small by (unfold is_uint; lia).
  destruct (be_bytes_2 (Z.of_nat (length token))) as (a & b & Hab).
  assert (be_val [a; b] = Z.of_nat (length token)) as Hv
    by (rewrite <-Hab; apply be_val_be_bytes_small; lia).
  rewrite Hab. unfold slice at 1. cbn [app]. rewrite decide_True by (simpl; lia).
  cbn [ok_or take drop Nat.sub]. rewrite !take_0, Hv, Nat2Z.id.
  assert (slice 2 (2 + length token) (a :: b :: token ++ inner) = Some token) as ->
    by apply (slice_app_exact [a; b] token inner).
  cbn [ok_or]. rewrite Hutf. do 2 f_equal. apply (drop_app_length token inner).
Qed.

(** The credential frame round-trips exactly the tokens shorter than 65536
    bytes: for a valid UTF-8 token, decoding the encoded frame returns the token
    and the inner payload if and only if the length fits its [u16] prefix. *)
Theorem token_frame_roundtrip token inner :
  utf8_valid token = true →
  TokenFrame.decode (TokenFrame.encode token inner) = Ok (token, inner) ↔
  Z.of_nat (length token) < 65536.
Proof.
  intros Hutf. split.
  - intros H%token_frame_decode_length.
    pose proof (wrap_uint 16 (Z.of_nat (length token)) ltac:(lia)) as [_ ?]. lia.
  - by apply token_frame_decode_encode.
Qed.

Lemma token_frame_roundtrip_witness :
  utf8_valid [x65; x79; x4a] = true ∧
  TokenFrame.decode (TokenFrame.encode [x65; x79; x4a] [xff]) = Ok ([x65; x79; x4a], [xff]).
Proof.
  split; [reflexivity|].
  apply (proj2 (token_frame_roundtrip [x65; x79; x4a] [xff] eq_refl)). reflexivity.
Defined.
