(* ===== verification/IdleGuard.v ===== *)
(** [noeio/src/common/idle_guard.rs]: a connection that is dropped after a time
    without use. The guard's two background tasks and its callers interleave at every
    await; time is in nanoseconds. *)

From Stdlib Require Import ZArith Lia.
From Stdlib Require Import Strings.Byte.
From stdpp Require Import base list strings.
From S2P Require Import Prelude Text NetTypes HostInfo Packet.

Local Open Scope Z_scope.

Definition KEEPALIVE_INTERVAL : Z := 1000000000.

(** A peer's address and the socket to reach it through. *)
Record Connection : Type := MkConnection {
  addr : SocketAddr;
  socket : nat;
}.

Module IdleConnectionGuard.
(** Where the watching task is: not polled yet; in the [select!] with its timer's
    deadline; past the timer, waiting for the lock; gone. *)
Inductive Watch : Type := WStart | WSelect (deadline : Z) | WExpired | WStopped.

#[export] Instance Watch_eq_dec : EqDecision Watch.
Proof. solve_decision. Defined.

(** Where the keepalive task is: about to look at the connection; with a copy of it in
    hand, sending; asleep; gone. *)
Inductive Keep : Type := KLook | KSend (c : Connection) | KSleep (until : Z) | KStopped.

(** [permit] is the stored permit of [notify]. *)
Record Guard : Type := MkGuard {
  inner : option Connection;
  permit : bool;
  watch : Watch;
  keep : Keep;
}.

Definition new (a : SocketAddr) (s : nat) : Guard := MkGuard (Some (MkConnection a s)) false WStart KLook.

(** [access(f)]: the connection [f] is applied to. *)
Definition access (g : Guard) : Guard * option Connection :=
  match inner g with
  | Some c => (MkGuard (inner g) true (watch g) (keep g), Some c)
  | None => (g, None)
  end.
Definition get_addr (g : Guard) : Guard * option SocketAddr :=
  let '(g, c) := access g in (g, addr <$> c).
Definition get_socket (g : Guard) : Guard * option nat :=
  let '(g, c) := access g in (g, socket <$> c).
Definition is_alive (g : Guard) : bool := match inner g with Some _ => true | None => false end.

(** The watching task as far as its next await; [timer] is the branch that [select!]
    takes when both are ready. *)
Definition watch_turn (ttl : Z) (timer : bool) (now : Z) (g : Guard) : Guard :=
  match watch g with
  | WStart => MkGuard (inner g) (permit g) (WSelect (now + ttl)) (keep g)
  | WSelect d =>
      let due := d <=? now in
      if permit g && negb (due && timer) then MkGuard (inner g) false (WSelect (now + ttl)) (keep g)
      else if due then MkGuard (inner g) (permit g) WExpired (keep g)
      else g
  | WExpired => MkGuard None (permit g) WStopped (keep g)
  | WStopped => g
  end.

(** The datagram of [keepalive]. *)
Definition keepalive_bytes : list byte := NoeioPacket.inner (NoeioPacket.new (Header Ping 0 0) []).

Definition keep_turn (now : Z) (g : Guard) : Guard * list (SocketAddr * list byte) :=
  let at_ k := MkGuard (inner g) (permit g) (watch g) k in
  match keep g with
  | KLook => (match inner g with Some c => at_ (KSend c) | None => at_ KStopped end, [])
  | KSend c => (at_ (KSleep (now + KEEPALIVE_INTERVAL)), [(addr c, keepalive_bytes)])
  | KSleep u => (if u <=? now then at_ KLook else g, [])
  | KStopped => (g, [])
  end.

(** ** Interleavings *)

Inductive Event : Type :=
  | Accessed (c : option Connection)
  | Pinged (to : SocketAddr)
  | Reclaimed.

(** Whether the watching task has nothing to do until [now]. *)
Definition settled (now : Z) (g : Guard) : Prop :=
  match watch g with
  | WSelect d => permit g = false ∧ now ≤ d
  | WStopped => True
  | WStart | WExpired => False
  end.

(** Time passes, a caller gets the lock, or a task runs. With [prompt], time does not
    pass while the watching task could run. *)
Inductive step (ttl : Z) (prompt : bool) (now : Z) (g : Guard) : list Event → Z → Guard → Prop :=
  | step_time now' : now ≤ now' → (prompt = true → settled now' g) → step ttl prompt now g [] now' g
  | step_access : step ttl prompt now g [Accessed (access g).2] now (access g).1
  | step_watch timer :
      step ttl prompt now g (if decide (watch g = WExpired) then [Reclaimed] else []) now
        (watch_turn ttl timer now g)
  | step_keep :
      step ttl prompt now g (Pinged ∘ fst <$> (keep_turn now g).2) now (keep_turn now g).1.

(** What happened, and when. *)
Inductive run (ttl : Z) (prompt : bool) (t0 : Z) (g0 : Guard) : list (Z * Event) → Z → Guard → Prop :=
  | run_start : run ttl prompt t0 g0 [] t0 g0
  | run_step tr now g es now' g' :
      run ttl prompt t0 g0 tr now g → step ttl prompt now g es now' g' →
      run ttl prompt t0 g0 (tr ++ map (pair now) es) now' g'.
End IdleConnectionGuard.
Import IdleConnectionGuard.

(** ** Facts *)

Section facts.
Context (ttl : Z) (prompt : bool) (t0 : Z) (c0 : Connection).
Implicit Types (tr : list (Z * Event)) (g : Guard).

Definition fresh : Guard := new (addr c0) (socket c0).

Definition is_ping (e : Z * Event) : bool := match e.2 with Pinged _ => true | _ => false end.
Definition pings tr : nat := length (List.filter is_ping tr).
Definition sending (k : Keep) : nat := match k with KSend _ => 1 | _ => 0 end.

(** The events of a guard whose connection is [c]. *)
Definition only (c : option Connection) tr : Prop :=
  ∀ t e, (t, e) ∈ tr → e = Accessed c ∨ e = Pinged (addr c0).

(** Everything before the reclaim sees the connection; after it nobody does, it does
    not happen again, and the copy the keepalive task may hold is the last one sent. *)
Definition ordered tr g : Prop :=
  (∀ c, keep g = KSend c → c = c0) ∧
  match inner g with
  | Some c => c = c0 ∧ watch g ≠ WStopped ∧ only (Some c0) tr
  | None => watch g = WStopped ∧ ∃ tr1 e tr2, tr = tr1 ++ (e, Reclaimed) :: tr2 ∧
      only (Some c0) tr1 ∧ only None tr2 ∧ (pings tr2 + sending (keep g) ≤ 1)%nat
  end.

Lemma only_app c tr tr' : only c (tr ++ tr') ↔ only c tr ∧ only c tr'.
Proof.
  unfold only. split; [intros H; split; intros t e Hin; apply (H t), elem_of_app; auto|].
  intros [H1 H2] t e [?|?]%elem_of_app; [by eapply H1|by eapply H2].
Qed.
Lemma only_one c t e : only c [(t, e)] ↔ e = Accessed c ∨ e = Pinged (addr c0).
Proof.
  unfold only. split; [intros H; apply (H t); by left|].
  by intros H t' e' [= -> ->]%list_elem_of_singleton.
Qed.
Lemma only_nil c : only c [].
Proof. by intros t e ?%not_elem_of_nil. Qed.
Lemma pings_app tr tr' : pings (tr ++ tr') = (pings tr + pings tr')%nat.
Proof. unfold pings. by rewrite List.filter_app, length_app. Qed.

(** More events of the same kind. *)
Lemma ordered_more tr g g' es :
  ordered tr g → inner g' = inner g → (watch g' = WStopped ↔ watch g = WStopped) →
  only (inner g) es → (∀ c, keep g' = KSend c → c = c0) →
  (inner g = None → (pings es + sending (keep g') ≤ sending (keep g))%nat) →
  ordered (tr ++ es) g'.
Proof.
  intros [Hk Ho] Hi Hw Hes Hk' Hp. split; [done|]. rewrite Hi. destruct (inner g) as [c|].
  - destruct Ho as (-> & Hne & Ho). split; [done|]. split; [tauto|]. by apply only_app.
  - destruct Ho as (Hwg & tr1 & e & tr2 & -> & H1 & H2 & H3). split; [tauto|].
    exists tr1, e, (tr2 ++ es). rewrite <-app_assoc. split; [done|]. split; [done|].
    split; [by apply only_app|]. rewrite pings_app. specialize (Hp eq_refl). lia.
Qed.

(** What a turn leaves alone. *)
Lemma access_frame g :
  inner (access g).1 = inner g ∧ watch (access g).1 = watch g ∧ keep (access g).1 = keep g ∧
  (access g).2 = inner g.
Proof. unfold access. by destruct (inner g) eqn:E. Qed.

Lemma watch_frame timer now g :
  keep (watch_turn ttl timer now g) = keep g ∧
  (watch g ≠ WExpired → inner (watch_turn ttl timer now g) = inner g ∧
     (watch (watch_turn ttl timer now g) = WStopped ↔ watch g = WStopped)).
Proof. unfold watch_turn. destruct (watch g) eqn:E; repeat case_match; cbn; rewrite ?E; done. Qed.

Lemma keep_frame now g :
  inner (keep_turn now g).1 = inner g ∧ watch (keep_turn now g).1 = watch g ∧ permit (keep_turn now g).1 = permit g.
Proof. unfold keep_turn. destruct (keep g); cbn; repeat case_match; done. Qed.

Lemma ordered_step tr now g es now' g' :
  ordered tr g → step ttl prompt now g es now' g' → ordered (tr ++ map (pair now) es) g'.
Proof.
  intros Ho Hstep. pose proof Ho as [Hk Hcase]. destruct Hstep as [now' _ _| |timer|].
  - cbn. by rewrite app_nil_r.
  - destruct (access_frame g) as (Hi & Hw & Hk' & Hr).
    apply (ordered_more _ g); rewrite ?Hi, ?Hw, ?Hk', ?Hr; try done. apply only_one. by left.
  - destruct (watch_frame timer now g) as [Hk' Hw'].
    destruct (decide (watch g = WExpired)) as [Hw|Hw].
    + unfold watch_turn. rewrite Hw. split; [done|]. cbn. split; [done|].
      destruct (inner g) as [c|].
      * destruct Hcase as (-> & _ & Ho'). exists tr, now, []. split; [done|]. split; [done|].
        split; [apply only_nil|]. cbn. destruct (keep g); cbn; lia.
      * destruct Hcase as [Hs _]. congruence.
    + destruct (Hw' Hw) as [Hi Hs]. apply (ordered_more _ g); rewrite ?Hi, ?Hk'; try done. apply only_nil.
  - destruct (keep_frame now g) as (Hi & Hw & _).
    apply (ordered_more _ g); rewrite ?Hi, ?Hw; try done; unfold keep_turn.
    + destruct (keep g) as [|c|u|] eqn:E; cbn; try apply only_nil. apply only_one. right.
      by rewrite (Hk c).
    + intros c. destruct (keep g) as [|d|u|] eqn:E; cbn; try done.
      * destruct (inner g) as [d|]; [|done]. intros [= <-]. by destruct Hcase as [-> _].
      * destruct (u <=? now); [done|]. cbn. by rewrite E.
      * by rewrite E.
    + intros Hn. rewrite Hn. destruct (keep g) as [|d|u|] eqn:E; cbn; try lia.
      * destruct (u <=? now); cbn; rewrite ?E; cbn; lia.
      * rewrite E. cbn. lia.
Qed.

Lemma ordered_run tr now g : run ttl prompt t0 fresh tr now g → ordered tr g.
Proof.
  induction 1 as [|tr now g es now' g' _ IH Hs]; [|by eapply ordered_step].
  split; [done|]. cbn. split; [by destruct c0|]. split; [done|apply only_nil].
Qed.
End facts.

(** *** On time *)

Section prompt.
Context (ttl : Z) (t0 : Z) (c0 : Connection) (Httl : 0 ≤ ttl).
Implicit Types (tr : list (Z * Event)) (g : Guard).

(** The connection was handed out at [a]; the timer may have been set then. *)
Definition used tr (a : Z) : Prop := ∃ c, (a, Accessed (Some c)) ∈ tr.
Definition timer_from tr (d : Z) : Prop := ∃ r, (r = t0 ∨ used tr r) ∧ d = r + ttl.
Definition idle_until tr (d : Z) : Prop := ∀ a, used tr a → a + ttl ≤ d ∨ a = d.

Definition timed tr (now : Z) g : Prop :=
  t0 ≤ now ∧ (∀ a, used tr a → t0 ≤ a ≤ now) ∧
  (watch g ≠ WStopped → permit g = true → used tr now) ∧
  match watch g with
  | WStart => now = t0
  | WSelect d => now ≤ d ∧ timer_from tr d ∧ t0 + ttl ≤ d ∧
      ∀ a, used tr a → a + ttl ≤ d ∨ (permit g = true ∧ a = now)
  | WExpired => timer_from tr now ∧ t0 + ttl ≤ now ∧ idle_until tr now
  | WStopped => ∃ tr1 e tr2, tr = tr1 ++ (e, Reclaimed) :: tr2 ∧
      timer_from tr1 e ∧ t0 + ttl ≤ e ∧ idle_until tr1 e
  end.

Lemma used_app tr tr' a : used (tr ++ tr') a ↔ used tr a ∨ used tr' a.
Proof.
  unfold used. setoid_rewrite elem_of_app. split; [intros (c & [?|?]); eauto|intros [[c ?]|[c ?]]; eauto].
Qed.
Lemma used_nil a : ¬ used [] a.
Proof. by intros (c & ?%not_elem_of_nil). Qed.
Lemma timer_from_app tr tr' d : timer_from tr d → timer_from (tr ++ tr') d.
Proof.
  intros (r & Hr & ->). exists r. split; [|done]. destruct Hr; [by left|right]. apply used_app. by left.
Qed.

(** Events that are no access of the connection. *)
Lemma timed_more tr now g tr' g' :
  timed tr now g → (∀ a, ¬ used tr' a) → watch g' = watch g → permit g' = permit g →
  timed (tr ++ tr') now g'.
Proof.
  intros (H0 & Ha & Hp & Hw) Hn Ew Ep. unfold timed. rewrite Ew, Ep.
  assert (∀ a, used (tr ++ tr') a ↔ used tr a) as Hu.
  { intros a. rewrite used_app. specialize (Hn a). tauto. }
  split; [done|]. split; [intros a; rewrite Hu; apply Ha|]. split; [by rewrite Hu|].
  destruct (watch g) as [|d| |]; [done| | |].
  - destruct Hw as (H1 & H2 & H3 & H4). split; [done|]. split; [by apply timer_from_app|].
    split; [done|]. intros a. rewrite Hu. apply H4.
  - destruct Hw as (H1 & H2 & H3). split; [by apply timer_from_app|]. split; [done|].
    intros a. rewrite Hu. apply H3.
  - destruct Hw as (tr1 & e & tr2 & -> & Hw). exists tr1, e, (tr2 ++ tr'). by rewrite <-app_assoc.
Qed.

Lemma timed_step tr now g es now' g' :
  timed tr now g → ordered c0 tr g → step ttl true now g es now' g' → timed (tr ++ map (pair now) es) now' g'.
Proof.
  intros Ht Ho Hstep. destruct Hstep as [now' Hle Hset| |timer|].
  - rewrite app_nil_r. destruct Ht as (H0 & Ha & Hp & Hw). specialize (Hset eq_refl). unfold settled in Hset.
    split; [lia|]. split; [intros a Hu; specialize (Ha a Hu); lia|].
    destruct (watch g) as [|d| |]; try done. destruct Hset as [Hf Hd]. rewrite Hf in *.
    split; [done|]. destruct Hw as (H1 & H2 & H3 & H4). split; [done|]. split; [done|]. split; [done|].
    intros a Hu. destruct (H4 a Hu) as [?|[? _]]; [by left|done].
  - destruct (access_frame g) as (Hi & Hw & Hk & Hr). rewrite Hr.
    destruct (inner g) as [c|] eqn:E.
    + destruct Ho as [_ Ho]. rewrite E in Ho. destruct Ho as (-> & Hne & _).
      destruct Ht as (H0 & Ha & Hp & Hc). unfold timed. rewrite Hw.
      assert (used (tr ++ map (pair now) [Accessed (Some c0)]) now) as Hnow.
      { apply used_app. right. exists c0. by left. }
      assert (∀ a, used (tr ++ map (pair now) [Accessed (Some c0)]) a → used tr a ∨ a = now) as Hu.
      { intros a [?|(c & Hin)]%used_app; [by left|]. right. by apply list_elem_of_singleton in Hin as [= ->]. }
      split; [done|]. split; [intros a [Hua| ->]%Hu; [by apply Ha|lia]|]. split; [done|].
      assert (permit (access g).1 = true) as Hpt by (unfold access; by rewrite E).
      destruct (watch g) as [|d| |]; try done.
      * destruct Hc as (H1 & H2 & H3 & H4). split; [done|]. split; [by apply timer_from_app|].
        split; [done|]. intros a [Hua| ->]%Hu; [|by right].
        destruct (H4 a Hua) as [?|[_ ?]]; [by left|by right].
      * destruct Hc as (H1 & H2 & H3). split; [by apply timer_from_app|]. split; [done|].
        intros a [Hua| ->]%Hu; [by apply H3|by right].
    + apply (timed_more _ _ g); [done| |done|unfold access; by rewrite E].
      intros a (c & Hin). apply list_elem_of_singleton in Hin. done.
  - pose proof Ht as (H0 & Ha & Hp & Hw). unfold watch_turn. destruct (watch g) as [|d| |] eqn:E.
    + rewrite decide_False by done. rewrite app_nil_r. subst now. unfold timed. cbn.
      split; [done|]. split; [done|]. split; [intros _; by apply Hp|]. split; [lia|].
      split; [exists t0; by split; [left|]|]. split; [lia|]. intros a Hu. left. specialize (Ha a Hu). lia.
    + rewrite decide_False by done. rewrite app_nil_r. destruct Hw as (H1 & H2 & H3 & H4).
      destruct (permit g && negb ((d <=? now) && timer)) eqn:Hb.
      * apply andb_true_iff in Hb as [Hpt _]. specialize (Hp ltac:(done) Hpt). unfold timed. cbn.
        split; [done|]. split; [done|]. split; [done|]. split; [lia|]. split; [exists now; by split; [right|]|].
        split; [lia|]. intros a Hu. left. specialize (Ha a Hu). lia.
      * destruct (Z.leb_spec d now) as [Hd|Hd]; [|done]. assert (d = now) as -> by lia. unfold timed. cbn.
        split; [done|]. split; [done|]. split; [intros _; by apply Hp|]. split; [done|]. split; [done|].
        intros a Hu. destruct (H4 a Hu) as [?|[_ ?]]; [by left|by right].
    + rewrite decide_True by done. cbn. destruct Hw as (H1 & H2 & H3). unfold timed. cbn.
      split; [done|]. split; [intros a [?|(c & Hin)]%used_app; [by apply Ha|]; by apply list_elem_of_singleton in Hin|].
      split; [done|]. by exists tr, now, [].
    + rewrite decide_False by done. by rewrite app_nil_r.
  - destruct (keep_frame now g) as (_ & Hw & Hp). apply (timed_more _ _ g); [done| |done|done].
    intros a (c & Hin). apply list_elem_of_fmap in Hin as (e & [= _ <-] & He).
    by apply list_elem_of_fmap in He as (? & ? & _).
Qed.

Lemma timed_run tr now g : run ttl true t0 (fresh c0) tr now g → timed tr now g.
Proof.
  induction 1 as [|tr now g es now' g' Hrun IH Hs].
  - split; [done|]. split; [by intros a ?%used_nil|]. by split.
  - eapply timed_step; [done|by eapply ordered_run|done].
Qed.
End prompt.

(** ** Property *)

(** A guarded connection lives while it is used and no longer. However the tasks and
    the callers interleave, up to the reclaim every access gets the connection and
    every keepalive goes to its address; from then on no access gets anything, it is
    not reclaimed again, and at most one more keepalive - a copy taken before - is
    sent. If the watching task runs whenever it can, the connection goes exactly one
    time to live after its creation or after some use; by then every other use lies a
    whole time to live back, save one at the very instant of the deadline; and it is
    never held longer than a time to live after the last use. *)
Theorem idle_guard ttl t0 c0 prompt tr now g :
  0 ≤ ttl → run ttl prompt t0 (fresh c0) tr now g →
  match is_alive g with
  | true =>
      only c0 (Some c0) tr ∧
      (prompt = true → ∃ r, (r = t0 ∨ used tr r) ∧ now ≤ r + ttl)
  | false =>
      ∃ before e after, tr = before ++ (e, Reclaimed) :: after ∧
        only c0 (Some c0) before ∧ only c0 None after ∧ (pings after ≤ 1)%nat ∧
        (prompt = true → t0 + ttl ≤ e ∧ (∃ r, (r = t0 ∨ used before r) ∧ e = r + ttl) ∧
           ∀ a, used before a → a + ttl ≤ e ∨ a = e)
  end.
Proof.
  intros Httl Hrun. pose proof (ordered_run _ _ _ _ _ _ _ Hrun) as [_ Ho]. unfold is_alive.
  assert (prompt = true → timed ttl t0 tr now g) as Ht by (intros ->; by eapply timed_run).
  destruct (inner g) as [c|].
  - destruct Ho as (_ & Hne & Ho). split; [done|]. intros Hp. destruct (Ht Hp) as (_ & _ & _ & Hw).
    destruct (watch g) as [|d| |]; [|..|done].
    + exists t0. split; [by left|lia].
    + destruct Hw as (H1 & (r & Hr & ->) & _). by exists r.
    + destruct Hw as ((r & Hr & ->) & _). exists r. split; [done|lia].
  - destruct Ho as (Hw & tr1 & e & tr2 & -> & H1 & H2 & H3). exists tr1, e, tr2.
    split; [done|]. split; [done|]. split; [done|]. split; [lia|]. intros Hp.
    destruct (Ht Hp) as (_ & _ & _ & Hc). rewrite Hw in Hc.
    destruct Hc as (tr1' & e' & tr2' & Heq & Htf & Hle & Hid).
    assert (tr1 = tr1' ∧ e = e') as [-> ->]; [|done]. clear -Heq H1 H2.
    assert (∀ (l1 l2 : list (Z * Event)) x y r1 r2, only c0 (Some c0) l1 → only c0 None r1 →
      l1 ++ (x, Reclaimed) :: r1 = l2 ++ (y, Reclaimed) :: r2 → l1 = l2 ∧ x = y) as Huniq.
    { induction l1 as [|[t ev] l1 IH]; intros [|[t' ev'] l2] x y r1 r2 Hl Hr; cbn.
      - by intros [= -> _].
      - intros [= -> <- ->]. destruct (Hr y Reclaimed); [apply elem_of_app; right; by left|done|done].
      - intros [= -> -> _]. destruct (Hl y Reclaimed); [by left|done|done].
      - intros [= -> -> E]. destruct (IH l2 x y r1 r2) as [-> ->]; [intros t'' e'' Hin; apply (Hl t''); by right|done|done|done]. }
    by eapply Huniq.
Qed.

(** An access does not always reset the timer: when the watching task gets to run only
    once the timer is due, [select!] finds both branches ready and may take the timer,
    and the connection that was handed out at [a] is gone at its old deadline. *)
Theorem late_watch_reclaims ttl a c0 :
  0 ≤ a ≤ ttl →
  ∃ g, run ttl false 0 (fresh c0) [(a, Accessed (Some c0)); (ttl, Reclaimed)] ttl g ∧ is_alive g = false.
Proof.
  intros [Ha Hl]. set (g1 := watch_turn ttl true 0 (fresh c0)). set (g2 := (access g1).1).
  set (g3 := watch_turn ttl true ttl g2). exists (watch_turn ttl true ttl g3).
  assert (g3 = MkGuard (Some (MkConnection (addr c0) (socket c0))) true WExpired KLook) as Hg3.
  { unfold g3, g2, g1, watch_turn, access. cbn [watch fresh new inner fst permit keep]. by rewrite (proj2 (Z.leb_le (0 + ttl) ttl)) by lia. }
  split; [|by rewrite Hg3].
  assert (run ttl false 0 (fresh c0) [] a g1) as H1.
  { apply (run_step _ _ _ _ [] 0 g1 [] a); [|by apply step_time].
    apply (run_step _ _ _ _ [] 0 (fresh c0) [] 0); [apply run_start|apply (step_watch ttl false 0 (fresh c0) true)]. }
  assert (run ttl false 0 (fresh c0) [(a, Accessed (Some c0))] ttl g2) as H2.
  { apply (run_step _ _ _ _ [(a, Accessed (Some c0))] a g2 [] ttl); [|by apply step_time].
    pose proof (run_step _ _ _ _ [] a g1 _ a g2 H1 (step_access ttl false a g1)) as H. cbn in H.
    by destruct c0. }
  pose proof (run_step _ _ _ _ _ ttl g2 [] ttl g3 H2 (step_watch ttl false ttl g2 true)) as H3.
  rewrite Hg3 in H3 |- *. exact (run_step _ _ _ _ _ ttl _ [Reclaimed] ttl _ H3 (step_watch ttl false ttl _ true)).
Qed.

Definition ex_conn : Connection := MkConnection (SockV4 (ipv4 203 0 113 5) 41641) 7.
Definition ex_select (d : Z) (p : bool) : Guard := MkGuard (Some ex_conn) p (WSelect d) KLook.

(** Used at 60 with a time to live of 100: kept past 100, reclaimed at 160. *)
Lemma ex_prompt_run :
  run 100 true 0 (fresh ex_conn) [(60, Accessed (Some ex_conn)); (160, Reclaimed)] 160
    (MkGuard None false WStopped KLook).
Proof.
  apply (run_step _ _ _ _ [(60, Accessed (Some ex_conn))] 160 (MkGuard (Some ex_conn) false WExpired KLook)
    [Reclaimed] 160); [|apply (step_watch 100 true 160 (MkGuard (Some ex_conn) false WExpired KLook) true)].
  apply (run_step _ _ _ _ [(60, Accessed (Some ex_conn))] 160 (ex_select 160 false) [] 160);
    [|apply (step_watch 100 true 160 (ex_select 160 false) true)].
  apply (run_step _ _ _ _ [(60, Accessed (Some ex_conn))] 60 (ex_select 160 false) [] 160);
    [|apply step_time; [done|by split]].
  apply (run_step _ _ _ _ [(60, Accessed (Some ex_conn))] 60 (ex_select 100 true) [] 60);
    [|apply (step_watch 100 true 60 (ex_select 100 true) true)].
  apply (run_step _ _ _ _ [] 60 (ex_select 100 false) [Accessed (Some ex_conn)] 60);
    [|apply (step_access 100 true 60 (ex_select 100 false))].
  apply (run_step _ _ _ _ [] 0 (ex_select 100 false) [] 60); [|apply step_time; [done|by split]].
  apply (run_step _ _ _ _ [] 0 (fresh ex_conn) [] 0); [apply run_start|apply (step_watch 100 true 0 (fresh ex_conn) true)].
Qed.

Lemma idle_guard_witness :
  ∃ before e after, [(60, Accessed (Some ex_conn)); (160, Reclaimed)] = before ++ (e, Reclaimed) :: after ∧
    0 + 100 ≤ e ∧ ∀ a, used before a → a + 100 ≤ e ∨ a = e.
Proof.
  destruct (idle_guard 100 0 ex_conn true _ 160 _ ltac:(discriminate) ex_prompt_run)
    as (before & e & after & Heq & _ & _ & _ & Hp).
  destruct (Hp eq_refl) as (Hle & _ & Hid). exists before, e, after. split; [exact Heq|]. split; [exact Hle|exact Hid].
Defined.
