(* ===== verification/HostCodec.v ===== *)
(** The wire forms of [noeio-common/src/host_info.rs] and of
    [packet/report.rs]: protobuf first, with the older textual form as a
    fallback. The protobuf encoder and decoder are generated by [prost]: a class
    with its documented round-trip law. *)

From Stdlib Require Import ZArith Lia.
From Stdlib Require Import Strings.Byte Strings.Ascii Strings.String.
From stdpp Require Import base list strings.
From S2P Require Import Prelude Text NetTypes CidrModel NetText HostInfo Packet.

Local Open Scope string_scope.
Local Open Scope Z_scope.

(** ** Protobuf messages *)

Record ProtoPeerInfo : Type := MkProtoPeerInfo {
  pp_resource_version : Z;
  pp_peer_id : Z;
  pp_noeio_ip : list byte;
  pp_network_id : list byte;
  pp_nat_type : Z;
  pp_nat_addr : string;
  pp_local_addrs : list string;
  pp_advertised_routes : list string;
  pp_withdrawn : bool;
}.

Record ProtoHostInfo : Type := MkProtoHostInfo {
  ph_resource_version : Z;
  ph_nat_addr : string;
  ph_nat_type : Z;
  ph_hostname : string;
  ph_local_addrs : list string;
  ph_peers : list ProtoPeerInfo;
}.

(** Values that fit the message's field types. *)
Definition proto_peer_wf (p : ProtoPeerInfo) : Prop :=
  is_uint 64 (pp_resource_version p) ∧ is_uint 32 (pp_peer_id p) ∧ is_uint 32 (pp_nat_type p).
Definition proto_host_wf (h : ProtoHostInfo) : Prop :=
  is_uint 64 (ph_resource_version h) ∧ is_uint 32 (ph_nat_type h) ∧
  Forall proto_peer_wf (ph_peers h).

Class ProtoApi : Type := {
  encode_peer : ProtoPeerInfo → list byte;
  decode_peer : list byte → option ProtoPeerInfo;
  encode_host : ProtoHostInfo → list byte;
  decode_host : list byte → option ProtoHostInfo;
}.

Class ProtoLaws {PA : ProtoApi} : Prop := {
  decode_encode_peer : ∀ p, proto_peer_wf p → decode_peer (encode_peer p) = Some p;
  decode_encode_host : ∀ h, proto_host_wf h → decode_host (encode_host h) = Some h;
  (** a decoded message holds values of its field types *)
  decode_peer_typed : ∀ bs p, decode_peer bs = Some p → proto_peer_wf p;
  decode_host_typed : ∀ bs h, decode_host bs = Some h → proto_host_wf h;
}.

(** ** Text helpers *)

Definition COMMA : ascii := ",".
Definition PIPE : ascii := "|".
Definition SEMI : ascii := ";".

(** [s.split(sep)] *)
Fixpoint split_char (sep : ascii) (s : string) : list string :=
  match s with
  | EmptyString => [""]
  | String c s' =>
      if decide (c = sep) then "" :: split_char sep s'
      else match split_char sep s' with
           | p :: ps => String c p :: ps
           | [] => [String c ""]
           end
  end.

(** [s.splitn(n, sep)] for [n > 0] *)
Fixpoint splitn (n : nat) (sep : ascii) (s : string) : list string :=
  match n with
  | O | 1%nat => [s]
  | S m => match split_once sep s with
           | Some (a, b) => a :: splitn m sep b
           | None => [s]
           end
  end.

(** [split_once("\r\n")] *)
Fixpoint split_once_crlf (s : string) : option (string * string) :=
  match s with
  | EmptyString => None
  | String c s' =>
      match s' with
      | String d s'' =>
          if decide (c = CR ∧ d = LF) then Some ("", s'')
          else '(a, b) ← split_once_crlf s'; Some (String c a, b)
      | EmptyString => None
      end
  end.

Fixpoint splitn_crlf (n : nat) (s : string) : list string :=
  match n with
  | O | 1%nat => [s]
  | S m => match split_once_crlf s with
           | Some (a, b) => a :: splitn_crlf m b
           | None => [s]
           end
  end.

(** [list.join(sep)] *)
Fixpoint join (sep : ascii) (l : list string) : string :=
  match l with
  | [] => ""
  | [s] => s
  | s :: l' => s +:+ String sep (join sep l')
  end.

Definition from_utf8 (bs : list byte) : result string IoError :=
  if utf8_valid bs then Ok (string_of_list_byte bs) else Err (invalid_data "invalid utf-8").

Definition parse_or {A} (o : option A) : result A IoError := ok_or (invalid_data "parse") o.

Section codec.
Context {CA : CidrApi} {U : UuidApi} {PA : ProtoApi}.

Definition join_addrs (addrs : list SocketAddr) : string := join PIPE (map show_socket_addr addrs).

Definition parse_addrs (s : string) : result (list SocketAddr) IoError :=
  if bool_decide (s = "") then Ok []
  else collect (λ a, parse_or (parse_socket_addr a)) (split_char PIPE s).

(** [impl From<&PeerInfo> for String] *)
Definition peer_to_string (p : PeerInfo) : string :=
  join COMMA
    [ show_uint (PeerInfo.peer_id p);
      show_ip (PeerInfo.noeio_ip p);
      uuid_hyphenated (PeerInfo.network_id p);
      nat_type_to_string (PeerInfo.nat_type p);
      match PeerInfo.nat_addr p with Some a => show_socket_addr a | None => "" end;
      join_addrs (PeerInfo.local_addrs p);
      show_uint (PeerInfo.resource_version p) ].

Definition parse_opt_addr (s : string) : result (option SocketAddr) IoError :=
  if bool_decide (s = "") then Ok None
  else let? a := parse_or (parse_socket_addr s) in Ok (Some a).

(** [impl TryFrom<&str> for PeerInfo] *)
Definition peer_from_str (entry : string) : result PeerInfo IoError :=
  match splitn 7 COMMA entry with
  | peer_id_str :: vip_str :: network_str :: nat_type_str :: nat_addr_str :: rest =>
      let local_addrs_str := nth 0 rest "" in
      let? resource_version := parse_or (parse_uint 64 (nth 1 rest "0")) in
      let? peer_id := parse_or (parse_uint 32 peer_id_str) in
      let? vip := parse_or (parse_ip vip_str) in
      let? nat_type := nat_type_from_str nat_type_str in
      let? nat_addr := parse_opt_addr nat_addr_str in
      let? local_addrs := parse_addrs local_addrs_str in
      let? peer := PeerInfo.new peer_id vip network_str in
      Ok (PeerInfo.with_local_addrs (PeerInfo.with_nat_addr (PeerInfo.with_nat_type
            (PeerInfo.with_resource_version peer resource_version) nat_type) nat_addr) local_addrs)
  | _ => Err (invalid_data "invalid peer entry")
  end.

Definition ip_octets (i : IpAddr) : list byte :=
  match i with IpV4 a => be_bytes 4 a | IpV6 a => be_bytes 16 a end.

(** [impl From<&PeerInfo> for ProtoPeerInfo] *)
Definition peer_to_proto (p : PeerInfo) : ProtoPeerInfo := {|
  pp_resource_version := PeerInfo.resource_version p;
  pp_peer_id := PeerInfo.peer_id p;
  pp_noeio_ip := ip_octets (PeerInfo.noeio_ip p);
  pp_network_id := PeerInfo.network_id p;
  pp_nat_type := nat_type_to_u8 (PeerInfo.nat_type p);
  pp_nat_addr := match PeerInfo.nat_addr p with Some a => show_socket_addr a | None => "" end;
  pp_local_addrs := map show_socket_addr (PeerInfo.local_addrs p);
  pp_advertised_routes := map cidr_to_string (PeerInfo.advertised_routes p);
  pp_withdrawn := PeerInfo.withdrawn p |}.

Definition ip_from_octets (bs : list byte) : result IpAddr IoError :=
  if (length bs =? 4)%nat then Ok (IpV4 (be_val bs))
  else if (length bs =? 16)%nat then Ok (IpV6 (be_val bs))
  else Err (invalid_data "invalid noeio ip").

(** [impl TryFrom<ProtoPeerInfo> for PeerInfo] *)
Definition peer_from_proto (m : ProtoPeerInfo) : result PeerInfo IoError :=
  let? noeio_ip := ip_from_octets (pp_noeio_ip m) in
  if negb (length (pp_network_id m) =? 16)%nat then Err (invalid_data "invalid network id") else
  let? nat_addr := parse_opt_addr (pp_nat_addr m) in
  let? local_addrs := collect (λ a, parse_or (parse_socket_addr a)) (pp_local_addrs m) in
  let? routes := collect (λ c, let? c := parse_or (cidr_parse c) in Ok (cidr_network c))
                   (pp_advertised_routes m) in
  let? nat_type := nat_type_from_proto (pp_nat_type m) in
  Ok (PeerInfo.MkPeerInfo (pp_resource_version m) (pp_peer_id m) noeio_ip (pp_network_id m)
        nat_type nat_addr local_addrs routes (pp_withdrawn m)).

Definition peer_to_bytes (p : PeerInfo) : list byte := encode_peer (peer_to_proto p).

(** [impl TryFrom<&[u8]> for PeerInfo] *)
Definition peer_from_bytes (data : list byte) : result PeerInfo IoError :=
  match decode_peer data with
  | Some m =>
      match peer_from_proto m with
      | Ok p => Ok p
      | Err _ => let? s := from_utf8 data in peer_from_str s
      end
  | None => let? s := from_utf8 data in peer_from_str s
  end.

Definition host_to_proto (h : HostInfo) : ProtoHostInfo := {|
  ph_resource_version := HostInfo.resource_version h;
  ph_nat_addr := show_socket_addr (HostInfo.nat_addr h);
  ph_nat_type := nat_type_to_u8 (HostInfo.nat_type h);
  ph_hostname := HostInfo.hostname h;
  ph_local_addrs := map show_socket_addr (HostInfo.local_addrs h);
  ph_peers := map peer_to_proto (HostInfo.peers h) |}.

Definition host_to_bytes (h : HostInfo) : list byte := encode_host (host_to_proto h).

Definition host_from_proto (m : ProtoHostInfo) : result HostInfo IoError :=
  let? nat_addr := parse_or (parse_socket_addr (ph_nat_addr m)) in
  let? nat_type := nat_type_from_proto (ph_nat_type m) in
  let? local_addrs := collect (λ a, parse_or (parse_socket_addr a)) (ph_local_addrs m) in
  let? peers := collect peer_from_proto (ph_peers m) in
  Ok (HostInfo.MkHostInfo (ph_resource_version m) nat_addr nat_type (ph_hostname m)
        local_addrs peers).

Definition host_from_legacy (data : list byte) : result HostInfo IoError :=
  let? s := from_utf8 data in
  match splitn_crlf 6 s with
  | addr_str :: nat_type_str :: hostname :: rest =>
      let networks_str := nth 0 rest "" in
      let local_addrs_str := nth 1 rest "" in
      let? resource_version := parse_or (parse_uint 64 (trim (nth 2 rest "0"))) in
      let? nat_addr := parse_or (parse_socket_addr addr_str) in
      let? nat_type := nat_type_from_str nat_type_str in
      let? local_addrs := parse_addrs local_addrs_str in
      let? networks := if bool_decide (networks_str = "") then Ok []
                       else collect peer_from_str (split_char SEMI networks_str) in
      Ok (HostInfo.MkHostInfo resource_version nat_addr nat_type hostname local_addrs networks)
  | _ => Err (invalid_data "missing field")
  end.

(** [impl TryFrom<&[u8]> for HostInfo] *)
Definition host_from_bytes (data : list byte) : result HostInfo IoError :=
  match decode_host data with
  | Some m => match host_from_proto m with Ok h => Ok h | Err _ => host_from_legacy data end
  | None => host_from_legacy data
  end.
End codec.

(** ** [ReportPayload] *)

Module ReportPayload.
Section report.
Context {CA : CidrApi} {U : UuidApi} {PA : ProtoApi}.

Record ReportPayload : Type := MkReport {
  token : string;
  host_info : HostInfo;
}.

Definition to_bytes (r : ReportPayload) : list byte :=
  TokenFrame.encode (list_byte_of_string (token r)) (host_to_bytes (host_info r)).

Definition try_from (data : list byte) : result ReportPayload IoError :=
  match TokenFrame.decode data with
  | Err e => Err (invalid_data e)
  | Ok (token, inner) =>
      let? h := host_from_bytes inner in
      Ok (MkReport (string_of_list_byte token) h)
  end.
End report.
End ReportPayload.
Notation ReportPayload := ReportPayload.ReportPayload.

(** ** Facts *)

Lemma collect_map {A B C E} (f : B → result C E) (g : A → B) (h : A → C) l :
  Forall (λ x, f (g x) = Ok (h x)) l → collect f (map g l) = Ok (map h l).
Proof. induction 1 as [|x l Hx _ IH]; [done|]. cbn [map collect]. by rewrite Hx, IH. Qed.

Lemma collect_map_id {A B E} (f : B → result A E) (g : A → B) l :
  Forall (λ x, f (g x) = Ok x) l → collect f (map g l) = Ok l.
Proof. intros Hl. rewrite (collect_map f g (λ x, x)) by done. by rewrite map_id. Qed.

Lemma collect_Forall {A B E} (f : A → result B E) (P : B → Prop) l bs :
  collect f l = Ok bs → (∀ a b, a ∈ l → f a = Ok b → P b) → Forall P bs.
Proof.
  revert bs. induction l as [|a l IH]; cbn [collect]; intros bs.
  - by intros [= <-].
  - destruct (f a) as [b|] eqn:Hf; [|done]. destruct (collect f l) as [bs'|] eqn:Hc; [|done].
    intros [= <-] HP. constructor; [by eapply (HP a); [left|]|]. apply IH; [done|].
    intros a' b' Hin. apply HP. by right.
Qed.

Lemma parse_or_sock a : sock_wf a → parse_or (parse_socket_addr (show_socket_addr a)) = Ok a.
Proof. intros Ha. by rewrite parse_show_sock. Qed.

Lemma parse_opt_addr_show o :
  (∀ a, o = Some a → sock_wf a) →
  parse_opt_addr (match o with Some a => show_socket_addr a | None => "" end) = Ok o.
Proof.
  intros Ho. unfold parse_opt_addr. destruct o as [a|]; [|done].
  rewrite bool_decide_eq_false_2 by (apply show_sock_ne; auto). by rewrite parse_or_sock by auto.
Qed.

(** ** Splitting *)

Definition no_char (sep : ascii) (s : string) : Prop :=
  string_all (λ c, negb (bool_decide (c = sep))) s = true.

Lemma no_char_impl sep f s :
  f sep = false → string_all f s = true → no_char sep s.
Proof.
  intros Hsep. apply string_all_impl. intros c Hc.
  case_bool_decide; [congruence|done].
Qed.

Lemma split_once_no sep s : no_char sep s → split_once sep s = None.
Proof.
  unfold no_char. induction s as [|c s IH]; [done|]. cbn [string_all split_once].
  intros [Hc Hs]%andb_true_iff. apply negb_true_iff, bool_decide_eq_false in Hc.
  rewrite decide_False by done. by rewrite IH.
Qed.

Lemma splitn_join sep n l :
  l ≠ [] → (length l ≤ n)%nat → Forall (no_char sep) l → splitn n sep (join sep l) = l.
Proof.
  revert n. induction l as [|s l IH]; intros n Hne Hn Hl; [done|].
  apply Forall_cons in Hl as [Hs Hl]. destruct n as [|n]; [simpl in Hn; lia|].
  destruct l as [|t l].
  - cbn [join splitn]. rewrite split_once_no by done. by destruct n.
  - change (join sep (s :: t :: l)) with (s +:+ String sep (join sep (t :: l))).
    cbn [splitn]. destruct n as [|n]; [simpl in Hn; lia|].
    rewrite (split_once_app (λ c, negb (bool_decide (c = sep)))); [|by rewrite bool_decide_eq_true_2|done].
    f_equal. apply IH; [done| |done]. simpl in *. lia.
Qed.

Lemma split_char_no sep s : no_char sep s → split_char sep s = [s].
Proof.
  unfold no_char. induction s as [|c s IH]; [done|]. cbn [string_all split_char].
  intros [Hc Hs]%andb_true_iff. apply negb_true_iff, bool_decide_eq_false in Hc.
  rewrite decide_False by done. by rewrite IH.
Qed.

Lemma split_char_app sep s t :
  no_char sep s → split_char sep (s +:+ String sep t) = s :: split_char sep t.
Proof.
  unfold no_char. induction s as [|c s IH].
  - intros _. change ("" +:+ String sep t) with (String sep t). cbn [split_char].
    by rewrite decide_True.
  - cbn [string_all]. intros [Hc Hs]%andb_true_iff.
    apply negb_true_iff, bool_decide_eq_false in Hc.
    change (String c s +:+ String sep t) with (String c (s +:+ String sep t)). cbn [split_char].
    rewrite decide_False by done. by rewrite IH.
Qed.

Lemma split_char_join sep l :
  l ≠ [] → Forall (no_char sep) l → split_char sep (join sep l) = l.
Proof.
  induction l as [|s l IH]; intros Hne Hl; [done|]. apply Forall_cons in Hl as [Hs Hl].
  destruct l as [|t l]; [by apply split_char_no|].
  change (join sep (s :: t :: l)) with (s +:+ String sep (join sep (t :: l))).
  rewrite split_char_app by done. by rewrite IH.
Qed.

Lemma join_no_char c sep l :
  c ≠ sep → Forall (no_char c) l → no_char c (join sep l).
Proof.
  intros Hne. induction 1 as [|s l Hs Hl IH]; [done|]. destruct l as [|t l]; [done|].
  change (join sep (s :: t :: l)) with (s +:+ String sep (join sep (t :: l))).
  unfold no_char in *. rewrite string_all_app, Hs. cbn [string_all].
  by rewrite IH, bool_decide_eq_false_2 by done.
Qed.

Lemma join_ne sep l : l ≠ [] → Forall (λ s, s ≠ "") l → join sep l ≠ "".
Proof.
  intros Hne Hl. destruct Hl as [|s l Hs _]; [done|]. destruct l as [|t l]; [done|].
  change (join sep (s :: t :: l)) with (s +:+ String sep (join sep (t :: l))).
  by destruct s.
Qed.

Section wire.
Context {CA : CidrApi} {CL : CidrLaws} {U : UuidApi} {UL : UuidLaws} {PA : ProtoApi} {PL : ProtoLaws}.

(** A peer as the program builds them: numbers in range, addresses without a flow
    label, a sixteen-byte network id and routes in network form. *)
Definition peer_wf (p : PeerInfo) : Prop :=
  is_uint 64 (PeerInfo.resource_version p) ∧ is_uint 32 (PeerInfo.peer_id p) ∧
  ip_wf (PeerInfo.noeio_ip p) ∧ length (PeerInfo.network_id p) = 16%nat ∧
  (∀ a, PeerInfo.nat_addr p = Some a → sock_wf a) ∧ Forall sock_wf (PeerInfo.local_addrs p) ∧
  Forall (λ c, cidr_network c = c) (PeerInfo.advertised_routes p).

Definition host_wf (h : HostInfo) : Prop :=
  is_uint 64 (HostInfo.resource_version h) ∧ sock_wf (HostInfo.nat_addr h) ∧
  Forall sock_wf (HostInfo.local_addrs h) ∧ Forall peer_wf (HostInfo.peers h).

Lemma ip_octets_roundtrip i : ip_wf i → ip_from_octets (ip_octets i) = Ok i.
Proof.
  unfold ip_from_octets, ip_wf. destruct i as [a|a]; intros Ha; cbn [ip_octets];
    rewrite length_be_bytes; cbn [Nat.eqb];
    by rewrite be_val_be_bytes_small by (unfold is_uint in *; lia).
Qed.

Lemma collect_addrs l : Forall sock_wf l →
  collect (λ a, parse_or (parse_socket_addr a)) (map show_socket_addr l) = Ok l.
Proof. intros Hl. apply collect_map_id. eapply Forall_impl; [exact Hl|]. apply parse_or_sock. Qed.

Lemma peer_proto_roundtrip p : peer_wf p → peer_from_proto (peer_to_proto p) = Ok p.
Proof.
  intros (Hv & Hid & Hip & Hn & Ha & Hl & Hr). unfold peer_from_proto, peer_to_proto.
  cbn [pp_noeio_ip pp_network_id pp_nat_addr pp_local_addrs pp_advertised_routes pp_nat_type
       pp_resource_version pp_peer_id pp_withdrawn].
  rewrite ip_octets_roundtrip, Hn by done. cbn [Nat.eqb negb].
  rewrite parse_opt_addr_show, collect_addrs by done.
  rewrite (collect_map_id _ cidr_to_string).
  - rewrite nat_type_proto_roundtrip. by destruct p.
  - eapply Forall_impl; [exact Hr|]. intros c Hc. cbn beta. rewrite cidr_parse_to_string.
    cbn [parse_or ok_or]. by rewrite Hc.
Qed.

Lemma nat_type_uint n : is_uint 32 (nat_type_to_u8 n).
Proof. destruct n; split; [discriminate|reflexivity|discriminate|reflexivity]. Qed.

Lemma peer_to_proto_wf p : peer_wf p → proto_peer_wf (peer_to_proto p).
Proof.
  intros (Hv & Hid & _). split_and!; [done|done|]. apply nat_type_uint.
Qed.

Lemma host_roundtrip h : host_wf h → host_from_bytes (host_to_bytes h) = Ok h.
Proof.
  intros (Hv & Ha & Hl & Hp). unfold host_from_bytes, host_to_bytes.
  rewrite decode_encode_host.
  - unfold host_from_proto, host_to_proto.
    cbn [ph_nat_addr ph_nat_type ph_local_addrs ph_peers ph_resource_version ph_hostname].
    rewrite parse_or_sock, nat_type_proto_roundtrip, collect_addrs by done.
    rewrite (collect_map_id _ peer_to_proto); [by destruct h|].
    eapply Forall_impl; [exact Hp|]. apply peer_proto_roundtrip.
  - split_and!; [done|apply nat_type_uint|].
    apply Forall_forall. intros m Hm. cbn in Hm.
    apply list_elem_of_In, in_map_iff in Hm as (p & <- & Hin).
    apply peer_to_proto_wf. rewrite Forall_forall in Hp. apply Hp. by apply list_elem_of_In.
Qed.

(** Whatever arrives, a decoded peer has a sixteen-byte network id and routes in
    network form. *)
Definition decoded_ok (p : PeerInfo) : Prop :=
  length (PeerInfo.network_id p) = 16%nat ∧
  Forall (λ c, cidr_network c = c) (PeerInfo.advertised_routes p).

Lemma peer_from_proto_ok m p : peer_from_proto m = Ok p → decoded_ok p.
Proof.
  unfold peer_from_proto. destruct (ip_from_octets _); [|done].
  destruct (Nat.eqb_spec (length (pp_network_id m)) 16) as [Hn|]; [|done]. cbn [negb].
  destruct (parse_opt_addr _); [|done]. destruct (collect _ (pp_local_addrs m)); [|done].
  destruct (collect _ (pp_advertised_routes m)) as [routes|] eqn:Hr; [|done].
  destruct (nat_type_from_proto _); [|done]. intros [= <-]. split; [done|].
  cbn. eapply collect_Forall; [exact Hr|]. intros s c _. cbn beta.
  destruct (parse_or (cidr_parse s)); [|done]. intros [= <-]. apply cidr_network_idemp.
Qed.

Lemma peer_from_str_ok s p : peer_from_str s = Ok p → decoded_ok p.
Proof.
  unfold peer_from_str. repeat (case_match; try done; []). intros [= <-].
  match goal with H : PeerInfo.new _ _ _ = Ok _ |- _ => revert H end.
  unfold PeerInfo.new. destruct (uuid_parse _) as [bs|] eqn:Hu; [|done].
  intros [= <-]. split; [exact (uuid_parse_length _ _ Hu)|]. constructor.
Qed.

Lemma peer_from_bytes_ok data p : peer_from_bytes data = Ok p → decoded_ok p.
Proof.
  assert (∀ r : result string IoError,
    (let? s := r in peer_from_str s) = Ok p → decoded_ok p) as Hs.
  { intros [s|e]; [apply peer_from_str_ok|done]. }
  unfold peer_from_bytes. destruct (decode_peer data) as [m|]; [|apply Hs].
  destruct (peer_from_proto m) as [q|] eqn:Hq; [|apply Hs]. intros [= <-].
  by eapply peer_from_proto_ok.
Qed.

(** ** The textual entry *)

Lemma addr_no_sep sep s : addr_char sep = false → string_all addr_char s = true → no_char sep s.
Proof. apply no_char_impl. Qed.

Lemma digits_no_sep sep s : is_digit sep = false → string_all is_digit s = true → no_char sep s.
Proof. apply no_char_impl. Qed.

Lemma show_ip_chars i : ip_wf i → string_all addr_char (show_ip i) = true.
Proof. destruct i; [apply show_ipv4_chars|intros _; apply show_ipv6_chars]. Qed.

Lemma uuid_no_comma bs : no_char COMMA (uuid_hyphenated bs).
Proof. eapply no_char_impl; [|apply uuid_hyphenated_chars]. reflexivity. Qed.

Lemma join_addrs_no_comma l : Forall sock_wf l → no_char COMMA (join_addrs l).
Proof.
  intros Hl. apply join_no_char; [done|]. apply Forall_fmap. eapply Forall_impl; [exact Hl|].
  intros a Ha. apply addr_no_sep; [done|by apply show_sock_chars].
Qed.

Lemma parse_join_addrs l : Forall sock_wf l → parse_addrs (join_addrs l) = Ok l.
Proof.
  intros Hl. unfold parse_addrs, join_addrs. destruct l as [|a l]; [done|].
  rewrite bool_decide_eq_false_2.
  - rewrite split_char_join; [by apply collect_addrs|done|].
    apply Forall_fmap. eapply Forall_impl; [exact Hl|].
    intros b Hb. apply addr_no_sep; [done|by apply show_sock_chars].
  - apply join_ne; [done|]. apply Forall_fmap. eapply Forall_impl; [exact Hl|]. apply show_sock_ne.
Qed.

Lemma peer_string_roundtrip p : peer_wf p →
  peer_from_str (peer_to_string p) =
    Ok (PeerInfo.MkPeerInfo (PeerInfo.resource_version p) (PeerInfo.peer_id p)
          (PeerInfo.noeio_ip p) (PeerInfo.network_id p) (PeerInfo.nat_type p)
          (PeerInfo.nat_addr p) (PeerInfo.local_addrs p) [] false).
Proof.
  intros (Hv & Hid & Hip & Hn & Ha & Hl & Hr). unfold peer_from_str, peer_to_string.
  rewrite splitn_join; [|done|simpl; lia|].
  - cbn [nth]. rewrite (parse_show_uint 64), (parse_show_uint 32) by (done || lia).
    cbn [parse_or ok_or]. rewrite parse_show_ip by done. cbn [parse_or ok_or].
    rewrite nat_type_str_roundtrip, parse_opt_addr_show, parse_join_addrs by done.
    unfold PeerInfo.new. by rewrite uuid_parse_hyphenated.
  - repeat constructor.
    + apply digits_no_sep; [done|]. apply show_uint_digits, Hid.
    + apply addr_no_sep; [done|by apply show_ip_chars].
    + apply uuid_no_comma.
    + by destruct (PeerInfo.nat_type p).
    + destruct (PeerInfo.nat_addr p) as [a|]; [|done].
      apply addr_no_sep; [done|]. apply show_sock_chars. by apply Ha.
    + by apply join_addrs_no_comma.
    + apply digits_no_sep; [done|]. apply show_uint_digits, Hv.
Qed.
End wire.
