(* ===== verification/CodecModel.v ===== *)
(** Concrete instances of the third-party interfaces [UuidApi] and [ProtoApi] that
    satisfy their laws: what the witnesses compute with. *)

From Stdlib Require Import ZArith Lia.
From Stdlib Require Import Strings.Byte Strings.Ascii Strings.String.
From stdpp Require Import base list strings countable.
From S2P Require Import Prelude Text NetTypes NetText HostInfo Packet HostCodec.

Local Open Scope string_scope.
Local Open Scope Z_scope.

(** ** Identifiers as thirty-two hexadecimal digits *)

Definition byte_hex (b : byte) : list ascii :=
  [hex_char (Z_of_byte b / 16); hex_char (Z_of_byte b mod 16)].

Fixpoint unhex (cs : list ascii) : option (list byte) :=
  match cs with
  | [] => Some []
  | c :: d :: cs' =>
      h ← to_digit 16 c; l ← to_digit 16 d; bs ← unhex cs';
      Some (byte_of_Z (h * 16 + l) :: bs)
  | [_] => None
  end.

#[export] Instance hex_uuid : UuidApi := {|
  uuid_parse s :=
    bs ← unhex (list_ascii_of_string s);
    if (length bs =? 16)%nat then Some bs else None;
  uuid_hyphenated bs := string_of_list_ascii (flat_map byte_hex bs) |}.

Lemma byte_nibbles b : 0 ≤ Z_of_byte b / 16 < 16 ∧ 0 ≤ Z_of_byte b mod 16 < 16.
Proof.
  pose proof (Z_of_byte_bound b). split; [|apply Z.mod_pos_bound; lia].
  split; [apply Z.div_pos|apply Z.div_lt_upper_bound]; lia.
Qed.

Lemma unhex_hex bs : unhex (flat_map byte_hex bs) = Some bs.
Proof.
  induction bs as [|b bs IH]; [done|]. destruct (byte_nibbles b) as [Hh Hl].
  cbn [flat_map byte_hex app unhex]. rewrite !hex_char_digit, IH by done.
  cbn [mbind option_bind]. rewrite Z.mul_comm, <-Z.div_mod by lia. by rewrite byte_of_Z_of_byte.
Qed.

#[export] Instance hex_uuid_laws : UuidLaws.
Proof.
  constructor; cbn [uuid_parse uuid_hyphenated hex_uuid].
  - intros s bs. destruct (unhex _) as [l|]; [|done]. cbn [mbind option_bind].
    destruct (Nat.eqb_spec (length l) 16); [|done]. by intros [= <-].
  - intros bs Hl. rewrite list_ascii_of_string_of_list_ascii, unhex_hex.
    cbn [mbind option_bind]. by rewrite Hl.
  - intros bs. induction bs as [|b bs IH]; [done|]. destruct (byte_nibbles b) as [Hh Hl].
    cbn [flat_map byte_hex app string_of_list_ascii string_all]. rewrite IH, andb_true_r.
    assert (∀ d, 0 ≤ d < 16 →
      (((48 <=? code (hex_char d)) && (code (hex_char d) <=? 57))
       || ((97 <=? code (hex_char d)) && (code (hex_char d) <=? 102))
       || (code (hex_char d) =? 45)) = true) as Hd.
    { intros d Hdb. assert (d ∈ [0;1;2;3;4;5;6;7;8;9;10;11;12;13;14;15]) as Hin.
      { rewrite !elem_of_cons. lia. }
      repeat (apply elem_of_cons in Hin as [->|Hin]; [reflexivity|]). by apply elem_of_nil in Hin. }
    by rewrite !Hd.
Qed.

(** ** Messages as tagged bytes *)

(** A parser returns a value and what follows it; a printer is right for a value when
    its parser reads the value back whatever follows. *)
Definition parser (A : Type) : Type := list byte → option (A * list byte).
Definition reads {A} (p : parser A) (e : A → list byte) (a : A) : Prop :=
  ∀ rest, p (e a ++ rest)%list = Some (a, rest).

Definition e_byte (b : byte) : list byte := [b].
Definition p_byte : parser byte := λ bs, match bs with b :: r => Some (b, r) | [] => None end.

Definition e_num (z : Z) : list byte := be_bytes 8 z.
Definition p_num : parser Z := λ bs, Some (be_val (take 8 bs), drop 8 bs).
Definition p_u32 : parser Z := λ bs, '(z, r) ← p_num bs; if z <? 2 ^ 32 then Some (z, r) else None.

(** A list: every element after a one, a zero at the end. *)
Fixpoint e_list {A} (e : A → list byte) (l : list A) : list byte :=
  match l with [] => [x00] | a :: l => x01 :: (e a ++ e_list e l)%list end.
Fixpoint p_list_fuel {A} (fuel : nat) (p : parser A) : parser (list A) := λ bs,
  match fuel, bs with
  | S n, x00 :: r => Some ([], r)
  | S n, x01 :: r => '(a, r) ← p r; '(l, r) ← p_list_fuel n p r; Some (a :: l, r)
  | _, _ => None
  end.
Definition p_list {A} (p : parser A) : parser (list A) := λ bs, p_list_fuel (length bs) p bs.

Definition e_string (s : string) : list byte := e_list e_byte (list_byte_of_string s).
Definition p_string : parser string := λ bs,
  '(l, r) ← p_list p_byte bs; Some (string_of_list_byte l, r).
Definition e_bool (b : bool) : list byte := [if b then x01 else x00].
Definition p_bool : parser bool := λ bs, '(b, r) ← p_byte bs; Some (bool_decide (b = x01), r).

Lemma reads_byte b : reads p_byte e_byte b.
Proof. done. Qed.
Lemma reads_bool b : reads p_bool e_bool b.
Proof. by destruct b. Qed.
Lemma reads_num z : is_uint 64 z → reads p_num e_num z.
Proof.
  intros Hz rest. unfold p_num, e_num. rewrite take_app_length', drop_app_length' by (by rewrite length_be_bytes).
  rewrite be_val_be_bytes_small; [done|]. unfold is_uint in Hz. change (256 ^ Z.of_nat 8) with (2 ^ 64). lia.
Qed.
Lemma reads_u32 z : is_uint 32 z → reads p_u32 e_num z.
Proof.
  intros Hz rest. unfold p_u32. rewrite reads_num by (unfold is_uint in *; lia). cbn.
  destruct (Z.ltb_spec z (2 ^ 32)); [done|unfold is_uint in *; lia].
Qed.

Lemma length_e_list {A} (e : A → list byte) l : (length l < length (e_list e l))%nat.
Proof. induction l as [|a l IH]; cbn; [lia|]. rewrite length_app. lia. Qed.

Lemma reads_list_fuel {A} fuel (p : parser A) e l rest :
  Forall (reads p e) l → (length l < fuel)%nat →
  p_list_fuel fuel p (e_list e l ++ rest)%list = Some (l, rest).
Proof.
  intros Hl. revert fuel. induction Hl as [|a l Ha Hl IH]; intros [|fuel] Hf; cbn in *; try lia; [done|].
  rewrite <-app_assoc, Ha. cbn. rewrite IH by lia. done.
Qed.

Lemma reads_list {A} (p : parser A) e l : Forall (reads p e) l → reads (p_list p) (e_list e) l.
Proof.
  intros Hl rest. apply reads_list_fuel; [done|]. rewrite length_app.
  pose proof (length_e_list e l). lia.
Qed.

Lemma reads_string s : reads p_string e_string s.
Proof.
  intros rest. unfold p_string, e_string. rewrite reads_list by (apply Forall_true, reads_byte).
  cbn. by rewrite string_of_list_byte_of_string.
Qed.
Lemma reads_strings l : reads (p_list p_string) (e_list e_string) l.
Proof. apply reads_list, Forall_true, reads_string. Qed.
Lemma reads_bytes l : reads (p_list p_byte) (e_list e_byte) l.
Proof. apply reads_list, Forall_true, reads_byte. Qed.

Definition e_peer (p : ProtoPeerInfo) : list byte :=
  (e_num (pp_resource_version p) ++ e_num (pp_peer_id p) ++ e_list e_byte (pp_noeio_ip p) ++
   e_list e_byte (pp_network_id p) ++ e_num (pp_nat_type p) ++ e_string (pp_nat_addr p) ++
   e_list e_string (pp_local_addrs p) ++ e_list e_string (pp_advertised_routes p) ++
   e_bool (pp_withdrawn p))%list.
Definition p_peer : parser ProtoPeerInfo := λ bs,
  '(a, bs) ← p_num bs; '(b, bs) ← p_u32 bs; '(c, bs) ← p_list p_byte bs;
  '(d, bs) ← p_list p_byte bs; '(e, bs) ← p_u32 bs; '(f, bs) ← p_string bs;
  '(g, bs) ← p_list p_string bs; '(h, bs) ← p_list p_string bs; '(i, bs) ← p_bool bs;
  Some (MkProtoPeerInfo a b c d e f g h i, bs).

Definition e_host (h : ProtoHostInfo) : list byte :=
  (e_num (ph_resource_version h) ++ e_string (ph_nat_addr h) ++ e_num (ph_nat_type h) ++
   e_string (ph_hostname h) ++ e_list e_string (ph_local_addrs h) ++
   e_list e_peer (ph_peers h))%list.
Definition p_host : parser ProtoHostInfo := λ bs,
  '(a, bs) ← p_num bs; '(b, bs) ← p_string bs; '(c, bs) ← p_u32 bs; '(d, bs) ← p_string bs;
  '(e, bs) ← p_list p_string bs; '(f, bs) ← p_list p_peer bs;
  Some (MkProtoHostInfo a b c d e f, bs).

Ltac read_field lem := rewrite lem by done; cbn [mbind option_bind].

Lemma reads_peer p : proto_peer_wf p → reads p_peer e_peer p.
Proof.
  intros (Hv & Hi & Hn) rest. unfold p_peer, e_peer. rewrite <-!app_assoc.
  read_field reads_num. read_field reads_u32. read_field reads_bytes. read_field reads_bytes.
  read_field reads_u32. read_field reads_string. read_field reads_strings.
  read_field reads_strings. read_field reads_bool. by destruct p.
Qed.

Lemma reads_host h : proto_host_wf h → reads p_host e_host h.
Proof.
  intros (Hv & Hn & Hp) rest. unfold p_host, e_host. rewrite <-!app_assoc.
  read_field reads_num. read_field reads_string. read_field reads_u32. read_field reads_string.
  read_field reads_strings. rewrite reads_list; [by destruct h|].
  eapply List.Forall_impl; [apply reads_peer|exact Hp].
Qed.

(** *** What is read fits its type *)

Definition gives {A} (P : A → Prop) (p : parser A) : Prop := ∀ bs a r, p bs = Some (a, r) → P a.

Lemma gives_num : gives (is_uint 64) p_num.
Proof.
  intros bs a r [= <- _]. pose proof (be_val_bound (take 8 bs)) as Hb. unfold is_uint.
  assert (256 ^ Z.of_nat (length (take 8 bs)) ≤ 2 ^ 64); [|lia].
  change (2 ^ 64) with (256 ^ 8). apply Z.pow_le_mono_r; [lia|]. rewrite length_take. lia.
Qed.

Lemma gives_u32 : gives (is_uint 32) p_u32.
Proof.
  intros bs a r. unfold p_u32. destruct (p_num bs) as [[z s]|] eqn:Hn; [|done].
  apply gives_num in Hn. cbn. destruct (Z.ltb_spec z (2 ^ 32)); [|done]. intros [= <- _].
  unfold is_uint in *. lia.
Qed.

Lemma gives_list {A} (P : A → Prop) p : gives P p → gives (Forall P) (p_list p).
Proof.
  intros Hp bs l r. unfold p_list. revert bs l r.
  assert (∀ n, gives (Forall P) (p_list_fuel n p)) as H; [|intros bs; apply H].
  induction n as [|n IH]; intros bs l r; cbn [p_list_fuel]; [done|].
  destruct bs as [|[] bs]; try done; [by intros [= <- _]|].
  destruct (p bs) as [[a s]|] eqn:Ha; [|done]. cbn [mbind option_bind].
  destruct (p_list_fuel n p s) as [[l' t]|] eqn:Hl; [|done]. intros [= <- _].
  constructor; [by eapply Hp|by eapply IH].
Qed.

Lemma bind_inv {A B} (o : option A) (f : A → option B) b : o ≫= f = Some b → ∃ a, o = Some a ∧ f a = Some b.
Proof. destruct o; [eauto|done]. Qed.

Ltac open_field H :=
  let a := fresh "a" in let r := fresh "r" in let Hf := fresh "Hf" in
  apply bind_inv in H as ([a r] & Hf & H).

Lemma gives_peer : gives proto_peer_wf p_peer.
Proof.
  intros bs p r H. unfold p_peer in H. do 9 open_field H. injection H as <- _.
  split_and!; [by eapply gives_num|by eapply gives_u32|by eapply gives_u32].
Qed.

Lemma gives_host : gives proto_host_wf p_host.
Proof.
  intros bs h r H. unfold p_host in H. do 6 open_field H. injection H as <- _.
  split_and!; [by eapply gives_num|by eapply gives_u32|].
  eapply gives_list; [exact gives_peer|done].
Qed.

(** The whole input must be read. *)
Definition whole {A} (p : parser A) (bs : list byte) : option A :=
  match p bs with Some (a, []) => Some a | _ => None end.

Lemma whole_reads {A} (p : parser A) e a : reads p e a → whole p (e a) = Some a.
Proof. intros Hr. unfold whole. specialize (Hr []). rewrite app_nil_r in Hr. by rewrite Hr. Qed.

#[export] Instance tlv_proto : ProtoApi := {|
  encode_peer := e_peer;
  decode_peer := whole p_peer;
  encode_host := e_host;
  decode_host := whole p_host |}.

#[export] Instance tlv_proto_laws : ProtoLaws.
Proof.
  constructor; [intros x Hx; apply whole_reads; by apply reads_peer
               |intros x Hx; apply whole_reads; by apply reads_host|..].
  - intros bs p H. unfold decode_peer, tlv_proto, whole in H.
    destruct (p_peer bs) as [[q []]|] eqn:Hq; simplify_eq. by eapply gives_peer.
  - intros bs h H. unfold decode_host, tlv_proto, whole in H.
    destruct (p_host bs) as [[q []]|] eqn:Hq; simplify_eq. by eapply gives_host.
Qed.
