(* ===== verification/Wire.v ===== *)
(** What the wire forms of identities guarantee: properties of [HostCodec]. *)

From Stdlib Require Import ZArith Lia.
From Stdlib Require Import Strings.Byte Strings.Ascii Strings.String.
From stdpp Require Import base list strings.
From S2P Require Import Prelude Text NetTypes CidrModel NetText HostInfo Packet HostCodec CodecModel.

Local Open Scope Z_scope.

(** A report survives the wire: for a host whose fields are in range and a UTF-8
    token shorter than 65536 bytes, decoding the encoded report returns the token
    and the whole [HostInfo], every peer with its routes included. *)
Theorem report_roundtrip {CA : CidrApi} {CL : CidrLaws} {U : UuidApi} {PA : ProtoApi}
    {PL : ProtoLaws} (r : ReportPayload) :
  host_wf (ReportPayload.host_info r) →
  utf8_valid (list_byte_of_string (ReportPayload.token r)) = true →
  Z.of_nat (length (list_byte_of_string (ReportPayload.token r))) < 65536 →
  ReportPayload.try_from (ReportPayload.to_bytes r) = Ok r.
Proof.
  intros Hh Hu Hl. unfold ReportPayload.try_from, ReportPayload.to_bytes.
  rewrite token_frame_decode_encode by done. rewrite host_roundtrip by done.
  rewrite string_of_list_byte_of_string. by destruct r.
Qed.

Definition ex_peer_info : PeerInfo :=
  PeerInfo.MkPeerInfo 7 42 (IpV4 (ipv4 110 20 0 9)) (replicate 16 x07) Symmetric
    (Some (SockV4 (ipv4 203 0 113 5) 2026)) [SockV6 1 4000 0 3]
    [cidr_network (cidr_new (ipv4 192 168 10 1) 24)] false.
Definition ex_report : ReportPayload :=
  ReportPayload.MkReport "eyJ.e30.sig" (HostInfo.MkHostInfo 9 (SockV4 (ipv4 203 0 113 5) 41641)
    Other "host-a" [] [ex_peer_info]).

Lemma uint_bool w z : (0 <=? z) && (z <? 2 ^ w) = true → is_uint w z.
Proof. by rewrite andb_true_iff, Z.leb_le, Z.ltb_lt. Qed.

Lemma ex_peer_info_wf : peer_wf ex_peer_info.
Proof.
  assert (∀ w z, (0 <=? z) && (z <? 2 ^ w) = true → is_uint w z) as Hu by exact uint_bool.
  split; [by apply Hu|]. split; [by apply Hu|]. split; [by apply Hu|]. split; [reflexivity|].
  split; [|split].
  - intros a [= <-]. split; by apply Hu.
  - apply Forall_singleton. split_and!; try done; by apply Hu.
  - apply Forall_singleton. apply cidr_network_idemp.
Qed.

Lemma report_roundtrip_witness :
  ReportPayload.try_from (ReportPayload.to_bytes ex_report) = Ok ex_report.
Proof.
  apply (report_roundtrip ex_report); [|reflexivity|reflexivity].
  split; [by apply uint_bool|]. split; [split; by apply uint_bool|].
  split; [constructor|]. apply Forall_singleton. exact ex_peer_info_wf.
Defined.

(** A broadcast identity survives the wire, whatever else arrives is normalised,
    and the older textual entry still reads back: protobuf decoding inverts
    encoding; any accepted bytes give a sixteen-byte network id and routes in
    network form; and the textual form returns everything but the two fields it
    predates. *)
Theorem peer_wire {CA : CidrApi} {CL : CidrLaws} {U : UuidApi} {UL : UuidLaws} {PA : ProtoApi}
    {PL : ProtoLaws} (p : PeerInfo) :
  peer_wf p →
  peer_from_bytes (peer_to_bytes p) = Ok p ∧
  (∀ data q, peer_from_bytes data = Ok q → decoded_ok q) ∧
  peer_from_str (peer_to_string p) =
    Ok (PeerInfo.with_withdrawn (PeerInfo.with_advertised_routes p []) false).
Proof.
  intros Hp. split_and!.
  - unfold peer_from_bytes, peer_to_bytes. rewrite decode_encode_peer by (by apply peer_to_proto_wf).
    by rewrite peer_proto_roundtrip.
  - apply peer_from_bytes_ok.
  - rewrite peer_string_roundtrip by done. reflexivity.
Qed.

Lemma peer_wire_witness :
  peer_from_bytes (peer_to_bytes ex_peer_info) = Ok ex_peer_info.
Proof. exact (proj1 (peer_wire ex_peer_info ex_peer_info_wf)). Defined.
