(* ===== verification/Decoded.v ===== *)
(** Whatever bytes arrive, what the decoders of [host_info.rs] accept is well formed:
    the parsers of [std::net] and of the decimal numbers give values of their types,
    so a decoded identity or report is one the program could have built itself, and
    sending it on changes nothing. *)

From Stdlib Require Import ZArith Lia.
From Stdlib Require Import Strings.Byte Strings.Ascii Strings.String.
From stdpp Require Import base list strings.
From S2P Require Import Prelude Text NetTypes CidrModel NetText HostInfo Packet HostCodec CodecModel Wire.

Local Open Scope string_scope.
Local Open Scope Z_scope.

(** ** Numbers *)

Lemma digit_val_range c d : digit_val c = Some d → 0 ≤ d < 10.
Proof.
  unfold digit_val. destruct ((48 <=? code c) && (code c <=? 57)) eqn:Hc; [|done].
  apply andb_true_iff in Hc as [H1%Z.leb_le H2%Z.leb_le]. intros [= <-]. lia.
Qed.

Lemma parse_digits_range w acc s n : 0 ≤ acc < 2 ^ w → parse_digits w acc s = Some n → is_uint w n.
Proof.
  revert acc. induction s as [|c s IH]; intros acc Hacc; cbn [parse_digits]; [by intros [= <-]|].
  destruct (digit_val c) as [d|] eqn:Hd; [|done]. apply digit_val_range in Hd. cbn [mbind option_bind].
  destruct (Z.ltb_spec (acc * 10 + d) (2 ^ w)); [|done]. apply IH. lia.
Qed.

Lemma parse_uint_range w s n : 0 ≤ w → parse_uint w s = Some n → is_uint w n.
Proof.
  intros Hw. assert (0 ≤ 0 < 2 ^ w) as H0 by (split; [lia|by apply Z.pow_pos_nonneg]).
  unfold parse_uint. destruct s as [|c s]; [done|]. repeat case_match; try done; by apply parse_digits_range.
Qed.

Lemma to_digit_nonneg radix c d : to_digit radix c = Some d → 0 ≤ d.
Proof.
  unfold to_digit. set (v := code c). intros H. repeat case_match; simplify_eq; bool_to_prop; lia.
Qed.

Lemma span_digits_nonneg radix s : Forall (λ d, 0 ≤ d) (span_digits radix s).1.
Proof.
  induction s as [|c s IH]; [done|]. cbn [span_digits]. destruct (to_digit radix c) as [d|] eqn:Hd; [|done].
  destruct (span_digits radix s) as [ds rest]. constructor; [by eapply to_digit_nonneg|done].
Qed.

Lemma fold_digits_nonneg radix ds acc :
  0 ≤ radix → 0 ≤ acc → Forall (λ d, 0 ≤ d) ds → 0 ≤ foldl (λ acc d, acc * radix + d) acc ds.
Proof. intros Hr Hacc Hds. revert acc Hacc. induction Hds as [|d ds Hd _ IH]; intros acc Hacc; cbn; [done|]. apply IH. nia. Qed.

Lemma read_number_range w radix m z s v r :
  0 ≤ radix → read_number w radix m z s = Some (v, r) → is_uint w v.
Proof.
  intros Hr. unfold read_number. pose proof (span_digits_nonneg radix s) as Hd.
  destruct (span_digits radix s) as [ds rest].
  assert (0 ≤ digits_val radix ds) by (by apply fold_digits_nonneg).
  intros H1. repeat case_match; simplify_eq; bool_to_prop; by split.
Qed.

(** ** Addresses *)

Lemma ipv4_range a b c d : is_uint 8 a → is_uint 8 b → is_uint 8 c → is_uint 8 d → is_uint 32 (ipv4 a b c d).
Proof. unfold is_uint, ipv4. lia. Qed.

Lemma read_separator_inv {A} sep n (inner : string → option (A * string)) s x :
  read_separator sep n inner s = Some x → ∃ s', inner s' = Some x.
Proof.
  destruct n; cbn [read_separator]; [eauto|]. intros (s' & _ & H)%bind_inv. eauto.
Qed.

Lemma read_octet_range s v r : read_octet s = Some (v, r) → is_uint 8 v.
Proof. by apply read_number_range. Qed.

Lemma read_ipv4_range s a r : read_ipv4 s = Some (a, r) → is_uint 32 a.
Proof.
  unfold read_ipv4. intros ([a1 s1] & H1 & H)%bind_inv. apply bind_inv in H as ([a2 s2] & H2 & H).
  apply bind_inv in H as ([a3 s3] & H3 & H). apply bind_inv in H as ([a4 s4] & H4 & H).
  apply read_separator_inv in H2 as [? H2], H3 as [? H3], H4 as [? H4]. injection H as <- _.
  apply ipv4_range; by eapply read_octet_range.
Qed.

Lemma half_groups a : is_uint 32 a → is_uint 16 (a / 2 ^ 16) ∧ is_uint 16 (a mod 2 ^ 16).
Proof.
  intros [H1 H2]. split; [split; [apply Z.div_pos; lia|apply Z.div_lt_upper_bound; lia]|].
  apply Z.mod_pos_bound. lia.
Qed.

(** At most as many groups as there are slots, each of sixteen bits. *)
Lemma read_groups_range n i s :
  Forall (is_uint 16) (read_groups n i s).1.1 ∧ (length (read_groups n i s).1.1 ≤ n)%nat.
Proof.
  revert i s. induction n as [|m IH]; intros i s; [done|]. cbn [read_groups].
  destruct (if (0 <? m)%nat then read_separator COLON i read_ipv4 s else None) as [[a rest]|] eqn:He.
  - destruct (Nat.ltb_spec 0 m); [|done]. apply read_separator_inv in He as (s' & Ha%read_ipv4_range).
    destruct (half_groups a Ha). cbn [fst length]. split; [by apply Forall_cons_2, Forall_singleton|lia].
  - destruct (read_separator COLON i read_group s) as [[g rest]|] eqn:Hg; [|split; [done|cbn; lia]].
    apply read_separator_inv in Hg as (s' & Hg). apply read_number_range in Hg; [|done].
    destruct (IH (S i) rest) as [IH1 IH2]. destruct (read_groups m (S i) rest) as [[gs b] r].
    cbn [fst] in *. split; [by constructor|]. cbn [length]. lia.
Qed.

Lemma groups_val_range gs : Forall (is_uint 16) gs → is_uint (16 * Z.of_nat (length gs)) (groups_val gs).
Proof.
  unfold groups_val.
  assert (∀ k acc, 0 ≤ k → is_uint k acc → Forall (is_uint 16) gs →
    is_uint (k + 16 * Z.of_nat (length gs)) (foldl (λ acc g, acc * 2 ^ 16 + g) acc gs)) as H.
  { induction gs as [|g gs IH]; intros k acc Hk Hacc Hgs; cbn [foldl length].
    { by rewrite Nat2Z.inj_0, Z.mul_0_r, Z.add_0_r. }
    apply Forall_cons in Hgs as [Hg Hgs].
    replace (k + 16 * Z.of_nat (S (length gs))) with ((k + 16) + 16 * Z.of_nat (length gs)) by lia.
    apply IH; [lia| |done]. unfold is_uint in *. rewrite Z.pow_add_r by lia. nia. }
  intros Hgs. apply (H 0 0); [lia|by unfold is_uint|done].
Qed.

Lemma read_ipv6_range s a r : read_ipv6 s = Some (a, r) → is_uint 128 a.
Proof.
  unfold read_ipv6. pose proof (read_groups_range 8 0 s) as [Hh Hl].
  destruct (read_groups 8 0 s) as [[head b] rest]. cbn [fst] in Hh, Hl.
  destruct (Nat.eqb_spec (length head) 8) as [E|E].
  { intros [= <- _]. pose proof (groups_val_range head Hh) as H. by rewrite E in H. }
  destruct b; [done|]. intros (s1 & _ & H)%bind_inv. apply bind_inv in H as (s2 & _ & H).
  pose proof (read_groups_range (8 - (length head + 1)) 0 s2) as [Ht Htl].
  destruct (read_groups (8 - (length head + 1)) 0 s2) as [[tail b'] rest']. cbn [fst] in Ht, Htl.
  injection H as <- _. set (gs := (head ++ replicate (8 - length head - length tail) 0 ++ tail)%list).
  assert (Forall (is_uint 16) gs) as Hgs.
  { apply Forall_app. split; [done|]. apply Forall_app. split; [|done]. apply Forall_replicate. by split. }
  assert (length gs = 8%nat) as E' by (unfold gs; rewrite !length_app, length_replicate; lia).
  pose proof (groups_val_range gs Hgs) as H. by rewrite E' in H.
Qed.

Lemma parse_with_inv {A} (inner : string → option (A * string)) s a :
  parse_with inner s = Some a → inner s = Some (a, EmptyString).
Proof. unfold parse_with. repeat case_match; congruence. Qed.

Lemma parse_ip_wf s i : parse_ip s = Some i → ip_wf i.
Proof.
  unfold parse_ip. intros H%parse_with_inv. destruct (read_ipv4 s) as [[a r]|] eqn:H4.
  - injection H as <- _. by eapply read_ipv4_range.
  - apply bind_inv in H as ([a r] & H & E). injection E as <- _. by eapply read_ipv6_range.
Qed.

Lemma read_port_range s p r : read_port s = Some (p, r) → is_uint 16 p.
Proof. unfold read_port. intros (s' & _ & H)%bind_inv. by apply read_number_range in H. Qed.

Lemma parse_socket_addr_wf s a : parse_socket_addr s = Some a → sock_wf a.
Proof.
  unfold parse_socket_addr. intros H%parse_with_inv.
  destruct (read_socket_addr_v4 s) as [[x r]|] eqn:H4.
  - injection H as <- _. unfold read_socket_addr_v4 in H4. apply bind_inv in H4 as ([ip s1] & Hi & H4).
    apply bind_inv in H4 as ([p s2] & Hp & H4). injection H4 as <- _.
    split; [by eapply read_ipv4_range|by eapply read_port_range].
  - unfold read_socket_addr_v6 in H. apply bind_inv in H as (s1 & _ & H).
    apply bind_inv in H as ([ip s2] & Hi & H).
    destruct (match read_scope_id s2 with Some r => r | None => (0, s2) end) as [scope s3] eqn:Hs.
    apply bind_inv in H as (s4 & _ & H). apply bind_inv in H as ([p s5] & Hp & H). injection H as <- _.
    split_and!; [by eapply read_ipv6_range|by eapply read_port_range|done|].
    destruct (read_scope_id s2) as [[sc r]|] eqn:Hsc; simplify_eq; [|by split].
    unfold read_scope_id in Hsc. apply bind_inv in Hsc as (s' & _ & Hn). by apply read_number_range in Hn.
Qed.

(** ** Identities and reports *)

Section decoded.
Context {CA : CidrApi} {CL : CidrLaws} {U : UuidApi} {UL : UuidLaws} {PA : ProtoApi} {PL : ProtoLaws}.

Lemma parse_or_Ok {A} (o : option A) a : parse_or o = Ok a → o = Some a.
Proof. destruct o; [by intros [= ->]|done]. Qed.

Lemma collect_addrs_wf l addrs :
  collect (λ a, parse_or (parse_socket_addr a)) l = Ok addrs → Forall sock_wf addrs.
Proof.
  intros H. eapply collect_Forall; [exact H|]. intros s a _ Ha%parse_or_Ok. by eapply parse_socket_addr_wf.
Qed.

Lemma parse_addrs_wf s addrs : parse_addrs s = Ok addrs → Forall sock_wf addrs.
Proof.
  unfold parse_addrs. case_bool_decide; [intros [= <-]; constructor|]. apply collect_addrs_wf.
Qed.

Lemma parse_opt_addr_wf s o : parse_opt_addr s = Ok o → ∀ a, o = Some a → sock_wf a.
Proof.
  unfold parse_opt_addr. case_bool_decide; [by intros [= <-]|].
  destruct (parse_or (parse_socket_addr s)) as [a|] eqn:Ha; [|done]. intros [= <-] b [= <-].
  apply parse_or_Ok in Ha. by eapply parse_socket_addr_wf.
Qed.

Lemma ip_from_octets_wf bs i : ip_from_octets bs = Ok i → ip_wf i.
Proof.
  unfold ip_from_octets. pose proof (be_val_bound bs) as Hb.
  destruct (Nat.eqb_spec (length bs) 4) as [E|]; [|destruct (Nat.eqb_spec (length bs) 16) as [E|]; [|done]];
    intros [= <-]; by rewrite E in Hb.
Qed.

Lemma peer_from_proto_wf m p : proto_peer_wf m → peer_from_proto m = Ok p → peer_wf p.
Proof.
  intros (Hv & Hid & _) H. pose proof (peer_from_proto_ok m p H) as [Hn Hr].
  unfold peer_from_proto in H. destruct (ip_from_octets _) as [ip|] eqn:Hip; [|done].
  destruct (length (pp_network_id m) =? 16)%nat; [|done]. cbn [negb] in H.
  destruct (parse_opt_addr _) as [o|] eqn:Ho; [|done]. destruct (collect _ (pp_local_addrs m)) as [las|] eqn:Hl; [|done].
  destruct (collect _ (pp_advertised_routes m)); [|done]. destruct (nat_type_from_proto _); [|done].
  injection H as <-. split_and!; [done|done|by eapply ip_from_octets_wf|done| |by eapply collect_addrs_wf|done].
  by eapply parse_opt_addr_wf.
Qed.

Lemma peer_from_str_wf s p : peer_from_str s = Ok p → peer_wf p.
Proof.
  intros H. pose proof (peer_from_str_ok s p H) as [Hn Hr]. unfold peer_from_str in H.
  destruct (splitn 7 COMMA s) as [|f1 [|f2 [|f3 [|f4 [|f5 rest]]]]]; try done.
  destruct (parse_or (parse_uint 64 _)) as [v|] eqn:Hv; [|done].
  destruct (parse_or (parse_uint 32 _)) as [id|] eqn:Hid; [|done].
  destruct (parse_or (parse_ip _)) as [vip|] eqn:Hip; [|done].
  destruct (nat_type_from_str _); [|done]. destruct (parse_opt_addr _) as [o|] eqn:Ho; [|done].
  destruct (parse_addrs _) as [las|] eqn:Hl; [|done]. unfold PeerInfo.new in H.
  destruct (uuid_parse _); [|done]. injection H as <-.
  apply parse_or_Ok, parse_uint_range in Hv; [|done]. apply parse_or_Ok, parse_uint_range in Hid; [|done].
  apply parse_or_Ok, parse_ip_wf in Hip.
  split_and!; [done|done|done|done| |by eapply parse_addrs_wf|done]. by eapply parse_opt_addr_wf.
Qed.

Lemma from_utf8_then {A} (f : string → result A IoError) data a :
  (let? s := from_utf8 data in f s) = Ok a → ∃ s, f s = Ok a.
Proof. destruct (from_utf8 data); [eauto|done]. Qed.

Lemma peer_from_bytes_wf data p : peer_from_bytes data = Ok p → peer_wf p.
Proof.
  unfold peer_from_bytes. destruct (decode_peer data) as [m|] eqn:Hm.
  - apply decode_peer_typed in Hm. destruct (peer_from_proto m) as [q|] eqn:Hq.
    + intros [= <-]. by eapply peer_from_proto_wf.
    + intros [s Hs]%from_utf8_then. by eapply peer_from_str_wf.
  - intros [s Hs]%from_utf8_then. by eapply peer_from_str_wf.
Qed.

Lemma host_from_proto_wf m h : proto_host_wf m → host_from_proto m = Ok h → host_wf h.
Proof.
  intros (Hv & _ & Hps). unfold host_from_proto.
  destruct (parse_or (parse_socket_addr _)) as [a|] eqn:Ha; [|done]. destruct (nat_type_from_proto _); [|done].
  destruct (collect _ (ph_local_addrs m)) as [las|] eqn:Hl; [|done].
  destruct (collect _ (ph_peers m)) as [ps|] eqn:Hp; [|done]. intros [= <-].
  split_and!; [done|by eapply parse_socket_addr_wf, parse_or_Ok|by eapply collect_addrs_wf|].
  eapply collect_Forall; [exact Hp|]. intros m' p Hin. apply peer_from_proto_wf.
  rewrite Forall_forall in Hps. by apply Hps.
Qed.

Lemma host_from_legacy_wf data h : host_from_legacy data = Ok h → host_wf h.
Proof.
  unfold host_from_legacy. intros [s H]%from_utf8_then.
  destruct (splitn_crlf 6 s) as [|f1 [|f2 [|f3 rest]]]; try done.
  destruct (parse_or (parse_uint 64 _)) as [v|] eqn:Hv; [|done].
  destruct (parse_or (parse_socket_addr _)) as [a|] eqn:Ha; [|done]. destruct (nat_type_from_str _); [|done].
  destruct (parse_addrs _) as [las|] eqn:Hl; [|done].
  destruct (if bool_decide _ then _ else _) as [ps|] eqn:Hp; [|done]. injection H as <-.
  apply parse_or_Ok, parse_uint_range in Hv; [|done].
  split_and!; [done|by eapply parse_socket_addr_wf, parse_or_Ok|by eapply parse_addrs_wf|].
  case_bool_decide; [by injection Hp as <-|].
  eapply collect_Forall; [exact Hp|]. intros m' p _. apply peer_from_str_wf.
Qed.

Lemma host_from_bytes_wf data h : host_from_bytes data = Ok h → host_wf h.
Proof.
  unfold host_from_bytes. destruct (decode_host data) as [m|] eqn:Hm; [|apply host_from_legacy_wf].
  apply decode_host_typed in Hm. destruct (host_from_proto m) as [q|] eqn:Hq; [|apply host_from_legacy_wf].
  intros [= <-]. by eapply host_from_proto_wf.
Qed.

Lemma report_wf data r : ReportPayload.try_from data = Ok r → host_wf (ReportPayload.host_info r).
Proof.
  unfold ReportPayload.try_from. destruct (TokenFrame.decode data) as [[tok inner]|]; [|done].
  destruct (host_from_bytes inner) as [h|] eqn:Hh; [|done]. intros [= <-]. by eapply host_from_bytes_wf.
Qed.
End decoded.

(** What [decode] accepts is well formed, and [encode] takes it to bytes that decode to it. *)
Definition canonical {A} (decode : list byte → result A IoError) (encode : A → list byte) (wf : A → Prop)
    (data : list byte) : Prop :=
  ∀ v, decode data = Ok v → wf v ∧ decode (encode v) = Ok v.

(** ** Property *)

(** Decoding is type safe and canonical: whatever bytes a daemon or a relay accepts,
    in the protobuf form or in the older textual one, every number of the result fits
    its field, every address is one that can be printed and read back, network ids
    have sixteen bytes and routes are in network form - so what was accepted is a
    fixed point of the wire: encoding it and decoding again returns it unchanged. *)
Theorem decoded_canonical {CA : CidrApi} {CL : CidrLaws} {U : UuidApi} {UL : UuidLaws} {PA : ProtoApi}
    {PL : ProtoLaws} data :
  canonical peer_from_bytes peer_to_bytes peer_wf data ∧
  canonical host_from_bytes host_to_bytes host_wf data ∧
  (∀ r, ReportPayload.try_from data = Ok r → host_wf (ReportPayload.host_info r)).
Proof.
  split_and!.
  - intros p Hp%peer_from_bytes_wf. split; [done|]. unfold peer_from_bytes, peer_to_bytes.
    rewrite decode_encode_peer by (by apply peer_to_proto_wf). by rewrite peer_proto_roundtrip.
  - intros h Hh%host_from_bytes_wf. split; [done|]. by apply host_roundtrip.
  - apply report_wf.
Qed.

Lemma decoded_canonical_witness :
  peer_wf ex_peer_info ∧ peer_from_bytes (peer_to_bytes ex_peer_info) = Ok ex_peer_info.
Proof.
  apply (proj1 (decoded_canonical (peer_to_bytes ex_peer_info))).
  apply (bool_decide_unpack _). vm_compute. exact I.
Defined.
