(* ===== verification/Routes.v ===== *)
(** [noeio/src/daemon/routes.rs]: which CIDRs this node may advertise, and which
    advertised routes it accepts. *)

From Stdlib Require Import ZArith Lia.
From Stdlib Require Import Strings.String.
From stdpp Require Import base list strings gmap.
From S2P Require Import Prelude Text NetTypes CidrModel.

Local Open Scope Z_scope.

Definition MIN_PREFIX_LEN : Z := 8.

Section routes.
Context {CA : CidrApi}.

Inductive RouteError : Type :=
  | Malformed (s : string)
  | TooBroad (c : Cidr)
  | OverlapsOverlay (c : Cidr) (overlay : IpAddr)
  | CoversControlPlane (c : Cidr) (addr : IpAddr)
  | Reserved (c : Cidr)
  | PlatformConsumerOnly (c : Cidr) (platform : string).

Record Protected : Type := {
  overlay_ips : list IpAddr;
  control_plane : list IpAddr;
}.

Definition parse_cidr (s : string) : result Cidr RouteError :=
  let s := trim s in
  let? cidr := ok_or (Malformed s) (cidr_parse s) in
  Ok (cidr_network cidr).

(** The first address of [ips] that is IPv4 and inside [cidr]. *)
Definition covers (cidr : Cidr) (ip : IpAddr) : bool :=
  match ip with IpV4 v4 => cidr_contains_addr cidr v4 | IpV6 _ => false end.

Definition validate_cidr (cidr : Cidr) (protected : Protected) : result unit RouteError :=
  if cidr_prefix_len cidr <? MIN_PREFIX_LEN then Err (TooBroad cidr) else
  let addr := cidr_address cidr in
  if ipv4_is_loopback addr
     || ipv4_is_link_local addr
     || cidr_contains_addr cidr ipv4_LOCALHOST
     || cidr_contains_addr cidr (ipv4 169 254 0 0)
  then Err (Reserved cidr) else
  match List.find (covers cidr) (overlay_ips protected) with
  | Some ip => Err (OverlapsOverlay cidr ip)
  | None =>
      match List.find (covers cidr) (control_plane protected) with
      | Some ip => Err (CoversControlPlane cidr ip)
      | None => Ok tt
      end
  end.

(** [cfg!(target_os = "linux")] and [std::env::consts::OS] of the build. *)
Record Platform : Type := {
  platform_can_advertise : bool;
  platform_name : string;
}.

Definition validate_advertisement (pf : Platform) (s : string) (protected : Protected) :
    result Cidr RouteError :=
  let? cidr := parse_cidr s in
  if negb (platform_can_advertise pf)
  then Err (PlatformConsumerOnly cidr (platform_name pf)) else
  let? _ := validate_cidr cidr protected in
  Ok cidr.

Inductive Rejection : Type :=
  | Invalid
  | LocalLan
  | SelfAdvertised
  | Standby
  | PolicyOff.

#[export] Instance Rejection_eq_dec : EqDecision Rejection.
Proof. solve_decision. Defined.

Record Decision : Type := MkDecision {
  cidr : Cidr;
  peer_id : PeerId;
  rejected : option Rejection;
}.

Record ConsumerPolicy : Type := {
  accept_routes : bool;
  local_lans : list Cidr;
  self_advertised : list Cidr;
  protected : Protected;
}.

(** Two prefixes overlap when either contains the other. *)
Definition overlaps (a b : Cidr) : bool :=
  cidr_contains_subnet a b || cidr_contains_subnet b a.

(** [active]: the lowest peer id per exact prefix. *)
Definition elect (active : gmap Cidr PeerId) (adv : PeerId * Cidr) : gmap Cidr PeerId :=
  let '(peer_id, cidr) := adv in
  match active !! cidr_network cidr with
  | Some p => <[cidr_network cidr := Z.min p peer_id]> active
  | None => <[cidr_network cidr := peer_id]> active
  end.

Definition decide_one (policy : ConsumerPolicy) (active : gmap Cidr PeerId)
    (adv : PeerId * Cidr) : Decision :=
  let '(peer_id, cidr) := adv in
  let cidr := cidr_network cidr in
  MkDecision cidr peer_id
    (if existsb (λ lan, overlaps lan cidr) (local_lans policy) then Some LocalLan
     else if existsb (λ own, overlaps own cidr) (self_advertised policy)
          then Some SelfAdvertised
     else if is_err (validate_cidr cidr (protected policy)) then Some Invalid
     else if negb (bool_decide (active !! cidr = Some peer_id)) then Some Standby
     else None).

Definition decide_routes (policy : ConsumerPolicy) (advertised : list (PeerId * Cidr)) :
    list Decision :=
  if negb (accept_routes policy) then
    map (λ '(peer_id, cidr), MkDecision cidr peer_id (Some PolicyOff)) advertised
  else
    let active := foldl elect ∅ advertised in
    map (decide_one policy active) advertised.

(** The routes that are installed. *)
Definition accepted (ds : list Decision) : list (Cidr * PeerId) :=
  map (λ d, (cidr d, peer_id d)) (List.filter (λ d, bool_decide (rejected d = None)) ds).
End routes.

Arguments Protected : clear implicits.
Arguments Platform : clear implicits.
Arguments Rejection : clear implicits.

(** ** The blacklist *)

Section blacklist.
Context {CA : CidrApi} {CL : CidrLaws}.

Lemma find_covers_None c ips :
  List.find (covers c) ips = None ↔
  ∀ v4, IpV4 v4 ∈ ips → cidr_contains_addr c v4 = false.
Proof.
  rewrite find_None_Forall, Forall_forall. split.
  - intros H v4 Hin. by apply (H (IpV4 v4)).
  - intros H [v4|v6] Hin; [by apply H|done].
Qed.

Lemma validate_cidr_Ok c p :
  validate_cidr c p = Ok tt ↔
  MIN_PREFIX_LEN ≤ cidr_prefix_len c ∧
  (ipv4_is_loopback (cidr_address c) = false ∧
   ipv4_is_link_local (cidr_address c) = false ∧
   cidr_contains_addr c ipv4_LOCALHOST = false ∧
   cidr_contains_addr c (ipv4 169 254 0 0) = false) ∧
  (∀ v4, IpV4 v4 ∈ overlay_ips p → cidr_contains_addr c v4 = false) ∧
  (∀ v4, IpV4 v4 ∈ control_plane p → cidr_contains_addr c v4 = false).
Proof.
  unfold validate_cidr. rewrite <-!find_covers_None.
  destruct (Z.ltb_spec (cidr_prefix_len c) MIN_PREFIX_LEN); [split; [done|lia]|].
  destruct (ipv4_is_loopback _), (ipv4_is_link_local _), (cidr_contains_addr c ipv4_LOCALHOST),
    (cidr_contains_addr c (ipv4 _ _ _ _)); cbn [orb]; try naive_solver.
  destruct (List.find _ (overlay_ips p)), (List.find _ (control_plane p)); naive_solver.
Qed.

(** An address of a valid block whose leading [k ≤ prefix] bits are those of [x]
    shares them with the block. *)
Lemma block_bits c a k :
  is_uint 32 a → 0 ≤ k ≤ cidr_prefix_len c → cidr_contains_addr c a = true →
  prefix_bits k a = prefix_bits k (cidr_address c).
Proof.
  intros Ha Hk Hc. pose proof (cidr_prefix_le_32 c).
  apply cidr_contains_addr_spec in Hc; [|done].
  eapply prefix_bits_shorter; [exact Hk|lia|done].
Qed.

Lemma is_loopback_bits a : ipv4_is_loopback a = true ↔ prefix_bits 8 a = 127.
Proof. unfold ipv4_is_loopback, prefix_bits. apply Z.eqb_eq. Qed.
Lemma is_link_local_bits a : ipv4_is_link_local a = true ↔ prefix_bits 16 a = 43518.
Proof. unfold ipv4_is_link_local, prefix_bits. apply Z.eqb_eq. Qed.

Lemma valid_no_loopback c p a :
  is_uint 32 a → validate_cidr c p = Ok tt → cidr_contains_addr c a = true →
  ipv4_is_loopback a = false.
Proof.
  intros Ha (Hlen & (Hlb & _) & _)%validate_cidr_Ok Hc.
  apply not_true_iff_false. rewrite is_loopback_bits. intros Hbits.
  rewrite (block_bits c) in Hbits by (done || (unfold MIN_PREFIX_LEN in *; lia)).
  apply is_loopback_bits in Hbits. congruence.
Qed.

Lemma valid_no_link_local c p a :
  is_uint 32 a → validate_cidr c p = Ok tt → cidr_contains_addr c a = true →
  ipv4_is_link_local a = false.
Proof.
  intros Ha (Hlen & (_ & Hll & _ & H169) & _)%validate_cidr_Ok Hc.
  apply not_true_iff_false. rewrite is_link_local_bits. intros Hbits.
  pose proof (cidr_prefix_le_32 c).
  destruct (decide (16 ≤ cidr_prefix_len c)).
  - rewrite (block_bits c) in Hbits by (done || lia).
    apply is_link_local_bits in Hbits. congruence.
  - (* the block is shorter than /16 and holds an address of 169.254/16 *)
    assert (cidr_contains_addr c (ipv4 169 254 0 0) = true); [|congruence].
    apply cidr_contains_addr_spec; [done|].
    apply cidr_contains_addr_spec in Hc; [|done]. rewrite <-Hc.
    apply (prefix_bits_shorter _ 16); [unfold MIN_PREFIX_LEN in *; lia|lia|].
    by rewrite Hbits.
Qed.
End blacklist.

(** What the advertisement gate lets through cannot swallow anything the node
    depends on: a CIDR that passes [validate_advertisement] on a platform that may
    advertise is in network form, is /8 or longer, and none of its addresses is
    loopback, link-local, one of our overlay addresses or a control-plane server. *)
Theorem advertisement_safe {CA : CidrApi} {CL : CidrLaws} pf s p c :
  validate_advertisement pf s p = Ok c →
  platform_can_advertise pf = true ∧ cidr_network c = c ∧ 8 ≤ cidr_prefix_len c ∧
  ∀ a, is_uint 32 a → cidr_contains_addr c a = true →
    ipv4_is_loopback a = false ∧ ipv4_is_link_local a = false ∧
    IpV4 a ∉ overlay_ips p ∧ IpV4 a ∉ control_plane p.
Proof.
  unfold validate_advertisement, parse_cidr.
  destruct (cidr_parse (trim s)) as [c0|]; [|done]. cbn [ok_or].
  destruct (platform_can_advertise pf); [|done]. cbn [negb].
  destruct (validate_cidr _ p) as [[]|] eqn:Hv; [|done]. intros [= <-].
  pose proof (proj1 (validate_cidr_Ok _ _) Hv) as (Hlen & _ & Hov & Hcp).
  split_and!; [done|apply cidr_network_idemp|unfold MIN_PREFIX_LEN in Hlen; lia|].
  intros a Ha Hc. split_and!.
  - by eapply valid_no_loopback.
  - by eapply valid_no_link_local.
  - intros Hin. apply Hov in Hin. congruence.
  - intros Hin. apply Hcp in Hin. congruence.
Qed.

Definition linux : Platform := {|
  platform_can_advertise := true; platform_name := "linux" |}.
Definition example_protected : Protected := {|
  overlay_ips := [IpV4 (ipv4 110 20 0 5)];
  control_plane := [IpV4 (ipv4 203 0 113 9)] |}.
Definition lan24 : Cidr := cidr_new (ipv4 192 168 10 0) 24.

Lemma advertisement_safe_witness :
  validate_advertisement linux " 192.168.10.1/24 " example_protected = Ok lan24 ∧
  cidr_network lan24 = lan24.
Proof.
  assert (validate_advertisement linux " 192.168.10.1/24 " example_protected = Ok lan24) as H
    by reflexivity.
  split; [exact H|]. apply (advertisement_safe linux " 192.168.10.1/24 " example_protected lan24 H).
Defined.

(** ** The consumer's decision *)

Section consumer.
Context {CA : CidrApi} {CL : CidrLaws}.
Implicit Types (adv : list (PeerId * Cidr)) (policy : ConsumerPolicy).

(** [m] is the lowest id that advertises prefix [n]. *)
Definition is_exit adv (n : Cidr) (m : PeerId) : Prop :=
  (∃ c, (m, c) ∈ adv ∧ cidr_network c = n) ∧
  ∀ id c, (id, c) ∈ adv → cidr_network c = n → m ≤ id.

Lemma is_exit_unique adv n m m' : is_exit adv n m → is_exit adv n m' → m = m'.
Proof.
  intros [(c & Hc & Hn) Hm] [(c' & Hc' & Hn') Hm'].
  apply Z.le_antisymm; [by eapply Hm|by eapply Hm'].
Qed.

Lemma is_exit_exists adv id c :
  (id, c) ∈ adv → ∃ m, is_exit adv (cidr_network c) m.
Proof.
  intros Hin.
  set (l := List.filter (λ a, bool_decide (cidr_network a.2 = cidr_network c)) adv).
  assert (∀ a, a ∈ l ↔ a ∈ adv ∧ cidr_network a.2 = cidr_network c) as Hl.
  { intros a. unfold l. by rewrite !list_elem_of_In, filter_In, bool_decide_eq_true. }
  destruct (min_by_key fst l) as [[m d]|] eqn:Hm.
  - apply min_by_key_Some in Hm as [[Hd Hn]%Hl Hle].
    exists m. split; [by exists d|]. intros i e Hi He. by apply (Hle (i, e)), Hl.
  - apply min_by_key_None in Hm. assert ((id, c) ∈ l) as Hx by by apply Hl.
    rewrite Hm in Hx. set_solver.
Qed.

Lemma elect_snoc adv id c :
  foldl elect ∅ (adv ++ [(id, c)]) = elect (foldl elect ∅ adv) (id, c).
Proof. by rewrite foldl_app. Qed.

Lemma elect_exit adv n m : foldl elect ∅ adv !! n = Some m ↔ is_exit adv n m.
Proof.
  revert m. induction adv as [|[id c] adv IH] using rev_ind; intros m.
  { unfold is_exit. simpl. rewrite lookup_empty. set_solver. }
  rewrite elect_snoc. set (active := foldl elect ∅ adv) in *. unfold elect.
  assert (∀ i d, (i, d) ∈ adv ++ [(id, c)] ↔ (i, d) ∈ adv ∨ (i = id ∧ d = c)) as Hin.
  { intros i d. rewrite elem_of_app, list_elem_of_singleton. naive_solver. }
  unfold is_exit. setoid_rewrite Hin.
  destruct (decide (cidr_network c = n)) as [<-|Hne].
  - destruct (active !! cidr_network c) as [p|] eqn:Hp; fold active.
    + destruct (proj1 (IH p) eq_refl) as [(d & Hd & Hdn) Hmin]. rewrite lookup_insert_eq.
      split.
      * intros [= <-]. split.
        -- destruct (Z.min_spec p id) as [[_ ->]|[_ ->]]; eauto 6.
        -- intros i e [Hi|[-> ->]] He; [apply Hmin in Hi; [lia|done]|lia].
      * intros [(e & [He|[-> ->]] & Hen) Hm]; f_equal.
        -- assert (m ≤ p) by (eapply Hm; eauto). assert (m ≤ id) by (eapply Hm; eauto).
           assert (p ≤ m) by (eapply Hmin; eauto). lia.
        -- assert (id ≤ p) by (eapply Hm; eauto). lia.
    + rewrite lookup_insert_eq.
      assert (∀ i e, (i, e) ∈ adv → cidr_network e ≠ cidr_network c) as Hnone.
      { intros i e (m' & Hm')%is_exit_exists He. rewrite He in Hm'.
        apply IH in Hm'. congruence. }
      naive_solver.
  - destruct (active !! cidr_network c); rewrite lookup_insert_ne by done;
      rewrite IH; unfold is_exit; naive_solver.
Qed.

(** What the prefix alone must satisfy. *)
Definition prefix_admissible policy (n : Cidr) : Prop :=
  (∀ lan, lan ∈ local_lans policy → overlaps lan n = false) ∧
  (∀ own, own ∈ self_advertised policy → overlaps own n = false) ∧
  validate_cidr n (protected policy) = Ok tt.

Lemma existsb_overlaps_false l (n : Cidr) :
  existsb (λ x, overlaps x n) l = false ↔ ∀ x, x ∈ l → overlaps x n = false.
Proof.
  rewrite <-not_true_iff_false, existsb_true. split.
  - intros H x Hx. apply not_true_iff_false. intros ?. apply H. by exists x.
  - intros H (x & Hx & Ho). rewrite H in Ho; done.
Qed.

Lemma is_err_false {A} (r : result A (RouteError)) : is_err r = false ↔ ∃ a, r = Ok a.
Proof. destruct r; naive_solver. Qed.

Lemma admissible_bool policy n :
  prefix_admissible policy n ↔
  existsb (λ lan, overlaps lan n) (local_lans policy) = false ∧
  existsb (λ own, overlaps own n) (self_advertised policy) = false ∧
  is_err (validate_cidr n (protected policy)) = false.
Proof.
  unfold prefix_admissible. rewrite !existsb_overlaps_false, is_err_false.
  split; intros (?&?&H); (split_and!; [done|done|]).
  - by eexists.
  - by destruct H as [[] ?].
Qed.

Lemma decide_one_None policy adv id c :
  rejected (decide_one policy (foldl elect ∅ adv) (id, c)) = None ↔
  prefix_admissible policy (cidr_network c) ∧ is_exit adv (cidr_network c) id.
Proof.
  rewrite admissible_bool, <-elect_exit. unfold decide_one. cbn [rejected].
  destruct (existsb _ (local_lans _)), (existsb _ (self_advertised _)),
    (is_err _); try case_bool_decide; naive_solver.
Qed.

Lemma elem_of_accepted n id ds :
  (n, id) ∈ accepted ds ↔ ∃ d, d ∈ ds ∧ cidr d = n ∧ peer_id d = id ∧ rejected d = None.
Proof.
  unfold accepted. rewrite list_elem_of_In, in_map_iff.
  setoid_rewrite filter_In. setoid_rewrite bool_decide_eq_true.
  setoid_rewrite <-list_elem_of_In. naive_solver.
Qed.

Lemma elem_of_decide policy adv d : accept_routes policy = true →
  d ∈ decide_routes policy adv ↔
  ∃ id c, (id, c) ∈ adv ∧ d = decide_one policy (foldl elect ∅ adv) (id, c).
Proof.
  intros Hacc. unfold decide_routes. rewrite Hacc. cbn [negb].
  rewrite list_elem_of_In, in_map_iff. setoid_rewrite <-list_elem_of_In.
  split; [intros ([id c] & <- & Hin); eauto|].
  intros (id & c & Hin & ->). by exists (id, c).
Qed.

Lemma decide_off policy adv d : accept_routes policy = false →
  d ∈ decide_routes policy adv → rejected d = Some PolicyOff.
Proof.
  intros Hacc. unfold decide_routes. rewrite Hacc. cbn [negb].
  rewrite list_elem_of_In, in_map_iff. by intros ([id c] & <- & _).
Qed.

Lemma accepted_spec policy adv n id :
  (n, id) ∈ accepted (decide_routes policy adv) ↔
  accept_routes policy = true ∧ prefix_admissible policy n ∧ is_exit adv n id.
Proof.
  rewrite elem_of_accepted. destruct (accept_routes policy) eqn:Hacc.
  - setoid_rewrite (elem_of_decide policy adv); [|done]. split.
    + intros (d & (i & c & Hin & ->) & <- & <- & Hr).
      split; [done|]. by apply decide_one_None in Hr.
    + intros (_ & Hadm & Hexit). pose proof Hexit as [(c & Hin & <-) _].
      exists (decide_one policy (foldl elect ∅ adv) (id, c)).
      split_and!; [by exists id, c|done|done|]. by apply decide_one_None.
  - split; [|naive_solver]. intros (d & Hd & _ & _ & Hr).
    apply decide_off in Hd; [congruence|done].
Qed.

Lemma is_exit_perm adv adv' n m : adv ≡ₚ adv' → is_exit adv n m ↔ is_exit adv' n m.
Proof. intros Hp. unfold is_exit. by setoid_rewrite Hp. Qed.

Lemma elect_perm adv adv' : adv ≡ₚ adv' → foldl elect ∅ adv = foldl elect ∅ adv'.
Proof.
  intros Hp. apply map_eq. intros n. apply option_eq. intros m.
  rewrite !elect_exit. by apply is_exit_perm.
Qed.
End consumer.

(** C16. The consumer installs [(n, id)] exactly when routes are accepted, [n] is the
    network of a prefix [id] advertises, no local LAN and no prefix of our own
    overlaps it, it passes the blacklist, and no lower id advertises the same
    prefix. *)
Theorem decide_installs {CA : CidrApi} {CL : CidrLaws} policy adv n id :
  (n, id) ∈ accepted (decide_routes policy adv) ↔
  accept_routes policy = true ∧
  (∃ c, (id, c) ∈ adv ∧ cidr_network c = n) ∧
  (∀ lan, lan ∈ local_lans policy → overlaps lan n = false) ∧
  (∀ own, own ∈ self_advertised policy → overlaps own n = false) ∧
  validate_cidr n (protected policy) = Ok tt ∧
  (∀ id' c, (id', c) ∈ adv → cidr_network c = n → id ≤ id').
Proof. rewrite accepted_spec. unfold prefix_admissible, is_exit. naive_solver. Qed.

(** One active exit per prefix: every advertised prefix that is admissible by
    itself has exactly one accepted peer, so losing the active exit promotes
    a standby and two peers never share a prefix. *)
Theorem decide_one_exit {CA : CidrApi} {CL : CidrLaws} policy adv id c :
  accept_routes policy = true → (id, c) ∈ adv →
  prefix_admissible policy (cidr_network c) →
  exists! m, (cidr_network c, m) ∈ accepted (decide_routes policy adv).
Proof.
  intros Hacc Hin Hadm. destruct (is_exit_exists adv id c Hin) as [m Hm].
  exists m. split; [by apply accepted_spec|].
  intros m' (_ & _ & Hm')%accepted_spec. by eapply is_exit_unique.
Qed.

Definition example_policy : ConsumerPolicy := {|
  accept_routes := true;
  local_lans := [cidr_new (ipv4 192 168 1 0) 24];
  self_advertised := [cidr_new (ipv4 172 16 0 0) 16];
  protected := example_protected |}.
Definition example_adv : list (PeerId * Cidr) :=
  [(20, cidr_new (ipv4 10 0 0 0) 8); (10, cidr_new (ipv4 10 0 0 0) 8)].

(** Peer 10 wins 10.0.0.0/8 over peer 20, which stays a standby. *)
Lemma decide_installs_witness :
  (cidr_new (ipv4 10 0 0 0) 8, 10) ∈ accepted (decide_routes example_policy example_adv).
Proof.
  apply decide_installs. split_and!.
  - reflexivity.
  - exists (cidr_new (ipv4 10 0 0 0) 8). split; [|reflexivity].
    apply list_elem_of_In. right. left. reflexivity.
  - intros lan ->%list_elem_of_singleton. reflexivity.
  - intros own ->%list_elem_of_singleton. reflexivity.
  - reflexivity.
  - intros id' c [H|[H|[]]]%list_elem_of_In _; apply (f_equal fst) in H; cbn in H; lia.
Defined.

Lemma decide_one_exit_witness :
  exists! m, (cidr_network (cidr_new (ipv4 10 0 0 0) 8), m) ∈
        accepted (decide_routes example_policy example_adv).
Proof.
  apply (decide_one_exit example_policy example_adv 20 (cidr_new (ipv4 10 0 0 0) 8)).
  - reflexivity.
  - apply list_elem_of_In. left. reflexivity.
  - apply admissible_bool. split_and!; reflexivity.
Defined.

(** Decisions depend on the set of advertisements only, never on the order the
    peer table yields them in: permuted inputs give the permuted decisions, with
    the same outcome for each advertisement. *)
Theorem decide_order_irrelevant {CA : CidrApi} {CL : CidrLaws} policy adv adv' :
  adv ≡ₚ adv' → decide_routes policy adv ≡ₚ decide_routes policy adv'.
Proof.
  intros Hp. unfold decide_routes. destruct (negb _); [by apply Permutation_map|].
  cbv zeta. rewrite (elect_perm _ _ Hp). by apply Permutation_map.
Qed.

Lemma decide_order_irrelevant_witness :
  decide_routes example_policy example_adv ≡ₚ decide_routes example_policy (rev example_adv).
Proof. apply decide_order_irrelevant. apply Permutation_rev. Defined.
