(* ===== verification/RoutingTable.v ===== *)
(** [noeio/src/daemon/router.rs]: the concurrent routing table. Peers are shared
    ([Arc<Peer>]), so the model keeps them in a heap and the tables hold
    references. What the table needs of a peer is the class [PeerLike]; the peer
    of [noeio/src/daemon/peer.rs] is an instance of it (file [Peer]). *)

From Stdlib Require Import ZArith Lia.
From stdpp Require Import base list gmap sorting.
From S2P Require Import Prelude Text NetTypes CidrModel HostInfo.

Local Open Scope Z_scope.

Class PeerLike {CA : CidrApi} (P : Type) : Type := {
  peer_info : P → PeerInfo;
  peer_update_info : P → PeerInfo → PeerId → P;
  peer_info_update : ∀ p i l, peer_info (peer_update_info p i l) = i;
}.

(** A reference to a shared peer. *)
Notation Arc := nat (only parsing).

Module Router.
Section router.
Context {CA : CidrApi} {P : Type} {PL : PeerLike P}.

Record Router : Type := MkRouter {
  heap : gmap Arc P;
  peers : gmap IpAddr Arc;
  by_peer_id : gmap PeerId IpAddr;
  subnets : list (Cidr * PeerId);
}.

Definition new : Router := MkRouter ∅ ∅ ∅ [].

(** [peer.info()] through a reference; a reference is never dangling. *)
Definition info (r : Router) (l : Arc) : option PeerInfo := peer_info <$> heap r !! l.

(** [Arc::new(peer)] *)
Definition alloc (r : Router) (p : P) : Router * Arc :=
  let l := fresh (dom (heap r)) in
  (MkRouter (<[l := p]> (heap r)) (peers r) (by_peer_id r) (subnets r), l).

Definition insert (r : Router) (peer : Arc) : Router :=
  match info r peer with
  | None => r
  | Some i =>
      let by_id :=
        match peers r !! PeerInfo.noeio_ip i ≫= info r with
        | Some old =>
            if decide (PeerInfo.peer_id old ≠ PeerInfo.peer_id i)
            then delete (PeerInfo.peer_id old) (by_peer_id r) else by_peer_id r
        | None => by_peer_id r
        end in
      MkRouter (heap r) (<[PeerInfo.noeio_ip i := peer]> (peers r))
        (<[PeerInfo.peer_id i := PeerInfo.noeio_ip i]> by_id) (subnets r)
  end.

Definition update_info (r : Router) (peer : Arc) (i : PeerInfo) (local_peer_id : PeerId) :
    Router :=
  match heap r !! peer with
  | None => r
  | Some p =>
      let old_peer_id := PeerInfo.peer_id (peer_info p) in
      let heap' := <[peer := peer_update_info p i local_peer_id]> (heap r) in
      let by_id := if decide (old_peer_id ≠ PeerInfo.peer_id i)
                   then delete old_peer_id (by_peer_id r) else by_peer_id r in
      MkRouter heap' (peers r) (<[PeerInfo.peer_id i := PeerInfo.noeio_ip i]> by_id)
        (subnets r)
  end.

Definition get (r : Router) (ip : IpAddr) : option Arc := peers r !! ip.

Definition get_by_peer_id (r : Router) (id : PeerId) : option Arc :=
  ip ← by_peer_id r !! id; get r ip.

Definition lookup_exit (subnets : list (Cidr * PeerId)) (v4 : Z) : option PeerId :=
  snd <$> List.find (λ '(cidr, _), cidr_contains_addr cidr v4) subnets.

Definition lookup (r : Router) (ip : IpAddr) : option Arc :=
  match get r ip with
  | Some peer => Some peer
  | None =>
      match ip with
      | IpV6 _ => None
      | IpV4 v4 => id ← lookup_exit (subnets r) v4; get_by_peer_id r id
      end
  end.

(** The comparator of [set_subnets]: prefix length descending, then the prefix,
    then the exit. *)
Definition subnet_le (a b : Cidr * PeerId) : Prop :=
  cidr_prefix_len b.1 < cidr_prefix_len a.1 ∨
  (cidr_prefix_len b.1 = cidr_prefix_len a.1 ∧
    (cidr_address a.1 < cidr_address b.1 ∨
     (cidr_address a.1 = cidr_address b.1 ∧ a.2 ≤ b.2))).

#[global] Instance subnet_le_dec : RelDecision subnet_le.
Proof. intros a b. unfold subnet_le. apply _. Defined.

Definition set_subnets (r : Router) (entries : list (Cidr * PeerId)) : Router :=
  MkRouter (heap r) (peers r) (by_peer_id r) (dedup (merge_sort subnet_le entries)).

Definition allowed_source (i : PeerInfo) (src : IpAddr) : bool :=
  if decide (src = PeerInfo.noeio_ip i) then true else
  match src with
  | IpV6 _ => false
  | IpV4 v4 => existsb (λ c, cidr_contains_addr c v4) (PeerInfo.advertised_routes i)
  end.

Definition remove (r : Router) (ip : IpAddr) : Router * option Arc :=
  match peers r !! ip with
  | None => (r, None)
  | Some peer =>
      match info r peer with
      | None => (r, None)
      | Some i =>
          (MkRouter (heap r) (delete ip (peers r))
             (delete (PeerInfo.peer_id i) (by_peer_id r))
             (List.filter (λ '(_, exit), negb (exit =? PeerInfo.peer_id i)) (subnets r)),
           Some peer)
      end
  end.

Definition remove_by_peer_id (r : Router) (id : PeerId) : Router * option Arc :=
  match by_peer_id r !! id with
  | None => (r, None)
  | Some ip => remove r ip
  end.

Definition ips (r : Router) : list IpAddr := (map_to_list (peers r)).*1.
Definition all_peers (r : Router) : list Arc := (map_to_list (peers r)).*2.

(** [router.insert(Peer::new(..))] *)
Definition insert_new (r : Router) (p : P) : Router :=
  let '(r, l) := alloc r p in insert r l.

(** What the daemon does to its router, one call at a time: [update_info] gets
    the peer registered under the reported address. *)
Inductive step : Router → Router → Prop :=
  | step_insert r p : step r (insert_new r p)
  | step_update r l i local_id :
      get r (PeerInfo.noeio_ip i) = Some l → step r (update_info r l i local_id)
  | step_subnets r es : step r (set_subnets r es)
  | step_remove r ip : step r (remove r ip).1
  | step_remove_by_peer_id r id : step r (remove_by_peer_id r id).1.

Definition reachable : Router → Prop := rtc step new.

(** The peer a reference denotes is stored under its own address. *)
Definition keyed (r : Router) : Prop :=
  ∀ ip l, peers r !! ip = Some l → ∃ i, info r l = Some i ∧ PeerInfo.noeio_ip i = ip.

(** An index entry resolves to the peer with that id. *)
Definition sound (r : Router) : Prop :=
  ∀ id ip, by_peer_id r !! id = Some ip →
    ∃ l i, peers r !! ip = Some l ∧ info r l = Some i ∧ PeerInfo.peer_id i = id.

(** Every stored peer is indexed. *)
Definition complete (r : Router) : Prop :=
  ∀ ip l i, peers r !! ip = Some l → info r l = Some i →
    by_peer_id r !! PeerInfo.peer_id i = Some ip.

Definition wf (r : Router) : Prop := keyed r ∧ sound r.
End router.
End Router.
Notation Router := Router.Router.

(** ** Invariant *)

Section invariant.
Context {CA : CidrApi} {P : Type} {PL : PeerLike P}.
Implicit Types r : Router.Router (P := P).

Lemma info_heap r l p : Router.heap r !! l = Some p → Router.info r l = Some (peer_info p).
Proof. unfold Router.info. by intros ->. Qed.

(** Two addresses never hold the same reference. *)
Lemma keyed_inj r ip ip' l :
  Router.keyed r → Router.peers r !! ip = Some l → Router.peers r !! ip' = Some l → ip = ip'.
Proof.
  intros Hk (i & Hi & <-)%Hk (i' & Hi' & <-)%Hk. congruence.
Qed.

Lemma alloc_info r p l' :
  Router.info (Router.alloc r p).1 l' =
    if decide (l' = (Router.alloc r p).2) then Some (peer_info p) else Router.info r l'.
Proof.
  unfold Router.alloc, Router.info. simpl. case_decide as Hl.
  - subst. by rewrite lookup_insert_eq.
  - by rewrite lookup_insert_ne.
Qed.

Lemma alloc_fresh r p : Router.info r (Router.alloc r p).2 = None.
Proof.
  unfold Router.info, Router.alloc. simpl. apply fmap_None, not_elem_of_dom, is_fresh.
Qed.

Lemma keyed_alloc_ne r p ip l :
  Router.keyed r → Router.peers r !! ip = Some l → l ≠ (Router.alloc r p).2.
Proof. intros Hk (i & Hi & _)%Hk ->. rewrite alloc_fresh in Hi. done. Qed.

Lemma wf_alloc r p : Router.wf r → Router.wf (Router.alloc r p).1.
Proof.
  intros [Hk Hs]. split.
  - intros ip l Hl. destruct (Hk ip l Hl) as (i & Hi & Hip). exists i.
    rewrite alloc_info, decide_False; [done|by eapply keyed_alloc_ne].
  - intros id ip Hid. destruct (Hs id ip Hid) as (l & i & Hl & Hi & ?). exists l, i.
    rewrite alloc_info, decide_False; [done|by eapply keyed_alloc_ne].
Qed.

Lemma wf_insert r l i :
  Router.wf r → Router.info r l = Some i → Router.wf (Router.insert r l).
Proof.
  intros [Hk Hs] Hi. unfold Router.insert. rewrite Hi.
  set (ip := PeerInfo.noeio_ip i). set (id := PeerInfo.peer_id i). split.
  - intros ip' l'. cbn [Router.peers]. intros [[<- <-]|[Hne Hl]]%lookup_insert_Some.
    + by exists i.
    + by apply Hk.
  - intros id' ip'. cbn [Router.by_peer_id Router.peers].
    intros [[<- <-]|[Hne Hid]]%lookup_insert_Some.
    + exists l, i. by rewrite lookup_insert_eq.
    + assert (Router.by_peer_id r !! id' = Some ip' ∧
                (ip' = ip → id' = id)) as [Hid' Hip].
      { destruct (Router.peers r !! ip ≫= Router.info r) as [old|] eqn:Hold.
        - case_decide as Hd.
          + apply lookup_delete_Some in Hid as [Hne' Hid]. split; [done|]. intros ->.
            destruct (Hs _ _ Hid) as (lo & io & Hlo & Hio & Hido).
            rewrite Hlo in Hold. simpl in Hold. congruence.
          + split; [done|]. intros ->.
            destruct (Hs _ _ Hid) as (lo & io & Hlo & Hio & Hido).
            rewrite Hlo in Hold. simpl in Hold.
            destruct (decide (PeerInfo.peer_id old = PeerInfo.peer_id i)); [congruence|done].
        - split; [done|]. intros ->. destruct (Hs _ _ Hid) as (lo & io & Hlo & Hio & _).
          rewrite Hlo in Hold. simpl in Hold. congruence. }
      destruct (Hs _ _ Hid') as (l' & i' & Hl' & Hi' & Heq). exists l', i'.
      rewrite lookup_insert_ne; [done|]. intros <-. by apply Hne, eq_sym, Hip.
Qed.

Lemma wf_insert_new r p : Router.wf r → Router.wf (Router.insert_new r p).
Proof.
  intros Hwf. unfold Router.insert_new.
  pose proof (wf_alloc r p Hwf) as Ha. pose proof (alloc_info r p (Router.alloc r p).2) as Hi.
  destruct (Router.alloc r p) as [r' l]. rewrite decide_True in Hi by done.
  by eapply wf_insert.
Qed.

Lemma update_info_info r l i k l' :
  Router.info (Router.update_info r l i k) l' =
    if decide (l' = l) then (λ _, i) <$> Router.info r l else Router.info r l'.
Proof.
  unfold Router.update_info, Router.info.
  destruct (Router.heap r !! l) as [p|] eqn:Hp; cbn [Router.heap]; case_decide; subst.
  - rewrite lookup_insert_eq. simpl. by rewrite peer_info_update.
  - by rewrite lookup_insert_ne.
  - by rewrite Hp.
  - done.
Qed.

Lemma wf_update_info r l i k :
  Router.wf r → Router.get r (PeerInfo.noeio_ip i) = Some l →
  Router.wf (Router.update_info r l i k).
Proof.
  intros [Hk Hs] Hget. unfold Router.get in Hget.
  destruct (Hk _ _ Hget) as (old & Hold & Hip).
  assert (∀ l', Router.info (Router.update_info r l i k) l' =
                if decide (l' = l) then Some i else Router.info r l') as Hinfo.
  { intros l'. by rewrite update_info_info, Hold. }
  assert (Router.peers (Router.update_info r l i k) = Router.peers r) as Hpeers.
  { unfold Router.update_info. by destruct (Router.heap r !! l). }
  split.
  - intros ip l'. rewrite Hpeers, Hinfo. intros Hl'. case_decide; [|by apply Hk].
    subst. exists i. split; [done|]. by eapply keyed_inj.
  - intros id ip. rewrite Hpeers. intros Hid.
    assert ((id = PeerInfo.peer_id i ∧ ip = PeerInfo.noeio_ip i) ∨
      (id ≠ PeerInfo.peer_id i ∧ id ≠ PeerInfo.peer_id old ∧
       Router.by_peer_id r !! id = Some ip)) as [[-> ->]|(H1 & H2 & Hid')].
    { revert Hid. unfold Router.update_info. unfold Router.info in Hold.
      destruct (Router.heap r !! l) as [p|]; [|done]. simplify_eq/=.
      intros [[<- <-]|[Hne Hid]]%lookup_insert_Some; [by left|right].
      case_decide; [apply lookup_delete_Some in Hid as []; naive_solver|].
      split_and!; [done| |done]. intros ->.
      destruct (decide (PeerInfo.peer_id (peer_info p) = PeerInfo.peer_id i)); naive_solver. }
    + exists l, i. by rewrite Hinfo, decide_True.
    + destruct (Hs _ _ Hid') as (l' & i' & Hl' & Hi' & Heq). exists l', i'.
      rewrite Hinfo, decide_False; [done|]. intros ->. congruence.
Qed.

Lemma remove_Some r ip r' l :
  Router.remove r ip = (r', Some l) →
  ∃ i, Router.peers r !! ip = Some l ∧ Router.info r l = Some i ∧
    r' = Router.MkRouter (Router.heap r) (delete ip (Router.peers r))
           (delete (PeerInfo.peer_id i) (Router.by_peer_id r))
           (List.filter (λ '(_, exit), negb (exit =? PeerInfo.peer_id i)) (Router.subnets r)).
Proof.
  unfold Router.remove. destruct (Router.peers r !! ip) as [l0|]; [|done].
  destruct (Router.info r l0) as [i|] eqn:Hi; [|done]. intros [= <- <-]. by exists i.
Qed.

Lemma remove_None r ip : (Router.remove r ip).2 = None → (Router.remove r ip).1 = r.
Proof.
  unfold Router.remove. destruct (Router.peers r !! ip) as [l0|]; [|done].
  by destruct (Router.info r l0).
Qed.

Lemma wf_remove r ip : Router.wf r → Router.wf (Router.remove r ip).1.
Proof.
  intros Hwf. destruct (Router.remove r ip) as [r' [l|]] eqn:Hr.
  - destruct (remove_Some _ _ _ _ Hr) as (i & Hl & Hi & ->). destruct Hwf as [Hk Hs].
    cbn [fst]. split.
    + intros ip' l'. cbn [Router.peers]. intros [Hne Hl']%lookup_delete_Some. by apply Hk.
    + intros id ip'. cbn [Router.by_peer_id]. intros [Hne Hid]%lookup_delete_Some.
      destruct (Hs _ _ Hid) as (l' & i' & Hl' & Hi' & Heq). exists l', i'.
      cbn [Router.peers]. rewrite lookup_delete_ne; [done|]. intros <-. congruence.
  - pose proof (remove_None r ip) as Hn. rewrite Hr in Hn. by rewrite Hn.
Qed.

Lemma wf_remove_by_peer_id r id : Router.wf r → Router.wf (Router.remove_by_peer_id r id).1.
Proof.
  unfold Router.remove_by_peer_id. destruct (_ !! id); [apply wf_remove|done].
Qed.

Lemma wf_step r r' : Router.wf r → Router.step r r' → Router.wf r'.
Proof.
  intros Hwf Hs. destruct Hs; [by apply wf_insert_new|by apply wf_update_info|exact Hwf|
    by apply wf_remove|by apply wf_remove_by_peer_id].
Qed.

Lemma wf_new : Router.wf Router.new.
Proof. split; intros ? ?; done. Qed.

Lemma wf_reachable r : Router.reachable r → Router.wf r.
Proof.
  intros Hr. eapply (rtc_invariant Router.step); [exact wf_step|exact Hr|apply wf_new].
Qed.

Lemma get_by_peer_id_Some r id l :
  Router.wf r → Router.get_by_peer_id r id = Some l →
  ∃ i, Router.info r l = Some i ∧ PeerInfo.peer_id i = id ∧
       Router.get r (PeerInfo.noeio_ip i) = Some l.
Proof.
  intros [Hk Hs]. unfold Router.get_by_peer_id.
  destruct (Router.by_peer_id r !! id) as [ip|] eqn:Hid; [|done]. simpl. intros Hget.
  destruct (Hs _ _ Hid) as (l' & i & Hl' & Hi & Heq). unfold Router.get in *.
  assert (l' = l) as -> by congruence. exists i. split_and!; [done|done|].
  destruct (Hk _ _ Hl') as (i' & Hi' & Hip). congruence.
Qed.
End invariant.

(** ** Subnets *)

Section subnets.
Context {CA : CidrApi} {CL : CidrLaws}.

#[export] Instance subnet_le_total : Total Router.subnet_le.
Proof. intros a b. unfold Router.subnet_le. lia. Qed.
#[export] Instance subnet_le_trans : Transitive Router.subnet_le.
Proof. intros a b c. unfold Router.subnet_le. lia. Qed.
#[export] Instance subnet_le_antisymm : AntiSymm (=) Router.subnet_le.
Proof.
  intros [c i] [d j]. unfold Router.subnet_le. cbn [fst snd]. intros.
  f_equal; [apply cidr_ext|]; lia.
Qed.

Lemma lookup_exit_spec {P} (r : Router.Router (P := P)) es a :
  match Router.lookup_exit (Router.subnets (Router.set_subnets r es)) a with
  | None => ∀ c id, (c, id) ∈ es → cidr_contains_addr c a = false
  | Some id => ∃ c, (c, id) ∈ es ∧ cidr_contains_addr c a = true ∧
      ∀ c' id', (c', id') ∈ es → cidr_contains_addr c' a = true →
        cidr_prefix_len c' ≤ cidr_prefix_len c
  end.
Proof.
  unfold Router.lookup_exit, Router.set_subnets. cbn [Router.subnets].
  destruct (List.find _ _) as [[c id]|] eqn:Hf; cbn [fmap option_fmap option_map snd].
  - apply (find_sorted_least Router.subnet_le) in Hf as (Hin & Hc & Hle);
      [|apply dedup_sorted, StronglySorted_merge_sort; apply _].
    rewrite elem_of_dedup_merge_sort in Hin. exists c. split_and!; [done|done|].
    intros c' id' Hin' Hc'. destruct (Hle (c', id')) as [[= -> ->]|Hr]; [|done|lia|].
    + by rewrite elem_of_dedup_merge_sort.
    + unfold Router.subnet_le in Hr. cbn [fst snd] in Hr. lia.
  - rewrite find_None_Forall, Forall_forall in Hf. intros c id Hin.
    apply (Hf (c, id)). by rewrite elem_of_dedup_merge_sort.
Qed.
End subnets.

(** ** Completeness of the index when ids are distinct *)

Section distinct.
Context {CA : CidrApi} {P : Type} {PL : PeerLike P}.
Implicit Types r : Router.Router (P := P).

(** No peer at another address carries the id of [i]. *)
Definition no_clash r (i : PeerInfo) : Prop :=
  ∀ ip l j, Router.get r ip = Some l → Router.info r l = Some j →
    PeerInfo.peer_id j = PeerInfo.peer_id i → ip = PeerInfo.noeio_ip i.

(** The steps of the daemon when the relay hands an id to one address at a time. *)
Inductive distinct_step : Router.Router (P := P) → Router.Router → Prop :=
  | distinct_insert r p :
      no_clash r (peer_info p) → distinct_step r (Router.insert_new r p)
  | distinct_update r l i k :
      Router.get r (PeerInfo.noeio_ip i) = Some l → no_clash r i →
      distinct_step r (Router.update_info r l i k)
  | distinct_subnets r es : distinct_step r (Router.set_subnets r es)
  | distinct_remove r ip : distinct_step r (Router.remove r ip).1
  | distinct_remove_by_peer_id r id : distinct_step r (Router.remove_by_peer_id r id).1.

Lemma distinct_is_step r r' : distinct_step r r' → Router.step r r'.
Proof. destruct 1; by constructor. Qed.

Lemma insert_new_lookup r p ip :
  Router.peers (Router.insert_new r p) !! ip =
    if decide (ip = PeerInfo.noeio_ip (peer_info p)) then Some (Router.alloc r p).2
    else Router.peers r !! ip.
Proof.
  unfold Router.insert_new. pose proof (alloc_info r p (Router.alloc r p).2) as Hi.
  destruct (Router.alloc r p) as [r' l] eqn:Ha. cbn [fst snd] in *.
  rewrite decide_True in Hi by done. unfold Router.insert. rewrite Hi. cbn [Router.peers].
  assert (Router.peers r' = Router.peers r) as -> by (unfold Router.alloc in Ha; by simplify_eq).
  case_decide; subst; [by rewrite lookup_insert_eq|by rewrite lookup_insert_ne].
Qed.

Lemma insert_new_info r p l :
  Router.info (Router.insert_new r p) l = Router.info (Router.alloc r p).1 l.
Proof.
  unfold Router.insert_new. destruct (Router.alloc r p) as [r' l0]. cbn [fst].
  unfold Router.insert. destruct (Router.info r' l0); reflexivity.
Qed.

Lemma complete_insert_new r p :
  Router.wf r → Router.complete r → no_clash r (peer_info p) →
  Router.complete (Router.insert_new r p).
Proof.
  intros Hwf Hc Hnc ip l j. rewrite insert_new_lookup, insert_new_info, alloc_info.
  pose proof (alloc_info r p (Router.alloc r p).2) as Hself.
  rewrite decide_True in Hself by done.
  assert (∀ id, id ≠ PeerInfo.peer_id (peer_info p) →
    Router.by_peer_id (Router.insert_new r p) !! id = Router.by_peer_id r !! id ∨
    ∃ l' j', Router.get r (PeerInfo.noeio_ip (peer_info p)) = Some l' ∧
      Router.info r l' = Some j' ∧ PeerInfo.peer_id j' = id) as Hby.
  { intros id Hid. unfold Router.insert_new.
    destruct (Router.alloc r p) as [r' l0] eqn:Ha. cbn [fst snd] in *.
    assert (Router.peers r' = Router.peers r ∧ Router.by_peer_id r' = Router.by_peer_id r)
      as [Hp Hb] by (unfold Router.alloc in Ha; by simplify_eq).
    unfold Router.insert. rewrite Hself. cbn [Router.by_peer_id]. rewrite Hp, Hb.
    rewrite lookup_insert_ne by done. unfold Router.get.
    destruct (Router.peers r !! _) as [lo|] eqn:Hlo; [|by left]. cbn [mbind option_bind].
    destruct (Router.info r' lo) as [jo|] eqn:Hjo; [|by left].
    case_decide; [|by left]. destruct (decide (PeerInfo.peer_id jo = id)) as [Heq|Hne].
    - right. exists lo, jo. split_and!; [done| |done]. rewrite <-Hjo.
      pose proof (alloc_info r p lo) as Hal. rewrite Ha in Hal. cbn [fst snd] in Hal.
      rewrite Hal, decide_False; [done|]. pose proof (keyed_alloc_ne r p) as Hk.
      rewrite Ha in Hk. eapply Hk; [apply Hwf|done].
    - left. by rewrite lookup_delete_ne. }
  assert (Router.by_peer_id (Router.insert_new r p) !! PeerInfo.peer_id (peer_info p)
          = Some (PeerInfo.noeio_ip (peer_info p))) as Hown.
  { unfold Router.insert_new. destruct (Router.alloc r p) as [r' l0]. cbn [fst snd] in *.
    unfold Router.insert. rewrite Hself. apply lookup_insert_eq. }
  case_decide as Hip.
  - intros [= <-]. rewrite decide_True by done. intros [= <-]. by subst.
  - intros Hl. rewrite decide_False by (eapply keyed_alloc_ne; [apply Hwf|done]). intros Hj.
    assert (PeerInfo.peer_id j ≠ PeerInfo.peer_id (peer_info p)) as Hne
      by (intros Heq; by eapply Hip, Hnc).
    destruct (Hby _ Hne) as [->|(l' & j' & Hl' & Hj' & Heq)]; [by eapply Hc|].
    pose proof (Hc _ _ _ Hl' Hj') as H1. rewrite Heq, (Hc _ _ _ Hl Hj) in H1. congruence.
Qed.

Lemma complete_update_info r l i k :
  Router.wf r → Router.complete r → Router.get r (PeerInfo.noeio_ip i) = Some l →
  no_clash r i → Router.complete (Router.update_info r l i k).
Proof.
  intros [Hk Hs] Hc Hget Hnc ip l' j. rewrite update_info_info.
  destruct (Hk _ _ Hget) as (old & Hold & Hip). rewrite Hold. cbn [fmap option_fmap option_map].
  pose proof (Hc _ _ _ Hget Hold) as Hbyold. unfold Router.update_info.
  unfold Router.info in Hold. destruct (Router.heap r !! l) as [p|]; [|done]. simplify_eq/=.
  intros Hl'. case_decide as Hll.
  - subst. intros [= <-]. rewrite lookup_insert_eq. f_equal. by eapply keyed_inj.
  - intros Hj. assert (PeerInfo.peer_id j ≠ PeerInfo.peer_id i) as Hne.
    { intros Heq. pose proof (Hnc _ _ _ Hl' Hj Heq). unfold Router.get in Hget. congruence. }
    rewrite lookup_insert_ne by done. case_decide; [|by eapply Hc].
    rewrite lookup_delete_ne; [by eapply Hc|]. intros Heq.
    pose proof (Hc _ _ _ Hl' Hj) as H1. rewrite <-Heq, Hbyold in H1.
    unfold Router.get in Hget. congruence.
Qed.

Lemma complete_remove r ip :
  Router.complete r → Router.complete (Router.remove r ip).1.
Proof.
  intros Hc. destruct (Router.remove r ip) as [r' [l|]] eqn:Hr.
  - destruct (remove_Some _ _ _ _ Hr) as (i & Hl & Hi & ->). cbn [fst].
    intros ip' l' j. cbn [Router.peers Router.by_peer_id].
    intros [Hne Hl']%lookup_delete_Some Hj. pose proof (Hc _ _ _ Hl' Hj) as H1.
    rewrite lookup_delete_ne; [done|]. intros Heq.
    pose proof (Hc _ _ _ Hl Hi) as H2. rewrite Heq, H1 in H2. congruence.
  - pose proof (remove_None r ip) as Hn. rewrite Hr in Hn. by rewrite Hn.
Qed.

Lemma complete_step r r' :
  Router.wf r ∧ Router.complete r → distinct_step r r' →
  Router.wf r' ∧ Router.complete r'.
Proof.
  intros [Hwf Hc] Hs. split; [by eapply wf_step, distinct_is_step|].
  destruct Hs as [| |r es|r ip|r id];
    [by apply complete_insert_new|by apply complete_update_info|exact Hc|
     by apply complete_remove|].
  unfold Router.remove_by_peer_id. destruct (_ !! id); [by apply complete_remove|done].
Qed.

Lemma complete_reachable r :
  rtc distinct_step Router.new r → Router.wf r ∧ Router.complete r.
Proof.
  intros Hr. eapply (rtc_invariant distinct_step (λ r, Router.wf r ∧ Router.complete r));
    [exact complete_step|exact Hr|].
  split; [apply wf_new|]. intros ? ? ?; done.
Qed.
End distinct.

(** The simplest peer: its identity. *)
#[export] Instance info_peer {CA : CidrApi} : PeerLike PeerInfo := {|
  peer_info p := p;
  peer_update_info _ i _ := i;
  peer_info_update _ _ _ := eq_refl |}.

Definition example_peer (id ip v : Z) : PeerInfo :=
  PeerInfo.MkPeerInfo v id (IpV4 (ipv4 110 20 0 ip)) [] Other None [] [] false.

Definition lan24_cidr : Cidr := cidr_new (ipv4 192 168 10 0) 24.
Definition lan16_cidr : Cidr := cidr_new (ipv4 192 168 0 0) 16.

Definition example_router : Router.Router (P := PeerInfo) :=
  Router.insert_new (Router.insert_new Router.new (example_peer 11 1 1)) (example_peer 12 2 1).

(** The secondary index never lies: in every state the daemon's calls can
    reach, an id resolves only to a peer that carries that id and that is the one
    stored under its own virtual address - after renames, replacements and
    removals, in any order. *)
Theorem router_index_sound {CA : CidrApi} {P} {PL : PeerLike P}
    (r : Router.Router (P := P)) id l :
  Router.reachable r → Router.get_by_peer_id r id = Some l →
  ∃ i, Router.info r l = Some i ∧ PeerInfo.peer_id i = id ∧
       Router.get r (PeerInfo.noeio_ip i) = Some l.
Proof. intros Hr%wf_reachable. by apply get_by_peer_id_Some. Qed.

Lemma example_router_reachable : Router.reachable example_router.
Proof.
  eapply rtc_l; [apply Router.step_insert|]. eapply rtc_l; [apply Router.step_insert|].
  apply rtc_refl.
Defined.

Lemma router_index_sound_witness :
  ∃ l i, Router.get_by_peer_id example_router 12 = Some l ∧
    Router.info example_router l = Some i ∧ PeerInfo.peer_id i = 12.
Proof.
  assert (Router.get_by_peer_id example_router 12 = Some 1%nat) as H by reflexivity.
  destruct (router_index_sound example_router 12 1 example_router_reachable H)
    as (i & Hi & Hid & _).
  exists 1%nat, i. split; [exact H|split; [exact Hi|exact Hid]].
Defined.

(** When the relay never hands one id to two addresses at a time, the index is
    also complete: looking a peer up by id finds exactly the stored peer with that
    id, so inbound demultiplexing never misses a known peer. *)
Theorem router_index_complete {CA : CidrApi} {P} {PL : PeerLike P}
    (r : Router.Router (P := P)) id l :
  rtc distinct_step Router.new r →
  Router.get_by_peer_id r id = Some l ↔
  ∃ ip i, Router.get r ip = Some l ∧ Router.info r l = Some i ∧ PeerInfo.peer_id i = id.
Proof.
  intros [Hwf Hc]%complete_reachable. split.
  - intros (i & Hi & Hid & Hget)%get_by_peer_id_Some; [|done]. eauto.
  - intros (ip & i & Hget & Hi & <-). unfold Router.get_by_peer_id.
    rewrite (Hc _ _ _ Hget Hi). exact Hget.
Qed.

Lemma router_index_complete_witness :
  Router.get_by_peer_id example_router 11 = Some 0%nat.
Proof.
  apply router_index_complete.
  - eapply rtc_l; [apply distinct_insert|].
    { intros ip l j H. by destruct ip. }
    eapply rtc_l; [apply distinct_insert|apply rtc_refl].
    intros ip l j Hl Hj. unfold Router.get in Hl. rewrite insert_new_lookup in Hl.
    destruct (decide _); [|by destruct ip].
    injection Hl as <-. injection Hj as <-. intros Heq. discriminate Heq.
  - exists (IpV4 (ipv4 110 20 0 1)), (example_peer 11 1 1). split_and!; reflexivity.
Defined.

(** C20. Outbound lookup is an exact match first and a longest-prefix match over the
    installed subnets otherwise: after [set_subnets es] an unknown IPv4 address goes
    to the exit of a containing prefix of [es] that no containing prefix of [es] is
    longer than, and to nobody when no prefix contains it. *)
Theorem lookup_longest_prefix {CA : CidrApi} {CL : CidrLaws} {P}
    (r : Router.Router (P := P)) es a :
  (∀ l, Router.get r (IpV4 a) = Some l →
     Router.lookup (Router.set_subnets r es) (IpV4 a) = Some l) ∧
  (Router.get r (IpV4 a) = None →
     (Router.lookup (Router.set_subnets r es) (IpV4 a) = None ∧
      ∀ c id, (c, id) ∈ es → cidr_contains_addr c a = false) ∨
     ∃ c id, (c, id) ∈ es ∧ cidr_contains_addr c a = true ∧
       (∀ c' id', (c', id') ∈ es → cidr_contains_addr c' a = true →
          cidr_prefix_len c' ≤ cidr_prefix_len c) ∧
       Router.lookup (Router.set_subnets r es) (IpV4 a) = Router.get_by_peer_id r id).
Proof.
  change (Router.get r (IpV4 a)) with (Router.get (Router.set_subnets r es) (IpV4 a)).
  unfold Router.lookup. split; [by intros l ->|]. intros ->.
  pose proof (lookup_exit_spec r es a) as Hspec.
  destruct (Router.lookup_exit _ a) as [id|]; cbn [mbind option_bind]; [right|left; done].
  destruct Hspec as (c & Hin & Hc & Hle). by exists c, id.
Qed.

(** An address inside a /16 and a /24 goes to the /24's exit; one outside both goes
    nowhere, and a known overlay address is never looked up in the subnets. *)
Lemma lookup_longest_prefix_witness :
  let r := Router.set_subnets example_router [(lan16_cidr, 11); (lan24_cidr, 12)] in
  Router.lookup r (IpV4 (ipv4 192 168 10 7)) = Router.get_by_peer_id example_router 12 ∧
  Router.lookup r (IpV4 (ipv4 110 20 0 2)) = Some 1%nat ∧
  ∃ c id, (c, id) ∈ [(lan16_cidr, 11); (lan24_cidr, 12)] ∧
    Router.lookup r (IpV4 (ipv4 192 168 9 7)) = Router.get_by_peer_id example_router id.
Proof.
  intros r. split_and!; [reflexivity| |].
  - apply (proj1 (lookup_longest_prefix example_router _ _)). reflexivity.
  - destruct (proj2 (lookup_longest_prefix example_router
      [(lan16_cidr, 11); (lan24_cidr, 12)] (ipv4 192 168 9 7)) eq_refl)
      as [[H _]|(c & id & Hin & _ & _ & H)]; [discriminate H|by exists c, id].
Defined.

(** The installed table is canonical: it depends on the set of accepted routes
    alone, so neither the order in which peers are enumerated nor duplicates among
    them can change where a packet goes. *)
Theorem set_subnets_canonical {CA : CidrApi} {CL : CidrLaws} {P}
    (r : Router.Router (P := P)) es es' :
  (∀ e, e ∈ es ↔ e ∈ es') → Router.set_subnets r es = Router.set_subnets r es'.
Proof.
  intros H. unfold Router.set_subnets. f_equal. by apply dedup_merge_sort_canonical; try apply _.
Qed.

Lemma set_subnets_canonical_witness :
  Router.set_subnets example_router [(lan24_cidr, 11); (lan24_cidr, 12); (lan24_cidr, 11)]
  = Router.set_subnets example_router [(lan24_cidr, 12); (lan24_cidr, 11)].
Proof.
  apply (set_subnets_canonical example_router); intros e. rewrite !elem_of_cons. tauto.
Defined.

(** Removing a peer by id removes that peer, its index entry and every subnet
    it was the exit for, and leaves every other route and peer in place. *)
Theorem remove_peer_withdraws {CA : CidrApi} {P} {PL : PeerLike P}
    (r r' : Router.Router (P := P)) id l :
  Router.reachable r → Router.remove_by_peer_id r id = (r', Some l) →
  Router.get_by_peer_id r id = Some l ∧
  Router.get_by_peer_id r' id = None ∧
  (∀ c e, (c, e) ∈ Router.subnets r' ↔ (c, e) ∈ Router.subnets r ∧ e ≠ id) ∧
  (∀ ip, Router.get r ip ≠ Some l → Router.get r' ip = Router.get r ip) ∧
  (∀ id', id' ≠ id → Router.by_peer_id r' !! id' = Router.by_peer_id r !! id').
Proof.
  intros Hwf%wf_reachable. unfold Router.remove_by_peer_id, Router.get_by_peer_id.
  destruct (Router.by_peer_id r !! id) as [ip|] eqn:Hid; [|done].
  intros (i & Hl & Hi & ->)%remove_Some.
  destruct (proj2 Hwf _ _ Hid) as (l' & i' & Hl' & Hi' & Heq). unfold Router.get.
  assert (PeerInfo.peer_id i = id) as -> by congruence.
  cbn [Router.by_peer_id Router.subnets Router.peers mbind option_bind].
  rewrite lookup_delete_eq. split_and!; [done|done| | |].
  - intros c e. rewrite list_elem_of_In, filter_In, <-list_elem_of_In.
    rewrite negb_true_iff, Z.eqb_neq. done.
  - intros ip' Hne. rewrite lookup_delete_ne; [done|]. intros <-. done.
  - intros id' Hne. by rewrite lookup_delete_ne.
Qed.

Lemma remove_peer_withdraws_witness :
  ∃ r', Router.remove_by_peer_id example_router 12 = (r', Some 1%nat) ∧
    Router.get_by_peer_id r' 12 = None.
Proof.
  eexists. split; [reflexivity|].
  eapply (remove_peer_withdraws example_router _ 12 1 example_router_reachable); reflexivity.
Defined.
