(* ===== verification/NetRoute.v ===== *)
(** [noeio-net-route/src/lib.rs] (the Linux and Windows bodies): route changes in
    the kernel, and what their errors mean. The kernel's table is reached through
    the third-party [net_route::Handle], a class of operations; [KernelLaws] is
    what a healthy kernel answers. *)

From Stdlib Require Import ZArith Lia.
From Stdlib Require Import Strings.String.
From stdpp Require Import base list strings gmap.
From S2P Require Import Prelude Text NetTypes HostInfo.

Local Open Scope string_scope.
Local Open Scope Z_scope.

(** [net_route::Route], the fields the program sets or reads. *)
Record Route : Type := MkRoute {
  destination : IpAddr;
  prefix : Z;
  route_ifindex : option Z;
  route_metric : option Z;
}.

#[export] Instance Route_eq_dec : EqDecision Route.
Proof. solve_decision. Defined.

(** [net_route::Handle] over a kernel of state [K]. *)
Class RouteHandle (K : Type) : Type := {
  handle_new : K → result unit IoError;
  handle_add : K → Route → K * result unit IoError;
  handle_list : K → result (list Route) IoError;
  handle_delete : K → Route → K * result unit IoError;
}.

(** [noeio/src/interface/virtual_nic.rs]. *)
Definition ROUTE_METRIC : Z := 7.

Definition is_ipv4 (i : IpAddr) : bool := match i with IpV4 _ => true | IpV6 _ => false end.

Definition check_prefix (target : IpAddr) (prefix : Z) : result unit IoError :=
  let max := if is_ipv4 target then 32 else 128 in
  if max <? prefix then Err (io_error InvalidInput "prefix length out of range") else Ok tt.

Definition is_route_missing (err : IoError) : bool :=
  match raw_os_error err with
  | Some e => (e =? 3) || (e =? 2) || (e =? 1168)
  | None => bool_decide (io_kind err = NotFound)
  end.

Definition is_route_exists (err : IoError) : bool :=
  match raw_os_error err with
  | Some e => (e =? 17) || (e =? 5010)
  | None => bool_decide (io_kind err = AlreadyExists)
  end.

Section net_route.
Context {K : Type} {H : RouteHandle K}.

Definition add_route (k : K) (target : IpAddr) (prefix ifindex metric : Z) :
    K * result unit IoError :=
  match check_prefix target prefix with
  | Err e => (k, Err e)
  | Ok _ =>
      let route := MkRoute target prefix (Some ifindex) (Some metric) in
      match handle_new k with
      | Err e => (k, Err e)
      | Ok _ => handle_add k route
      end
  end.

Definition route_matches (target : IpAddr) (p : Z) (ifindex : option Z) (r : Route) : bool :=
  bool_decide (destination r = target) && (prefix r =? p) &&
  match ifindex with None => true | Some want => bool_decide (route_ifindex r = Some want) end.

Definition no_route : IoError := io_error NotFound "no route through the given interface".

Definition del_route (k : K) (target : IpAddr) (prefix : Z) (ifindex : option Z) :
    K * result unit IoError :=
  match check_prefix target prefix with
  | Err e => (k, Err e)
  | Ok _ =>
      match handle_new k with
      | Err e => (k, Err e)
      | Ok _ =>
          match handle_list k with
          | Err e => (k, Err e)
          | Ok routes =>
              match List.find (route_matches target prefix ifindex) routes with
              | None => (k, Err no_route)
              | Some existing => handle_delete k existing
              end
          end
      end
  end.

(** [VirtualNic::add_route] and [VirtualNic::del_route] through nic [tun_index]. *)
Definition nic_add_route (tun_index : Z) (k : K) (target : IpAddr) (prefix : Z) :
    K * result unit IoError :=
  match add_route k target prefix tun_index ROUTE_METRIC with
  | (k', Err err) => if is_route_exists err then (k', Ok tt) else (k', Err err)
  | other => other
  end.
Definition nic_del_route (tun_index : Z) (k : K) (target : IpAddr) (prefix : Z) :
    K * result unit IoError :=
  match del_route k target prefix (Some tun_index) with
  | (k', Err err) => if is_route_missing err then (k', Ok tt) else (k', Err err)
  | other => other
  end.
End net_route.

(** The build for any other platform. *)
Module OtherPlatform.
Definition unsupported : IoError :=
  io_error Unsupported "native route management is unsupported on this platform".
Definition add_route (target : IpAddr) (prefix ifindex metric : Z) : result unit IoError := Err unsupported.
Definition del_route (target : IpAddr) (prefix : Z) (ifindex : option Z) : result unit IoError := Err unsupported.

(** Neither counts as done: the error is not one the callers read as success. *)
Lemma unsupported_is_failure : is_route_missing unsupported = false ∧ is_route_exists unsupported = false.
Proof. done. Qed.
End OtherPlatform.

(** ** A healthy kernel *)

(** Two routes clash when the kernel keys them alike: same prefix, same metric. *)
Definition clash (r s : Route) : Prop :=
  destination r = destination s ∧ prefix r = prefix s ∧ route_metric r = route_metric s.

#[export] Instance clash_dec r s : Decision (clash r s).
Proof. unfold clash. apply _. Defined.

(** The documented behaviour of the route API on Linux, for a process that may
    change routes. *)
Class KernelLaws {K : Type} {H : RouteHandle K} : Type := {
  table : K → list Route;
  table_keyed : ∀ k r s, r ∈ table k → s ∈ table k → clash r s → r = s;
  law_new : ∀ k, handle_new k = Ok tt;
  law_list : ∀ k, handle_list k = Ok (table k);
  law_add_new : ∀ k r, (∀ s, s ∈ table k → ¬ clash r s) →
    (handle_add k r).2 = Ok tt ∧
    ∀ s, s ∈ table (handle_add k r).1 ↔ s = r ∨ s ∈ table k;
  law_add_exists : ∀ k r s, s ∈ table k → clash r s →
    (∃ e, (handle_add k r).2 = Err e ∧ raw_os_error e = Some 17) ∧
    table (handle_add k r).1 = table k;
  law_delete : ∀ k r, r ∈ table k →
    (handle_delete k r).2 = Ok tt ∧
    ∀ s, s ∈ table (handle_delete k r).1 ↔ s ∈ table k ∧ s ≠ r;
}.

Section healthy.
Context {K : Type} {H : RouteHandle K} {KL : KernelLaws}.

Lemma check_prefix_v4 a p : p ≤ 32 → check_prefix (IpV4 a) p = Ok tt.
Proof. intros Hp. unfold check_prefix. simpl. by rewrite (proj2 (Z.ltb_ge _ _)). Qed.

(** Adding an IPv4 route on a healthy kernel succeeds or finds it there already. *)
Lemma add_route_healthy k a p i m :
  p ≤ 32 →
  let r := MkRoute (IpV4 a) p (Some i) (Some m) in
  let res := add_route k (IpV4 a) p i m in
  (((∀ s, s ∈ table k → ¬ clash r s) ∧ res.2 = Ok tt ∧
    ∀ s, s ∈ table res.1 ↔ s = r ∨ s ∈ table k) ∨
   ((∃ s, s ∈ table k ∧ clash r s) ∧ (∃ e, res.2 = Err e ∧ is_route_exists e = true) ∧
    table res.1 = table k)).
Proof.
  intros Hp r res. unfold res, add_route. rewrite check_prefix_v4, law_new by done. fold r.
  destruct (decide (Exists (clash r) (table k))) as [He|Hn].
  - right. apply Exists_exists in He as (s & Hs & Hc). split; [by exists s|].
    destruct (law_add_exists k r s Hs Hc) as [(e & He & Hos) Ht]. split; [|done].
    exists e. split; [done|]. unfold is_route_exists. by rewrite Hos.
  - left. assert (∀ s, s ∈ table k → ¬ clash r s) as Hno.
    { intros s Hs Hc. apply Hn, Exists_exists. by exists s. }
    split; [done|]. by apply law_add_new.
Qed.

(** Deleting removes the one route that matches, or reports none does. *)
Lemma del_route_healthy k a p oi :
  p ≤ 32 →
  let res := del_route k (IpV4 a) p oi in
  ((∃ r, r ∈ table k ∧ route_matches (IpV4 a) p oi r = true ∧ res.2 = Ok tt ∧
    ∀ s, s ∈ table res.1 ↔ s ∈ table k ∧ s ≠ r) ∨
   ((∀ r, r ∈ table k → route_matches (IpV4 a) p oi r = false) ∧
    res = (k, Err no_route))).
Proof.
  intros Hp res. unfold res, del_route. rewrite check_prefix_v4, law_new, law_list by done.
  destruct (List.find _ (table k)) as [r|] eqn:Hf.
  - left. apply List.find_some in Hf as [Hin Hm]. apply list_elem_of_In in Hin.
    exists r. destruct (law_delete k r Hin). done.
  - right. split; [|done]. intros r Hr.
    rewrite find_None_Forall, Forall_forall in Hf. by apply Hf.
Qed.
End healthy.

(** ** A kernel that satisfies the laws *)

(** The FIB keyed as Linux keys it. Nothing depends on it but the witnesses. *)
Notation fib := (gmap (IpAddr * Z * option Z) (option Z)).

Definition fib_route (e : (IpAddr * Z * option Z) * option Z) : Route :=
  MkRoute e.1.1.1 e.1.1.2 e.2 e.1.2.
Definition fib_key (r : Route) : IpAddr * Z * option Z :=
  (destination r, prefix r, route_metric r).

#[export] Instance fib_handle : RouteHandle fib := {|
  handle_new _ := Ok tt;
  handle_add k r :=
    match k !! fib_key r with
    | Some _ => (k, Err (MkIoError (Some 17) AlreadyExists "File exists"))
    | None => (<[fib_key r := route_ifindex r]> k, Ok tt)
    end;
  handle_list k := Ok (map fib_route (map_to_list k));
  handle_delete k r :=
    if decide (k !! fib_key r = Some (route_ifindex r))
    then (delete (fib_key r) k, Ok tt)
    else (k, Err (MkIoError (Some 3) NotFound "No such process"));
|}.

Lemma elem_of_fib (k : fib) r :
  r ∈ map fib_route (map_to_list k) ↔ k !! fib_key r = Some (route_ifindex r).
Proof.
  rewrite list_elem_of_In, in_map_iff. setoid_rewrite <-list_elem_of_In. split.
  - intros ([[[d p] m] i] & <- & Hin). by apply elem_of_map_to_list in Hin.
  - intros Hk. exists (fib_key r, route_ifindex r). split; [by destruct r|].
    by apply elem_of_map_to_list.
Qed.

#[export] Instance fib_laws : KernelLaws (K := fib).
Proof.
  refine {| table k := map fib_route (map_to_list k) |}; intros k; try done.
  - intros r s. rewrite !elem_of_fib. intros Hr Hs (Hd & Hp & Hm).
    assert (fib_key r = fib_key s) as Heq by (unfold fib_key; congruence).
    rewrite Heq in Hr. destruct r, s; simpl in *; congruence.
  - intros r Hno. simpl. destruct (k !! fib_key r) as [i|] eqn:Hk.
    + exfalso. apply (Hno (fib_route (fib_key r, i))); [|done].
      by apply elem_of_fib.
    + split; [done|]. intros s. cbn [fst]. rewrite !elem_of_fib, lookup_insert_Some. split.
      * intros [[Hkey Hi]|[_ ?]]; [left|by right]. destruct r, s; unfold fib_key in *; simpl in *; congruence.
      * intros [->|Hs]; [by left|right]. split; [|done]. intros Heq. by rewrite Heq, Hs in Hk.
  - intros r s Hs Hc. rewrite elem_of_fib in Hs.
    assert (fib_key r = fib_key s) as Heq by (destruct Hc as (?&?&?); unfold fib_key; congruence).
    simpl. rewrite Heq, Hs. split; [|done]. eexists. split; [done|done].
  - intros r Hr. rewrite elem_of_fib in Hr. simpl. rewrite decide_True by done.
    split; [done|]. intros s. cbn [fst]. rewrite !elem_of_fib, lookup_delete_Some. split.
    + intros [Hne Hs]. split; [done|]. by intros ->.
    + intros [Hs Hne]. split; [|done]. intros Heq. apply Hne.
      rewrite Heq, Hs in Hr. destruct r, s; unfold fib_key in *; simpl in *; congruence.
Defined.
