(* ===== verification/Reconcile.v ===== *)
(** [noeio/src/daemon/reconciler.rs]: converging the kernel's routing table to the
    routes the daemon wants, and the state file that survives a crash. *)

From Stdlib Require Import ZArith Lia.
From Stdlib Require Import Strings.Ascii Strings.String.
From stdpp Require Import base list strings gmap fin_sets sorting.
From S2P Require Import Prelude Text NetTypes CidrModel HostInfo NetRoute.

Local Open Scope string_scope.
Local Open Scope Z_scope.

(** The files the daemon reads and writes, with a switch for a directory that cannot
    be written. *)
Record Fs : Type := MkFs {
  files : gmap string string;
  writable : bool;
}.

Definition fs_read (fs : Fs) (path : string) : result string ErrorKind :=
  ok_or NotFound (files fs !! path).
Definition fs_write (fs : Fs) (path body : string) : Fs * result unit ErrorKind :=
  if writable fs then (MkFs (<[path := body]> (files fs)) true, Ok tt)
  else (fs, Err PermissionDenied).

Module Reconciler.
Section reconciler.
Context {CA : CidrApi}.

Record RouteKey : Type := Key {
  nic : PeerId;
  cidr : Cidr;
}.

#[global] Instance RouteKey_eq_dec : EqDecision RouteKey.
Proof. solve_decision. Defined.
#[global] Instance RouteKey_countable : Countable RouteKey.
Proof.
  refine (inj_countable' (λ k, (nic k, cidr k)) (λ q, Key q.1 q.2) _). by intros [].
Defined.

(** Derived [Ord]: the nic, then the prefix. *)
Definition key_le (a b : RouteKey) : Prop :=
  nic a < nic b ∨ (nic a = nic b ∧ cidr_le (cidr a) (cidr b)).
#[global] Instance key_le_dec : RelDecision key_le.
Proof. intros a b. unfold key_le. apply _. Defined.

(** A [BTreeSet<RouteKey>] and its iteration order. *)
Definition iter (s : gset RouteKey) : list RouteKey := merge_sort key_le (elements s).

Record PeerRoutes : Type := MkPeerRoutes {
  pr_nic : PeerId;
  pr_peer_id : PeerId;
  pr_ip : IpAddr;
  pr_subnets : list Cidr;
}.

Definition desired_peer (nics : list PeerId) (set : gset RouteKey) (peer : PeerRoutes) :
    gset RouteKey :=
  if negb (bool_decide (pr_nic peer ∈ nics)) then set else
  let set := match pr_ip peer with
             | IpV4 ip => {[ Key (pr_nic peer) (cidr_new ip 32) ]} ∪ set
             | IpV6 _ => set
             end in
  foldl (λ set c, {[ Key (pr_nic peer) (cidr_network c) ]} ∪ set) set (pr_subnets peer).

Definition desired (nics : list PeerId) (peers : list PeerRoutes) : gset RouteKey :=
  foldl (desired_peer nics) ∅ peers.

Definition diff (desired installed : gset RouteKey) : list RouteKey * list RouteKey :=
  (iter (desired ∖ installed), iter (installed ∖ desired)).

(** The notification is the loop's business ([spawn]); the mutex is the state. *)
Record Reconciler : Type := MkReconciler {
  installed : gset RouteKey;
  state_file : option string;
}.

Definition new (state_file : option string) : Reconciler := MkReconciler ∅ state_file.

Section kernel.
Context {K : Type} {H : RouteHandle K}.

Definition install (k : K) (key : RouteKey) (ifindex : Z) : K * result unit IoError :=
  let target := IpV4 (cidr_address (cidr key)) in
  match add_route k target (cidr_prefix_len (cidr key)) ifindex ROUTE_METRIC with
  | (k', Err err) => if is_route_exists err then (k', Ok tt) else (k', Err err)
  | other => other
  end.

Definition uninstall (k : K) (key : RouteKey) (ifindex : option Z) :
    K * result unit IoError :=
  let target := IpV4 (cidr_address (cidr key)) in
  match del_route k target (cidr_prefix_len (cidr key)) ifindex with
  | (k', Err err) => if is_route_missing err then (k', Ok tt) else (k', Err err)
  | other => other
  end.

(** Kernel, remembered set, number of changes. *)
Definition pass : Type := K * gset RouteKey * nat.

Definition del_one (ifindex : PeerId → option Z) (st : pass) (key : RouteKey) : pass :=
  let '(k, installed, changed) := st in
  match uninstall k key (ifindex (nic key)) with
  | (k', Ok _) => (k', installed ∖ {[ key ]}, S changed)
  | (k', Err _) => (k', installed, changed)
  end.

Definition add_one (ifindex : PeerId → option Z) (st : pass) (key : RouteKey) : pass :=
  let '(k, installed, changed) := st in
  match ifindex (nic key) with
  | None => st
  | Some idx =>
      match install k key idx with
      | (k', Ok _) => (k', {[ key ]} ∪ installed, S changed)
      | (k', Err _) => (k', installed, changed)
      end
  end.

Definition reconcile_pass (ifindex : PeerId → option Z) (k : K)
    (desired installed : gset RouteKey) : pass :=
  let '(add, del) := diff desired installed in
  foldl (add_one ifindex) (foldl (del_one ifindex) (k, installed, 0%nat) del) add.
End kernel.

(** One line of the state file. *)
Definition SPACE : ascii := " ".
Definition show_key (k : RouteKey) : string :=
  show_uint (nic k) +:+ String SPACE (cidr_to_string (cidr k)).
Definition body (s : gset RouteKey) : string :=
  foldr (λ k acc, show_key k +:+ String LF acc) "" (iter s).

Definition persist (r : Reconciler) (fs : Fs) : Fs :=
  match state_file r with
  | None => fs
  | Some path => (fs_write fs path (body (installed r))).1
  end.

Definition reconcile {K} {H : RouteHandle K} (r : Reconciler) (k : K) (fs : Fs)
    (desired : gset RouteKey) (ifindex : PeerId → option Z) :
    Reconciler * K * Fs * nat :=
  let '(k', installed', changed) := reconcile_pass ifindex k desired (installed r) in
  let r' := MkReconciler installed' (state_file r) in
  (r', k', if (0 <? changed)%nat then persist r' fs else fs, changed).

Definition parse_line (line : string) : option RouteKey :=
  '(nic, c) ← split_once SPACE line;
  nic ← parse_uint 32 nic;
  c ← cidr_parse c;
  Some (Key nic c).

Definition restore_line (s : gset RouteKey) (line : string) : gset RouteKey :=
  match parse_line line with Some key => {[ key ]} ∪ s | None => s end.

Definition restore (r : Reconciler) (fs : Fs) : Reconciler :=
  match state_file r with
  | None => r
  | Some path =>
      match fs_read fs path with
      | Err _ => r
      | Ok content =>
          let ls := List.filter (λ l, negb (bool_decide (l = ""))) (map trim (lines content)) in
          MkReconciler (foldl restore_line (installed r) ls) (state_file r)
      end
  end.
End reconciler.
End Reconciler.
Notation RouteKey := Reconciler.RouteKey.

(** ** Facts *)

Section facts.
Context {CA : CidrApi}.
Implicit Types (S D : gset RouteKey) (key : RouteKey).

Lemma elem_of_iter S key : key ∈ Reconciler.iter S ↔ key ∈ S.
Proof. unfold Reconciler.iter. rewrite merge_sort_Permutation. apply elem_of_elements. Qed.

Lemma NoDup_iter S : NoDup (Reconciler.iter S).
Proof. unfold Reconciler.iter. rewrite merge_sort_Permutation. apply NoDup_elements. Qed.

Lemma size_insert key S : key ∉ S → size ({[key]} ∪ S) = Datatypes.S (size S).
Proof.
  intros Hk. rewrite (size_union {[key]}) by set_solver. by rewrite (size_singleton key).
Qed.

Lemma iter_empty : Reconciler.iter ∅ = [].
Proof. unfold Reconciler.iter. by rewrite elements_empty. Qed.

Lemma elem_of_desired_subnets n cs S key :
  key ∈ foldl (λ S c, {[ Reconciler.Key n (cidr_network c) ]} ∪ S) S cs ↔
  key ∈ S ∨ ∃ c, c ∈ cs ∧ key = Reconciler.Key n (cidr_network c).
Proof. revert S. induction cs as [|c cs IH]; intros S; simpl; [|rewrite IH]; set_solver. Qed.

(** What one peer contributes. *)
Definition contributes (nics : list PeerId) (p : Reconciler.PeerRoutes) key : Prop :=
  Reconciler.pr_nic p ∈ nics ∧ Reconciler.nic key = Reconciler.pr_nic p ∧
  ((∃ ip, Reconciler.pr_ip p = IpV4 ip ∧ Reconciler.cidr key = cidr_new ip 32) ∨
   ∃ c, c ∈ Reconciler.pr_subnets p ∧ Reconciler.cidr key = cidr_network c).

Lemma elem_of_desired_peer nics S p key :
  key ∈ Reconciler.desired_peer nics S p ↔ key ∈ S ∨ contributes nics p key.
Proof.
  unfold Reconciler.desired_peer, contributes. case_bool_decide as Hn; cbn [negb]; [|naive_solver].
  rewrite elem_of_desired_subnets. destruct key as [n c]. cbn [Reconciler.nic Reconciler.cidr].
  destruct (Reconciler.pr_ip p); [rewrite elem_of_union, elem_of_singleton|]; naive_solver.
Qed.

Lemma elem_of_desired_fold nics ps S key :
  key ∈ foldl (Reconciler.desired_peer nics) S ps ↔
  key ∈ S ∨ ∃ p, p ∈ ps ∧ contributes nics p key.
Proof.
  revert S. induction ps as [|p ps IH]; intros S; simpl; [set_solver|].
  rewrite IH, elem_of_desired_peer. set_solver.
Qed.

Section kernel.
Context {K : Type} {H : RouteHandle K} (ifindex : PeerId → option Z).

Lemma del_fold_memory L k S n :
  NoDup L → (∀ key, key ∈ L → key ∈ S) →
  let '(_, S', n') := foldl (Reconciler.del_one ifindex) (k, S, n) L in
  S' ⊆ S ∧ (∀ key, key ∈ S → key ∉ L → key ∈ S') ∧ n' = (n + size (S ∖ S'))%nat.
Proof.
  revert k S n. induction L as [|key L IH]; intros k S n Hnd Hin; cbn [foldl].
  { split_and!; [done|done|]. rewrite difference_diag_L, size_empty. lia. }
  apply NoDup_cons in Hnd as [Hkey Hnd]. unfold Reconciler.del_one at 2.
  destruct (Reconciler.uninstall k key _) as [k' [[]|e]].
  - specialize (IH k' (S ∖ {[key]}) (Datatypes.S n) Hnd).
    destruct (foldl _ _ L) as [[k2 S2] n2]. destruct IH as (Hsub & Hkeep & ->).
    { intros key' Hk'. apply elem_of_difference. split; [set_solver|].
      intros ->%elem_of_singleton. done. }
    split_and!; [set_solver|set_solver|].
    assert (S ∖ S2 = {[key]} ∪ (S ∖ {[key]} ∖ S2)) as ->.
    { apply set_eq. intros x. destruct (decide (x = key)) as [->|]; [|set_solver].
      assert (key ∈ S) by set_solver. set_solver. }
    rewrite size_insert by set_solver. lia.
  - specialize (IH k' S n Hnd ltac:(set_solver)).
    destruct (foldl _ _ L) as [[k2 S2] n2]. destruct IH as (Hsub & Hkeep & ->).
    split_and!; [done|set_solver|done].
Qed.

Lemma add_fold_memory L k S n :
  NoDup L → (∀ key, key ∈ L → key ∉ S) →
  let '(_, S', n') := foldl (Reconciler.add_one ifindex) (k, S, n) L in
  S ⊆ S' ∧ (∀ key, key ∈ S' → key ∈ S ∨ key ∈ L) ∧ n' = (n + size (S' ∖ S))%nat.
Proof.
  revert k S n. induction L as [|key L IH]; intros k S n Hnd Hin; cbn [foldl].
  { split_and!; [done|set_solver|]. rewrite difference_diag_L, size_empty. lia. }
  apply NoDup_cons in Hnd as [Hkey Hnd]. unfold Reconciler.add_one at 2.
  assert (∀ k', let '(_, S', n') := foldl (Reconciler.add_one ifindex) (k', S, n) L in
    S ⊆ S' ∧ (∀ key', key' ∈ S' → key' ∈ S ∨ key' ∈ key :: L) ∧
    n' = (n + size (S' ∖ S))%nat) as Hskip.
  { intros k'. specialize (IH k' S n Hnd ltac:(set_solver)).
    destruct (foldl _ _ L) as [[k2 S2] n2]. set_solver. }
  destruct (ifindex _) as [i|]; [|apply Hskip].
  destruct (Reconciler.install k key i) as [k' [[]|e]]; [|apply Hskip].
  specialize (IH k' ({[key]} ∪ S) (Datatypes.S n) Hnd). clear Hskip.
  destruct (foldl _ _ L) as [[k2 S2] n2]. destruct IH as (Hsub & Hkeep & ->).
  { intros key' Hk'. rewrite not_elem_of_union, not_elem_of_singleton. set_solver. }
  split_and!; [set_solver|set_solver|].
  assert (S2 ∖ S = {[key]} ∪ (S2 ∖ ({[key]} ∪ S))) as ->.
  { apply set_eq. intros x. destruct (decide (x = key)) as [->|]; [|set_solver].
    assert (key ∉ S) by set_solver. set_solver. }
  rewrite size_insert by set_solver. lia.
Qed.

(** What one pass does to the remembered set, on any kernel. *)
Lemma pass_memory k D S :
  let '(_, S', n) := Reconciler.reconcile_pass ifindex k D S in
  D ∩ S ⊆ S' ∧ S' ⊆ D ∪ S ∧ n = (size (S ∖ S') + size (S' ∖ S))%nat.
Proof.
  unfold Reconciler.reconcile_pass, Reconciler.diff.
  pose proof (del_fold_memory (Reconciler.iter (S ∖ D)) k S 0 (NoDup_iter _)) as Hd.
  destruct (foldl (Reconciler.del_one ifindex) _ _) as [[k1 S1] n1].
  destruct Hd as (Hsub & Hkeep & ->); [intros key; rewrite elem_of_iter; set_solver|].
  pose proof (add_fold_memory (Reconciler.iter (D ∖ S)) k1 S1 (0 + size (S ∖ S1))
    (NoDup_iter _)) as Ha.
  destruct (foldl (Reconciler.add_one ifindex) _ _) as [[k2 S2] n2].
  destruct Ha as (Hsub2 & Hnew & ->); [intros key; rewrite elem_of_iter; set_solver|].
  setoid_rewrite elem_of_iter in Hkeep. setoid_rewrite elem_of_iter in Hnew.
  assert (∀ x, x ∈ S2 → x ∉ S1 → x ∉ S) as Hdisj by set_solver.
  split_and!.
  - intros x [Hx HxS]%elem_of_intersection. apply Hsub2, Hkeep; set_solver.
  - set_solver.
  - assert (S ∖ S1 = S ∖ S2) as -> by
      (apply set_eq; intros x; specialize (Hdisj x); destruct (decide (x ∈ S1)); set_solver).
    assert (S2 ∖ S1 = S2 ∖ S) as -> by
      (apply set_eq; intros x; specialize (Hdisj x); destruct (decide (x ∈ S1)); set_solver).
    done.
Qed.
End kernel.
End facts.

(** ** Convergence on a healthy kernel *)

Section healthy.
Context {CA : CidrApi} {CL : CidrLaws} {K : Type} {H : RouteHandle K} {KL : KernelLaws}.
Context (ifindex : PeerId → option Z).
Implicit Types (S D M : gset RouteKey) (key : RouteKey).

Definition key_dest key : IpAddr := IpV4 (cidr_address (Reconciler.cidr key)).
Definition key_prefix key : Z := cidr_prefix_len (Reconciler.cidr key).

(** The kernel route of a key through interface [i]. *)
Definition route_of key (i : Z) : Route :=
  MkRoute (key_dest key) (key_prefix key) (Some i) (Some ROUTE_METRIC).

(** A route to a prefix of [M]. *)
Definition managed M (r : Route) : Prop :=
  ∃ key, key ∈ M ∧ destination r = key_dest key ∧ prefix r = key_prefix key.

(** Of the routes to the prefixes of [M], the kernel holds exactly those of [S]. *)
Definition in_sync M (k : K) S : Prop :=
  ∀ r, managed M r → r ∈ table k ↔
    ∃ key i, key ∈ S ∧ ifindex (Reconciler.nic key) = Some i ∧ r = route_of key i.

(** No prefix through two nics at a time. *)
Definition one_nic S : Prop :=
  ∀ key key', key ∈ S → key' ∈ S → Reconciler.cidr key = Reconciler.cidr key' → key = key'.

Lemma key_cidr_eq key key' :
  key_dest key = key_dest key' → key_prefix key = key_prefix key' →
  Reconciler.cidr key = Reconciler.cidr key'.
Proof. unfold key_dest, key_prefix. intros [= ?] ?. by apply cidr_ext. Qed.

Lemma one_nic_mono S S' : S ⊆ S' → one_nic S' → one_nic S.
Proof. intros Hs Ho key key' ??. apply Ho; set_solver. Qed.

Lemma one_nic_empty : one_nic ∅.
Proof. intros key key' []%not_elem_of_empty. Qed.

Lemma one_nic_singleton key : one_nic {[ key ]}.
Proof. intros ? ? ->%elem_of_singleton ->%elem_of_singleton. done. Qed.

Lemma route_matches_true d p oi r :
  route_matches d p oi r = true ↔
  destination r = d ∧ prefix r = p ∧ (∀ i, oi = Some i → route_ifindex r = Some i).
Proof.
  unfold route_matches. rewrite !andb_true_iff, bool_decide_eq_true, Z.eqb_eq.
  destruct oi; [rewrite bool_decide_eq_true|]; naive_solver.
Qed.

Lemma uninstall_sync M S k key :
  key ∈ M → key ∈ S → S ⊆ M → one_nic S → in_sync M k S →
  let res := Reconciler.uninstall k key (ifindex (Reconciler.nic key)) in
  res.2 = Ok tt ∧ in_sync M res.1 (S ∖ {[key]}).
Proof.
  intros HkM HkS HSM Hone Hsync res. unfold res, Reconciler.uninstall.
  fold (key_dest key) (key_prefix key).
  assert (∀ r, r ∈ table k → destination r = key_dest key → prefix r = key_prefix key →
    ∃ i, ifindex (Reconciler.nic key) = Some i ∧ r = route_of key i) as Hown.
  { intros r Hr Hd Hp. destruct (proj1 (Hsync r ltac:(by exists key)) Hr) as (key' & i & Hk' & Hi & ->).
    rewrite <-(Hone key key'); [|done|done|by apply key_cidr_eq]. exists i.
    split; [|done]. by rewrite (Hone key key'); [|done|done|apply key_cidr_eq]. }
  destruct (del_route_healthy k (cidr_address (Reconciler.cidr key)) (key_prefix key)
    (ifindex (Reconciler.nic key))) as [(r & Hr & Hm & Hok & Ht)|[Hnone Hres]];
    [apply cidr_prefix_le_32|..]; fold (key_dest key) in *.
  - destruct (del_route k _ _ _) as [k' o]. cbn [fst snd] in *. subst o. cbn [fst snd].
    split; [done|]. intros s Hs. rewrite Ht, (Hsync s Hs).
    apply route_matches_true in Hm as (Hd & Hp & _).
    destruct (Hown r Hr Hd Hp) as (i & Hi & ->). split.
    + intros [(key' & j & Hk' & Hj & ->) Hne]. exists key', j. split_and!; [|done|done].
      apply elem_of_difference. split; [done|]. intros ->%elem_of_singleton. congruence.
    + intros (key' & j & [Hk' Hne]%elem_of_difference & Hj & ->).
      split; [by exists key', j|]. intros [= Ha Hpl _]. apply Hne, elem_of_singleton.
      apply Hone; [done|done|]. apply key_cidr_eq; [unfold key_dest; by f_equal|done].
  - rewrite Hres. cbn [fst snd]. split; [done|]. intros s Hs. rewrite (Hsync s Hs).
    split; intros (key' & j & Hk' & Hj & ->); exists key', j; (split_and!; [|done|done]).
    + apply elem_of_difference. split; [done|]. intros ->%elem_of_singleton.
      assert (route_of key j ∈ table k) as Hin.
      { apply Hsync; [by exists key|]. by exists key, j. }
      apply Hnone in Hin. apply not_true_iff_false in Hin. apply Hin.
      apply route_matches_true. split_and!; [done|done|]. intros i Hi.
      unfold route_of. cbn [route_ifindex]. congruence.
    + set_solver.
Qed.

Lemma install_sync M S k key i :
  key ∈ M → key ∉ S → one_nic ({[key]} ∪ S) → in_sync M k S →
  ifindex (Reconciler.nic key) = Some i →
  let res := Reconciler.install k key i in
  res.2 = Ok tt ∧ in_sync M res.1 ({[key]} ∪ S).
Proof.
  intros HkM HkS Hone Hsync Hi res. unfold res, Reconciler.install.
  fold (key_dest key) (key_prefix key).
  destruct (add_route_healthy k (cidr_address (Reconciler.cidr key)) (key_prefix key) i
    ROUTE_METRIC) as [(_ & Hok & Ht)|[(s & Hs & Hc) _]]; [apply cidr_prefix_le_32|..].
  - fold (key_dest key) in *. destruct (add_route k _ _ _ _) as [k' o]. cbn [fst snd] in *.
    subst o. split; [done|]. intros r Hr. cbn [fst]. rewrite Ht, (Hsync r Hr).
    fold (route_of key i). split.
    + intros [->|(key' & j & Hk' & Hj & ->)]; [exists key, i|exists key', j]; set_solver.
    + intros (key' & j & [->%elem_of_singleton|Hk']%elem_of_union & Hj & ->);
        [left; congruence|right; by exists key', j].
  - exfalso. destruct Hc as (Hd & Hp & _). cbn [destination prefix] in *.
    destruct (proj1 (Hsync s ltac:(by exists key)) Hs) as (key' & j & Hk' & Hj & ->).
    apply HkS. rewrite (Hone key key'); [done|set_solver|set_solver|by apply key_cidr_eq].
Qed.

Lemma del_fold_sync M L k S n :
  NoDup L → (∀ key, key ∈ L → key ∈ S) → S ⊆ M → one_nic S → in_sync M k S →
  let '(k', S', _) := foldl (Reconciler.del_one ifindex) (k, S, n) L in
  in_sync M k' S' ∧ ∀ key, key ∈ S' ↔ key ∈ S ∧ key ∉ L.
Proof.
  revert k S n. induction L as [|key L IH]; intros k S n Hnd Hin HSM Hone Hsync; cbn [foldl].
  { set_solver. }
  apply NoDup_cons in Hnd as [Hkey Hnd]. unfold Reconciler.del_one at 2.
  assert (key ∈ S) as HkS by set_solver.
  destruct (uninstall_sync M S k key) as [Hok Hs]; [set_solver|done|done|done|done|].
  destruct (Reconciler.uninstall _ _ _) as [k1 o]. cbn [fst snd] in *. subst o.
  specialize (IH k1 (S ∖ {[key]}) (Datatypes.S n) Hnd).
  destruct (foldl _ _ L) as [[k2 S2] n2]. destruct IH as [Hs2 Hiff].
  - intros x Hx. apply elem_of_difference. split; [set_solver|]. by intros ->%elem_of_singleton.
  - set_solver.
  - by eapply one_nic_mono; [|exact Hone]; set_solver.
  - done.
  - split; [done|]. intros x. rewrite Hiff. set_solver.
Qed.

Lemma add_fold_sync M L k S n :
  NoDup L → (∀ key, key ∈ L → key ∉ S ∧ key ∈ M) → one_nic (list_to_set L ∪ S) →
  in_sync M k S →
  let '(k', S', _) := foldl (Reconciler.add_one ifindex) (k, S, n) L in
  in_sync M k' S' ∧
  ∀ key, key ∈ S' ↔ key ∈ S ∨ (key ∈ L ∧ is_Some (ifindex (Reconciler.nic key))).
Proof.
  revert k S n. induction L as [|key L IH]; intros k S n Hnd Hin Hone Hsync; cbn [foldl].
  { set_solver. }
  apply NoDup_cons in Hnd as [Hkey Hnd]. unfold Reconciler.add_one at 2.
  destruct (Hin key ltac:(set_solver)) as [HkS HkM].
  destruct (ifindex (Reconciler.nic key)) as [i|] eqn:Hi.
  - destruct (install_sync M S k key i) as [Hok Hs]; [done|done| |done|done|].
    { eapply one_nic_mono; [|exact Hone]. set_solver. }
    destruct (Reconciler.install _ _ _) as [k1 o]. cbn [fst snd] in *. subst o.
    specialize (IH k1 ({[key]} ∪ S) (Datatypes.S n) Hnd).
    destruct (foldl _ _ L) as [[k2 S2] n2]. destruct IH as [Hs2 Hiff].
    + intros x Hx. destruct (Hin x) as [? ?]; [set_solver|]. split; [|done].
      rewrite not_elem_of_union, not_elem_of_singleton. split; [by intros ->|done].
    + eapply one_nic_mono; [|exact Hone]. set_solver.
    + done.
    + split; [done|]. intros x. rewrite Hiff, elem_of_union, elem_of_singleton, elem_of_cons.
      naive_solver.
  - specialize (IH k S n Hnd). destruct (foldl _ _ L) as [[k2 S2] n2].
    destruct IH as [Hs2 Hiff]; [set_solver|eapply one_nic_mono; [|exact Hone]; set_solver|done|].
    split; [done|]. intros x. rewrite Hiff, elem_of_cons.
    split; [naive_solver|]. intros [?|[[->|?] Hsome]]; [by left| |by right].
    rewrite Hi in Hsome. by destruct Hsome.
Qed.

Lemma pass_sync M k D S :
  S ⊆ M → D ⊆ M → one_nic S → one_nic D → in_sync M k S →
  let '(k', S', _) := Reconciler.reconcile_pass ifindex k D S in
  in_sync M k' S' ∧
  ∀ key, key ∈ S' ↔ key ∈ D ∧ (key ∈ S ∨ is_Some (ifindex (Reconciler.nic key))).
Proof.
  intros HSM HDM HoS HoD Hsync. unfold Reconciler.reconcile_pass, Reconciler.diff.
  pose proof (del_fold_sync M (Reconciler.iter (S ∖ D)) k S 0 (NoDup_iter _)) as Hd.
  destruct (foldl (Reconciler.del_one ifindex) _ _) as [[k1 S1] n1].
  destruct Hd as [Hs1 Hiff1]; [|set_solver|done|done|].
  { intros x. rewrite elem_of_iter. set_solver. }
  setoid_rewrite elem_of_iter in Hiff1.
  assert (∀ x, x ∈ S1 ↔ x ∈ S ∧ x ∈ D) as HS1.
  { intros x. rewrite Hiff1, elem_of_difference. destruct (decide (x ∈ D)); naive_solver. }
  pose proof (add_fold_sync M (Reconciler.iter (D ∖ S)) k1 S1 n1 (NoDup_iter _)) as Ha.
  destruct (foldl (Reconciler.add_one ifindex) _ _) as [[k2 S2] n2].
  destruct Ha as [Hs2 Hiff2]; [| |done|].
  - intros x. rewrite elem_of_iter. set_solver.
  - eapply one_nic_mono; [|exact HoD]. intros x.
    rewrite elem_of_union, elem_of_list_to_set, elem_of_iter. set_solver.
  - split; [done|]. intros x. rewrite Hiff2, HS1, elem_of_iter, elem_of_difference.
    destruct (decide (x ∈ S)); naive_solver.
Qed.
End healthy.

(** ** The state file *)

Section state_file.
Context {CA : CidrApi} {CL : CidrLaws}.

Definition key_ok (key : RouteKey) : Prop := is_uint 32 (Reconciler.nic key).

Lemma cidr_char_plain c :
  cidr_char c = true → is_ascii c = true ∧ ws1 c = false ∧ not_lf c = true.
Proof. destruct c as [[] [] [] [] [] [] [] []]; try (by vm_compute); vm_compute; intros; done. Qed.

Lemma is_digit_cidr_char c : is_digit c = true → cidr_char c = true.
Proof. unfold cidr_char. by intros ->. Qed.

Lemma show_key_chars key f :
  key_ok key → f Reconciler.SPACE = true → (∀ c, cidr_char c = true → f c = true) →
  string_all f (Reconciler.show_key key) = true.
Proof.
  intros [Hk _] Hsp Hf. unfold Reconciler.show_key. rewrite string_all_app.
  cbn [string_all]. rewrite Hsp.
  rewrite (string_all_impl cidr_char f (cidr_to_string _)) by (done || apply cidr_to_string_chars).
  rewrite (string_all_impl is_digit f (show_uint _)); [done| |by apply show_uint_digits].
  intros c Hc. by apply Hf, is_digit_cidr_char.
Qed.

Lemma trim_show_key key : key_ok key → trim (Reconciler.show_key key) = Reconciler.show_key key.
Proof.
  intros Hk. apply trim_id.
  - apply show_key_chars; [done|done|]. intros c Hc. by apply cidr_char_plain.
  - unfold Reconciler.show_key. destruct (show_uint_head (Reconciler.nic key)) as (d & s & Hd & ->);
      [apply Hk|]. cbn [head_not_ws String.append]. change (negb (ws1 (digit_char d)) = true).
    by rewrite is_digit_not_ws by (by apply is_digit_char).
  - unfold Reconciler.show_key. rewrite string_rev_app, string_rev_cons, string_app_assoc.
    pose proof (cidr_to_string_chars (Reconciler.cidr key)) as Hall.
    pose proof (cidr_to_string_ne (Reconciler.cidr key)) as Hne.
    rewrite <-string_all_rev in Hall.
    destruct (string_rev (cidr_to_string (Reconciler.cidr key))) as [|c s] eqn:Hr.
    + exfalso. apply Hne. rewrite <-(string_rev_involutive (cidr_to_string _)). by rewrite Hr.
    + cbn [string_all] in Hall. apply andb_true_iff in Hall as [Hc _].
      change (negb (ws1 c) = true). by rewrite (proj1 (proj2 (cidr_char_plain c Hc))).
Qed.

Lemma parse_show_key key : key_ok key → Reconciler.parse_line (Reconciler.show_key key) = Some key.
Proof.
  intros Hk. unfold Reconciler.parse_line, Reconciler.show_key.
  rewrite (split_once_app is_digit); [|done|apply show_uint_digits, Hk].
  cbn [mbind option_bind]. rewrite parse_show_uint by (done || lia).
  cbn [mbind option_bind]. rewrite cidr_parse_to_string. by destruct key.
Qed.

Lemma show_key_ne key : key_ok key → Reconciler.show_key key ≠ "".
Proof.
  intros Hk. unfold Reconciler.show_key.
  destruct (show_uint_head (Reconciler.nic key)) as (d & s & Hd & ->); [apply Hk|done].
Qed.

Lemma restore_lines L S :
  (∀ key, key ∈ L → key_ok key) →
  foldl Reconciler.restore_line S (List.filter (λ l, negb (bool_decide (l = "")))
    (map trim (lines (foldr (λ k acc, Reconciler.show_key k +:+ String LF acc) "" L))))
  = list_to_set L ∪ S.
Proof.
  revert S. induction L as [|key L IH]; intros S HL.
  { change (S = ∅ ∪ S). set_solver. }
  cbn [foldr]. assert (key_ok key) as Hk by (apply HL; set_solver).
  rewrite lines_cons; [|apply show_key_chars; [done|done|]; intros c Hc; by apply cidr_char_plain].
  cbn [map]. rewrite trim_show_key by done. cbn [List.filter].
  rewrite bool_decide_eq_false_2 by (by apply show_key_ne). cbn [negb foldl].
  unfold Reconciler.restore_line at 2. rewrite parse_show_key by done.
  rewrite IH by set_solver. set_solver.
Qed.
End state_file.

(** ** Properties *)

(** The desired set is exactly the host route of every IPv4 peer and the network
    form of every accepted subnet, each through the nic of the peer's network, for
    the peers whose nic is still registered. *)
Theorem desired_routes {CA : CidrApi} nics ps (key : RouteKey) :
  key ∈ Reconciler.desired nics ps ↔
  ∃ p, p ∈ ps ∧ Reconciler.pr_nic p ∈ nics ∧ Reconciler.nic key = Reconciler.pr_nic p ∧
    ((∃ ip, Reconciler.pr_ip p = IpV4 ip ∧ Reconciler.cidr key = cidr_new ip 32) ∨
     ∃ c, c ∈ Reconciler.pr_subnets p ∧ Reconciler.cidr key = cidr_network c).
Proof.
  unfold Reconciler.desired. rewrite elem_of_desired_fold. unfold contributes. set_solver.
Qed.

(** What a pass remembers, whatever the kernel answers: a route that is wanted
    and installed stays, nothing appears that is neither wanted nor already
    installed, the returned count is the number of entries that changed, and the
    state file is rewritten exactly when something changed - so a failed add is
    retried and a failed removal is kept for the next pass. *)
Theorem reconcile_memory {CA : CidrApi} {K} {H : RouteHandle K} r (k : K) fs desired ifindex :
  let '(r', k', fs', changed) := Reconciler.reconcile r k fs desired ifindex in
  let S := Reconciler.installed r in
  let S' := Reconciler.installed r' in
  desired ∩ S ⊆ S' ∧ S' ⊆ desired ∪ S ∧
  changed = (size (S ∖ S') + size (S' ∖ S))%nat ∧
  (changed = 0%nat → S' = S ∧ fs' = fs) ∧
  (changed ≠ 0%nat → fs' = Reconciler.persist r' fs) ∧
  Reconciler.state_file r' = Reconciler.state_file r.
Proof.
  unfold Reconciler.reconcile.
  pose proof (pass_memory ifindex k desired (Reconciler.installed r)) as Hp.
  destruct (Reconciler.reconcile_pass _ _ _ _) as [[k' S'] n].
  destruct Hp as (H1 & H2 & Hn). cbn [Reconciler.installed Reconciler.state_file].
  split_and!; [done|done|done| | |done].
  - intros Hz. rewrite Hz. split; [|done].
    assert (Reconciler.installed r ∖ S' ≡ ∅ ∧ S' ∖ Reconciler.installed r ≡ ∅) as [Ha Hb]
      by (split; apply size_empty_inv; lia).
    apply set_eq. intros x. destruct (decide (x ∈ S')), (decide (x ∈ Reconciler.installed r));
      set_solver.
  - intros Hz. by rewrite (proj2 (Nat.ltb_lt 0 n)) by lia.
Qed.

(** C21. Convergence. On a kernel that answers as documented, if no prefix is wanted or
    installed through two nics at a time and the kernel holds exactly the
    remembered routes for the prefixes concerned, then after one pass the kernel
    holds exactly the wanted routes whose nic is registered (or that were there
    already), and the remembered set says so: one pass is enough. *)
Theorem reconcile_converges {CA : CidrApi} {CL : CidrLaws} {K} {H : RouteHandle K}
    {KL : KernelLaws} r (k : K) fs desired ifindex :
  one_nic (Reconciler.installed r) → one_nic desired →
  in_sync ifindex (desired ∪ Reconciler.installed r) k (Reconciler.installed r) →
  let '(r', k', _, _) := Reconciler.reconcile r k fs desired ifindex in
  (∀ key, key ∈ Reconciler.installed r' ↔
     key ∈ desired ∧
     (key ∈ Reconciler.installed r ∨ is_Some (ifindex (Reconciler.nic key)))) ∧
  (∀ rt, managed (desired ∪ Reconciler.installed r) rt → rt ∈ table k' ↔
     ∃ key i, key ∈ desired ∧ ifindex (Reconciler.nic key) = Some i ∧ rt = route_of key i).
Proof.
  intros HoS HoD Hsync. unfold Reconciler.reconcile.
  pose proof (pass_sync ifindex _ k desired (Reconciler.installed r)
    (union_subseteq_r _ _) (union_subseteq_l _ _) HoS HoD Hsync) as Hp.
  destruct (Reconciler.reconcile_pass _ _ _ _) as [[k' S'] n]. destruct Hp as [Hs Hiff].
  cbn [Reconciler.installed]. split; [exact Hiff|].
  intros rt Hrt. rewrite (Hs rt Hrt). split; intros (key & i & Hk & Hi & ->); exists key, i.
  - apply Hiff in Hk as [? _]. done.
  - split_and!; [|done|done]. apply Hiff. split; [done|]. right. by eexists.
Qed.

Definition nic_index (n : PeerId) : option Z := if n =? 1 then Some 4 else None.
Definition ex_new : RouteKey := Reconciler.Key 1 (cidr_new (ipv4 10 9 0 0) 24).
Definition ex_old : RouteKey := Reconciler.Key 1 (cidr_new (ipv4 10 8 0 0) 24).
Definition ex_reconciler : Reconciler.Reconciler :=
  Reconciler.MkReconciler {[ ex_old ]} (Some "/run/noeio/routes").
Definition ex_fib : fib := {[ fib_key (route_of ex_old 4) := Some 4 ]}.
Definition ex_fs : Fs := MkFs ∅ true.

Lemma reconcile_converges_witness :
  let '(r', k', _, _) :=
    Reconciler.reconcile ex_reconciler ex_fib ex_fs {[ ex_new ]} nic_index in
  ex_new ∈ Reconciler.installed r' ∧ route_of ex_new 4 ∈ table k'.
Proof.
  assert (one_nic (Reconciler.installed ex_reconciler)) as H1 by apply (one_nic_singleton ex_old).
  assert (one_nic {[ ex_new ]}) as H2 by apply (one_nic_singleton ex_new).
  pose proof (reconcile_converges ex_reconciler ex_fib ex_fs {[ ex_new ]} nic_index H1 H2) as Hc.
  destruct (Reconciler.reconcile _ _ _ _ _) as [[[r' k'] fs'] n].
  destruct Hc as [Hiff Ht].
  - intros rt Hm. change (table ex_fib) with (map fib_route (map_to_list ex_fib)).
    rewrite elem_of_fib. unfold ex_fib. rewrite lookup_singleton_Some.
    cbn [Reconciler.installed ex_reconciler]. setoid_rewrite elem_of_singleton. split.
    + intros [Hk Hi]. exists ex_old, 4. split_and!; [done|reflexivity|].
      destruct rt. unfold fib_key, route_of in *. simpl in *. congruence.
    + intros (key & i & -> & Hi & ->). injection Hi as <-. split; reflexivity.
  - split.
    + apply Hiff. split; [by apply elem_of_singleton|]. right. by eexists.
    + apply Ht; [exists ex_new; split_and!; [set_solver|done|done]|].
      exists ex_new, 4. split_and!; [by apply elem_of_singleton|done|done].
Defined.

(** A pass with nothing to change touches nothing: when the wanted set is the
    remembered one, no kernel operation is made and no file is written, whatever
    the kernel actually holds. So a converged daemon is idle - and a route removed
    by hand, of which the remembered set knows nothing, is not put back. *)
Theorem reconcile_idle {CA : CidrApi} {K} {H : RouteHandle K} r (k : K) fs ifindex :
  Reconciler.reconcile r k fs (Reconciler.installed r) ifindex = (r, k, fs, 0%nat).
Proof.
  unfold Reconciler.reconcile, Reconciler.reconcile_pass, Reconciler.diff.
  rewrite difference_diag_L, iter_empty. by destruct r.
Qed.

(** The state file survives a crash: what [persist] writes, the next run's
    [restore] reads back exactly, so the first pass removes whatever the previous
    run left behind. *)
Theorem state_file_roundtrip {CA : CidrApi} {CL : CidrLaws} r fs path :
  Reconciler.state_file r = Some path → writable fs = true →
  (∀ key, key ∈ Reconciler.installed r → is_uint 32 (Reconciler.nic key)) →
  Reconciler.restore (Reconciler.new (Some path)) (Reconciler.persist r fs) = r.
Proof.
  intros Hpath Hw Hok. unfold Reconciler.restore, Reconciler.persist, fs_write, fs_read.
  rewrite Hpath, Hw. cbn [Reconciler.new Reconciler.state_file fst files Reconciler.installed].
  rewrite lookup_insert_eq. cbn [ok_or]. unfold Reconciler.body.
  rewrite restore_lines by (intros key; rewrite elem_of_iter; apply Hok).
  destruct r as [S p]. cbn [Reconciler.installed Reconciler.state_file] in *. subst p. f_equal.
  apply set_eq. intros x. rewrite elem_of_union, elem_of_list_to_set, elem_of_iter. set_solver.
Qed.

Lemma state_file_roundtrip_witness :
  Reconciler.restore (Reconciler.new (Some "/run/noeio/routes"))
    (Reconciler.persist ex_reconciler ex_fs) = ex_reconciler.
Proof.
  apply (state_file_roundtrip ex_reconciler ex_fs "/run/noeio/routes"); [done|done|].
  intros key Hk. change (key ∈ ({[ ex_old ]} : gset RouteKey)) in Hk.
  apply elem_of_singleton in Hk as ->. split; [discriminate|reflexivity].
Defined.
