(* ===== verification/Session.v ===== *)
(** [noeio/src/tunnel/session.rs] and [session/udp.rs]: the hole-punch session of
    one candidate path. The four background tasks ([send], [dispatch],
    [handshake], [monitor]) share atomics and channels; each task is a control
    state and a step function, and [step] interleaves them with the clock and the
    network. *)

From Stdlib Require Import ZArith Lia.
From Stdlib Require Import Strings.Byte Strings.String.
From stdpp Require Import base list strings relations.
From S2P Require Import Prelude Text NetTypes Packet.

Local Open Scope Z_scope.

(** ** [SessionState] *)

Inductive SessionState : Type := Connecting | Connected | Timeout.

#[export] Instance SessionState_eq_dec : EqDecision SessionState.
Proof. solve_decision. Defined.

Definition state_to_u8 (s : SessionState) : Z :=
  match s with Connecting => 0 | Connected => 1 | Timeout => 2 end.
Definition state_from_u8 (v : Z) : SessionState :=
  if v =? 1 then Connected else if v =? 2 then Timeout else Connecting.

Lemma state_u8_roundtrip s : state_from_u8 (state_to_u8 s) = s.
Proof. by destruct s. Qed.

(** The [TunnelSession] trait as far as path selection reads it; durations are in
    nanoseconds. *)
Class TunnelSession (S : Type) : Type := {
  session_state : S → SessionState;
  session_rtt : S → option Z;
}.

(** ** [UdpTunnelSession] *)

Module UdpSession.
Definition MS : Z := 1000000.
Definition SEC : Z := 1000 * MS.
Definition NONCE_LEN : nat := 8.
Definition HANDSHAKE_RETRY_INTERVAL : Z := 500 * MS.
Definition HANDSHAKE_MAX_ATTEMPTS : nat := 5.
Definition PING_INTERVAL : Z := 15 * SEC.
Definition LIVENESS_TIMEOUT : Z := 45 * SEC.
Definition LIVENESS_CHECK_INTERVAL : Z := 5 * SEC.
Definition U64_UNSET : Z := U64_MAX.

Definition control_packet (t : NoeioPacketType) (peer_id : PeerId) (value : Z) :
    NoeioPacket.NoeioPacket :=
  NoeioPacket.new (Header t peer_id (PacketHeader.port PacketHeader.default_header))
    (be_bytes 8 value).

Definition payload_u64 (p : NoeioPacket.NoeioPacket) : option Z :=
  bytes ← NoeioPacket.payload p;
  bytes ← slice 0 NONCE_LEN bytes;
  Some (be_val bytes).

(** Where the [handshake] task is: about to make attempt [i], waiting for the Ack of
    attempt [i] until a deadline, in the ping loop asleep until a time, or
    returned. *)
Inductive Handshake : Type :=
  | HsSend (i : nat)
  | HsWait (i : nat) (deadline : Z)
  | HsPing (wake : Z)
  | HsDone.

(** The [monitor] task: asleep, or past its [Connected] test. *)
Inductive Monitor : Type :=
  | MonSleep (wake : Z)
  | MonCheck.

(** The shared cells, the channels and the tasks' control states. [now] is
    [base.elapsed()]; [sending] says that the [send] task, which owns the
    receiving end of the outbound channel, still runs; [wire] is what it has
    written to the socket. *)
Record UdpTunnelSession : Type := MkSession {
  peer_id : PeerId;
  nonce : Z;
  now : Z;
  state : Z;
  rtt_ms : Z;
  last_recv : Z;
  last_ping : Z;
  outbound : list (list byte);
  ack_pending : bool;
  sending : bool;
  wire : list (list byte);
  handshake : Handshake;
  monitor : Monitor;
}.

Definition connect (nonce : Z) (id : PeerId) : UdpTunnelSession := {|
  peer_id := id; nonce := nonce; now := 0;
  state := state_to_u8 Connecting; rtt_ms := U64_UNSET; last_recv := 0;
  last_ping := U64_UNSET; outbound := []; ack_pending := false; sending := true;
  wire := []; handshake := HsSend 0; monitor := MonSleep LIVENESS_CHECK_INTERVAL |}.

(** [base.elapsed().as_millis() as u64] *)
Definition now_ms (s : UdpTunnelSession) : Z := wrap 64 (now s / MS).

Definition set_now (s : UdpTunnelSession) (t : Z) : UdpTunnelSession :=
  MkSession (peer_id s) (nonce s) t (state s) (rtt_ms s) (last_recv s) (last_ping s)
    (outbound s) (ack_pending s) (sending s) (wire s) (handshake s) (monitor s).
Definition set_state (s : UdpTunnelSession) (v : SessionState) : UdpTunnelSession :=
  MkSession (peer_id s) (nonce s) (now s) (state_to_u8 v) (rtt_ms s) (last_recv s) (last_ping s)
    (outbound s) (ack_pending s) (sending s) (wire s) (handshake s) (monitor s).
Definition set_rtt (s : UdpTunnelSession) (v : Z) : UdpTunnelSession :=
  MkSession (peer_id s) (nonce s) (now s) (state s) v (last_recv s) (last_ping s)
    (outbound s) (ack_pending s) (sending s) (wire s) (handshake s) (monitor s).
Definition set_last_recv (s : UdpTunnelSession) (v : Z) : UdpTunnelSession :=
  MkSession (peer_id s) (nonce s) (now s) (state s) (rtt_ms s) v (last_ping s)
    (outbound s) (ack_pending s) (sending s) (wire s) (handshake s) (monitor s).
Definition set_last_ping (s : UdpTunnelSession) (v : Z) : UdpTunnelSession :=
  MkSession (peer_id s) (nonce s) (now s) (state s) (rtt_ms s) (last_recv s) v
    (outbound s) (ack_pending s) (sending s) (wire s) (handshake s) (monitor s).
Definition set_ack (s : UdpTunnelSession) (b : bool) : UdpTunnelSession :=
  MkSession (peer_id s) (nonce s) (now s) (state s) (rtt_ms s) (last_recv s) (last_ping s)
    (outbound s) b (sending s) (wire s) (handshake s) (monitor s).
Definition set_handshake (s : UdpTunnelSession) (h : Handshake) : UdpTunnelSession :=
  MkSession (peer_id s) (nonce s) (now s) (state s) (rtt_ms s) (last_recv s) (last_ping s)
    (outbound s) (ack_pending s) (sending s) (wire s) h (monitor s).
Definition set_monitor (s : UdpTunnelSession) (m : Monitor) : UdpTunnelSession :=
  MkSession (peer_id s) (nonce s) (now s) (state s) (rtt_ms s) (last_recv s) (last_ping s)
    (outbound s) (ack_pending s) (sending s) (wire s) (handshake s) m.

(** [out_tx.send(packet)]: fails once the [send] task has dropped the receiver. *)
Definition push (s : UdpTunnelSession) (p : NoeioPacket.NoeioPacket) :
    UdpTunnelSession * result unit unit :=
  if sending s then
    (MkSession (peer_id s) (nonce s) (now s) (state s) (rtt_ms s) (last_recv s) (last_ping s)
       (outbound s ++ [NoeioPacket.inner p]) (ack_pending s) true (wire s) (handshake s)
       (monitor s), Ok tt)
  else (s, Err tt).

(** The [send] task, one payload: [ok] is the socket's verdict. *)
Definition send_one (s : UdpTunnelSession) (ok : bool) : option UdpTunnelSession :=
  match sending s, outbound s with
  | true, payload :: rest =>
      Some (MkSession (peer_id s) (nonce s) (now s) (state s) (rtt_ms s) (last_recv s)
        (last_ping s) (if ok then rest else []) (ack_pending s) ok
        (if ok then wire s ++ [payload] else wire s) (handshake s) (monitor s))
  | _, _ => None
  end.

(** The [dispatch] task, one datagram. *)
Definition dispatch_one (s : UdpTunnelSession) (payload : list byte) : UdpTunnelSession :=
  let s := set_last_recv s (now_ms s) in
  match NoeioPacket.try_from payload with
  | Err _ => s
  | Ok packet =>
      match NoeioPacket.packet_type packet with
      | Ack =>
          if bool_decide (payload_u64 packet = Some (nonce s)) then set_ack s true else s
      | Seq =>
          match payload_u64 packet with
          | Some peer_nonce => (push s (control_packet Ack (peer_id s) peer_nonce)).1
          | None => s
          end
      | TunnelPing =>
          match payload_u64 packet with
          | Some peer_ts => (push s (control_packet TunnelPong (peer_id s) peer_ts)).1
          | None => s
          end
      | TunnelPong =>
          let sent := last_ping s in
          if negb (sent =? U64_UNSET) && bool_decide (payload_u64 packet = Some sent)
          then set_rtt s (saturating_sub (now_ms s) sent) else s
      | _ => s
      end
  end.

(** The [handshake] task and the [ping] loop it hands off to: the next step it can
    take, [None] while it waits. An Ack that is already there wins over an
    expired timer. *)
Definition handshake_step (s : UdpTunnelSession) : option UdpTunnelSession :=
  match handshake s with
  | HsDone => None
  | HsSend i =>
      if (i <? HANDSHAKE_MAX_ATTEMPTS)%nat then
        match push s (control_packet Seq (peer_id s) (nonce s)) with
        | (s', Ok _) => Some (set_handshake s' (HsWait i (now s + HANDSHAKE_RETRY_INTERVAL)))
        | (s', Err _) => Some (set_handshake s' HsDone)
        end
      else Some (set_handshake (set_state s Timeout) HsDone)
  | HsWait i deadline =>
      if ack_pending s then
        Some (set_handshake (set_state (set_ack s false) Connected)
                (HsPing (now s + PING_INTERVAL)))
      else if deadline <=? now s then Some (set_handshake s (HsSend (S i)))
      else None
  | HsPing wake =>
      if wake <=? now s then
        let ts := now_ms s in
        match push (set_last_ping s ts) (control_packet TunnelPing (peer_id s) ts) with
        | (s', Ok _) => Some (set_handshake s' (HsPing (now s + PING_INTERVAL)))
        | (s', Err _) => Some (set_handshake s' HsDone)
        end
      else None
  end.

Definition monitor_step (s : UdpTunnelSession) : option UdpTunnelSession :=
  match monitor s with
  | MonSleep wake =>
      if wake <=? now s then
        if decide (state_from_u8 (state s) = Connected)
        then Some (set_monitor s MonCheck)
        else Some (set_monitor s (MonSleep (now s + LIVENESS_CHECK_INTERVAL)))
      else None
  | MonCheck =>
      let silent := saturating_sub (now s) (last_recv s * MS) in
      let s := if LIVENESS_TIMEOUT <=? silent then set_state s Timeout else s in
      Some (set_monitor s (MonSleep (now s + LIVENESS_CHECK_INTERVAL)))
  end.

(** What happens next: time passes, a datagram is routed to the session, or a task
    takes its step. *)
Inductive event : Type :=
  | ETick (d : Z)
  | EDatagram (payload : list byte)
  | ESend (ok : bool)
  | EHandshake
  | EMonitor.

Inductive step : UdpTunnelSession → event → UdpTunnelSession → Prop :=
  | step_tick s d : 0 ≤ d → step s (ETick d) (set_now s (now s + d))
  | step_datagram s p : step s (EDatagram p) (dispatch_one s p)
  | step_send s ok s' : send_one s ok = Some s' → step s (ESend ok) s'
  | step_handshake s s' : handshake_step s = Some s' → step s EHandshake s'
  | step_monitor s s' : monitor_step s = Some s' → step s EMonitor s'.

(** Runs from [connect], with their history. *)
Inductive run (s0 : UdpTunnelSession) : list event → UdpTunnelSession → Prop :=
  | run_nil : run s0 [] s0
  | run_snoc tr s e s' : run s0 tr s → step s e s' → run s0 (tr ++ [e]) s'.

Definition status (s : UdpTunnelSession) : SessionState := state_from_u8 (state s).
Definition rtt (s : UdpTunnelSession) : option Z :=
  if rtt_ms s =? U64_UNSET then None else Some (rtt_ms s * MS).
End UdpSession.
Notation UdpTunnelSession := UdpSession.UdpTunnelSession.

#[export] Instance udp_session : TunnelSession UdpTunnelSession := {|
  session_state := UdpSession.status;
  session_rtt := UdpSession.rtt;
|}.

(** ** Facts *)

Import UdpSession.

(** [p] is an [Ack] that echoes nonce [n]. *)
Definition is_ack_of (n : Z) (p : list byte) : Prop :=
  ∃ packet, NoeioPacket.try_from p = Ok packet ∧
    NoeioPacket.packet_type packet = Ack ∧ payload_u64 packet = Some n.

(** The type byte on the wire. *)
Definition is_seq (p : list byte) : bool := bool_decide (p !! 2%nat = Some (type_to_u8 Seq)).
Definition seqs (s : UdpTunnelSession) : nat :=
  length (List.filter is_seq (wire s ++ outbound s)).

(** Attempts the handshake has made. *)
Definition attempts (s : UdpTunnelSession) : nat :=
  match handshake s with
  | HsSend i => i | HsWait i _ => S i | HsPing _ | HsDone => HANDSHAKE_MAX_ATTEMPTS
  end.

Lemma control_packet_inner t id v :
  NoeioPacket.inner (control_packet t id v) =
    PacketHeader.to_bytes (Header t id 0) ++ be_bytes 8 v.
Proof. reflexivity. Qed.

Lemma is_seq_control t id v :
  is_seq (NoeioPacket.inner (control_packet t id v)) = bool_decide (t = Seq).
Proof.
  rewrite control_packet_inner, header_to_bytes_eq. unfold is_seq, PacketHeader.MAGIC.
  cbn [app lookup list_lookup PacketHeader.packet_type]. by destruct t.
Qed.

(** What [dispatch] can do to the session, for any datagram. *)
Inductive dispatched (s : UdpTunnelSession) (p : list byte) : UdpTunnelSession → Prop :=
  | dis_none : dispatched s p s
  | dis_ack : is_ack_of (nonce s) p → dispatched s p (set_ack s true)
  | dis_reply t v : t ≠ Seq → dispatched s p (push s (control_packet t (peer_id s) v)).1
  | dis_rtt v : dispatched s p (set_rtt s v).

Lemma dispatch_cases s p :
  dispatched (set_last_recv s (now_ms s)) p (dispatch_one s p).
Proof.
  unfold dispatch_one. set (s1 := set_last_recv s (now_ms s)).
  change (nonce s) with (nonce s1). change (last_ping s) with (last_ping s1).
  change (now_ms s) with (now_ms s1). change (peer_id s) with (peer_id s1).
  destruct (NoeioPacket.try_from p) as [q|e] eqn:Hq; [|constructor].
  destruct (NoeioPacket.packet_type q) eqn:Ht; try constructor.
  - destruct (payload_u64 q); by constructor.
  - case_bool_decide as Hn; constructor. by exists q.
  - destruct (payload_u64 q); by constructor.
  - destruct (_ && _); constructor.
Qed.

(** The fields each task leaves alone. *)
Definition same_control (s s' : UdpTunnelSession) : Prop :=
  state s' = state s ∧ handshake s' = handshake s ∧ monitor s' = monitor s ∧
  nonce s' = nonce s ∧ peer_id s' = peer_id s.

Lemma push_same s p : same_control s (push s p).1 ∧ ack_pending (push s p).1 = ack_pending s ∧
  now (push s p).1 = now s ∧ last_recv (push s p).1 = last_recv s ∧
  wire (push s p).1 = wire s ∧ sending (push s p).1 = sending s ∧
  outbound (push s p).1 = outbound s ++ (if sending s then [NoeioPacket.inner p] else []) ∧
  (push s p).2 = if sending s then Ok tt else Err tt.
Proof.
  unfold push, same_control. destruct (sending s) eqn:Hs; cbn; rewrite ?app_nil_r; by split_and!.
Qed.

Lemma dispatched_same s p s' :
  dispatched s p s' → same_control s s' ∧ now s' = now s ∧ last_recv s' = last_recv s ∧
    wire s' = wire s ∧ sending s' = sending s ∧ seqs s' = seqs s ∧
    (ack_pending s' = true → ack_pending s = true ∨ is_ack_of (nonce s) p).
Proof.
  destruct 1 as [|Hack|t v Ht|v].
  - unfold same_control; split_and!; auto.
  - unfold same_control; split_and!; auto.
  - pose proof (push_same s (control_packet t (peer_id s) v)) as
      (Hc & Ha & Hn & Hl & Hw & Hs & Ho & _).
    refine (conj Hc (conj Hn (conj Hl (conj Hw (conj Hs (conj _ _)))))); [|rewrite Ha; auto].
    unfold seqs. rewrite Hw, Ho. rewrite app_assoc, List.filter_app, length_app.
    destruct (sending s); [|simpl; lia]. cbn [List.filter]. rewrite is_seq_control.
    rewrite bool_decide_eq_false_2 by done. simpl. lia.
  - unfold same_control; split_and!; auto.
Qed.

Arguments seqs : simpl never.
Arguments attempts : simpl never.
Arguments status : simpl never.

Definition hs_ok (s : UdpTunnelSession) : Prop :=
  match handshake s with
  | HsSend i => status s = Connecting ∧ (i ≤ HANDSHAKE_MAX_ATTEMPTS)%nat
  | HsWait i _ => status s = Connecting ∧ (i < HANDSHAKE_MAX_ATTEMPTS)%nat
  | HsPing _ => status s ≠ Connecting
  | HsDone => True
  end.

Definition mon_ok (s : UdpTunnelSession) : Prop :=
  match monitor s with MonCheck => status s = Connected | MonSleep _ => True end.

Record session_inv (n : Z) (id : PeerId) (tr : list event) (s : UdpTunnelSession) : Prop := {
  inv_nonce : nonce s = n;
  inv_id : peer_id s = id;
  inv_hs : hs_ok s;
  inv_mon : mon_ok s;
  inv_ack : ack_pending s = true ∨ status s = Connected →
    ∃ p, EDatagram p ∈ tr ∧ is_ack_of n p;
  inv_seqs : (seqs s ≤ attempts s)%nat;
}.

Lemma status_set_state s v : status (set_state s v) = v.
Proof. apply state_u8_roundtrip. Qed.

(** A datagram changes neither the state nor the tasks. *)
Lemma inv_datagram n id tr s p :
  session_inv n id tr s → session_inv n id (tr ++ [EDatagram p]) (dispatch_one s p).
Proof.
  intros [Hn Hid Hh Hm Ha Hs].
  pose proof (dispatch_cases s p) as Hd%dispatched_same.
  destruct Hd as ((Hst & Hhs & Hmo & Hno & Hpi) & _ & _ & _ & _ & Hsq & Hack).
  assert (status (dispatch_one s p) = status s) as Hstatus by (unfold status; by rewrite Hst).
  constructor.
  - by rewrite Hno.
  - by rewrite Hpi.
  - unfold hs_ok. rewrite Hhs, Hstatus. exact Hh.
  - unfold mon_ok. rewrite Hmo, Hstatus. exact Hm.
  - rewrite Hstatus. intros [[Hp|Hp]%Hack|Hp].
    + destruct (Ha (or_introl Hp)) as (q & Hq & ?). exists q. set_solver.
    + exists p. change (nonce (set_last_recv s (now_ms s))) with (nonce s) in Hp.
      rewrite Hn in Hp. set_solver.
    + destruct (Ha (or_intror Hp)) as (q & Hq & ?). exists q. set_solver.
  - rewrite Hsq. unfold attempts. rewrite Hhs. exact Hs.
Qed.

Lemma inv_tick n id tr s e s' :
  same_control s s' → ack_pending s' = ack_pending s → (seqs s' ≤ seqs s)%nat →
  session_inv n id tr s → session_inv n id (tr ++ [e]) s'.
Proof.
  intros (Hst & Hhs & Hmo & Hno & Hpi) Hap Hsq [Hn Hid Hh Hm Ha Hs].
  assert (status s' = status s) as Hstatus by (unfold status; by rewrite Hst).
  constructor; [congruence|congruence|unfold hs_ok; by rewrite Hhs, Hstatus|
    unfold mon_ok; by rewrite Hmo, Hstatus| |].
  - rewrite Hstatus, Hap. intros (p & Hp & ?)%Ha. exists p. set_solver.
  - unfold attempts in *. rewrite Hhs. lia.
Qed.

Lemma send_one_spec s ok s' :
  send_one s ok = Some s' →
  same_control s s' ∧ ack_pending s' = ack_pending s ∧ (seqs s' ≤ seqs s)%nat ∧
  now s' = now s ∧ last_recv s' = last_recv s ∧ sending s = true ∧ sending s' = ok.
Proof.
  unfold send_one, same_control, seqs. destruct (sending s); [|done].
  destruct (outbound s) as [|b rest] eqn:Ho; [done|]. intros [= <-]. cbn.
  split_and!; try done. destruct ok.
  - rewrite <-app_assoc. cbn [app]. done.
  - rewrite app_nil_r, List.filter_app, length_app. lia.
Qed.

(** A push and a new control state, for a task that leaves the state cell alone: [m]
    bounds the Seqs. *)
Lemma inv_push n id tr s p h s0 :
  session_inv n id tr s →
  same_control s s0 → ack_pending s0 = ack_pending s → seqs s0 = seqs s →
  let s' := set_handshake (push s0 p).1 h in
  hs_ok s' → (seqs s + (if is_seq (NoeioPacket.inner p) then 1 else 0) ≤ attempts s')%nat →
  session_inv n id (tr ++ [EHandshake]) s'.
Proof.
  intros [Hn Hid Hh Hm Ha Hs] (Hst0 & Hhs0 & Hmo0 & Hno0 & Hpi0) Hap0 Hsq0 s' Hok Hle.
  pose proof (push_same s0 p) as ((Hst' & _ & Hmo & Hno & Hpi) & Hap & _ & _ & Hw & _ & Ho & _).
  unfold s' in *. destruct (push s0 p) as [s1 r]. cbn [fst snd] in *.
  assert (status s1 = status s) as Hs1 by (unfold status; by rewrite Hst', Hst0).
  assert (status (set_handshake s1 h) = status s) as Hs2 by exact Hs1.
  constructor.
  - change (nonce s1 = n). congruence.
  - change (peer_id s1 = id). congruence.
  - exact Hok.
  - unfold mon_ok in *. change (monitor (set_handshake s1 h)) with (monitor s1).
    rewrite Hmo, Hmo0, Hs2. exact Hm.
  - change (ack_pending (set_handshake s1 h)) with (ack_pending s1). rewrite Hap, Hap0, Hs2.
    intros (q & ? & ?)%Ha. exists q. set_solver.
  - etrans; [|exact Hle]. change (seqs (set_handshake s1 h)) with (seqs s1).
    rewrite <-Hsq0. unfold seqs. rewrite Hw, Ho, app_assoc, List.filter_app, length_app.
    destruct (sending s0); cbn [List.filter length]; [|lia].
    destruct (is_seq (NoeioPacket.inner p)); simpl; lia.
Qed.

Lemma same_control_refl s : same_control s s.
Proof. by unfold same_control. Qed.

Lemma inv_hs_send n id tr s s' i :
  handshake s = HsSend i → handshake_step s = Some s' → session_inv n id tr s →
  session_inv n id (tr ++ [EHandshake]) s'.
Proof.
  intros Hhs Hstep Hinv. pose proof Hinv as [Hn Hid Hh Hm Ha Hs].
  unfold handshake_step in Hstep. unfold hs_ok in Hh. unfold attempts in Hs. rewrite Hhs in *.
  destruct Hh as [Hst Hi]. destruct (Nat.ltb_spec i HANDSHAKE_MAX_ATTEMPTS) as [Hlt|Hge].
  - pose proof (λ h, inv_push n id tr s (control_packet Seq (peer_id s) (nonce s)) h s Hinv
      (same_control_refl s) eq_refl eq_refl) as Hp.
    pose proof (push_same s (control_packet Seq (peer_id s) (nonce s))) as ((Hst' & _) & _).
    rewrite is_seq_control, bool_decide_eq_true_2 in Hp by done.
    assert (status (push s (control_packet Seq (peer_id s) (nonce s))).1 = Connecting) as Hs1
      by (unfold status in *; congruence).
    unfold attempts in Hp. destruct (push s _) as [s1 r]. cbn [fst] in *.
    destruct r as [[]|[]]; injection Hstep as <-; apply Hp; try done;
      cbn [handshake set_handshake]; unfold HANDSHAKE_MAX_ATTEMPTS in *; lia.
  - injection Hstep as <-. constructor; try done.
    + unfold mon_ok in *. cbn. destruct (monitor s); [done|]. congruence.
    + change (status _) with (status (set_state s Timeout)). rewrite status_set_state.
      intros [Hp|Hp]; [|done]. destruct (Ha (or_introl Hp)) as (q & ? & ?). exists q. set_solver.
    + change (seqs _) with (seqs s). unfold attempts. cbn [handshake set_handshake]. lia.
Qed.

Lemma inv_hs_wait n id tr s s' i deadline :
  handshake s = HsWait i deadline → handshake_step s = Some s' → session_inv n id tr s →
  session_inv n id (tr ++ [EHandshake]) s'.
Proof.
  intros Hhs Hstep [Hn Hid Hh Hm Ha Hs].
  unfold handshake_step in Hstep. unfold hs_ok in Hh. unfold attempts in Hs. rewrite Hhs in *.
  destruct Hh as [Hst Hi]. destruct (ack_pending s) eqn:Hap.
  - injection Hstep as <-. constructor; try done.
    + unfold mon_ok in *. cbn. by destruct (monitor s).
    + intros _. destruct (Ha (or_introl eq_refl)) as (q & ? & ?). exists q. set_solver.
    + change (seqs _) with (seqs s). unfold attempts. cbn [handshake set_handshake]. lia.
  - destruct (deadline <=? now s); [|done]. injection Hstep as <-.
    constructor; try done.
    change (status (set_handshake s (HsSend (S i)))) with (status s).
    change (ack_pending (set_handshake s (HsSend (S i)))) with (ack_pending s).
    rewrite Hap, Hst. intros [|]; congruence.
Qed.

Lemma inv_hs_ping n id tr s s' wake :
  handshake s = HsPing wake → handshake_step s = Some s' → session_inv n id tr s →
  session_inv n id (tr ++ [EHandshake]) s'.
Proof.
  intros Hhs Hstep Hinv. pose proof Hinv as [Hn Hid Hh Hm Ha Hs].
  unfold handshake_step in Hstep. unfold hs_ok in Hh. unfold attempts in Hs. rewrite Hhs in *.
  destruct (wake <=? now s); [|done].
  set (s0 := set_last_ping s (now_ms s)) in *.
  pose proof (λ h, inv_push n id tr s (control_packet TunnelPing (peer_id s) (now_ms s)) h s0 Hinv
    (same_control_refl s) eq_refl eq_refl) as Hp.
  pose proof (push_same s0 (control_packet TunnelPing (peer_id s) (now_ms s))) as ((Hst' & _) & _).
  rewrite is_seq_control, bool_decide_eq_false_2 in Hp by done.
  assert (status (push s0 (control_packet TunnelPing (peer_id s) (now_ms s))).1 = status s) as Hs1
    by (unfold status; by rewrite Hst').
  unfold attempts in Hp. destruct (push s0 _) as [s1 r]. cbn [fst] in *.
  destruct r as [[]|[]]; injection Hstep as <-; apply Hp; try done;
    cbn [handshake set_handshake]; try lia.
  unfold hs_ok. cbn [handshake set_handshake].
  change (status (set_handshake s1 _)) with (status s1). by rewrite Hs1.
Qed.

Lemma inv_handshake n id tr s s' :
  handshake_step s = Some s' → session_inv n id tr s →
  session_inv n id (tr ++ [EHandshake]) s'.
Proof.
  intros Hstep Hinv. destruct (handshake s) eqn:Hhs.
  - by eapply inv_hs_send.
  - by eapply inv_hs_wait.
  - by eapply inv_hs_ping.
  - unfold handshake_step in Hstep. by rewrite Hhs in Hstep.
Qed.

Lemma inv_monitor n id tr s s' :
  monitor_step s = Some s' → session_inv n id tr s →
  session_inv n id (tr ++ [EMonitor]) s'.
Proof.
  intros Hstep [Hn Hid Hh Hm Ha Hs]. unfold monitor_step in Hstep. unfold mon_ok in Hm.
  assert (∀ m, (m = MonCheck → status s = Connected) →
    session_inv n id (tr ++ [EMonitor]) (set_monitor s m)) as Hgoal.
  { intros m Hst. constructor; try done.
    - unfold mon_ok. cbn. destruct m; [done|]. by apply Hst.
    - change (status (set_monitor s m)) with (status s). intros (q & ? & ?)%Ha. exists q. set_solver. }
  destruct (monitor s) as [wake|] eqn:Hmo.
  - destruct (wake <=? now s); [|done]. case_decide; injection Hstep as <-; by apply Hgoal.
  - destruct (LIVENESS_TIMEOUT <=? _); injection Hstep as <-; [|by apply Hgoal].
    constructor; try done.
    + unfold hs_ok in *. cbn. change (status _) with (status (set_state s Timeout)).
      rewrite status_set_state. destruct (handshake s); naive_solver congruence.
    + change (status _) with (status (set_state s Timeout)). rewrite status_set_state.
      cbn. intros [Hp|]; [|done]. destruct (Ha (or_introl Hp)) as (q & ? & ?). exists q. set_solver.
Qed.

Lemma inv_step n id tr s e s' :
  session_inv n id tr s → step s e s' → session_inv n id (tr ++ [e]) s'.
Proof.
  intros Hi Hs. destruct Hs as [s d Hd|s p|s ok s' Hs|s s' Hs|s s' Hs].
  - by apply (inv_tick _ _ _ s).
  - by apply inv_datagram.
  - destruct (send_one_spec _ _ _ Hs) as (? & ? & ? & _). by apply (inv_tick _ _ _ s).
  - by apply (inv_handshake _ _ _ s).
  - by apply (inv_monitor _ _ _ s).
Qed.

Lemma inv_run n id tr s : run (connect n id) tr s → session_inv n id tr s.
Proof.
  induction 1 as [|tr s e s' _ IH Hs]; [|by eapply inv_step].
  constructor; try done.
  - split; [done|unfold HANDSHAKE_MAX_ATTEMPTS; lia].
  - intros [|]; done.
Qed.

(** [Timeout] is never left. *)
Lemma timeout_step n id tr s e s' :
  session_inv n id tr s → step s e s' → status s = Timeout → status s' = Timeout.
Proof.
  intros [_ _ Hh Hm _ _] Hs Ht. unfold hs_ok, mon_ok in *.
  destruct Hs as [s d Hd|s p|s ok s' Hs|s s' Hs|s s' Hs]; [done| | | |].
  - pose proof (dispatch_cases s p) as Hd%dispatched_same.
    destruct Hd as ((Hst & _) & _). unfold status. by rewrite Hst.
  - destruct (send_one_spec _ _ _ Hs) as ((Hst & _) & _). unfold status. by rewrite Hst.
  - unfold handshake_step in Hs. destruct (handshake s) as [i|i d|w|] eqn:Hhs; [naive_solver congruence..| |done].
    destruct (w <=? now s); [|done].
    pose proof (push_same (set_last_ping s (now_ms s)) (control_packet TunnelPing (peer_id s) (now_ms s)))
      as ((Hst & _) & _).
    destruct (push _ _) as [s1 [[]|[]]]; injection Hs as <-; unfold status in *; cbn in *; congruence.
  - unfold monitor_step in Hs. destruct (monitor s); [|congruence].
    destruct (wake <=? now s); [|done]. case_decide; by injection Hs as <-.
Qed.

(** A control packet read back. *)
Lemma control_packet_read t id v :
  is_uint 32 id → is_uint 64 v →
  ∃ q, NoeioPacket.try_from (NoeioPacket.inner (control_packet t id v)) = Ok q ∧
    NoeioPacket.packet_type q = t ∧ payload_u64 q = Some v.
Proof.
  intros Hid Hv. exists (control_packet t id v).
  assert (PacketHeader.wf (Header t id 0)) as Hwf by (split; unfold is_uint in *; cbn; lia).
  split_and!; [|done|].
  - apply try_from_Ok. split; [done|]. exists (Header t id 0).
    split; [|done]. by apply (parse_new (Header t id 0)).
  - unfold payload_u64, control_packet. rewrite payload_new. cbn [mbind option_bind].
    unfold slice. rewrite decide_True by (rewrite length_be_bytes; unfold NONCE_LEN; lia).
    rewrite drop_0. cbn [mbind option_bind]. rewrite take_ge by (rewrite length_be_bytes; unfold NONCE_LEN; lia).
    by rewrite be_val_be_bytes_small by (unfold is_uint in *; lia).
Qed.

Lemma dispatch_seq s id v :
  is_uint 32 id → is_uint 64 v → sending s = true →
  outbound (dispatch_one s (NoeioPacket.inner (control_packet Seq id v))) =
    outbound s ++ [NoeioPacket.inner (control_packet Ack (peer_id s) v)].
Proof.
  intros Hid Hv Hs. destruct (control_packet_read Seq id v Hid Hv) as (q & Hq & Ht & Hp).
  unfold dispatch_one. rewrite Hq, Ht, Hp. unfold push. cbn [sending set_last_recv]. by rewrite Hs.
Qed.

Lemma dispatch_ack s id v :
  is_uint 32 id → is_uint 64 v →
  let s' := dispatch_one s (NoeioPacket.inner (control_packet Ack id v)) in
  ack_pending s' = (ack_pending s || (v =? nonce s)) ∧ handshake s' = handshake s ∧
  status s' = status s ∧ now s' = now s.
Proof.
  intros Hid Hv s'. destruct (control_packet_read Ack id v Hid Hv) as (q & Hq & Ht & Hp).
  unfold s', dispatch_one. rewrite Hq, Ht, Hp. cbn [nonce set_last_recv].
  case_bool_decide as Hn; split_and!; try done; cbn [ack_pending set_ack set_last_recv].
  - rewrite (proj2 (Z.eqb_eq v (nonce s))) by congruence. by rewrite orb_true_r.
  - rewrite (proj2 (Z.eqb_neq v (nonce s))) by congruence. by rewrite orb_false_r.
Qed.

Lemma dispatch_pong s id v :
  is_uint 32 id → is_uint 64 v → v ≠ U64_UNSET →
  rtt_ms (dispatch_one s (NoeioPacket.inner (control_packet TunnelPong id v))) =
    if v =? last_ping s then saturating_sub (now_ms s) v else rtt_ms s.
Proof.
  intros Hid Hv Hne. destruct (control_packet_read TunnelPong id v Hid Hv) as (q & Hq & Ht & Hp).
  unfold dispatch_one. rewrite Hq, Ht, Hp. cbn [last_ping set_last_recv].
  case_bool_decide as Hn; [injection Hn as <-|].
  - rewrite (proj2 (Z.eqb_neq _ _) Hne), Z.eqb_refl. done.
  - rewrite andb_false_r, (proj2 (Z.eqb_neq v (last_ping s))) by congruence. done.
Qed.

(** ** The clock of a run *)

(** The time of a run's end and of its last datagram. *)
Definition tick_times (tl : Z * Z) (e : event) : Z * Z :=
  match e with
  | ETick d => (tl.1 + d, tl.2)
  | EDatagram _ => (tl.1, tl.1)
  | _ => tl
  end.
Definition times (tr : list event) : Z * Z := foldl tick_times (0, 0) tr.

Lemma handshake_step_time s s' :
  handshake_step s = Some s' → now s' = now s ∧ last_recv s' = last_recv s.
Proof.
  unfold handshake_step. destruct (handshake s) as [i|i d|w|]; [| | |done].
  - destruct (_ <? _)%nat; [|by intros [= <-]].
    pose proof (push_same s (control_packet Seq (peer_id s) (nonce s))) as (_&_&Hn&Hl&_).
    destruct (push _ _) as [s1 [[]|[]]]; by intros [= <-].
  - destruct (ack_pending s); [by intros [= <-]|]. destruct (_ <=? _); [by intros [= <-]|done].
  - destruct (_ <=? _); [|done].
    pose proof (push_same (set_last_ping s (now_ms s))
      (control_packet TunnelPing (peer_id s) (now_ms s))) as (_&_&Hn&Hl&_).
    destruct (push _ _) as [s1 [[]|[]]]; by intros [= <-].
Qed.

Lemma monitor_step_time s s' :
  monitor_step s = Some s' → now s' = now s ∧ last_recv s' = last_recv s.
Proof.
  unfold monitor_step. destruct (monitor s).
  - destruct (_ <=? _); [|done]. case_decide; by intros [= <-].
  - destruct (_ <=? _); by intros [= <-].
Qed.

Lemma run_times n id tr s :
  run (connect n id) tr s →
  now s = (times tr).1 ∧ last_recv s = wrap 64 ((times tr).2 / MS) ∧
  0 ≤ (times tr).2 ≤ (times tr).1.
Proof.
  induction 1 as [|tr s e s' _ (Hn & Hl & Ht) Hs]; [split_and!; [done|reflexivity|done|done]|].
  unfold times in *. rewrite foldl_app. cbn [foldl]. set (tl := foldl tick_times (0, 0) tr) in *.
  destruct Hs as [s d Hd|s p|s ok s' Hs|s s' Hs|s s' Hs]; cbn [tick_times fst snd].
  - cbn [now last_recv set_now]. rewrite Hn, Hl. split_and!; [done|done|lia|lia].
  - pose proof (dispatch_cases s p) as Hd%dispatched_same. destruct Hd as (_ & -> & -> & _).
    cbn [now last_recv set_last_recv]. unfold now_ms. rewrite Hn. split_and!; [done|done|lia|lia].
  - destruct (send_one_spec _ _ _ Hs) as (_ & _ & _ & -> & -> & _). done.
  - destruct (handshake_step_time _ _ Hs) as [-> ->]. done.
  - destruct (monitor_step_time _ _ Hs) as [-> ->]. done.
Qed.

(** ** A task run until it waits *)

Fixpoint settle (fuel : nat) (s : UdpTunnelSession) : UdpTunnelSession :=
  match fuel with
  | O => s
  | S f => match handshake_step s with Some s' => settle f s' | None => s end
  end.

(** The clock advances, then the handshake task runs until it waits: at most two
    steps, the timer's and the retransmission's. *)
Definition round (s : UdpTunnelSession) (d : Z) : UdpTunnelSession :=
  settle 2 (set_now s (now s + d)).

Definition waiting (n : Z) (id : PeerId) (i : nat) (t : Z) (o : list (list byte))
    (s : UdpTunnelSession) : Prop :=
  handshake s = HsWait i (t + HANDSHAKE_RETRY_INTERVAL) ∧ now s = t ∧ sending s = true ∧
  ack_pending s = false ∧ status s = Connecting ∧ outbound s = o ∧ nonce s = n ∧ peer_id s = id.

Lemma round_waiting n id i t o s d :
  waiting n id i t o s → HANDSHAKE_RETRY_INTERVAL ≤ d →
  (S i < HANDSHAKE_MAX_ATTEMPTS)%nat →
  waiting n id (S i) (t + d) (o ++ [NoeioPacket.inner (control_packet Seq id n)]) (round s d).
Proof.
  intros (Hh & Ht & Hs & Ha & Hst & Ho & Hn & Hid) Hd Hi. unfold round. cbn [settle].
  unfold handshake_step at 1. cbn [handshake set_now ack_pending now]. rewrite Hh, Ha, Ht.
  rewrite (proj2 (Z.leb_le _ _)) by lia.
  unfold handshake_step. cbn [handshake set_handshake set_now now].
  rewrite (proj2 (Nat.ltb_lt _ _)) by done. unfold push. cbn [sending set_handshake set_now].
  rewrite Hs. unfold waiting, status in *. cbn. rewrite Ho, Hn, Hid. by split_and!.
Qed.

Lemma round_last n id t o s d :
  waiting n id 4 t o s → HANDSHAKE_RETRY_INTERVAL ≤ d →
  status (round s d) = Timeout ∧ outbound (round s d) = o.
Proof.
  intros (Hh & Ht & Hs & Ha & Hst & Ho & Hn & Hid) Hd. unfold round. cbn [settle].
  unfold handshake_step at 1 3. cbn [handshake set_now ack_pending now]. rewrite Hh, Ha, Ht.
  rewrite (proj2 (Z.leb_le _ _)) by lia. done.
Qed.

(** ** Properties *)

(** C30. The life of a session, under every interleaving of its tasks with the clock
    and the network: it is [Connected] only if an Ack carrying its own nonce was
    routed to it, it never puts more than five Seqs on the wire, and [Timeout] is
    final. *)
Theorem session_lifecycle n id tr s :
  run (connect n id) tr s →
  (status s = Connected → ∃ p, EDatagram p ∈ tr ∧ is_ack_of n p) ∧
  (seqs s ≤ HANDSHAKE_MAX_ATTEMPTS)%nat ∧
  (status s = Timeout → ∀ e s', step s e s' → status s' = Timeout).
Proof.
  intros Hrun. pose proof (inv_run _ _ _ _ Hrun) as Hinv.
  pose proof Hinv as [_ _ Hh _ Ha Hs]. split_and!.
  - intros Hc. apply Ha. by right.
  - etrans; [exact Hs|]. unfold attempts, hs_ok in *. destruct (handshake s); naive_solver lia.
  - intros Ht e s' Hstep. by eapply timeout_step.
Qed.

Definition ex_session : UdpTunnelSession := connect 77 5.
Definition ex_ack : list byte := NoeioPacket.inner (control_packet Ack 9 77).
Definition ex_sent : UdpTunnelSession := settle 1 ex_session.
Definition ex_acked : UdpTunnelSession := dispatch_one ex_sent ex_ack.
Definition ex_connected : UdpTunnelSession := settle 1 ex_acked.

Lemma ex_run : run ex_session [EHandshake; EDatagram ex_ack; EHandshake] ex_connected.
Proof.
  change [EHandshake; EDatagram ex_ack; EHandshake] with
    ((([] ++ [EHandshake]) ++ [EDatagram ex_ack]) ++ [EHandshake]).
  eapply run_snoc; [eapply run_snoc; [eapply run_snoc; [apply run_nil|]|]|].
  - apply step_handshake. reflexivity.
  - apply step_datagram.
  - apply step_handshake. reflexivity.
Defined.

Lemma session_lifecycle_witness :
  status ex_connected = Connected ∧
  ∃ p, EDatagram p ∈ [EHandshake; EDatagram ex_ack; EHandshake] ∧ is_ack_of 77 p.
Proof.
  assert (status ex_connected = Connected) as Hc by reflexivity.
  split; [exact Hc|]. apply (session_lifecycle 77 5 _ ex_connected ex_run). exact Hc.
Defined.

(** Two sessions complete a hole punch: the Seq one sends is answered by the other
    with an Ack that takes the first, on its next step, to [Connected]; an Ack with
    any other nonce leaves it waiting. *)
Theorem hole_punch_completes a b i deadline n' :
  is_uint 32 (peer_id a) → is_uint 32 (peer_id b) → is_uint 64 (nonce a) → is_uint 64 n' →
  sending b = true → handshake a = HsWait i deadline →
  let seq := NoeioPacket.inner (control_packet Seq (peer_id a) (nonce a)) in
  let ack v := NoeioPacket.inner (control_packet Ack (peer_id b) v) in
  outbound (dispatch_one b seq) = outbound b ++ [ack (nonce a)] ∧
  status <$> handshake_step (dispatch_one a (ack (nonce a))) = Some Connected ∧
  (n' ≠ nonce a → ack_pending a = false → now a < deadline →
   handshake_step (dispatch_one a (ack n')) = None).
Proof.
  intros Ha Hb Hn Hn' Hs Hh seq ack. split_and!.
  - by apply dispatch_seq.
  - destruct (dispatch_ack a (peer_id b) (nonce a) Hb Hn) as (Hp & Hhs & _).
    unfold ack, handshake_step. rewrite Hhs, Hh, Hp, Z.eqb_refl, orb_true_r. reflexivity.
  - intros Hne Hpend Hlt. destruct (dispatch_ack a (peer_id b) n' Hb Hn') as (Hp & Hhs & _ & Hnow).
    unfold ack, handshake_step. rewrite Hhs, Hh, Hp, Hpend, Hnow.
    rewrite (proj2 (Z.eqb_neq _ _)), (proj2 (Z.leb_gt _ _)) by done. done.
Qed.

Lemma hole_punch_completes_witness :
  status <$> handshake_step (dispatch_one ex_sent (NoeioPacket.inner (control_packet Ack 9 77)))
  = Some Connected.
Proof.
  assert (∀ z w, (0 <=? z) && (z <? 2 ^ w) = true → is_uint w z) as Hu
    by (intros z w; rewrite andb_true_iff, Z.leb_le, Z.ltb_lt; done).
  apply (hole_punch_completes ex_sent (connect 3 9) 0 (500 * MS) 1);
    try (apply Hu; reflexivity); reflexivity.
Defined.

(** The RTT is the round trip of the last ping: the echo of the ping in flight sets
    it to the time since that ping was sent, in whole milliseconds, and an echo of
    any other timestamp leaves it alone. *)
Theorem pong_measures_rtt s id v :
  is_uint 32 id → is_uint 64 v → v ≠ U64_UNSET → v ≤ now_ms s →
  let s' := dispatch_one s (NoeioPacket.inner (control_packet TunnelPong id v)) in
  (v = last_ping s → now_ms s - v ≠ U64_UNSET → rtt s' = Some ((now_ms s - v) * MS)) ∧
  (v ≠ last_ping s → rtt s' = rtt s).
Proof.
  intros Hid Hv Hne Hle s'. pose proof (dispatch_pong s id v Hid Hv Hne) as Hr. fold s' in Hr.
  unfold rtt. rewrite Hr. split.
  - intros -> Hu. rewrite Z.eqb_refl. unfold saturating_sub. rewrite Z.max_r by lia.
    by rewrite (proj2 (Z.eqb_neq _ _) Hu).
  - intros Hd. by rewrite (proj2 (Z.eqb_neq _ _) Hd).
Qed.

Definition ex_pinging : UdpTunnelSession :=
  set_now (set_last_ping ex_connected 15000) (15042 * MS).

Lemma pong_measures_rtt_witness :
  rtt (dispatch_one ex_pinging (NoeioPacket.inner (control_packet TunnelPong 9 15000)))
  = Some (42 * MS).
Proof.
  apply (pong_measures_rtt ex_pinging 9 15000);
    first [reflexivity|split; [discriminate|reflexivity]|vm_compute; congruence].
Defined.

(** C39. A handshake nobody answers ends: with no Ack and a working socket, five waits
    of at least the retry interval take the session from [connect] to [Timeout],
    after exactly five identical Seqs. *)
Theorem silent_handshake_times_out n id d1 d2 d3 d4 d5 :
  Forall (λ d, HANDSHAKE_RETRY_INTERVAL ≤ d) [d1; d2; d3; d4; d5] →
  let s := foldl round (settle 1 (connect n id)) [d1; d2; d3; d4; d5] in
  status s = Timeout ∧
  outbound s = replicate 5 (NoeioPacket.inner (control_packet Seq id n)).
Proof.
  intros Hds s. repeat rewrite Forall_cons in Hds. destruct Hds as (H1 & H2 & H3 & H4 & H5 & _).
  set (q := NoeioPacket.inner (control_packet Seq id n)).
  assert (waiting n id 0 0 [q] (settle 1 (connect n id))) as W0 by (unfold waiting; by split_and!).
  pose proof (round_waiting _ _ _ _ _ _ d1 W0 H1 ltac:(unfold HANDSHAKE_MAX_ATTEMPTS; lia)) as W1.
  pose proof (round_waiting _ _ _ _ _ _ d2 W1 H2 ltac:(unfold HANDSHAKE_MAX_ATTEMPTS; lia)) as W2.
  pose proof (round_waiting _ _ _ _ _ _ d3 W2 H3 ltac:(unfold HANDSHAKE_MAX_ATTEMPTS; lia)) as W3.
  pose proof (round_waiting _ _ _ _ _ _ d4 W3 H4 ltac:(unfold HANDSHAKE_MAX_ATTEMPTS; lia)) as W4.
  exact (round_last _ _ _ _ _ d5 W4 H5).
Qed.

Lemma silent_handshake_times_out_witness :
  status (foldl round (settle 1 ex_session) (replicate 5 (500 * MS))) = Timeout.
Proof.
  apply (silent_handshake_times_out 77 5 (500 * MS) (500 * MS) (500 * MS) (500 * MS) (500 * MS)).
  repeat constructor; reflexivity.
Defined.

Lemma wedged_run s tr s' :
  run s tr s' → handshake s = HsDone → status s = Connecting → mon_ok s →
  handshake s' = HsDone ∧ status s' = Connecting ∧ mon_ok s'.
Proof.
  intros Hrun Hh Hst Hm. induction Hrun as [|tr s1 e s2 _ IH Hs]; [done|].
  destruct IH as (Hh1 & Hst1 & Hm1). unfold mon_ok in *.
  destruct Hs as [s1 d Hd|s1 p|s1 ok s2 Hs|s1 s2 Hs|s1 s2 Hs]; [done| | | |].
  - pose proof (dispatch_cases s1 p) as Hd%dispatched_same.
    destruct Hd as ((Ha & Hb & Hc & _) & _). unfold status in *. rewrite Ha, Hb, Hc. done.
  - destruct (send_one_spec _ _ _ Hs) as ((Ha & Hb & Hc & _) & _).
    unfold status in *. by rewrite Ha, Hb, Hc.
  - unfold handshake_step in Hs. by rewrite Hh1 in Hs.
  - unfold monitor_step in Hs. destruct (monitor s1); [|congruence].
    destruct (wake <=? now s1); [|done]. case_decide as Hc.
    + unfold status in Hst1. congruence.
    + injection Hs as <-. done.
Qed.

(** A socket error before the Ack wedges the session: once the [send] task has
    stopped, the handshake's next attempt returns without marking the session, and
    from then on it stays [Connecting], whatever arrives and however long it lasts
    - neither [Timeout] nor [Connected], so nothing reopens the path. *)
Theorem send_failure_wedges n id tr s i s1 tr' s2 :
  run (connect n id) tr s → sending s = false →
  handshake s = HsSend i → (i < HANDSHAKE_MAX_ATTEMPTS)%nat →
  step s EHandshake s1 → run s1 tr' s2 → status s2 = Connecting.
Proof.
  intros Hrun Hs Hh Hi Hstep Hrun'. pose proof (inv_run _ _ _ _ Hrun) as [_ _ Hok Hmon _ _].
  unfold hs_ok in Hok. rewrite Hh in Hok. destruct Hok as [Hst _].
  inversion Hstep as [| | |? ? He|]; subst. unfold handshake_step in He.
  rewrite Hh, (proj2 (Nat.ltb_lt _ _)) in He by done. unfold push in He. rewrite Hs in He.
  injection He as <-. eapply wedged_run; [exact Hrun'|done..].
Qed.

(** The first Seq fails at the socket; the timer expires. *)
Definition ex_failed : UdpTunnelSession :=
  default ex_sent (send_one ex_sent false).
Definition ex_expired : UdpTunnelSession :=
  settle 1 (set_now ex_failed (0 + 500 * MS)).
Definition ex_wedged : UdpTunnelSession := settle 1 ex_expired.

Lemma send_failure_wedges_witness :
  status (set_now ex_wedged (500 * MS + 3600 * SEC)) = Connecting.
Proof.
  eapply (send_failure_wedges 77 5
    (((([] ++ [EHandshake]) ++ [ESend false]) ++ [ETick (500 * MS)]) ++ [EHandshake])
    ex_expired 1 ex_wedged ([] ++ [ETick (3600 * SEC)])).
  - eapply run_snoc; [eapply run_snoc; [eapply run_snoc; [eapply run_snoc; [apply run_nil|]|]|]|].
    + apply (step_handshake _ ex_sent). reflexivity.
    + apply (step_send _ _ ex_failed). reflexivity.
    + apply step_tick. discriminate.
    + apply step_handshake. reflexivity.
  - reflexivity.
  - reflexivity.
  - repeat constructor.
  - apply step_handshake. reflexivity.
  - eapply run_snoc; [apply run_nil|]. apply (step_tick ex_wedged (3600 * SEC)). discriminate.
Defined.

(** The liveness window: the monitor takes a [Connected] session down only if no
    datagram was routed to it for the last 45 seconds (up to the millisecond the
    clock is stored with), and a check that finds it silent for that long does take
    it down. *)
Theorem liveness_window n id tr s s' :
  run (connect n id) tr s → step s EMonitor s' → status s = Connected →
  (times tr).1 / MS < 2 ^ 64 →
  let silent := (times tr).1 - (times tr).2 in
  (status s' = Timeout → LIVENESS_TIMEOUT - MS < silent) ∧
  (monitor s = MonCheck → LIVENESS_TIMEOUT ≤ silent → status s' = Timeout).
Proof.
  intros Hrun Hstep Hst Hw silent. destruct (run_times _ _ _ _ Hrun) as (Hn & Hl & Ht1 & Ht2).
  inversion Hstep as [| | | |? ? He]; subst. unfold monitor_step in He.
  assert (0 < MS) as HMS by (unfold MS; lia).
  pose proof (Z.div_pos (times tr).2 MS Ht1 HMS) as Hpos.
  pose proof (Z.div_le_mono _ _ MS HMS Ht2) as Hmono.
  rewrite wrap_small in Hl by (unfold is_uint; lia).
  pose proof (Z.mul_div_le (times tr).2 MS HMS) as Hfl.
  pose proof (Z.mul_succ_div_gt (times tr).2 MS HMS) as Hce.
  rewrite Hn, Hl in He. unfold saturating_sub in He. subst silent.
  destruct (monitor s).
  - split; [|done]. destruct (wake <=? _); [|done].
    assert (status s' = status s) as -> by (case_decide; by injection He as <-). congruence.
  - destruct (Z.leb_spec LIVENESS_TIMEOUT (Z.max 0 ((times tr).1 - (times tr).2 / MS * MS))) as [Hle|Hgt].
    + injection He as <-. split; [|intros; exact (status_set_state s Timeout)].
      intros _. unfold LIVENESS_TIMEOUT, SEC, MS in *. lia.
    + injection He as <-. change (status (set_monitor s _)) with (status s). rewrite Hst.
      split; [done|]. intros _ Hs. unfold LIVENESS_TIMEOUT, SEC, MS in *. lia.
Qed.

Definition ex_silent : UdpTunnelSession :=
  default ex_connected (monitor_step (set_now ex_connected (0 + 45 * SEC))).

Lemma liveness_window_witness :
  status <$> monitor_step ex_silent = Some Timeout.
Proof.
  set (tr := (([EHandshake; EDatagram ex_ack; EHandshake] ++ [ETick (45 * SEC)]) ++ [EMonitor])).
  assert (run (connect 77 5) tr ex_silent) as Hrun.
  { unfold tr. eapply run_snoc; [eapply run_snoc; [exact ex_run|]|].
    - apply (step_tick ex_connected (45 * SEC)). discriminate.
    - apply step_monitor. reflexivity. }
  destruct (monitor_step ex_silent) as [s'|] eqn:Hm; [|discriminate Hm].
  cbn [fmap option_fmap option_map]. f_equal.
  apply (liveness_window 77 5 tr ex_silent s' Hrun (step_monitor _ _ Hm)); [reflexivity..|].
  vm_compute. congruence.
Defined.
