(* ===== verification/Wireguard.v ===== *)
(** [noeio/src/tunnel/wireguard.rs] and [tunnel/session/wireguard.rs]: the pairwise
    key derivation and the WireGuard codec over the third-party [boringtun::Tunn]. *)

From Stdlib Require Import ZArith Lia.
From Stdlib Require Import Strings.Byte Strings.String.
From stdpp Require Import base list strings.
From S2P Require Import Prelude Text NetTypes HostInfo Session.

Local Open Scope Z_scope.

(** [std]'s [DefaultHasher], whose algorithm is unspecified, and [x25519_dalek]. *)
Class KeyApi : Type := {
  Hasher : Type;
  hasher_new : Hasher;
  hasher_write : Hasher → list byte → Hasher;
  hasher_finish : Hasher → Z;
  StaticSecret : Type;
  PublicKey : Type;
  secret_from : list byte → StaticSecret;
  public_from : StaticSecret → PublicKey;
}.

(** What the caller must do with a codec's output. *)
Inductive TunnOutput : Type :=
  | ToNic (packet : list byte) (src : option IpAddr)
  | ToPeer (datagram : list byte)
  | Consumed
  | OutErr (message : string).

(** [boringtun::noise::TunnResult] *)
Inductive TunnResult : Type :=
  | Done
  | TErr (debug : string)
  | WriteToNetwork (buf : list byte)
  | WriteToTunnelV4 (buf : list byte) (src : Z)
  | WriteToTunnelV6 (buf : list byte) (src : Z).

(** [boringtun::noise::Tunn], for destination buffers that are large enough. *)
Class TunnApi {KA : KeyApi} : Type := {
  Tunn : Type;
  tunn_new : StaticSecret → PublicKey → Z → Tunn;
  tunn_decapsulate : Tunn → option IpAddr → list byte → Tunn * TunnResult;
  tunn_encapsulate : Tunn → list byte → Tunn * TunnResult;
  tunn_update_timers : Tunn → Tunn * TunnResult;
  tunn_since_handshake : Tunn → option Z;
  tunn_is_expired : Tunn → bool;
}.

(** The identity codec of a plaintext tunnel: the [TunnelSession] trait's default
    methods, with the length of the destination buffer. *)
Definition default_decapsulate (dst_len : nat) (datagram : list byte) : TunnOutput :=
  if bool_decide (datagram = []) then Consumed
  else if (dst_len <? length datagram)%nat then OutErr "dst too small for datagram"
  else ToNic datagram None.
Definition default_encapsulate (dst_len : nat) (plaintext : list byte) : TunnOutput :=
  if (dst_len <? length plaintext)%nat then OutErr "dst too small for packet"
  else ToPeer plaintext.
Definition default_update_timers : TunnOutput := Consumed.

Section keys.
Context {KA : KeyApi} {U : UuidApi}.

(** One shard per eight bytes: the hash so far, then the digest so far is hashed
    in. *)
Fixpoint digest_shards (h : Hasher) (digest : list byte) (shards : nat) : list byte :=
  match shards with
  | O => digest
  | S n =>
      let digest := digest ++ be_bytes 8 (hasher_finish h) in
      digest_shards (hasher_write h digest) digest n
  end.

(** [None] is the panic of the length assertion. *)
Definition generate_digest (strs : list string) (len : nat) : option (list byte) :=
  let h := foldl hasher_write hasher_new (map list_byte_of_string strs) in
  if (len mod 8 =? 0)%nat then Some (digest_shards h [] (len / 8)) else None.

Record WireGuardConfig : Type := MkWireGuardConfig {
  my_secret_key : StaticSecret;
  my_public_key : PublicKey;
  peer_secret_key : StaticSecret;
  peer_public_key : PublicKey;
}.

Definition new_from_network_peer (peer_id : string) (network : NetworkId) :
    option WireGuardConfig :=
  let network_str := uuid_hyphenated network in
  my_seed ← generate_digest ["self"%string; network_str; peer_id] 32;
  let my_secret := secret_from my_seed in
  peer_seed ← generate_digest ["peer"%string; network_str; peer_id] 32;
  let peer_secret := secret_from peer_seed in
  Some (MkWireGuardConfig my_secret (public_from my_secret)
          peer_secret (public_from peer_secret)).

Definition derive_tunnel_keys (local_peer_id peer_id : PeerId) (network : NetworkId) :
    option (StaticSecret * PublicKey) :=
  ours ← new_from_network_peer (show_uint local_peer_id) network;
  theirs ← new_from_network_peer (show_uint peer_id) network;
  Some (my_secret_key ours, my_public_key theirs).

Lemma length_digest_shards h d n : length (digest_shards h d n) = (length d + 8 * n)%nat.
Proof.
  revert h d. induction n as [|n IH]; intros h d; cbn [digest_shards]; [lia|].
  rewrite IH, length_app, length_be_bytes. lia.
Qed.

Lemma generate_digest_Some strs n :
  ∃ d, generate_digest strs (8 * n) = Some d ∧ length d = (8 * n)%nat.
Proof.
  unfold generate_digest. rewrite Nat.mul_comm, Nat.Div0.mod_mul, Nat.div_mul by lia.
  eexists. split; [done|]. rewrite length_digest_shards. simpl. lia.
Qed.

(** The identity secret of [id] in [network], when the derivation succeeds. *)
Lemma derive_secret id network :
  ∃ s, ∀ other, ∃ p, derive_tunnel_keys id other network = Some (s, p).
Proof.
  unfold derive_tunnel_keys, new_from_network_peer.
  destruct (generate_digest_Some ["self"%string; uuid_hyphenated network; show_uint id] 4)
    as (d1 & H1 & _). change (8 * 4)%nat with 32%nat in H1. rewrite H1.
  destruct (generate_digest_Some ["peer"%string; uuid_hyphenated network; show_uint id] 4)
    as (d2 & H2 & _). change (8 * 4)%nat with 32%nat in H2. rewrite H2.
  cbn [mbind option_bind my_secret_key]. exists (secret_from d1). intros other.
  destruct (generate_digest_Some ["self"%string; uuid_hyphenated network; show_uint other] 4)
    as (d3 & H3 & _). change (8 * 4)%nat with 32%nat in H3. rewrite H3.
  destruct (generate_digest_Some ["peer"%string; uuid_hyphenated network; show_uint other] 4)
    as (d4 & H4 & _). change (8 * 4)%nat with 32%nat in H4. rewrite H4.
  cbn [mbind option_bind]. by eexists.
Qed.

(** Both ends agree: what one derives as the other's public key is the public key
    of the secret the other derives. *)
Lemma derive_interoperate a b network :
  ∃ sa sb, derive_tunnel_keys a b network = Some (sa, public_from sb) ∧
           derive_tunnel_keys b a network = Some (sb, public_from sa).
Proof.
  unfold derive_tunnel_keys, new_from_network_peer.
  assert (∀ w id, ∃ d, generate_digest [w; uuid_hyphenated network; show_uint id] 32 = Some d) as Hd.
  { intros w id. destruct (generate_digest_Some [w; uuid_hyphenated network; show_uint id] 4)
      as (d & H & _). by exists d. }
  destruct (Hd "self"%string a) as [d1 ->], (Hd "peer"%string a) as [d2 ->],
    (Hd "self"%string b) as [d3 ->], (Hd "peer"%string b) as [d4 ->].
  cbn [mbind option_bind my_secret_key my_public_key]. by eexists _, _.
Qed.
End keys.

Module WireGuardTunnelSession.
Section session.
Context {KA : KeyApi} {TA : TunnApi}.

(** The codec with the keys it was built from. *)
Record WireGuardTunnelSession : Type := MkCodec {
  secret : StaticSecret;
  peer_public : PublicKey;
  index : Z;
  tunn : Tunn;
}.

Definition new (secret : StaticSecret) (peer_public : PublicKey) (index : Z) :
    WireGuardTunnelSession :=
  MkCodec secret peer_public index (tunn_new secret peer_public index).

Definition map_result (r : TunnResult) : TunnOutput :=
  match r with
  | Done => Consumed
  | TErr err => OutErr err
  | WriteToNetwork buf => ToPeer buf
  | WriteToTunnelV4 buf src => ToNic buf (Some (IpV4 src))
  | WriteToTunnelV6 buf src => ToNic buf (Some (IpV6 src))
  end.

Definition state (s : WireGuardTunnelSession) : SessionState :=
  match tunn_since_handshake (tunn s) with
  | Some _ => Connected
  | None => if tunn_is_expired (tunn s) then Timeout else Connecting
  end.

Definition with_tunn (s : WireGuardTunnelSession) (r : Tunn * TunnResult) :
    WireGuardTunnelSession * TunnOutput :=
  (MkCodec (secret s) (peer_public s) (index s) r.1, map_result r.2).

Definition decapsulate (s : WireGuardTunnelSession) (src : option IpAddr)
    (datagram : list byte) : WireGuardTunnelSession * TunnOutput :=
  with_tunn s (tunn_decapsulate (tunn s) src datagram).
Definition encapsulate (s : WireGuardTunnelSession) (plaintext : list byte) :
    WireGuardTunnelSession * TunnOutput :=
  with_tunn s (tunn_encapsulate (tunn s) plaintext).
Definition update_timers (s : WireGuardTunnelSession) :
    WireGuardTunnelSession * TunnOutput :=
  with_tunn s (tunn_update_timers (tunn s)).
End session.
End WireGuardTunnelSession.
Notation WireGuardTunnelSession := WireGuardTunnelSession.WireGuardTunnelSession.

#[export] Instance wireguard_session {KA : KeyApi} {TA : TunnApi} :
  TunnelSession WireGuardTunnelSession := {|
  session_state := WireGuardTunnelSession.state;
  session_rtt _ := None |}.
