(* ===== verification/Peer.v ===== *)
(** [noeio/src/daemon/peer.rs]: the local runtime view of a peer - its identity, one
    session per candidate path, the selected path and the data-plane codec. The
    sessions are any type with the [TunnelSession] interface; [UdpTunnelSession]
    is the one the daemon uses. *)

From Stdlib Require Import ZArith Lia.
From Stdlib Require Import Strings.Byte Strings.String.
From stdpp Require Import base list strings sets gmap.
From S2P Require Import Prelude Text NetTypes CidrModel HostInfo Packet HostCodec CodecModel RoutingTable.
From S2P Require Import Session Wireguard.

Local Open Scope Z_scope.

(** Opening a session toward an address and feeding it a datagram; [false] when its
    inbound channel is closed. *)
Class SessionOpen (S : Type) {TS : TunnelSession S} : Type := {
  session_connect : SocketAddr → PeerId → S;
  session_inbound : S → list byte → SocketAddr → S * bool;
  session_connect_state : ∀ a id, session_state (session_connect a id) = Connecting;
}.

Module Peer.
(** Durations are nanoseconds; [Duration::MAX] and [as_millis]. *)
Definition DURATION_MAX : Z := U64_MAX * 1000000000 + 999999999.
Definition as_millis (d : Z) : Z := d / 1000000.
Definition RTT_SWITCH_IMPROVEMENT_PERCENT : Z := 20.

Section peer.
Context {CA : CidrApi} {U : UuidApi} {KA : KeyApi} {TA : TunnApi}.
Context {S : Type} {TS : TunnelSession S} {SO : SessionOpen S}.

Record PeerSession : Type := MkPeerSession {
  addr : SocketAddr;
  session : S;
}.

(** [None] for the codec is the panic of the key derivation, which
    [peer_codec_keys] rules out. *)
Record Peer : Type := MkPeer {
  info : PeerInfo;
  local_peer_id : PeerId;
  sessions : list PeerSession;
  selected : option SocketAddr;
  codec : option WireGuardTunnelSession;
}.

Definition build_codec (i : PeerInfo) (local_peer_id : PeerId) :
    option WireGuardTunnelSession :=
  '(secret, peer_public) ←
    derive_tunnel_keys local_peer_id (PeerInfo.peer_id i) (PeerInfo.network_id i);
  Some (WireGuardTunnelSession.new secret peer_public (PeerInfo.peer_id i)).

Definition push_candidate (candidates : list SocketAddr) (a : SocketAddr) : list SocketAddr :=
  if bool_decide (a ∈ candidates) then candidates else candidates ++ [a].

Definition candidate_addrs (p : Peer) : list SocketAddr :=
  let nat_addr := if bool_decide (PeerInfo.nat_type (info p) = Symmetric) then None
                  else PeerInfo.nat_addr (info p) in
  foldl push_candidate [] (PeerInfo.local_addrs (info p) ++ option_list nat_addr).

Fixpoint replace_session (a : SocketAddr) (entry : PeerSession) (ss : list PeerSession) :
    list PeerSession :=
  match ss with
  | [] => [entry]
  | s :: ss' => if decide (addr s = a) then entry :: ss' else s :: replace_session a entry ss'
  end.

Definition open_session (p : Peer) (ss : list PeerSession) (a : SocketAddr) :
    list PeerSession :=
  replace_session a (MkPeerSession a (session_connect a (local_peer_id p))) ss.

Definition usable (force : bool) (ss : list PeerSession) (a : SocketAddr) : bool :=
  negb force &&
  existsb (λ s, bool_decide (addr s = a) &&
                negb (bool_decide (session_state (session s) = Timeout))) ss.

Definition reconcile_addr (p : Peer) (force : bool) (ss : list PeerSession) (a : SocketAddr) :
    list PeerSession :=
  if usable force ss a then ss else open_session p ss a.

Definition set_sessions (p : Peer) (ss : list PeerSession) : Peer :=
  MkPeer (info p) (local_peer_id p) ss (selected p) (codec p).

Definition try_create_tunnel (p : Peer) (force : bool) : Peer :=
  let candidates := candidate_addrs p in
  let ss := List.filter (λ s, bool_decide (addr s ∈ candidates)) (sessions p) in
  set_sessions p (foldl (reconcile_addr p force) ss candidates).

Definition new (i : PeerInfo) (local_peer_id : PeerId) : Peer :=
  try_create_tunnel (MkPeer i local_peer_id [] None (build_codec i local_peer_id)) false.

Definition find_session (ss : list PeerSession) (a : SocketAddr) : option PeerSession :=
  List.find (λ s, bool_decide (addr s = a)) ss.

Definition address (p : Peer) : option SocketAddr :=
  sel ← selected p;
  entry ← find_session (sessions p) sel;
  if decide (session_state (session entry) = Connected) then Some sel else None.

Definition connected (p : Peer) : list (SocketAddr * option Z) :=
  map (λ s, (addr s, session_rtt (session s)))
    (List.filter (λ s, bool_decide (session_state (session s) = Connected)) (sessions p)).

(** [best] is at least the improvement below [cur]. *)
Definition improved (cur best : option Z) : bool :=
  match cur, best with
  | Some cur, Some best =>
      as_millis best * 100 <? as_millis cur * (100 - RTT_SWITCH_IMPROVEMENT_PERCENT)
  | None, Some _ => true
  | _, None => false
  end.

Definition pick (selected : option SocketAddr) (connected : list (SocketAddr * option Z)) :
    option SocketAddr :=
  let current := a ← selected; List.find (λ c, bool_decide (c.1 = a)) connected in
  let best := min_by_key (λ c, default DURATION_MAX c.2) connected in
  match current, best with
  | _, None => None
  | None, Some (a, _) => Some a
  | Some (cur_addr, cur_rtt), Some (best_addr, best_rtt) =>
      if negb (bool_decide (best_addr = cur_addr)) && improved cur_rtt best_rtt
      then Some best_addr else Some cur_addr
  end.

Definition select_session (p : Peer) : Peer :=
  MkPeer (info p) (local_peer_id p) (sessions p) (pick (selected p) (connected p)) (codec p).

(** Feed one session, or all of them, remembering whether any took it. *)
Definition feed (payload : list byte) (src : SocketAddr) (s : PeerSession) :
    PeerSession * bool :=
  let '(s', ok) := session_inbound (session s) payload src in (MkPeerSession (addr s) s', ok).

Fixpoint feed_first (payload : list byte) (src : SocketAddr) (ss : list PeerSession) :
    list PeerSession * bool :=
  match ss with
  | [] => ([], false)
  | s :: ss' =>
      if decide (addr s = src) then let '(s', ok) := feed payload src s in (s' :: ss', ok)
      else let '(ss', ok) := feed_first payload src ss' in (s :: ss', ok)
  end.

Definition inbound (p : Peer) (payload : list byte) (src : SocketAddr) : Peer * bool :=
  let '(ss, delivered) :=
    match find_session (sessions p) src with
    | Some _ => feed_first payload src (sessions p)
    | None =>
        let fed := map (feed payload src) (sessions p) in
        (fed.*1, existsb id fed.*2)
    end in
  (set_sessions p ss, delivered).

Definition update_info (p : Peer) (i : PeerInfo) (local_id : PeerId) : Peer :=
  let current := info p in
  let identity_changed :=
    negb (bool_decide (PeerInfo.network_id current = PeerInfo.network_id i))
    || negb (bool_decide (PeerInfo.nat_type current = PeerInfo.nat_type i)) in
  let keys_changed :=
    negb (bool_decide (PeerInfo.network_id current = PeerInfo.network_id i))
    || negb (PeerInfo.peer_id current =? PeerInfo.peer_id i)
    || negb (local_peer_id p =? local_id) in
  let codec' := if keys_changed then build_codec i local_id else codec p in
  try_create_tunnel (MkPeer i local_id (sessions p) (selected p) codec') identity_changed.

(** The codec moved on (a packet or a timer went through it). *)
Definition set_codec (p : Peer) (c : WireGuardTunnelSession) : Peer :=
  MkPeer (info p) (local_peer_id p) (sessions p) (selected p) (Some c).
End peer.
Arguments PeerSession : clear implicits.
Arguments Peer {CA KA TA} S : rename.
End Peer.

(** ** Sessions follow the candidates *)

Section sessions.
Context {CA : CidrApi} {U : UuidApi} {KA : KeyApi} {TA : TunnApi}.
Context {S : Type} {TS : TunnelSession S} {SO : SessionOpen S}.
Implicit Types (p : Peer.Peer S) (ss : list (Peer.PeerSession S)).

Lemma push_candidate_spec l a :
  NoDup l → NoDup (Peer.push_candidate l a) ∧
  ∀ x, x ∈ Peer.push_candidate l a ↔ x ∈ l ∨ x = a.
Proof.
  intros Hn. unfold Peer.push_candidate. case_bool_decide as Ha.
  - split; [done|]. intros x. naive_solver.
  - split; [|intros x; set_solver]. apply NoDup_app. split_and!; [done| |apply NoDup_singleton].
    intros x Hx ->%list_elem_of_singleton. done.
Qed.

Lemma push_candidates_spec bs l :
  NoDup l → NoDup (foldl Peer.push_candidate l bs) ∧
  ∀ x, x ∈ foldl Peer.push_candidate l bs ↔ x ∈ l ∨ x ∈ bs.
Proof.
  revert l. induction bs as [|b bs IH]; intros l Hn; cbn [foldl].
  - split; [done|]. set_solver.
  - destruct (push_candidate_spec l b Hn) as [Hn' Hx]. destruct (IH _ Hn') as [Hnd Hin].
    split; [done|]. intros x. rewrite Hin, Hx. set_solver.
Qed.

Lemma candidates_NoDup p : NoDup (Peer.candidate_addrs p).
Proof. apply push_candidates_spec. constructor. Qed.

Lemma elem_of_candidates p a :
  a ∈ Peer.candidate_addrs p ↔
  a ∈ PeerInfo.local_addrs (Peer.info p) ∨
  (PeerInfo.nat_type (Peer.info p) ≠ Symmetric ∧
   PeerInfo.nat_addr (Peer.info p) = Some a).
Proof.
  unfold Peer.candidate_addrs. rewrite (proj2 (push_candidates_spec _ [] (NoDup_nil_2))).
  rewrite elem_of_app. case_bool_decide as Hs; cbn [option_list].
  - set_solver.
  - destruct (PeerInfo.nat_addr _); cbn [option_list]; set_solver.
Qed.

Lemma find_session_Some ss a s :
  Peer.find_session ss a = Some s → s ∈ ss ∧ Peer.addr s = a.
Proof.
  unfold Peer.find_session. intros [Hin Ha]%List.find_some. split; [by apply list_elem_of_In|].
  by apply bool_decide_eq_true in Ha.
Qed.

Lemma find_session_None ss a :
  Peer.find_session ss a = None ↔ a ∉ (Peer.addr <$> ss).
Proof.
  unfold Peer.find_session. rewrite find_None_Forall, Forall_forall.
  setoid_rewrite bool_decide_eq_false. rewrite list_elem_of_fmap. naive_solver.
Qed.

Lemma find_session_NoDup ss s :
  NoDup (Peer.addr <$> ss) → s ∈ ss → Peer.find_session ss (Peer.addr s) = Some s.
Proof.
  induction ss as [|x ss IH]; cbn; [set_solver|]. intros [Hx Hn]%NoDup_cons.
  intros [->|Hin]%elem_of_cons; [by rewrite bool_decide_eq_true_2|].
  rewrite bool_decide_eq_false_2; [by apply IH|].
  intros Heq. apply Hx. rewrite Heq. by apply list_elem_of_fmap_2.
Qed.

Lemma find_replace ss a e b :
  Peer.addr e = a →
  Peer.find_session (Peer.replace_session a e ss) b =
    if decide (a = b) then Some e else Peer.find_session ss b.
Proof.
  intros He. induction ss as [|s ss IH]; cbn.
  - rewrite He. case_decide; [by rewrite bool_decide_eq_true_2|by rewrite bool_decide_eq_false_2].
  - destruct (decide (Peer.addr s = a)) as [Hsa|Hsa].
    + cbn. rewrite He, Hsa. case_decide;
        [by rewrite bool_decide_eq_true_2|by rewrite bool_decide_eq_false_2].
    + cbn. case_bool_decide as Hsb; [rewrite decide_False; [done|congruence]|]. exact IH.
Qed.

Lemma replace_addrs ss a e :
  Peer.addr e = a →
  Peer.addr <$> Peer.replace_session a e ss =
    if decide (a ∈ (Peer.addr <$> ss)) then Peer.addr <$> ss else (Peer.addr <$> ss) ++ [a].
Proof.
  intros He. induction ss as [|s ss IH]; cbn.
  - rewrite decide_False by set_solver. by rewrite He.
  - destruct (decide (Peer.addr s = a)) as [Hsa|Hsa]; cbn.
    + rewrite decide_True by set_solver. congruence.
    + change (list_fmap _ _ Peer.addr) with (fmap (M := list) (Peer.addr (S := S))).
      rewrite IH. destruct (decide (a ∈ (Peer.addr <$> ss))).
      * by rewrite decide_True by set_solver.
      * by rewrite decide_False by set_solver.
Qed.

(** A session that need not be reopened. *)
Definition keep (force : bool) (s : Peer.PeerSession S) : bool :=
  negb force && negb (bool_decide (session_state (Peer.session s) = Timeout)).

Lemma usable_find force ss a :
  NoDup (Peer.addr <$> ss) →
  Peer.usable force ss a =
    match Peer.find_session ss a with Some s => keep force s | None => false end.
Proof.
  intros Hn. unfold Peer.usable, keep. destruct force; cbn [negb andb].
  { by destruct (Peer.find_session ss a). }
  apply eq_bool_prop_intro. rewrite !Is_true_true, existsb_true. split.
  - intros (s & Hs & [Ha Hst]%andb_true_iff). apply bool_decide_eq_true in Ha as <-.
    by rewrite find_session_NoDup.
  - destruct (Peer.find_session ss a) as [s|] eqn:Hf; [|done]. intros Hk.
    apply find_session_Some in Hf as [Hin <-]. exists s. by rewrite bool_decide_eq_true_2.
Qed.

(** The session set after [try_create_tunnel], path by path. *)
Definition wanted p (force : bool) (old : option (Peer.PeerSession S)) (a : SocketAddr) :
    Peer.PeerSession S :=
  match old with
  | Some s => if keep force s then s
              else Peer.MkPeerSession a (session_connect a (Peer.local_peer_id p))
  | None => Peer.MkPeerSession a (session_connect a (Peer.local_peer_id p))
  end.

Lemma reconcile_addr_spec p force ss a :
  NoDup (Peer.addr <$> ss) →
  NoDup (Peer.addr <$> Peer.reconcile_addr p force ss a) ∧
  ∀ b, Peer.find_session (Peer.reconcile_addr p force ss a) b =
    if decide (a = b) then Some (wanted p force (Peer.find_session ss a) a)
    else Peer.find_session ss b.
Proof.
  intros Hn. unfold Peer.reconcile_addr. rewrite usable_find by done.
  assert (NoDup (Peer.addr <$> Peer.open_session p ss a) ∧
    ∀ b, Peer.find_session (Peer.open_session p ss a) b =
      if decide (a = b)
      then Some (Peer.MkPeerSession a (session_connect a (Peer.local_peer_id p)))
      else Peer.find_session ss b) as Hopen.
  { unfold Peer.open_session. split; [|intros b; by rewrite find_replace].
    rewrite replace_addrs by done. destruct (decide _); [done|].
    apply NoDup_app. split_and!; [done| |apply NoDup_singleton].
    intros x Hx ->%list_elem_of_singleton. done. }
  unfold wanted. destruct (Peer.find_session ss a) as [s|] eqn:Hf; [|exact Hopen].
  destruct (keep force s); [|exact Hopen].
  split; [done|]. intros b. case_decide; subst; done.
Qed.

Lemma reconcile_fold_spec p force L ss :
  NoDup L → NoDup (Peer.addr <$> ss) →
  let ss' := foldl (Peer.reconcile_addr p force) ss L in
  NoDup (Peer.addr <$> ss') ∧
  ∀ b, Peer.find_session ss' b =
    if decide (b ∈ L) then Some (wanted p force (Peer.find_session ss b) b)
    else Peer.find_session ss b.
Proof.
  revert ss. induction L as [|a L IH]; intros ss HL Hn; cbn [foldl]; [done|].
  apply NoDup_cons in HL as [Ha HL]. destruct (reconcile_addr_spec p force ss a Hn) as [Hn1 Hf1].
  destruct (IH _ HL Hn1) as [Hn2 Hf2]. split; [done|]. intros b. rewrite Hf2.
  destruct (decide (b ∈ L)) as [Hb|Hb].
  - rewrite Hf1, (decide_True (P := b ∈ a :: L)) by set_solver.
    by rewrite decide_False by congruence.
  - rewrite Hf1. destruct (decide (a = b)) as [->|Hne].
    + by rewrite decide_True by set_solver.
    + by rewrite decide_False by set_solver.
Qed.

Lemma find_retain ss (f : Peer.PeerSession S → bool) b :
  NoDup (Peer.addr <$> ss) →
  Peer.find_session (List.filter f ss) b =
    match Peer.find_session ss b with
    | Some s => if f s then Some s else None
    | None => None
    end.
Proof.
  induction ss as [|s ss IH]; [done|]. cbn. intros [Hs Hn]%NoDup_cons.
  specialize (IH Hn). destruct (f s) eqn:Hf; cbn.
  - case_bool_decide; [by rewrite Hf|]. exact IH.
  - case_bool_decide as Hb; [|exact IH]. rewrite Hf. fold (Peer.find_session ss b) in IH.
    change (List.find _ (List.filter f ss)) with (Peer.find_session (List.filter f ss) b).
    rewrite IH. assert (Peer.find_session ss b = None) as ->; [|done].
    apply find_session_None. by rewrite <-Hb.
Qed.

Lemma retain_NoDup ss (f : Peer.PeerSession S → bool) :
  NoDup (Peer.addr <$> ss) → NoDup (Peer.addr <$> List.filter f ss).
Proof.
  induction ss as [|s ss IH]; [done|]. cbn. intros [Hs Hn]%NoDup_cons.
  destruct (f s); [|by apply IH]. cbn. apply NoDup_cons. split; [|by apply IH].
  intros (x & Hx & Hin)%list_elem_of_fmap. apply Hs. rewrite Hx. apply list_elem_of_fmap_2.
  apply list_elem_of_In, filter_In in Hin as [Hin _]. by apply list_elem_of_In.
Qed.

Lemma try_create_tunnel_spec p force :
  NoDup (Peer.addr <$> Peer.sessions p) →
  let p' := Peer.try_create_tunnel p force in
  NoDup (Peer.addr <$> Peer.sessions p') ∧
  ∀ a, Peer.find_session (Peer.sessions p') a =
    if decide (a ∈ Peer.candidate_addrs p)
    then Some (wanted p force (Peer.find_session (Peer.sessions p) a) a) else None.
Proof.
  intros Hn p'. pose proof (retain_NoDup _ (λ s, bool_decide (Peer.addr s ∈ Peer.candidate_addrs p)) Hn) as Hr.
  destruct (reconcile_fold_spec p force (Peer.candidate_addrs p) _ (candidates_NoDup p) Hr)
    as [Hn' Hf]. split; [exact Hn'|]. intros a.
  unfold p', Peer.try_create_tunnel. cbn [Peer.sessions Peer.set_sessions]. rewrite Hf.
  rewrite find_retain by done.
  destruct (Peer.find_session (Peer.sessions p) a) as [s|] eqn:Hs; [|by destruct (decide _)].
  apply find_session_Some in Hs as [_ <-]. case_decide as Hc.
  - by rewrite bool_decide_eq_true_2.
  - by rewrite bool_decide_eq_false_2.
Qed.
End sessions.

(** ** Path selection *)

Section selection.
Context {CA : CidrApi} {U : UuidApi} {KA : KeyApi} {TA : TunnApi}.
Context {S : Type} {TS : TunnelSession S} {SO : SessionOpen S}.
Implicit Types (p : Peer.Peer S) (s : Peer.PeerSession S) (c : list (SocketAddr * option Z)).

Definition up s : Prop := session_state (Peer.session s) = Connected.
Definition rtt_of s : option Z := session_rtt (Peer.session s).

Lemma elem_of_connected p a r :
  (a, r) ∈ Peer.connected p ↔ ∃ s, s ∈ Peer.sessions p ∧ up s ∧ Peer.addr s = a ∧ rtt_of s = r.
Proof.
  unfold Peer.connected. rewrite list_elem_of_In, in_map_iff. setoid_rewrite filter_In.
  setoid_rewrite bool_decide_eq_true. setoid_rewrite <-list_elem_of_In. unfold up, rtt_of.
  split; [intros (s & [= <- <-] & Hs & Hu); eauto|intros (s & Hs & Hu & <- & <-); eauto].
Qed.

Lemma connected_NoDup p :
  NoDup (Peer.addr <$> Peer.sessions p) → NoDup (Peer.connected p).*1.
Proof.
  intros Hn. unfold Peer.connected. rewrite <-list_fmap_compose. by apply retain_NoDup.
Qed.

Lemma find_fst c a r : NoDup c.*1 → (a, r) ∈ c →
  List.find (λ x, bool_decide (x.1 = a)) c = Some (a, r).
Proof.
  induction c as [|[b q] c IH]; cbn; [set_solver|]. intros [Hb Hn]%NoDup_cons.
  intros [[= <- <-]|Hin]%elem_of_cons; [by rewrite bool_decide_eq_true_2|].
  rewrite bool_decide_eq_false_2; [by apply IH|]. intros ->. apply Hb.
  apply list_elem_of_fmap. by exists (a, r).
Qed.

Lemma find_fst_Some c a x :
  List.find (λ x, bool_decide (x.1 = a)) c = Some x → x ∈ c ∧ x.1 = a.
Proof.
  intros [Hin Ha]%List.find_some. split; [by apply list_elem_of_In|].
  by apply bool_decide_eq_true in Ha.
Qed.

(** The pick is one of the connected paths, when there is one. *)
Lemma pick_Some sel c :
  match Peer.pick sel c with
  | None => c = []
  | Some a => ∃ r, (a, r) ∈ c
  end.
Proof.
  unfold Peer.pick. destruct (min_by_key _ c) as [[b q]|] eqn:Hm.
  - pose proof (min_by_key_Some _ _ _ Hm) as [Hb _].
    destruct (sel ≫= _) as [[a r]|] eqn:Hs; [|by exists q].
    destruct sel as [a'|]; [|done]. apply find_fst_Some in Hs as [Ha _].
    destruct (_ && _); eauto.
  - apply min_by_key_None in Hm. by destruct (sel ≫= _) as [[]|].
Qed.

Lemma pick_idemp sel c : Peer.pick (Peer.pick sel c) c = Peer.pick sel c.
Proof.
  unfold Peer.pick at 2 3. destruct (min_by_key _ c) as [[b q]|] eqn:Hm.
  - pose proof (min_by_key_Some _ _ _ Hm) as [Hb _].
    assert (Peer.pick (Some b) c = Some b) as Hbest.
    { unfold Peer.pick. rewrite Hm. cbn [mbind option_bind].
      destruct (List.find _ c) as [[a r]|] eqn:Hf; [|done].
      apply find_fst_Some in Hf as [_ Ha]. cbn in Ha. subst.
      by rewrite bool_decide_eq_true_2. }
    destruct (sel ≫= _) as [[a r]|] eqn:Hs; [|exact Hbest].
    destruct sel as [a'|]; [|done]. cbn [mbind option_bind] in Hs.
    pose proof (find_fst_Some _ _ _ Hs) as [_ Ha]. cbn in Ha. subst a'.
    destruct (_ && _) eqn:Hd; [exact Hbest|].
    unfold Peer.pick. rewrite Hm. cbn [mbind option_bind]. by rewrite Hs, Hd.
  - apply min_by_key_None in Hm as ->. by destruct (sel ≫= _) as [[]|].
Qed.

(** [b] is measured and at least a fifth faster than [a], or [a] is unmeasured. *)
Definition clearly_faster (b a : option Z) : Prop := Peer.improved a b = true.

Lemma clearly_faster_min a r b :
  (∀ q, a = Some q → 0 ≤ q) → (∀ q, r = Some q → q < Peer.DURATION_MAX) →
  clearly_faster r a → default Peer.DURATION_MAX b ≤ default Peer.DURATION_MAX r →
  clearly_faster b a.
Proof.
  unfold clearly_faster, Peer.improved. intros Ha Hr Hi Hle.
  destruct r as [q|]; [|by destruct a]. specialize (Hr q eq_refl). cbn in Hle.
  destruct b as [q'|]; cbn in Hle; [|lia].
  destruct a as [w|]; [|done]. apply Z.ltb_lt in Hi. apply Z.ltb_lt.
  unfold Peer.as_millis in *. pose proof (Z.div_le_mono q' q 1000000 ltac:(lia) Hle). lia.
Qed.

Lemma not_faster_than_self a b :
  (∀ q, a = Some q → 0 ≤ q) → default Peer.DURATION_MAX a ≤ default Peer.DURATION_MAX b →
  (∀ q, b = Some q → q < Peer.DURATION_MAX) → ¬ clearly_faster b a.
Proof.
  unfold clearly_faster, Peer.improved. intros Ha Hle Hb.
  destruct b as [w|]; [|by destruct a]. specialize (Hb w eq_refl).
  destruct a as [q|]; cbn in Hle; [|lia]. specialize (Ha q eq_refl).
  rewrite Z.ltb_lt. unfold Peer.as_millis, Peer.RTT_SWITCH_IMPROVEMENT_PERCENT.
  pose proof (Z.div_le_mono q w 1000000 ltac:(lia) Hle).
  pose proof (Z.div_pos q 1000000 Ha ltac:(lia)). lia.
Qed.

(** The incumbent loses its place exactly to a clearly faster path. *)
Lemma pick_incumbent c a r :
  NoDup c.*1 → (a, r) ∈ c →
  (∀ x q, x ∈ c → x.2 = Some q → 0 ≤ q < Peer.DURATION_MAX) →
  Peer.pick (Some a) c ≠ Some a ↔ ∃ b q, (b, q) ∈ c ∧ b ≠ a ∧ clearly_faster q r.
Proof.
  intros Hn Ha Hr. unfold Peer.pick. cbn [mbind option_bind]. rewrite (find_fst c a r) by done.
  destruct (min_by_key _ c) as [[b q]|] eqn:Hm.
  - destruct (min_by_key_Some _ _ _ Hm) as [Hb Hmin].
    destruct (negb _ && _) eqn:Hd.
    + apply andb_true_iff in Hd as [Hne Hi]. bool_to_prop. split; [|congruence].
      intros _. by exists b, q.
    + split; [done|]. intros (b' & q' & Hb' & Hne & Hf).
      exfalso. apply andb_false_iff in Hd as [Hd|Hd].
      * apply negb_false_iff, bool_decide_eq_true in Hd as ->.
        assert (q = r) as ->.
        { pose proof (find_fst c a q Hn Hb) as H1. rewrite (find_fst c a r) in H1 by done. congruence. }
        eapply not_faster_than_self; [|exact (Hmin _ Hb')| |exact Hf]; intros w Hw;
          [by eapply (Hr _ _ Ha)|by eapply (Hr _ _ Hb')].
      * assert (clearly_faster q r) as Hq; [|unfold clearly_faster in Hq; congruence].
        eapply clearly_faster_min; [| |exact Hf|exact (Hmin _ Hb')]; intros w Hw;
          [by eapply (Hr _ _ Ha)|by eapply (Hr _ _ Hb')].
  - apply min_by_key_None in Hm as ->. set_solver.
Qed.
End selection.

(** ** Every reachable peer *)

Section reachable.
Context {CA : CidrApi} {U : UuidApi} {KA : KeyApi} {TA : TunnApi}.
Context {S : Type} {TS : TunnelSession S} {SO : SessionOpen S}.
Implicit Types (p : Peer.Peer S).

(** A packet or a timer went through the codec. *)
Inductive codec_step : WireGuardTunnelSession → WireGuardTunnelSession → Prop :=
  | codec_encapsulate c bs : codec_step c (WireGuardTunnelSession.encapsulate c bs).1
  | codec_decapsulate c src bs : codec_step c (WireGuardTunnelSession.decapsulate c src bs).1
  | codec_timers c : codec_step c (WireGuardTunnelSession.update_timers c).1.

Inductive peer_step : Peer.Peer S → Peer.Peer S → Prop :=
  | peer_update p i k : peer_step p (Peer.update_info p i k)
  | peer_try p force : peer_step p (Peer.try_create_tunnel p force)
  | peer_select p : peer_step p (Peer.select_session p)
  | peer_session p ss :
      (** the sessions' own tasks *)
      Peer.addr <$> ss = Peer.addr <$> Peer.sessions p → peer_step p (Peer.set_sessions p ss)
  | peer_codec p c c' :
      Peer.codec p = Some c → codec_step c c' → peer_step p (Peer.set_codec p c').

(** The codec is keyed for the current identities. *)
Definition keys_ok p : Prop :=
  ∃ c, Peer.codec p = Some c ∧
    derive_tunnel_keys (Peer.local_peer_id p) (PeerInfo.peer_id (Peer.info p))
      (PeerInfo.network_id (Peer.info p))
    = Some (WireGuardTunnelSession.secret c, WireGuardTunnelSession.peer_public c).

Definition peer_inv p : Prop :=
  keys_ok p ∧ NoDup (Peer.addr <$> Peer.sessions p) ∧
  ∀ a, a ∈ (Peer.addr <$> Peer.sessions p) ↔ a ∈ Peer.candidate_addrs p.

Lemma build_codec_keys i k :
  ∃ c, Peer.build_codec i k = Some c ∧
    derive_tunnel_keys k (PeerInfo.peer_id i) (PeerInfo.network_id i)
    = Some (WireGuardTunnelSession.secret c, WireGuardTunnelSession.peer_public c).
Proof.
  unfold Peer.build_codec.
  destruct (derive_interoperate k (PeerInfo.peer_id i) (PeerInfo.network_id i))
    as (sa & sb & -> & _). cbn [mbind option_bind]. by eexists.
Qed.

Lemma try_create_inv p force :
  keys_ok p → NoDup (Peer.addr <$> Peer.sessions p) →
  peer_inv (Peer.try_create_tunnel p force).
Proof.
  intros Hk Hn. destruct (try_create_tunnel_spec p force Hn) as [Hn' Hf].
  split_and!; [exact Hk|exact Hn'|]. intros a.
  change (Peer.candidate_addrs (Peer.try_create_tunnel p force)) with (Peer.candidate_addrs p).
  pose proof (find_session_None (Peer.sessions (Peer.try_create_tunnel p force)) a) as Hnone.
  rewrite Hf in Hnone. destruct (decide (a ∈ Peer.candidate_addrs p)).
  - split; [done|]. intros _. destruct (decide (a ∈ (Peer.addr <$> Peer.sessions
      (Peer.try_create_tunnel p force)))); [done|]. by apply Hnone in n.
  - split; [|done]. intros Hin. by apply (proj1 Hnone eq_refl) in Hin.
Qed.

Lemma new_inv i k : peer_inv (Peer.new (S := S) i k).
Proof. apply try_create_inv; [apply build_codec_keys|constructor]. Qed.

Lemma codec_step_keys c c' : codec_step c c' →
  WireGuardTunnelSession.secret c' = WireGuardTunnelSession.secret c ∧
  WireGuardTunnelSession.peer_public c' = WireGuardTunnelSession.peer_public c.
Proof. by destruct 1. Qed.

Lemma update_info_keys p i k : keys_ok p → keys_ok (Peer.update_info p i k).
Proof.
  intros (c & Hc & Hd). unfold keys_ok, Peer.update_info.
  cbn [Peer.codec Peer.set_sessions Peer.try_create_tunnel Peer.local_peer_id Peer.info].
  destruct (_ || _) eqn:Hch; [apply build_codec_keys|].
  apply orb_false_iff in Hch as [[Hn Hp]%orb_false_iff Hl]. bool_to_prop.
  exists c. split; [done|]. by rewrite <-Hn, <-Hp, <-Hl.
Qed.

Lemma peer_step_inv p p' : peer_inv p → peer_step p p' → peer_inv p'.
Proof.
  intros (Hk & Hn & Hc) Hs. destruct Hs as [p i k|p force|p|p ss Ha|p c c' Hco Hst].
  - unfold Peer.update_info. apply try_create_inv; [|exact Hn].
    exact (update_info_keys p i k Hk).
  - by apply try_create_inv.
  - done.
  - unfold peer_inv. cbn [Peer.sessions Peer.set_sessions]. rewrite Ha. done.
  - split_and!; [|done|done]. destruct Hk as (c0 & Hc0 & Hd). exists c'. split; [done|].
    destruct (codec_step_keys _ _ Hst) as [-> ->].
    rewrite Hc0 in Hco. injection Hco as <-. exact Hd.
Qed.

Lemma peer_reachable_inv i k p : rtc peer_step (Peer.new i k) p → peer_inv p.
Proof.
  intros Hr. eapply (rtc_invariant peer_step peer_inv); [exact peer_step_inv|exact Hr|apply new_inv].
Qed.

Lemma peer_update_info_eq p i k : Peer.info (Peer.update_info p i k) = i.
Proof. reflexivity. Qed.

(** The router's peer. *)
#[export] Instance peer_like : PeerLike (Peer.Peer S) := {|
  peer_info := Peer.info;
  peer_update_info := Peer.update_info;
  peer_info_update := peer_update_info_eq |}.
End reachable.

(** The daemon's sessions; [nonce] is the random nonce drawn for an address. *)
#[export] Instance udp_open (nonce : SocketAddr → Z) : SessionOpen UdpTunnelSession := {|
  session_connect a id := UdpSession.connect (nonce a) id;
  session_inbound s payload src := (UdpSession.dispatch_one s payload, true);
  session_connect_state _ _ := eq_refl |}.

(** ** Properties *)

(** The session set is reconciled path by path: after [try_create_tunnel] there is
    exactly one session per candidate address and none for any other; a live
    session of a candidate is kept as it is unless the call forces, and every other
    candidate gets a fresh one. *)
Theorem sessions_reconciled {CA : CidrApi} {KA : KeyApi} {TA : TunnApi} {S} {TS : TunnelSession S}
    {SO : SessionOpen S} (p : Peer.Peer S) force :
  NoDup (Peer.addr <$> Peer.sessions p) →
  let p' := Peer.try_create_tunnel p force in
  NoDup (Peer.addr <$> Peer.sessions p') ∧
  (∀ a, a ∈ (Peer.addr <$> Peer.sessions p') ↔
     a ∈ PeerInfo.local_addrs (Peer.info p) ∨
     (PeerInfo.nat_type (Peer.info p) ≠ Symmetric ∧ PeerInfo.nat_addr (Peer.info p) = Some a)) ∧
  (∀ s, s ∈ Peer.sessions p → Peer.addr s ∈ Peer.candidate_addrs p → force = false →
     session_state (Peer.session s) ≠ Timeout → s ∈ Peer.sessions p') ∧
  (∀ s, s ∈ Peer.sessions p' → session_state (Peer.session s) ≠ Timeout ∧
     (force = true →
      Peer.session s = session_connect (Peer.addr s) (Peer.local_peer_id p))).
Proof.
  intros Hn p'. destruct (try_create_tunnel_spec p force Hn) as [Hn' Hf]. split_and!.
  - exact Hn'.
  - intros a. rewrite <-elem_of_candidates. fold p' in Hf.
    pose proof (find_session_None (Peer.sessions p') a) as Hnone. rewrite Hf in Hnone.
    destruct (decide (a ∈ Peer.candidate_addrs p)) as [Hc|Hc];
      destruct (decide (a ∈ (Peer.addr <$> Peer.sessions p'))); naive_solver.
  - intros s Hs Hc -> Hst. specialize (Hf (Peer.addr s)). rewrite decide_True in Hf by done.
    rewrite (find_session_NoDup (Peer.sessions p)) in Hf by done. unfold wanted, keep in Hf.
    rewrite bool_decide_eq_false_2 in Hf by done. by apply find_session_Some in Hf as [].
  - intros s Hs. pose proof (find_session_NoDup _ _ Hn' Hs) as Hfs. rewrite Hf in Hfs.
    destruct (decide _); [|done]. injection Hfs as Hw. unfold wanted, keep in Hw.
    destruct (Peer.find_session (Peer.sessions p) (Peer.addr s)) as [s0|].
    + destruct force; cbn [negb andb] in Hw.
      * rewrite <-Hw. cbn. by rewrite session_connect_state.
      * case_bool_decide as Ht; cbn [negb] in Hw; rewrite <-Hw; cbn; [|done].
        by rewrite session_connect_state.
    + rewrite <-Hw. cbn. by rewrite session_connect_state.
Qed.

(** A key API and a codec to compute with. *)
#[export] Instance toy_keys : KeyApi := {|
  Hasher := list byte; hasher_new := []; hasher_write h bs := h ++ bs;
  hasher_finish h := be_val h; StaticSecret := list byte; PublicKey := list byte;
  secret_from bs := bs; public_from s := s |}.
#[export] Instance toy_tunn : TunnApi := {|
  Tunn := nat; tunn_new _ _ _ := 0%nat;
  tunn_decapsulate t src bs := (S t, WriteToTunnelV4 bs (be_val (take 4 bs)));
  tunn_encapsulate t bs := (S t, WriteToNetwork bs);
  tunn_update_timers t := (t, Done);
  tunn_since_handshake _ := None; tunn_is_expired _ := false |}.

Definition lan_a : SocketAddr := SockV4 (ipv4 192 168 1 7) 4000.
Definition wan_a : SocketAddr := SockV4 (ipv4 203 0 113 5) 2026.
Definition ex_info : PeerInfo :=
  PeerInfo.MkPeerInfo 1 11 (IpV4 (ipv4 110 20 0 1)) (replicate 16 Byte.x07) Other
    (Some wan_a) [lan_a; wan_a] [] false.
#[export] Instance ex_open : SessionOpen UdpTunnelSession := udp_open (λ _, 77).
Definition ex_peer : Peer.Peer UdpTunnelSession := Peer.new ex_info 12.

Lemma sessions_reconciled_witness :
  NoDup (Peer.addr <$> Peer.sessions (Peer.try_create_tunnel ex_peer true)).
Proof.
  apply (sessions_reconciled ex_peer true). apply (bool_decide_unpack _). vm_compute. exact I.
Defined.

(** The selector's pick is sound and stable: it is empty exactly when no path is
    connected, [address] then hands out precisely that connected path, and running
    the selector again changes nothing. *)
Theorem selection_sound {CA : CidrApi} {KA : KeyApi} {TA : TunnApi} {S} {TS : TunnelSession S}
    (p : Peer.Peer S) :
  NoDup (Peer.addr <$> Peer.sessions p) →
  let p' := Peer.select_session p in
  (Peer.address p' = None ↔
     ∀ s, s ∈ Peer.sessions p → session_state (Peer.session s) ≠ Connected) ∧
  (∀ a, Peer.address p' = Some a →
     ∃ s, s ∈ Peer.sessions p ∧ Peer.addr s = a ∧ session_state (Peer.session s) = Connected) ∧
  Peer.select_session p' = p'.
Proof.
  intros Hn p'. pose proof (pick_Some (Peer.selected p) (Peer.connected p)) as Hp.
  unfold p'. unfold Peer.address. cbn [Peer.selected Peer.select_session Peer.sessions].
  split_and!.
  - destruct (Peer.pick _ _) as [a|]; cbn [mbind option_bind].
    + destruct Hp as (r & Hr). apply elem_of_connected in Hr as (s & Hs & Hu & <- & _).
      rewrite find_session_NoDup by done. cbn. rewrite decide_True by exact Hu.
      split; [done|]. intros Hall. by apply Hall in Hs.
    + split; [|done]. intros _ s Hs Hu.
      assert ((Peer.addr s, rtt_of s) ∈ Peer.connected p) as Hin
        by (apply elem_of_connected; by exists s).
      rewrite Hp in Hin. set_solver.
  - intros a. destruct (Peer.pick _ _) as [b|]; cbn [mbind option_bind]; [|done].
    destruct Hp as (r & Hr). apply elem_of_connected in Hr as (s & Hs & Hu & <- & _).
    rewrite find_session_NoDup by done. cbn. rewrite decide_True by exact Hu.
    intros [= <-]. by exists s.
  - unfold Peer.select_session. cbn. f_equal. apply pick_idemp.
Qed.

Lemma selection_sound_witness : Peer.select_session (Peer.select_session ex_peer) = Peer.select_session ex_peer.
Proof.
  apply (selection_sound ex_peer). apply (bool_decide_unpack _). vm_compute. exact I.
Defined.

(** C34. Debounce: a connected incumbent is displaced if and only if some other
    connected path is measured and either more than a fifth faster in whole
    milliseconds (strictly below 80 percent of the incumbent's), or the incumbent
    is unmeasured; jitter between near-equal paths never moves the route. *)
Theorem selection_debounce {CA : CidrApi} {KA : KeyApi} {TA : TunnApi} {S} {TS : TunnelSession S}
    (p : Peer.Peer S) s :
  NoDup (Peer.addr <$> Peer.sessions p) →
  s ∈ Peer.sessions p → session_state (Peer.session s) = Connected →
  Peer.selected p = Some (Peer.addr s) →
  (∀ t q, t ∈ Peer.sessions p → session_rtt (Peer.session t) = Some q →
     0 ≤ q < Peer.DURATION_MAX) →
  Peer.selected (Peer.select_session p) ≠ Some (Peer.addr s) ↔
  ∃ t q, t ∈ Peer.sessions p ∧ session_state (Peer.session t) = Connected ∧
    Peer.addr t ≠ Peer.addr s ∧ session_rtt (Peer.session t) = Some q ∧
    match session_rtt (Peer.session s) with
    | Some r => Peer.as_millis q * 100 < Peer.as_millis r * 80
    | None => True
    end.
Proof.
  intros Hn Hs Hu Hsel Hr. unfold Peer.select_session. cbn [Peer.selected]. rewrite Hsel.
  rewrite (pick_incumbent (Peer.connected p) (Peer.addr s) (rtt_of s)).
  - unfold clearly_faster, Peer.improved, rtt_of. split.
    + intros (b & q & (t & Ht & Hut & <- & <-)%elem_of_connected & Hne & Hf). unfold rtt_of in Hf.
      destruct (session_rtt (Peer.session t)) as [q|] eqn:Hq; [|by destruct (session_rtt (Peer.session s))].
      exists t, q. split_and!; [done..|]. destruct (session_rtt (Peer.session s)); [|done].
      by apply Z.ltb_lt in Hf.
    + intros (t & q & Ht & Hut & Hne & Hq & Hf). exists (Peer.addr t), (Some q). split_and!; [|done|].
      * apply elem_of_connected. by exists t.
      * destruct (session_rtt (Peer.session s)); [|done]. by apply Z.ltb_lt.
  - by apply connected_NoDup.
  - apply elem_of_connected. by exists s.
  - intros [a x] q (t & Ht & _ & _ & <-)%elem_of_connected Hq. by eapply Hr.
Qed.

(** Two connected paths: 100 ms and 80 ms. *)
Definition ex_path (a : SocketAddr) (ms : Z) : Peer.PeerSession UdpTunnelSession :=
  Peer.MkPeerSession a (UdpSession.set_rtt (UdpSession.set_state (UdpSession.connect 1 12) Connected) ms).
Definition ex_two_paths (ms : Z) : Peer.Peer UdpTunnelSession :=
  Peer.MkPeer ex_info 12 [ex_path lan_a 100; ex_path wan_a ms] (Some lan_a) None.

Lemma selection_debounce_witness :
  Peer.selected (Peer.select_session (ex_two_paths 79)) ≠ Some lan_a.
Proof.
  apply (selection_debounce (ex_two_paths 79) (ex_path lan_a 100)).
  - apply (bool_decide_unpack _). vm_compute. exact I.
  - left.
  - reflexivity.
  - reflexivity.
  - intros t q [->|[->|Hin]%elem_of_cons]%elem_of_cons Hq; [| |by apply elem_of_nil in Hin];
      injection Hq as <-; split; [discriminate|reflexivity|discriminate|reflexivity].
  - exists (ex_path wan_a 79), (79 * UdpSession.MS). split_and!;
      [right; left|reflexivity|discriminate|reflexivity|reflexivity].
Defined.

(** C25. The data-plane keys never go stale: whatever sequence of SyncRoutes, ticks and
    packets a peer object goes through, its codec is keyed for its current identity,
    and two peer objects that describe each other hold keys that complete a
    handshake: each one's expected public key is that of the other's secret. *)
Theorem peer_codec_keys {CA : CidrApi} {U : UuidApi} {KA : KeyApi} {TA : TunnApi} {S}
    {TS : TunnelSession S} {SO : SessionOpen S} ip kp iq kq (p q : Peer.Peer S) :
  rtc peer_step (Peer.new ip kp) p → rtc peer_step (Peer.new iq kq) q →
  Peer.local_peer_id p = PeerInfo.peer_id (Peer.info q) →
  Peer.local_peer_id q = PeerInfo.peer_id (Peer.info p) →
  PeerInfo.network_id (Peer.info p) = PeerInfo.network_id (Peer.info q) →
  ∃ c d, Peer.codec p = Some c ∧ Peer.codec q = Some d ∧
    WireGuardTunnelSession.peer_public c = public_from (WireGuardTunnelSession.secret d) ∧
    WireGuardTunnelSession.peer_public d = public_from (WireGuardTunnelSession.secret c).
Proof.
  intros Hp Hq H1 H2 Hnet.
  destruct (peer_reachable_inv _ _ _ Hp) as ((c & Hc & Hdc) & _).
  destruct (peer_reachable_inv _ _ _ Hq) as ((d & Hd & Hdd) & _).
  exists c, d. split_and!; [done|done|..];
    rewrite <-Hnet, H2, <-H1 in Hdd;
    destruct (derive_interoperate (Peer.local_peer_id p) (PeerInfo.peer_id (Peer.info p))
      (PeerInfo.network_id (Peer.info p))) as (sa & sb & Ha & Hb);
    rewrite Ha in Hdc; rewrite Hb in Hdd; injection Hdc; injection Hdd; congruence.
Qed.

Definition ex_info_b : PeerInfo :=
  PeerInfo.MkPeerInfo 1 12 (IpV4 (ipv4 110 20 0 2)) (replicate 16 Byte.x07) Other None [] [] false.

Lemma peer_codec_keys_witness :
  ∃ c d, Peer.codec ex_peer = Some c ∧ Peer.codec (Peer.new (S := UdpTunnelSession) ex_info_b 11) = Some d ∧
    WireGuardTunnelSession.peer_public c = public_from (WireGuardTunnelSession.secret d) ∧
    WireGuardTunnelSession.peer_public d = public_from (WireGuardTunnelSession.secret c).
Proof.
  apply (peer_codec_keys ex_info 12 ex_info_b 11); [apply rtc_refl|apply rtc_refl|reflexivity..].
Defined.
