(* ===== verification/RelayPeers.v ===== *)
(** [noeio-derp/src/connection/peer.rs]: the relay's table of live peers. The two
    caches are the third-party [moka::sync::Cache] with a time-to-live: a class of
    operations, with the documented laws as [CacheLaws]. *)

From Stdlib Require Import ZArith Lia.
From Stdlib Require Import Strings.Byte Strings.String.
From stdpp Require Import base list strings gmap fin_maps.
From S2P Require Import Prelude Text NetTypes CidrModel HostInfo.

Local Open Scope Z_scope.

(** [moka::notification::RemovalCause] *)
Inductive RemovalCause : Type := Expired | Explicit | Replaced | Size.

#[export] Instance RemovalCause_eq_dec : EqDecision RemovalCause.
Proof. solve_decision. Defined.

(** A cache with a time-to-live: every operation happens at a time, and reports the
    evictions it performs to the listener. *)
Class CacheApi (C K V : Type) : Type := {
  cache_get : C → Z → K → option V;
  cache_iter : C → Z → list (K * V);
  cache_insert : C → Z → K → V → C * list (K * V * RemovalCause);
  cache_invalidate : C → Z → K → C * list (K * V * RemovalCause);
  cache_sweep : C → Z → C * list (K * V * RemovalCause);
}.

(** An unbounded cache whose entries live for [ttl] after their last insertion.
    Expired entries are invisible at once and removed later: by a sweep, or by the
    maintenance any write may run. The listener hears of every removal. *)
Section laws.
Context {C K V : Type} `{Countable K}.

(** [k] is stored, but its time is over. *)
Definition expired (ttl now : Z) (m : gmap K (V * Z)) (k : K) (v : V) : Prop :=
  ∃ t, m !! k = Some (v, t) ∧ t + ttl ≤ now.

(** Keys other than the written one stay, unless maintenance drops them. *)
Definition kept (ttl now : Z) (m m' : gmap K (V * Z)) (k : K) : Prop :=
  m' !! k = m !! k ∨ (∃ v, expired ttl now m k v) ∧ m' !! k = None.

(** The notices of a write to [k] that, on a live entry, has cause [cause]. *)
Definition write_notice (ttl now : Z) (m m' : gmap K (V * Z)) (k : K) (cause : RemovalCause)
    (n : K * V * RemovalCause) : Prop :=
  (∃ t, n.1.1 = k ∧ m !! k = Some (n.1.2, t) ∧
     n.2 = if now <? t + ttl then cause else Expired) ∨
  (n.1.1 ≠ k ∧ expired ttl now m n.1.1 n.1.2 ∧ m' !! n.1.1 = None ∧ n.2 = Expired).
End laws.

Class CacheLaws (C K V : Type) `{Countable K} {CA : CacheApi C K V} (ttl : Z) : Type := {
  entries : C → gmap K (V * Z);
  law_get : ∀ c now k, cache_get c now k =
    match entries c !! k with
    | Some (v, t) => if now <? t + ttl then Some v else None
    | None => None
    end;
  law_iter : ∀ c now k v, (k, v) ∈ cache_iter c now ↔ cache_get c now k = Some v;
  law_iter_nodup : ∀ c now, NoDup (map fst (cache_iter c now));
  law_insert : ∀ c now k v, entries (cache_insert c now k v).1 !! k = Some (v, now);
  law_insert_kept : ∀ c now k v k', k' ≠ k →
    kept ttl now (entries c) (entries (cache_insert c now k v).1) k';
  law_insert_notice : ∀ c now k v n, n ∈ (cache_insert c now k v).2 ↔
    write_notice ttl now (entries c) (entries (cache_insert c now k v).1) k Replaced n;
  law_invalidate : ∀ c now k, entries (cache_invalidate c now k).1 !! k = None;
  law_invalidate_kept : ∀ c now k k', k' ≠ k →
    kept ttl now (entries c) (entries (cache_invalidate c now k).1) k';
  law_invalidate_notice : ∀ c now k n, n ∈ (cache_invalidate c now k).2 ↔
    write_notice ttl now (entries c) (entries (cache_invalidate c now k).1) k Explicit n;
  law_sweep : ∀ c now k,
    entries (cache_sweep c now).1 !! k =
      match entries c !! k with
      | Some (v, t) => if now <? t + ttl then Some (v, t) else None
      | None => None
      end;
  law_sweep_notice : ∀ c now n, n ∈ (cache_sweep c now).2 ↔
    n.2 = Expired ∧ expired ttl now (entries c) n.1.1 n.1.2;
}.

Section table.
Context {CA : CidrApi}.

Record Gone : Type := MkGone {
  gone_peer_id : PeerId;
  gone_info : HostInfo;
  gone_network : NetworkId;
}.

(** What the table keeps for a peer. *)
Definition entry : Type := SocketAddr * HostInfo * NetworkId.
End table.

Module PeerManager.
(** [Duration::from_mins(1)], in nanoseconds. *)
Definition HEARTBEAT_TTL : Z := 60 * 1000000000.

Section manager.
Context {CA : CidrApi} {P B : Type}.
Context {PC : CacheApi P PeerId entry} {BC : CacheApi B (SocketAddr * NetworkId) PeerId}.

(** [trigger] is the stored permit of the [Notify]; [gone] the channel of
    tombstones. *)
Record PeerManager : Type := MkPeerManager {
  peers : P;
  by_addr : B;
  trigger : bool;
  gone : list Gone;
}.

(** The eviction listener. *)
Definition tombstone (n : PeerId * entry * RemovalCause) : list Gone :=
  let '(peer_id, (_, info, network), cause) := n in
  if bool_decide (cause = Expired ∨ cause = Explicit)
  then [MkGone peer_id info network] else [].

Definition listen (m : PeerManager) (r : P * list (PeerId * entry * RemovalCause)) : PeerManager :=
  MkPeerManager r.1 (by_addr m) (trigger m) (gone m ++ flat_map tombstone r.2).
Definition set_by_addr (m : PeerManager) (b : B) : PeerManager :=
  MkPeerManager (peers m) b (trigger m) (gone m).
Definition notify_one (m : PeerManager) : PeerManager :=
  MkPeerManager (peers m) (by_addr m) true (gone m).

Definition sweep (m : PeerManager) (now : Z) : PeerManager :=
  let m := listen m (cache_sweep (peers m) now) in
  set_by_addr m (cache_sweep (by_addr m) now).1.

Definition get (m : PeerManager) (now : Z) (id : PeerId) : option entry :=
  cache_get (peers m) now id.

Definition insert_both (m : PeerManager) (now : Z) (id : PeerId) (e : entry) : PeerManager :=
  let '(addr, _, network) := e in
  let m := listen m (cache_insert (peers m) now id e) in
  set_by_addr m (cache_insert (by_addr m) now (addr, network) id).1.

Definition stale (m : PeerManager) (now : Z) (id : PeerId) (info : HostInfo) : option entry :=
  e ← get m now id;
  if HostInfo.resource_version info <=? HostInfo.resource_version e.1.2 then Some e else None.

Definition heartbeat (m : PeerManager) (now : Z) (id : PeerId) (info : HostInfo)
    (addr : SocketAddr) (network : NetworkId) : PeerManager :=
  match stale m now id info with
  | Some prev => insert_both m now id prev
  | None =>
      let changed :=
        match get m now id with
        | None => true
        | Some (prev_addr, prev_info, prev_network) =>
            negb (bool_decide (prev_addr = addr)) || negb (bool_decide (prev_info = info))
            || negb (bool_decide (prev_network = network))
        end in
      let m := insert_both m now id (addr, info, network) in
      if changed then notify_one m else m
  end.

Definition is_alive (m : PeerManager) (now : Z) (id : PeerId) : bool :=
  match get m now id with Some _ => true | None => false end.

Definition remove (m : PeerManager) (now : Z) (id : PeerId) : PeerManager :=
  let m := match get m now id with
           | Some (addr, _, network) =>
               set_by_addr m (cache_invalidate (by_addr m) now (addr, network)).1
           | None => m
           end in
  listen m (cache_invalidate (peers m) now id).

Definition alive_peers (m : PeerManager) (now : Z) : list (PeerId * entry) :=
  cache_iter (peers m) now.

Definition peer_id_by_addr (m : PeerManager) (now : Z) (addr : SocketAddr) (network : NetworkId) :
    option PeerId :=
  peer_id ← cache_get (by_addr m) now (addr, network);
  '(current_addr, _, current_network) ← get m now peer_id;
  if decide (current_addr = addr ∧ current_network = network) then Some peer_id else None.
End manager.
Arguments PeerManager {CA} P B.
End PeerManager.
Notation PeerManager := PeerManager.PeerManager.

(** ** The caches, seen through [cache_get] *)

Section cache.
Context {C K V : Type} `{Countable K} {CA : CacheApi C K V} {ttl : Z} {CL : CacheLaws C K V ttl}.
Implicit Types (c : C) (k : K) (v : V).

Lemma get_Some c now k v :
  cache_get c now k = Some v ↔ ∃ t, entries c !! k = Some (v, t) ∧ now < t + ttl.
Proof.
  rewrite law_get. destruct (entries c !! k) as [[w t]|]; [|split; [done|by intros (?&?&_)]].
  destruct (Z.ltb_spec now (t + ttl)) as [Hl|Hl].
  - split; [intros [= ->]; eauto|]. by intros (?&[= -> ->]&_).
  - split; [done|]. intros (?&[= -> ->]&?). lia.
Qed.

(** Maintenance is invisible from then on. *)
Lemma kept_get c c' now now' k :
  now ≤ now' → kept ttl now (entries c) (entries c') k → cache_get c' now' k = cache_get c now' k.
Proof.
  intros Hn [Heq|[(v & t & Hv & Ht) Hnone]]; rewrite !law_get.
  - by rewrite Heq.
  - rewrite Hnone, Hv. destruct (Z.ltb_spec now' (t + ttl)); [lia|done].
Qed.

Lemma get_insert c now now' k v : now ≤ now' →
  cache_get (cache_insert c now k v).1 now' k = if now' <? now + ttl then Some v else None.
Proof. intros _. by rewrite law_get, law_insert. Qed.

Lemma get_insert_ne c now now' k v k' : now ≤ now' → k' ≠ k →
  cache_get (cache_insert c now k v).1 now' k' = cache_get c now' k'.
Proof. intros Hn Hk. apply (kept_get _ _ now); [done|]. by apply law_insert_kept. Qed.

Lemma get_sweep c now now' k : now ≤ now' →
  cache_get (cache_sweep c now).1 now' k = cache_get c now' k.
Proof.
  intros Hn. rewrite !law_get, law_sweep. destruct (entries c !! k) as [[v t]|]; [|done].
  destruct (Z.ltb_spec now (t + ttl)); [done|].
  destruct (Z.ltb_spec now' (t + ttl)); [lia|done].
Qed.
End cache.

(** A concrete cache that never runs maintenance on writes. *)
Module TtlCache.
Section cache.
Context {K V : Type} `{Countable K} (ttl : Z).

Definition vis (now : Z) (e : V * Z) : option V := if now <? e.2 + ttl then Some e.1 else None.
Definition cause_of (now : Z) (cause : RemovalCause) (e : V * Z) : RemovalCause :=
  if now <? e.2 + ttl then cause else Expired.
Definition notice (m : gmap K (V * Z)) (now : Z) (cause : RemovalCause) (k : K) :
    list (K * V * RemovalCause) :=
  match m !! k with Some e => [(k, e.1, cause_of now cause e)] | None => [] end.

#[local] Instance api : CacheApi (gmap K (V * Z)) K V := {|
  cache_get m now k := m !! k ≫= vis now;
  cache_iter m now := map_to_list (omap (vis now) m);
  cache_insert m now k v := (<[k := (v, now)]> m, notice m now Replaced k);
  cache_invalidate m now k := (delete k m, notice m now Explicit k);
  cache_sweep m now :=
    (filter (λ ke, now < ke.2.2 + ttl) m,
     map (λ ke, (ke.1, ke.2.1, Expired)) (map_to_list (filter (λ ke, ¬ now < ke.2.2 + ttl) m)));
|}.

Lemma notice_spec m m' now cause k n :
  (∀ k', k' ≠ k → m' !! k' = m !! k') →
  n ∈ notice m now cause k ↔ write_notice ttl now m m' k cause n.
Proof.
  intros Hm'. unfold notice, write_notice, cause_of. destruct n as [[k' v] c']. cbn [fst snd].
  split.
  - destruct (m !! k) as [[w t]|] eqn:Hk; cbn [fst snd]; [|by intros ?%not_elem_of_nil].
    intros [= -> -> ->]%list_elem_of_singleton. left. by exists t.
  - intros [(t & -> & -> & ->)|(Hne & (t & Ht & _) & Hnone & _)]; [by apply list_elem_of_singleton|].
    rewrite Hm' in Hnone by done. congruence.
Qed.

#[local] Instance laws : CacheLaws (gmap K (V * Z)) K V ttl.
Proof.
  refine {| entries := λ m, m |}.
  - intros m now k. cbn. unfold vis. by destruct (m !! k) as [[v t]|].
  - intros m now k v. cbn. by rewrite elem_of_map_to_list, lookup_omap.
  - intros m now. apply NoDup_fst_map_to_list.
  - intros m now k v. apply lookup_insert_eq.
  - intros m now k v k' Hk. left. by apply lookup_insert_ne.
  - intros m now k v n. apply notice_spec. intros k' Hk. by apply lookup_insert_ne.
  - intros m now k. apply lookup_delete_eq.
  - intros m now k k' Hk. left. by apply lookup_delete_ne.
  - intros m now k n. apply notice_spec. intros k' Hk. by apply lookup_delete_ne.
  - intros m now k. cbn. rewrite map_lookup_filter. destruct (m !! k) as [[v t]|]; [|done].
    cbn. destruct (Z.ltb_spec now (t + ttl)); [by rewrite option_guard_True|].
    rewrite option_guard_False; [done|]. cbn. lia.
  - intros m now [[k v] c]. cbn. rewrite list_elem_of_fmap. unfold expired. split.
    + intros ([k' [v' t]] & [= -> -> ->] & Hin%elem_of_map_to_list).
      apply map_lookup_filter_Some in Hin as [Hm Ht]. cbn in Ht. split; [done|].
      exists t. split; [done|lia].
    + intros (-> & t & Hm & Ht). exists (k, (v, t)). split; [done|].
      apply elem_of_map_to_list, map_lookup_filter_Some. cbn. split; [done|lia].
Defined.
End cache.
End TtlCache.

(** ** The table *)

Section facts.
Context {CA : CidrApi} {P B : Type} {PC : CacheApi P PeerId entry}
  {BC : CacheApi B (SocketAddr * NetworkId) PeerId} {ttl : Z}
  {PL : CacheLaws P PeerId entry ttl} {BL : CacheLaws B (SocketAddr * NetworkId) PeerId ttl}.
Import PeerManager.
Implicit Types (m : PeerManager P B) (id : PeerId) (e : entry) (now : Z).

Definition e_addr e : SocketAddr := e.1.1.
Definition e_info e : HostInfo := e.1.2.
Definition e_network e : NetworkId := e.2.

Lemma get_insert_both m now now' id e id' : now ≤ now' →
  get (insert_both m now id e) now' id' =
    if decide (id' = id) then (if now' <? now + ttl then Some e else None) else get m now' id'.
Proof.
  intros Hn. destruct e as [[a i] n]. unfold get, insert_both. cbn [listen set_by_addr peers].
  case_decide as Hid; [subst; by apply get_insert|by apply get_insert_ne].
Qed.

Lemma index_insert_both m now now' id e key : now ≤ now' →
  cache_get (by_addr (insert_both m now id e)) now' key =
    if decide (key = (e_addr e, e_network e))
    then (if now' <? now + ttl then Some id else None)
    else cache_get (by_addr m) now' key.
Proof.
  intros Hn. destruct e as [[a i] n]. unfold insert_both.
  cbn [listen set_by_addr by_addr e_addr e_network fst snd].
  case_decide as Hk; [subst; by apply get_insert|by apply get_insert_ne].
Qed.

Lemma stale_Some m now id info e :
  stale m now id info = Some e ↔
  get m now id = Some e ∧ HostInfo.resource_version info ≤ HostInfo.resource_version (e_info e).
Proof.
  unfold stale, e_info. destruct (get m now id) as [e'|]; [|split; [done|by intros []]]. simpl.
  destruct (Z.leb_spec (HostInfo.resource_version info) (HostInfo.resource_version e'.1.2)).
  - split; [by intros [= <-]|]. by intros [[= ->] _].
  - split; [done|]. intros [[= ->] ?]. lia.
Qed.

(** A report that is not stale is always a change: the comparison the code makes
    before it wakes the broadcaster never says otherwise. *)
Lemma heartbeat_accept m now id info addr network :
  stale m now id info = None →
  heartbeat m now id info addr network = notify_one (insert_both m now id (addr, info, network)).
Proof.
  unfold heartbeat. intros Hst. rewrite Hst. unfold stale in Hst.
  destruct (get m now id) as [[[a i] n]|]; [|done]. simpl in Hst.
  destruct (Z.leb_spec (HostInfo.resource_version info) (HostInfo.resource_version i)); [done|].
  rewrite (bool_decide_eq_false_2 (i = info)) by (intros ->; lia).
  by rewrite orb_true_r.
Qed.

Lemma heartbeat_stale m now id info addr network e :
  stale m now id info = Some e →
  heartbeat m now id info addr network = insert_both m now id e.
Proof. unfold heartbeat. by intros ->. Qed.

(** The entry a heartbeat leaves for its peer. *)
Definition beat_entry m now id info addr network : entry :=
  default (addr, info, network) (stale m now id info).

Lemma heartbeat_get m now now' id info addr network id' : now ≤ now' →
  get (heartbeat m now id info addr network) now' id' =
    if decide (id' = id)
    then (if now' <? now + ttl then Some (beat_entry m now id info addr network) else None)
    else get m now' id'.
Proof.
  intros Hn. unfold beat_entry. destruct (stale m now id info) as [e|] eqn:Hst.
  - rewrite (heartbeat_stale _ _ _ _ _ _ e) by done. by apply get_insert_both.
  - rewrite heartbeat_accept by done. by apply get_insert_both.
Qed.

Lemma heartbeat_accepted_get {m now id info} upto addr network :
  stale m now id info = None → now ≤ upto → upto < now + ttl →
  get (heartbeat m now id info addr network) upto id = Some (addr, info, network).
Proof.
  intros Hst Hn Hu. rewrite heartbeat_get, decide_True by done. unfold beat_entry. rewrite Hst.
  destruct (Z.ltb_spec upto (now + ttl)); [done|lia].
Qed.

Lemma heartbeat_index m now now' id info addr network key : now ≤ now' →
  cache_get (by_addr (heartbeat m now id info addr network)) now' key =
    if decide (key = (e_addr (beat_entry m now id info addr network),
                      e_network (beat_entry m now id info addr network)))
    then (if now' <? now + ttl then Some id else None)
    else cache_get (by_addr m) now' key.
Proof.
  intros Hn. unfold beat_entry. destruct (stale m now id info) as [e|] eqn:Hst.
  - rewrite (heartbeat_stale _ _ _ _ _ _ e) by done. by apply index_insert_both.
  - rewrite heartbeat_accept by done. by apply index_insert_both.
Qed.

Lemma peer_id_by_addr_Some m now addr network id :
  peer_id_by_addr m now addr network = Some id ↔
  cache_get (by_addr m) now (addr, network) = Some id ∧
  ∃ info, get m now id = Some (addr, info, network).
Proof.
  unfold peer_id_by_addr. destruct (cache_get (by_addr m) now (addr, network)) as [id'|];
    [|split; [done|by intros [? _]]]. simpl.
  destruct (get m now id') as [[[a i] n]|] eqn:Hg; simpl.
  - case_decide as Hd.
    + destruct Hd as [-> ->]. split; [intros [= ->]; eauto|by intros [[= ->] _]].
    + split; [done|]. intros [[= ->] (? & Hg')]. rewrite Hg in Hg'. injection Hg' as -> -> ->.
      by destruct Hd.
  - split; [done|]. intros [[= ->] (? & Hg')]. congruence.
Qed.

(** *** The relay's life *)

(** The state of the relay's table with the clock: a report arrives, the table is
    swept, the broadcaster takes the permit and the tombstones are drained. *)
Inductive step : Z * PeerManager P B → Z * PeerManager P B → Prop :=
  | step_heartbeat t now m id info addr network : t ≤ now →
      step (t, m) (now, heartbeat m now id info addr network)
  | step_sweep t now m : t ≤ now → step (t, m) (now, sweep m now)
  | step_sync t m : step (t, m) (t, MkPeerManager (peers m) (by_addr m) false (gone m))
  | step_gone t m l : step (t, m) (t, MkPeerManager (peers m) (by_addr m) (trigger m) l).

(** No stamp is in the future, and every live registration was indexed when it was
    made, by an entry that outlives it. *)
Definition index_inv (s : Z * PeerManager P B) : Prop :=
  (∀ id e t, entries (peers s.2) !! id = Some (e, t) → t ≤ s.1) ∧
  (∀ now id e, s.1 ≤ now → get s.2 now id = Some e →
     is_Some (cache_get (by_addr s.2) now (e_addr e, e_network e))).

Lemma kept_Some {V} `{Countable K} tl now (c c' : gmap K (V * Z)) k x :
  kept tl now c c' k → c' !! k = Some x → c !! k = Some x.
Proof. intros [->|[_ ?]]; congruence. Qed.

Lemma insert_both_stamps m now id e id' e' t :
  entries (peers (insert_both m now id e)) !! id' = Some (e', t) →
  t = now ∨ entries (peers m) !! id' = Some (e', t).
Proof.
  destruct e as [[a i] n]. unfold insert_both. cbn [listen set_by_addr peers].
  destruct (decide (id' = id)) as [->|Hne].
  - rewrite law_insert. intros [= _ <-]. by left.
  - intros Ht. right. revert Ht. apply kept_Some with (tl := ttl) (now := now).
    by apply law_insert_kept.
Qed.

Lemma heartbeat_peers m now id info addr network :
  peers (heartbeat m now id info addr network) =
    peers (insert_both m now id (beat_entry m now id info addr network)).
Proof.
  unfold beat_entry. destruct (stale m now id info) as [e|] eqn:Hst.
  - by rewrite (heartbeat_stale _ _ _ _ _ _ e).
  - by rewrite heartbeat_accept.
Qed.

Lemma index_inv_heartbeat t now m id info addr network :
  t ≤ now → index_inv (t, m) → index_inv (now, heartbeat m now id info addr network).
Proof.
  intros Hn [Hst Hinv]. cbn [fst snd] in Hst, Hinv. split; cbn [fst snd].
  - intros id' e' t' Ht. rewrite heartbeat_peers in Ht.
    apply insert_both_stamps in Ht as [->|Ht]; [done|]. apply Hst in Ht. lia.
  - intros now' id' e' Hn' Hg. rewrite heartbeat_index by done.
    assert (get m now' id' = Some e' ∧ id' ≠ id ∨ id' = id ∧ now' < now + ttl ∧
            e' = beat_entry m now id info addr network) as Hcases.
    { rewrite heartbeat_get in Hg by done. case_decide as Hid; [|by left].
      destruct (Z.ltb_spec now' (now + ttl)); [|done]. injection Hg as <-. by right. }
    case_decide as Hk.
    + destruct (Z.ltb_spec now' (now + ttl)) as [|Hlate]; [by eexists|].
      destruct Hcases as [[Hold _]|(_ & ? & _)]; [|lia].
      apply get_Some in Hold as (t' & Hent & ?). apply Hst in Hent. lia.
    + destruct Hcases as [[Hold _]|(_ & _ & ->)]; [|done]. apply (Hinv now' id'); [lia|done].
Qed.

Lemma index_inv_sweep t now m : t ≤ now → index_inv (t, m) → index_inv (now, sweep m now).
Proof.
  intros Hn [Hst Hinv]. cbn [fst snd] in Hst, Hinv. unfold sweep, index_inv, get.
  cbn [listen set_by_addr peers by_addr fst snd]. split.
  - intros id e t'. rewrite law_sweep. destruct (entries (peers m) !! id) as [[e' t'']|] eqn:He; [|done].
    destruct (now <? t'' + ttl); [|done]. intros [= -> ->]. apply Hst in He. lia.
  - intros now' id e Hn'. rewrite !get_sweep by done. apply Hinv. lia.
Qed.

Lemma index_inv_reach s s' : index_inv s → rtc step s s' → index_inv s'.
Proof.
  intros Hs Hr. apply (rtc_invariant step index_inv) with (x := s); [|done|done].
  intros x y Hx Hxy. destruct Hxy; [by eapply index_inv_heartbeat|
    by eapply index_inv_sweep|done|done].
Qed.

(** The table as it starts. *)
Definition empty_table m : Prop := entries (peers m) = ∅ ∧ entries (by_addr m) = ∅.

Lemma index_inv_empty t m : empty_table m → index_inv (t, m).
Proof.
  intros [Hp _]. split; cbn [fst snd].
  - intros id e t'. by rewrite Hp, lookup_empty.
  - intros now id e _ Hg. unfold get in Hg. apply get_Some in Hg as (t' & He & _).
    by rewrite Hp, lookup_empty in He.
Qed.

(** *** Tombstones *)

Lemma elem_tombstones g l :
  g ∈ flat_map tombstone l ↔
  ∃ addr cause, (gone_peer_id g, (addr, gone_info g, gone_network g), cause) ∈ l ∧
                (cause = Expired ∨ cause = Explicit).
Proof.
  rewrite list_elem_of_In, in_flat_map. setoid_rewrite <- list_elem_of_In. split.
  - intros ([[id [[a i] n]] c] & Hin & Hg). unfold tombstone in Hg.
    case_bool_decide as Hc; [|by apply not_elem_of_nil in Hg].
    apply list_elem_of_singleton in Hg as ->. by exists a, c.
  - intros (a & c & Hin & Hc). eexists. split; [exact Hin|]. cbn.
    rewrite bool_decide_eq_true_2 by done. destruct g. by apply list_elem_of_singleton.
Qed.

Definition dead m now (g : Gone) : Prop :=
  ∃ addr, expired ttl now (entries (peers m)) (gone_peer_id g) (addr, gone_info g, gone_network g).

Lemma heartbeat_gone m now id info addr network :
  ∃ l, gone (heartbeat m now id info addr network) = (gone m ++ l)%list ∧
    (∀ g, g ∈ l → dead m now g) ∧ (∀ g, gone_peer_id g = id → dead m now g → g ∈ l).
Proof.
  assert (∃ e, gone (heartbeat m now id info addr network) =
    (gone m ++ flat_map tombstone (cache_insert (peers m) now id e).2)%list) as [e ->].
  { destruct (stale m now id info) as [e|] eqn:Hst.
    - rewrite (heartbeat_stale _ _ _ _ _ _ e) by done. exists e. by destruct e as [[??]?].
    - rewrite heartbeat_accept by done. by exists (addr, info, network). }
  eexists. split; [done|]. split.
  - intros g (a & c & Hin & Hc)%elem_tombstones. exists a.
    apply law_insert_notice in Hin as [(t & Hid & He & Hcause)|(_ & Hexp & _)]; [|done].
    cbn [fst snd] in *. subst. exists t. split; [done|].
    destruct (Z.ltb_spec now (t + ttl)); [by destruct Hc|done].
  - intros g <- (a & t & He & Ht). apply elem_tombstones. exists a, Expired.
    split; [|by left]. apply law_insert_notice. left. exists t. cbn.
    split; [done|]. split; [done|]. destruct (Z.ltb_spec now (t + ttl)); [lia|done].
Qed.

Lemma sweep_gone m now :
  ∃ l, gone (sweep m now) = (gone m ++ l)%list ∧ ∀ g, g ∈ l ↔ dead m now g.
Proof.
  eexists. split; [done|]. intros g. rewrite elem_tombstones. split.
  - intros (a & c & [_ Hexp]%law_sweep_notice & _). by exists a.
  - intros [a Ha]. exists a, Expired. split; [|by left]. by apply law_sweep_notice.
Qed.
End facts.

(** ** Properties *)

Section properties.
Context {CA : CidrApi} {P B : Type} {PC : CacheApi P PeerId entry}
  {BC : CacheApi B (SocketAddr * NetworkId) PeerId} {ttl : Z}
  {PL : CacheLaws P PeerId entry ttl} {BL : CacheLaws B (SocketAddr * NetworkId) PeerId ttl}.
Import PeerManager.

(** The relay attributes a datagram only to the peer registered there, and
    misses none but those another registration covers: whatever heartbeats and
    sweeps led here, [peer_id_by_addr] answers only an id whose own current entry
    has that address in that network; a live peer is found at its address, unless
    the index there names another id; right after an accepted report the reporter
    is found, and at no other address or network. *)
Theorem sender_index t0 (m0 : PeerManager P B) now m :
  empty_table m0 → rtc step (t0, m0) (now, m) →
  (∀ addr network id, peer_id_by_addr m now addr network = Some id →
     ∃ info, get m now id = Some (addr, info, network)) ∧
  (∀ addr info network id, get m now id = Some (addr, info, network) →
     peer_id_by_addr m now addr network = Some id ∨
     ∃ id', id' ≠ id ∧ cache_get (by_addr m) now (addr, network) = Some id') ∧
  (∀ later upto id info addr network, now ≤ later → later ≤ upto → upto < later + ttl →
     stale m later id info = None →
     ∀ addr' network',
       peer_id_by_addr (heartbeat m later id info addr network) upto addr' network' = Some id ↔
       addr' = addr ∧ network' = network).
Proof.
  intros Hempty Hreach. destruct (index_inv_reach _ _ (index_inv_empty t0 m0 Hempty) Hreach)
    as [_ Hinv]. cbn [fst snd] in Hinv. split_and!.
  - by intros addr network id [_ Hid]%peer_id_by_addr_Some.
  - intros addr info network id Hg. destruct (Hinv now id _ (Z.le_refl _) Hg) as [id' Hid'].
    cbn [e_addr e_network fst snd] in Hid'. destruct (decide (id' = id)) as [->|Hne].
    + left. apply peer_id_by_addr_Some. eauto.
    + right. eauto.
  - intros later upto id info addr network _ Hu Hlt Hst addr' network'.
    rewrite peer_id_by_addr_Some. pose proof (heartbeat_accepted_get upto addr network Hst Hu Hlt) as Hg.
    split.
    + intros [_ (i & Hi)]. rewrite Hg in Hi. by injection Hi as -> _ ->.
    + intros [-> ->]. split; [|eauto]. rewrite heartbeat_index by done.
      unfold beat_entry. rewrite Hst, decide_True by done.
      destruct (Z.ltb_spec upto (later + ttl)); [done|lia].
Qed.

(** Reports are ordered by version: no report ever lowers the version known
    for any live peer; a stale or duplicate one changes no entry and wakes nobody
    but refreshes its peer's time to live; every other report is installed as sent
    and always wakes the broadcaster. *)
Theorem heartbeat_versions (m : PeerManager P B) now id info addr network :
  let m' := heartbeat m now id info addr network in
  (∀ id' e, get m now id' = Some e → 0 < ttl → ∃ e', get m' now id' = Some e' ∧
     HostInfo.resource_version (e_info e) ≤ HostInfo.resource_version (e_info e')) ∧
  (∀ e, get m now id = Some e →
     HostInfo.resource_version info ≤ HostInfo.resource_version (e_info e) →
     trigger m' = trigger m ∧
     ∀ upto, now ≤ upto → upto < now + ttl → get m' upto id = Some e) ∧
  ((∀ e, get m now id = Some e →
      HostInfo.resource_version (e_info e) < HostInfo.resource_version info) →
     trigger m' = true ∧
     ∀ upto, now ≤ upto → upto < now + ttl → get m' upto id = Some (addr, info, network)) ∧
  (∀ id' upto, id' ≠ id → now ≤ upto → get m' upto id' = get m upto id').
Proof.
  cbn zeta. split_and!.
  - intros id' e He Httl. rewrite heartbeat_get by done. case_decide as Hid; [subst id'|by exists e].
    destruct (Z.ltb_spec now (now + ttl)); [|lia]. eexists. split; [done|]. unfold beat_entry.
    destruct (stale m now id info) as [e'|] eqn:Hst.
    + apply stale_Some in Hst as [He' _]. rewrite He in He'. by injection He' as <-.
    + cbn. destruct (Z.le_gt_cases (HostInfo.resource_version info)
        (HostInfo.resource_version (e_info e))) as [Hle|]; [|lia].
      by rewrite (proj2 (stale_Some m now id info e)) in Hst.
  - intros e He Hle. assert (stale m now id info = Some e) as Hst by (by apply stale_Some).
    split; [rewrite (heartbeat_stale _ _ _ _ _ _ e) by done; by destruct e as [[??]?]|].
    intros upto Hn Hu. rewrite heartbeat_get, decide_True by done. unfold beat_entry.
    rewrite Hst. destruct (Z.ltb_spec upto (now + ttl)); [done|lia].
  - intros Hnew. assert (stale m now id info = None) as Hst.
    { destruct (stale m now id info) as [e|] eqn:Hst; [|done].
      apply stale_Some in Hst as [He Hle]. apply Hnew in He. lia. }
    split; [by rewrite heartbeat_accept|].
    intros upto Hn Hu. by apply heartbeat_accepted_get.
  - intros id' upto Hid Hn. by rewrite heartbeat_get, decide_False.
Qed.

(** C35. A tombstone means the time to live ran out: a sweep emits exactly one
    class of tombstones, those of the entries that expired, with the last info
    and network known, hides nothing that is alive and leaves no dead entry
    behind; a report emits tombstones of expired entries only. A peer that
    reports again after its time but before the sweep is tombstoned by its own
    report, although it is alive from that moment on. *)
Theorem tombstones_exact (m : PeerManager P B) now :
  (∃ l, gone (sweep m now) = (gone m ++ l)%list ∧ ∀ g, g ∈ l ↔ dead m now g) ∧
  (∀ id upto, now ≤ upto → get (sweep m now) upto id = get m upto id) ∧
  (∀ g, ¬ dead (sweep m now) now g) ∧
  (∀ id info addr network, ∃ l,
     gone (heartbeat m now id info addr network) = (gone m ++ l)%list ∧
     (∀ g, g ∈ l → dead m now g) ∧
     (0 < ttl → ∀ g, gone_peer_id g = id → dead m now g →
        g ∈ l ∧ is_alive (heartbeat m now id info addr network) now id = true)).
Proof.
  split_and!.
  - apply sweep_gone.
  - intros id upto Hn. apply (get_sweep (peers m) now upto id Hn).
  - intros g (a & t & He & Ht). unfold sweep in He. cbn [listen set_by_addr peers] in He.
    rewrite law_sweep in He. destruct (entries (peers m) !! gone_peer_id g) as [[e t']|]; [|done].
    destruct (Z.ltb_spec now (t' + ttl)); [|done]. injection He as _ ->. lia.
  - intros id info addr network.
    destruct (heartbeat_gone m now id info addr network) as (l & Hl & Hd & Hs).
    exists l. split; [done|]. split; [done|]. intros Httl g Hg Hdead. split; [by apply Hs|].
    unfold is_alive. rewrite heartbeat_get, decide_True by done.
    destruct (Z.ltb_spec now (now + ttl)); [done|lia].
Qed.
End properties.

(** The relay's table over the concrete cache. *)
Module Example.
#[export] Instance peer_cache : CacheApi (gmap Z (entry * Z)) Z entry :=
  TtlCache.api PeerManager.HEARTBEAT_TTL.
#[export] Instance peer_laws : CacheLaws (gmap Z (entry * Z)) Z entry PeerManager.HEARTBEAT_TTL :=
  TtlCache.laws PeerManager.HEARTBEAT_TTL.
#[export] Instance addr_cache :
    CacheApi (gmap (SocketAddr * list byte) (Z * Z)) (SocketAddr * list byte) Z :=
  TtlCache.api PeerManager.HEARTBEAT_TTL.
#[export] Instance addr_laws :
    CacheLaws (gmap (SocketAddr * list byte) (Z * Z)) (SocketAddr * list byte) Z
      PeerManager.HEARTBEAT_TTL :=
  TtlCache.laws PeerManager.HEARTBEAT_TTL.

Definition start : PeerManager (gmap Z (entry * Z)) (gmap (SocketAddr * list byte) (Z * Z)) :=
  PeerManager.MkPeerManager ∅ ∅ false [].
Definition addr_a : SocketAddr := SockV4 (ipv4 203 0 113 5) 41641.
Definition addr_b : SocketAddr := SockV4 (ipv4 198 51 100 7) 5000.
Definition net_1 : NetworkId := replicate 16 x01.
Definition info_at (v : Z) : HostInfo := HostInfo.MkHostInfo v addr_a Other "host-a" [] [].
(** Peer 42 registers, then roams to another address. *)
Definition registered := PeerManager.heartbeat start 0 42 (info_at 1) addr_a net_1.
Definition roamed := PeerManager.heartbeat registered 5 42 (info_at 2) addr_b net_1.
End Example.
Import Example.

Lemma sender_index_witness :
  PeerManager.peer_id_by_addr roamed 5 addr_b net_1 = Some 42 ∧
  ∃ info, PeerManager.get roamed 5 42 = Some (addr_b, info, net_1).
Proof.
  split; [reflexivity|].
  refine (proj1 (sender_index 0 start 5 roamed (conj eq_refl eq_refl) _) addr_b net_1 42 eq_refl).
  eapply rtc_l; [apply (step_heartbeat 0 0); lia|]. apply rtc_once. apply step_heartbeat. lia.
Defined.
