(* ===== verification/Token.v ===== *)
(** [noeio-derp/src/token.rs], [rpc/service.rs], [config.rs] and the duration parser
    of [cli.rs]: the report tokens that scope a host to one network. Signing and
    checking a JWT is the third-party [jsonwebtoken]: the class [JwtApi]. *)

From Stdlib Require Import ZArith Lia.
From Stdlib Require Import Strings.Byte Strings.Ascii Strings.String.
From stdpp Require Import base list strings.
From S2P Require Import Prelude Text NetTypes HostInfo HostCodec CodecModel.

Local Open Scope string_scope.
Local Open Scope Z_scope.

Definition LOCAL_ISSUER : string := "derper".
(** Durations in seconds. *)
Definition DEFAULT_TTL : Z := 90 * 24 * 60 * 60.

Record Claims : Type := MkClaims {
  iss : string;
  sub : string;
  iat : Z;
  exp : option Z;
}.

#[export] Instance Claims_eq_dec : EqDecision Claims.
Proof. solve_decision. Defined.

Definition claims_wf (c : Claims) : Prop :=
  is_uint 64 (iat c) ∧ ∀ e, exp c = Some e → is_uint 64 e.

(** [jsonwebtoken::errors::ErrorKind] as far as it is told apart. *)
Inductive JwtErrorKind : Type :=
  | JwtInvalidSignature | JwtInvalidToken | JwtBase64 | JwtJson | JwtUtf8
  | JwtMissingRequiredClaim | JwtOther (reason : string).

#[export] Instance JwtErrorKind_eq_dec : EqDecision JwtErrorKind.
Proof. solve_decision. Defined.

(** [encode] with the default HS256 header and [decode] with HS256 validation, no
    required claims and no expiry check. *)
Class JwtApi : Type := {
  jwt_encode : string → Claims → result string string;
  jwt_decode : string → string → result Claims JwtErrorKind;
}.

Class JwtLaws {J : JwtApi} : Prop := {
  (** Decoding what was signed with the same key gives the claims back. *)
  jwt_decode_encode : ∀ secret c token, claims_wf c →
    jwt_encode secret c = Ok token → jwt_decode secret token = Ok c;
  (** JSON numbers of a [u64] field are in range. *)
  jwt_decode_wf : ∀ secret token c, jwt_decode secret token = Ok c → claims_wf c;
}.

Inductive VerifyError : Type :=
  | VExpired (c : Claims) | VInvalidSignature | VMalformed | VOther (reason : string).

#[export] Instance VerifyError_eq_dec : EqDecision VerifyError.
Proof. solve_decision. Defined.

(** Rust's [+] and [*] on [u64]: out of range they panic ([None]) in a build with
    overflow checks and wrap in a build without. *)
Definition u64_op (checks : bool) (z : Z) : option Z :=
  if decide (is_uint 64 z) then Some z else if checks then None else Some (wrap 64 z).

Section token.
Context {U : UuidApi} {J : JwtApi}.

(** [issue]; [None] is the overflow panic of [now + ttl.as_secs()]. *)
Definition issue (checks : bool) (now : Z) (secret network_id : string) (ttl : option Z) :
    option (result (string * Claims) IoError) :=
  match uuid_parse network_id with
  | None => Some (Err (invalid_data "uuid"))
  | Some network =>
      exp ← (match ttl with
             | None => Some None
             | Some secs => Some <$> u64_op checks (now + secs)
             end : option (option Z));
      let claims := MkClaims LOCAL_ISSUER (uuid_hyphenated network) now exp in
      Some (match jwt_encode secret claims with
            | Ok token => Ok (token, claims)
            | Err e => Err (io_error Other_kind e)
            end)
  end.

Definition verify (now : Z) (secret token : string) : result Claims VerifyError :=
  match jwt_decode secret token with
  | Err e =>
      Err (match e with
           | JwtInvalidSignature => VInvalidSignature
           | JwtInvalidToken | JwtBase64 | JwtJson | JwtUtf8 | JwtMissingRequiredClaim => VMalformed
           | JwtOther reason => VOther reason
           end)
  | Ok claims =>
      match exp claims with
      | Some e => if e <? now then Err (VExpired claims) else Ok claims
      | None => Ok claims
      end
  end.

Definition verify_error_to_string (e : VerifyError) : string :=
  match e with
  | VExpired _ => "expired" | VInvalidSignature => "invalid signature"
  | VMalformed => "malformed token" | VOther reason => reason
  end.
End token.

(** ** [config.rs] *)

Record Auth : Type := MkAuth { auth_local : bool; auth_secret : string }.

Definition default_local : bool := true.
Definition auth_default : Auth := MkAuth default_local "".

(** [format!("{:02x}", b)] of thirty-two random bytes. *)
Definition hex_digit (d : Z) : ascii :=
  ascii_of_nat (Z.to_nat (if d <? 10 then 48 + d else 87 + d)).
Definition generate_secret (random : list byte) : string :=
  fold_right (λ b s, String (hex_digit (Z_of_byte b / 16)) (String (hex_digit (Z_of_byte b mod 16)) s))
    "" random.

(** [Config::load] on what the file parses to, [None] when there is no file; the
    second component says whether the config is written back. *)
Definition config_load (file : option Auth) (random : list byte) : Auth * bool :=
  let auth := default auth_default file in
  if auth_local auth && bool_decide (auth_secret auth = "")
  then (MkAuth (auth_local auth) (generate_secret random), true)
  else (auth, false).

(** ** [rpc/service.rs] *)

Inductive Status : Type :=
  | FailedPrecondition (m : string) | InvalidArgument (m : string) | Internal (m : string).

Record CreateTokenResponse : Type := MkCreateTokenResponse {
  ct_token : string;
  ct_expires_at : option Z;
}.

Record VerifyTokenResponse : Type := MkVerifyTokenResponse {
  vt_valid : bool;
  vt_reason : option string;
  vt_claims : option Claims;
}.

Section service.
Context {U : UuidApi} {J : JwtApi}.

Definition create_token (checks : bool) (now : Z) (auth : Auth) (network_id : string)
    (ttl_seconds : option Z) : option (result CreateTokenResponse Status) :=
  if negb (auth_local auth) then
    Some (Err (FailedPrecondition "local token issuing is disabled (auth.local = false)"))
  else
    let ttl := match ttl_seconds with
               | None => Some DEFAULT_TTL
               | Some secs => if secs =? 0 then None else Some secs
               end in
    r ← issue checks now (auth_secret auth) network_id ttl;
    Some (match r with
          | Ok (token, claims) => Ok (MkCreateTokenResponse token (exp claims))
          | Err e => Err (if decide (io_kind e = InvalidData) then InvalidArgument (io_message e)
                          else Internal (io_message e))
          end).

Definition verify_token (now : Z) (auth : Auth) (token : string) : VerifyTokenResponse :=
  match verify now (auth_secret auth) token with
  | Ok claims => MkVerifyTokenResponse true None (Some claims)
  | Err (VExpired claims) =>
      MkVerifyTokenResponse false (Some (verify_error_to_string (VExpired claims))) (Some claims)
  | Err err => MkVerifyTokenResponse false (Some (verify_error_to_string err)) None
  end.
End service.

(** ** [parse_ttl] *)

Inductive TtlError : Type :=
  | EmptyDuration | InvalidDuration (s : string) | InvalidUnit (unit : string).

(** [s.split_at(s.len() - 1)] of a non-empty string; [None] is the panic when the
    last character is longer than a byte. *)
Fixpoint split_last (s : string) : option (string * string) :=
  match s with
  | EmptyString => None
  | String c EmptyString =>
      if (128 <=? code c) && (code c <=? 191) then None else Some ("", String c "")
  | String c s' => '(init, last) ← split_last s'; Some (String c init, last)
  end.

Definition parse_ttl (checks : bool) (s : string) : option (result Z TtlError) :=
  let s := trim s in
  if bool_decide (s = "") then Some (Err EmptyDuration)
  else if string_all is_digit s then Some (ok_or (InvalidDuration s) (parse_uint 64 s))
  else
    '(value, unit) ← split_last s;
    match parse_uint 64 value with
    | None => Some (Err (InvalidDuration s))
    | Some value =>
        let scaled k := secs ← u64_op checks (value * k); Some (Ok secs) in
        if bool_decide (unit = "s") then Some (Ok value)
        else if bool_decide (unit = "m") then scaled 60
        else if bool_decide (unit = "h") then v ← u64_op checks (value * 60); secs ← u64_op checks (v * 60); Some (Ok secs)
        else if bool_decide (unit = "d") then
          v ← u64_op checks (value * 60); v ← u64_op checks (v * 60);
          secs ← u64_op checks (v * 24); Some (Ok secs)
        else Some (Err (InvalidUnit unit))
    end.

Example parse_ttl_90d : parse_ttl true " 90d " = Some (Ok (90 * 86400)).
Proof. reflexivity. Qed.
Example parse_ttl_bad : parse_ttl true "10w" = Some (Err (InvalidUnit "w")).
Proof. reflexivity. Qed.
Example parse_ttl_wraps : parse_ttl false "307445734561825861m" = Some (Ok 44).
Proof. reflexivity. Qed.
Example parse_ttl_panics :
  parse_ttl true "307445734561825861m" = None ∧
  parse_ttl false (String (ascii_of_nat 49) (String (ascii_of_nat 195) (String (ascii_of_nat 169) ""))) = None.
Proof. split; reflexivity. Qed.

(** ** A concrete token format *)

(** Claims and key in the clear, a line each: enough to run the definitions. *)
Module PlainJwt.
Definition render (secret : string) (c : Claims) : string :=
  join LF [iss c; sub c; show_uint (iat c); from_option show_uint "-" (exp c); secret].

Definition read (secret token : string) : result Claims JwtErrorKind :=
  match split_char LF token with
  | [i; s; t; e; key] =>
      if negb (bool_decide (key = secret)) then Err JwtInvalidSignature
      else match parse_uint 64 t with
           | None => Err JwtJson
           | Some at_ =>
               if bool_decide (e = "-") then Ok (MkClaims i s at_ None)
               else match parse_uint 64 e with
                    | None => Err JwtJson
                    | Some x => Ok (MkClaims i s at_ (Some x))
                    end
           end
  | _ => Err JwtInvalidToken
  end.

Definition u64_claims (c : Claims) : bool :=
  bool_decide (is_uint 64 (iat c)) && from_option (λ e, bool_decide (is_uint 64 e)) true (exp c).

Lemma u64_claims_wf c : u64_claims c = true → claims_wf c.
Proof.
  unfold u64_claims. intros [Hi%bool_decide_eq_true He]%andb_true_iff. split; [done|].
  intros e Hexp. rewrite Hexp in He. by apply bool_decide_eq_true in He.
Qed.

#[export] Instance api : JwtApi := {|
  jwt_encode secret c :=
    if decide (read secret (render secret c) = Ok c) then Ok (render secret c) else Err "json";
  jwt_decode secret token :=
    match read secret token with
    | Ok c => if u64_claims c then Ok c else Err JwtJson
    | Err e => Err e
    end;
|}.

#[export] Instance laws : JwtLaws.
Proof.
  split.
  - intros secret c token Hc. cbn. case_decide as Hr; [|done]. intros [= <-]. rewrite Hr.
    assert (u64_claims c = true) as ->; [|done]. destruct Hc as [Hi He].
    unfold u64_claims. rewrite bool_decide_eq_true_2 by done. destruct (exp c); [|done].
    cbn. rewrite bool_decide_eq_true_2 by auto. done.
  - intros secret token c. cbn. destruct (read secret token) as [c'|]; [|done].
    destruct (u64_claims c') eqn:Hc; [|done]. intros [= ->]. by apply u64_claims_wf.
Qed.
End PlainJwt.

(** ** Properties *)

Lemma u64_op_fit checks z : is_uint 64 z → u64_op checks z = Some z.
Proof. intros Hz. unfold u64_op. by rewrite decide_True. Qed.

Lemma u64_op_over checks a b : is_uint 64 a → is_uint 64 b → 2 ^ 64 ≤ a + b →
  u64_op checks (a + b) = if checks then None else Some (a + b - 2 ^ 64).
Proof.
  unfold is_uint. intros Ha Hb Hover. unfold u64_op, is_uint. rewrite decide_False by lia.
  destruct checks; [done|]. f_equal. unfold wrap. symmetry.
  apply (Z.mod_unique _ _ 1); lia.
Qed.

Section properties.
Context {U : UuidApi} {UL : UuidLaws} {J : JwtApi} {JL : JwtLaws}.

(** What [issue] signs. *)
Lemma issue_Ok checks now secret network_id ttl token claims :
  issue checks now secret network_id ttl = Some (Ok (token, claims)) →
  ∃ network e,
    uuid_parse network_id = Some network ∧
    match ttl with
    | None => e = None
    | Some secs => ∃ z, u64_op checks (now + secs) = Some z ∧ e = Some z
    end ∧
    claims = MkClaims LOCAL_ISSUER (uuid_hyphenated network) now e ∧
    jwt_encode secret claims = Ok token.
Proof.
  unfold issue. destruct (uuid_parse network_id) as [network|]; [|done]. intros H. exists network.
  assert (∃ e, match ttl with
               | None => e = None
               | Some secs => ∃ z, u64_op checks (now + secs) = Some z ∧ e = Some z
               end ∧
     Some (match jwt_encode secret (MkClaims LOCAL_ISSUER (uuid_hyphenated network) now e) with
            | Ok token => Ok (token, MkClaims LOCAL_ISSUER (uuid_hyphenated network) now e)
            | Err e => Err (io_error Other_kind e)
            end) = Some (Ok (token, claims))) as (e & He & Hr).
  { destruct ttl as [secs|]; [|by exists None].
    destruct (u64_op checks (now + secs)) as [z|]; [|done]. exists (Some z). split; [by exists z|done]. }
  exists e. split; [done|]. split; [done|]. clear H.
  destruct (jwt_encode _ _) eqn:Hj in Hr; [|done]. injection Hr as <- <-. done.
Qed.

Lemma verify_issued now later secret network e token :
  is_uint 64 now → (∀ z, e = Some z → is_uint 64 z) →
  jwt_encode secret (MkClaims LOCAL_ISSUER (uuid_hyphenated network) now e) = Ok token →
  verify later secret token =
    match e with
    | Some z => if z <? later
                then Err (VExpired (MkClaims LOCAL_ISSUER (uuid_hyphenated network) now e))
                else Ok (MkClaims LOCAL_ISSUER (uuid_hyphenated network) now e)
    | None => Ok (MkClaims LOCAL_ISSUER (uuid_hyphenated network) now e)
    end.
Proof.
  intros Hn He Henc. unfold verify. apply jwt_decode_encode in Henc; [|by split].
  rewrite Henc. by destruct e.
Qed.

(** An issued token is good for its network and its time: its subject reads
    back as the network asked for; without a lifetime it verifies for ever; with
    one it verifies up to and including [now + ttl] and is reported expired, with
    its claims, after that. A lifetime that overflows the clock's [u64] panics in
    a build with overflow checks and otherwise gives a token that is expired when
    it is issued. *)
Theorem token_lifecycle checks now secret network_id ttl token claims :
  issue checks now secret network_id ttl = Some (Ok (token, claims)) →
  is_uint 64 now → (∀ secs, ttl = Some secs → is_uint 64 secs) →
  (∃ network, uuid_parse network_id = Some network ∧ uuid_parse (sub claims) = Some network) ∧
  (ttl = None → ∀ later, verify later secret token = Ok claims) ∧
  (∀ secs, ttl = Some secs → now + secs < 2 ^ 64 → ∀ later,
     verify later secret token =
       if later <=? now + secs then Ok claims else Err (VExpired claims)) ∧
  (∀ secs, ttl = Some secs → 2 ^ 64 ≤ now + secs →
     checks = false ∧ verify now secret token = Err (VExpired claims)).
Proof.
  intros Hissue Hnow Httl.
  destruct (issue_Ok _ _ _ _ _ _ _ Hissue) as (network & e & Hn & He & -> & Henc).
  assert (∀ z, e = Some z → is_uint 64 z) as Hz.
  { intros z ->. destruct ttl as [secs|]; [|done]. destruct He as (z' & Ho & [= <-]).
    unfold u64_op in Ho. case_decide; [by injection Ho as <-|].
    destruct checks; [done|]. injection Ho as <-. by apply wrap_uint. }
  pose proof (λ later, verify_issued now later secret network e token Hnow Hz Henc) as Hv.
  split_and!.
  - exists network. split; [done|]. cbn. apply uuid_parse_hyphenated.
    by eapply uuid_parse_length.
  - intros -> later. by rewrite Hv, He.
  - intros secs -> Hfit later. destruct He as (z & Ho & ->).
    rewrite u64_op_fit in Ho; [|specialize (Httl secs eq_refl); unfold is_uint in *; lia].
    injection Ho as <-. rewrite Hv.
    destruct (Z.ltb_spec (now + secs) later), (Z.leb_spec later (now + secs)); (done || lia).
  - intros secs -> Hover. destruct He as (z & Ho & ->). specialize (Httl secs eq_refl).
    rewrite u64_op_over in Ho by done. destruct checks; [done|]. injection Ho as <-.
    split; [done|]. rewrite Hv. unfold is_uint in *.
    destruct (Z.ltb_spec (now + secs - 2 ^ 64) now); [done|lia].
Qed.
End properties.

Import PlainJwt.

Definition ex_network : string := "0a1b2c3d4e5f60718293a4b5c6d7e8f9".
Definition ex_claims (now : Z) (e : option Z) : Claims := MkClaims LOCAL_ISSUER ex_network now e.
Definition ex_token (now : Z) (e : option Z) : string := PlainJwt.render "k" (ex_claims now e).

Lemma token_lifecycle_witness :
  verify 101 "k" (ex_token 100 (Some 160)) = Ok (ex_claims 100 (Some 160)) ∧
  verify 100 "k" (ex_token 100 (Some 50)) = Err (VExpired (ex_claims 100 (Some 50))).
Proof.
  split.
  - refine (proj1 (proj2 (proj2 (token_lifecycle true 100 "k" ex_network (Some 60) _ _ eq_refl _ _)))
      60 eq_refl _ 101); [split; [discriminate|reflexivity]| |reflexivity].
    intros secs [= <-]. split; [discriminate|reflexivity].
  - refine (proj2 (proj2 (proj2 (proj2 (token_lifecycle false 100 "k" ex_network (Some (2 ^ 64 - 50))
      _ _ eq_refl _ _))) (2 ^ 64 - 50) eq_refl _)); [split; [discriminate|reflexivity]| |discriminate].
    intros secs [= <-]. split; [discriminate|reflexivity].
Defined.
