(* ===== verification/Relay.v ===== *)
(** [noeio-derp/src/connection.rs]: the relay. Its tasks share the peer table; each
    definition is one turn of a task, returning the datagrams it sends. Token
    verification is [Token], the table is [RelayPeers]. *)

From Stdlib Require Import ZArith Lia.
From Stdlib Require Import Strings.Byte Strings.String.
From stdpp Require Import base list strings gmap.
From S2P Require Import Prelude Text NetTypes HostInfo Packet HostCodec RelayPeers Token CidrModel CodecModel.

Local Open Scope Z_scope.

(** [SWEEP_INTERVAL], in nanoseconds. *)
Definition SWEEP_INTERVAL : Z := 10 * 1000000000.

(** A datagram on its way out. *)
Notation Datagram := (SocketAddr * list byte)%type (only parsing).

Definition to_ipv4 (addr : SocketAddr) : option Z :=
  match addr with SockV4 ip _ => Some ip | SockV6 _ _ _ _ => None end.

Inductive RecvError : Type :=
  | LikelyTruncated
  | InvalidPacket (m : string)
  | PingNotIpv4.

(** What the receive loop passes on to the packet task. *)
Definition handle_udp_recv (data : list byte) (addr : SocketAddr) :
    result (SocketAddr * NoeioPacket.NoeioPacket) RecvError :=
  if (MAX_PACKET_LEN <=? length data)%nat then Err LikelyTruncated
  else
    match NoeioPacket.try_from data with
    | Err e => Err (InvalidPacket e)
    | Ok packet =>
        if decide (NoeioPacket.packet_type packet = Ping) then
          match to_ipv4 addr with
          | None => Err PingNotIpv4
          | Some ip =>
              let payload := PingPayload.Payload ip (sock_port addr) in
              Ok (addr, NoeioPacket.set_payload packet (PingPayload.to_bytes payload))
          end
        else Ok (addr, packet)
    end.

Section relay.
Context {CA : CidrApi} {U : UuidApi} {PA : ProtoApi} {J : JwtApi} {P B : Type}.
Context {PC : CacheApi P PeerId entry} {BC : CacheApi B (SocketAddr * NetworkId) PeerId}.
Implicit Types (m : PeerManager P B).

Definition recv_forward m (now : Z) (addr : SocketAddr) (packet : NoeioPacket.NoeioPacket) :
    list Datagram :=
  match NoeioPacket.parse_header packet with
  | None => []
  | Some header =>
      match PeerManager.get m now (PacketHeader.peer_id header) with
      | None => []
      | Some (target_addr, _, target_network) =>
          match PeerManager.peer_id_by_addr m now addr target_network with
          | None => []
          | Some sender_id =>
              let packet := NoeioPacket.set_header packet
                              (Header Delivery sender_id (PacketHeader.port header)) in
              [(target_addr, NoeioPacket.inner packet)]
          end
      end
  end.

Definition recv_tunnel_ping (addr : SocketAddr) (packet : NoeioPacket.NoeioPacket) : list Datagram :=
  let pong_header :=
    Header TunnelPong (from_option PacketHeader.peer_id 0 (NoeioPacket.parse_header packet)) 0 in
  let payload := default [] (NoeioPacket.payload packet) in
  [(addr, NoeioPacket.inner (NoeioPacket.new pong_header payload))].

(** The report's checks: the payload parses, the token verifies at [unix] and its
    subject is a network. *)
Definition parse_report (unix : Z) (secret : string) (packet : NoeioPacket.NoeioPacket) :
    option (HostInfo * NetworkId) :=
  match NoeioPacket.parse_header packet with
  | None => None
  | Some _ =>
      match NoeioPacket.payload packet with
      | None => None
      | Some payload =>
          match ReportPayload.try_from payload with
          | Err _ => None
          | Ok report =>
              match verify unix secret (ReportPayload.token report) with
              | Err _ => None
              | Ok claims =>
                  match uuid_parse (sub claims) with
                  | None => None
                  | Some token_network => Some (ReportPayload.host_info report, token_network)
                  end
              end
          end
      end
  end.

Definition recv_report m (now unix : Z) (secret : string) (addr : SocketAddr)
    (packet : NoeioPacket.NoeioPacket) : PeerManager P B :=
  match parse_report unix secret packet with
  | None => m
  | Some (host_info, token_network) =>
      fold_left (λ m info,
          if decide (PeerInfo.network_id info = token_network)
          then PeerManager.heartbeat m now (PeerInfo.peer_id info) host_info addr
                 (PeerInfo.network_id info)
          else m)
        (HostInfo.peers host_info) m
  end.

(** [handle_packet_recv]: one packet off the channel. *)
Definition packet_recv m (now unix : Z) (secret : string) (addr : SocketAddr)
    (packet : NoeioPacket.NoeioPacket) : PeerManager P B * list Datagram :=
  match NoeioPacket.packet_type packet with
  | Ping | SyncRoute | Delivery | Seq | Ack | TunnelPong => (m, [])
  | Forward => (m, recv_forward m now addr packet)
  | TunnelPing => (m, recv_tunnel_ping addr packet)
  | Report => (recv_report m now unix secret addr packet, [])
  end.

(** A datagram as the two tasks of the relay handle it. *)
Definition on_datagram m (now unix : Z) (secret : string) (data : list byte) (addr : SocketAddr) :
    PeerManager P B * list Datagram :=
  match handle_udp_recv data addr with
  | Err _ => (m, [])
  | Ok (addr, packet) => packet_recv m now unix secret addr packet
  end.

Definition send_sync_route (target : PeerId) (to_addr : SocketAddr) (info : PeerInfo) : Datagram :=
  let header := Header SyncRoute target (PacketHeader.port PacketHeader.default_header) in
  (to_addr, NoeioPacket.inner (NoeioPacket.new header (peer_to_bytes info))).

(** The broadcast entry: the host's version, NAT and addresses stamped in. *)
Definition stamp (info : HostInfo) (peer_info : PeerInfo) : PeerInfo :=
  let local_addrs := if decide (PeerInfo.local_addrs peer_info = [])
                     then HostInfo.local_addrs info else PeerInfo.local_addrs peer_info in
  PeerInfo.with_local_addrs
    (PeerInfo.with_nat_addr
      (PeerInfo.with_nat_type
        (PeerInfo.with_resource_version peer_info (HostInfo.resource_version info))
        (HostInfo.nat_type info))
      (Some (HostInfo.nat_addr info)))
    local_addrs.

(** [handle_sync]: one wake-up. The sends are spawned, so their order is open. *)
Definition sync_round m (now : Z) : PeerManager P B * list Datagram :=
  let ps := PeerManager.alive_peers m now in
  (PeerManager.MkPeerManager (PeerManager.peers m) (PeerManager.by_addr m) false
     (PeerManager.gone m),
   flat_map (λ '(target_id, (addr, _, target_network)),
     flat_map (λ '(peer_id, (_, info, network)),
       if decide (target_id = peer_id) then []
       else if decide (target_network ≠ network) then []
       else
         flat_map (λ peer_info,
           if decide (PeerInfo.peer_id peer_info = target_id) then []
           else [send_sync_route target_id addr (stamp info peer_info)])
           (HostInfo.peers info)) ps) ps).

(** [handle_gone]: one tombstone off the channel. *)
Definition gone_round m (now : Z) (dead : Gone) : list Datagram :=
  let targets :=
    map (λ '(id, (addr, _, _)), (id, addr))
      (filter (λ '(id, (_, _, network)), id ≠ gone_peer_id dead ∧ network = gone_network dead)
         (PeerManager.alive_peers m now)) in
  flat_map (λ peer_info,
    if decide (PeerInfo.network_id peer_info ≠ gone_network dead) then []
    else
      let tombstone := PeerInfo.with_withdrawn
        (PeerInfo.with_resource_version peer_info (HostInfo.resource_version (gone_info dead))) true in
      map (λ '(target, addr), send_sync_route target addr tombstone) targets)
    (HostInfo.peers (gone_info dead)).
End relay.

(** ** Facts *)

Section facts.
Context {CA : CidrApi} {U : UuidApi} {PA : ProtoApi} {J : JwtApi} {P B : Type}.
Context {PC : CacheApi P PeerId entry} {BC : CacheApi B (SocketAddr * NetworkId) PeerId} {ttl : Z}
  {PL : CacheLaws P PeerId entry ttl} {BL : CacheLaws B (SocketAddr * NetworkId) PeerId ttl}.
Implicit Types (m : PeerManager P B).

(** Every type but a ping reaches the packet task as it came. *)
Lemma handle_udp_recv_Ok data addr a p :
  handle_udp_recv data addr = Ok (a, p) → NoeioPacket.packet_type p ≠ Ping →
  a = addr ∧ (length data < MAX_PACKET_LEN)%nat ∧ NoeioPacket.inner p = data ∧
  ∃ h, PacketHeader.from_bytes data = Some h ∧ PacketHeader.packet_type h = NoeioPacket.packet_type p.
Proof.
  unfold handle_udp_recv. destruct (Nat.leb_spec MAX_PACKET_LEN (length data)); [done|].
  destruct (NoeioPacket.try_from data) as [q|] eqn:Hq; [|done].
  apply try_from_Ok in Hq as [Hi (h & Hh & Ht)]. unfold NoeioPacket.parse_header in Hh.
  rewrite Hi in Hh. case_decide as Hping.
  - destruct (to_ipv4 addr); [|done]. intros [= <- <-] Hne. destruct Hne.
    unfold NoeioPacket.set_payload, NoeioPacket.ensure_header.
    by destruct (NoeioPacket.PAYLOAD_OFFSET <=? _)%nat.
  - intros [= <- <-] _. split_and!; [done|done|done|]. by exists h.
Qed.

Lemma handle_udp_recv_pass data addr h :
  (length data < MAX_PACKET_LEN)%nat → PacketHeader.from_bytes data = Some h →
  PacketHeader.packet_type h ≠ Ping →
  handle_udp_recv data addr = Ok (addr, NoeioPacket.Packet data (PacketHeader.packet_type h)).
Proof.
  intros Hl Hh Hne. unfold handle_udp_recv.
  destruct (Nat.leb_spec MAX_PACKET_LEN (length data)); [lia|].
  unfold NoeioPacket.try_from. rewrite Hh. cbn [ok_or NoeioPacket.packet_type].
  by rewrite decide_False.
Qed.

Lemma elem_recv_forward m now addr p d :
  d ∈ recv_forward m now addr p ↔
  ∃ header target_info network sender to,
    NoeioPacket.parse_header p = Some header ∧
    PeerManager.get m now (PacketHeader.peer_id header) = Some (to, target_info, network) ∧
    PeerManager.peer_id_by_addr m now addr network = Some sender ∧
    d = (to, PacketHeader.to_bytes (Header Delivery sender (PacketHeader.port header)) ++
             drop 9 (NoeioPacket.inner p)).
Proof.
  unfold recv_forward. split.
  - destruct (NoeioPacket.parse_header p) as [h|]; [|by intros ?%not_elem_of_nil].
    destruct (PeerManager.get m now (PacketHeader.peer_id h)) as [[[to i] n]|] eqn:Hg;
      [|by intros ?%not_elem_of_nil].
    destruct (PeerManager.peer_id_by_addr m now addr n) as [s|] eqn:Hs; [|by intros ?%not_elem_of_nil].
    rewrite set_header_inner. intros ->%list_elem_of_singleton.
    exists h, i, n, s, to. by rewrite Hg.
  - intros (h & i & n & s & to & -> & -> & -> & ->). rewrite set_header_inner.
    by apply list_elem_of_singleton.
Qed.

Lemma header_type_of_bytes h rest h' :
  PacketHeader.from_bytes (PacketHeader.to_bytes h ++ rest) = Some h' →
  PacketHeader.packet_type h' = PacketHeader.packet_type h.
Proof.
  intros (Hwf & rest' & Heq)%header_from_bytes_inv. rewrite !header_to_bytes_eq in Heq.
  cbn [app PacketHeader.MAGIC] in Heq. injection Heq as Ht _.
  pose proof (type_roundtrip (PacketHeader.packet_type h)) as Hty.
  rewrite Ht, type_roundtrip in Hty. by injection Hty as ->.
Qed.

(** *** Reports *)

(** The ids a report names inside the token's network. *)
Definition reported (network : NetworkId) (host : HostInfo) : list PeerId :=
  map PeerInfo.peer_id (filter (λ i, PeerInfo.network_id i = network) (HostInfo.peers host)).

Lemma beat_entry_twice m now id info addr network : 0 < ttl →
  beat_entry (PeerManager.heartbeat m now id info addr network) now id info addr network =
  beat_entry m now id info addr network.
Proof.
  intros Httl. unfold beat_entry at 1.
  assert (PeerManager.get (PeerManager.heartbeat m now id info addr network) now id =
    Some (beat_entry m now id info addr network)) as Hg.
  { rewrite heartbeat_get, decide_True by done. destruct (Z.ltb_spec now (now + ttl)); [done|lia]. }
  rewrite (proj2 (stale_Some _ now id info (beat_entry m now id info addr network))); [done|].
  split; [done|]. unfold beat_entry.
  destruct (PeerManager.stale m now id info) as [e|] eqn:Hs; [|cbn; lia].
  by apply stale_Some in Hs as [_ ?].
Qed.

Lemma beat_entry_ne m now id id' info info' addr addr' network network' : id' ≠ id →
  beat_entry (PeerManager.heartbeat m now id info addr network) now id' info' addr' network' =
  beat_entry m now id' info' addr' network'.
Proof.
  intros Hne. unfold beat_entry, PeerManager.stale. by rewrite heartbeat_get, decide_False.
Qed.

Lemma fold_report_get m now upto host addr network (l : list PeerInfo) id :
  0 < ttl → now ≤ upto →
  PeerManager.get (fold_left (λ m info,
      if decide (PeerInfo.network_id info = network)
      then PeerManager.heartbeat m now (PeerInfo.peer_id info) host addr (PeerInfo.network_id info)
      else m) l m) upto id =
    if decide (id ∈ map PeerInfo.peer_id (filter (λ i, PeerInfo.network_id i = network) l))
    then (if upto <? now + ttl then Some (beat_entry m now id host addr network) else None)
    else PeerManager.get m upto id.
Proof.
  intros Httl Hn. revert m. induction l as [|i l IH]; intros m; [done|]. cbn [fold_left].
  rewrite IH, filter_cons. case_decide as Hin; case_decide as Hnet; cbn [map].
  - rewrite (decide_True (P := _ ∈ _ :: _)) by by right. subst network.
    destruct (decide (id = PeerInfo.peer_id i)) as [->|Hne].
    + by rewrite beat_entry_twice.
    + by rewrite beat_entry_ne.
  - by rewrite decide_True.
  - subst network. rewrite heartbeat_get by done. case_decide as Hid.
    + subst id. rewrite decide_True by by left. done.
    + rewrite decide_False; [done|]. intros [?|?]%elem_of_cons; done.
  - by rewrite decide_False.
Qed.

Lemma recv_report_get m now unix secret addr p host network upto id :
  0 < ttl → now ≤ upto → parse_report unix secret p = Some (host, network) →
  PeerManager.get (recv_report m now unix secret addr p) upto id =
    if decide (id ∈ reported network host)
    then (if upto <? now + ttl then Some (beat_entry m now id host addr network) else None)
    else PeerManager.get m upto id.
Proof. intros Httl Hn Hp. unfold recv_report. rewrite Hp. by apply fold_report_get. Qed.

(** *** Broadcasts *)

Lemma elem_alive m now id e :
  (id, e) ∈ PeerManager.alive_peers m now ↔ PeerManager.get m now id = Some e.
Proof. apply law_iter. Qed.

Lemma elem_flat_map {X Y} (f : X → list Y) l y :
  y ∈ flat_map f l ↔ ∃ x, x ∈ l ∧ y ∈ f x.
Proof. rewrite list_elem_of_In, in_flat_map. by setoid_rewrite <-list_elem_of_In. Qed.

Lemma elem_sync m now d :
  d ∈ (sync_round m now).2 ↔
  ∃ target addr tinfo network source saddr info peer,
    PeerManager.get m now target = Some (addr, tinfo, network) ∧
    PeerManager.get m now source = Some (saddr, info, network) ∧ source ≠ target ∧
    peer ∈ HostInfo.peers info ∧ PeerInfo.peer_id peer ≠ target ∧
    d = send_sync_route target addr (stamp info peer).
Proof.
  unfold sync_round. cbn [snd]. rewrite elem_flat_map. split.
  - intros ([t [[a ti] tn]] & Ht & Hd). apply elem_alive in Ht.
    apply elem_flat_map in Hd as ([s [[sa si] sn]] & Hs & Hd). apply elem_alive in Hs.
    case_decide as Hts; [by apply not_elem_of_nil in Hd|].
    case_decide as Hn; [by apply not_elem_of_nil in Hd|]. subst sn.
    apply elem_flat_map in Hd as (p & Hp & Hd). case_decide as Hpt; [by apply not_elem_of_nil in Hd|].
    apply list_elem_of_singleton in Hd. by exists t, a, ti, tn, s, sa, si, p.
  - intros (t & a & ti & n & s & sa & si & p & Ht & Hs & Hne & Hp & Hpt & ->).
    exists (t, (a, ti, n)). split; [by apply elem_alive|]. apply elem_flat_map.
    exists (s, (sa, si, n)). split; [by apply elem_alive|].
    rewrite decide_False by congruence. rewrite decide_False by tauto. apply elem_flat_map.
    exists p. split; [done|]. rewrite decide_False by done. by apply list_elem_of_singleton.
Qed.

Definition tombstone_of (dead : Gone) (peer : PeerInfo) : PeerInfo :=
  PeerInfo.with_withdrawn
    (PeerInfo.with_resource_version peer (HostInfo.resource_version (gone_info dead))) true.

Lemma elem_gone m now dead d :
  d ∈ gone_round m now dead ↔
  ∃ target addr tinfo peer,
    PeerManager.get m now target = Some (addr, tinfo, gone_network dead) ∧
    target ≠ gone_peer_id dead ∧
    peer ∈ HostInfo.peers (gone_info dead) ∧ PeerInfo.network_id peer = gone_network dead ∧
    d = send_sync_route target addr (tombstone_of dead peer).
Proof.
  unfold gone_round. rewrite elem_flat_map. split.
  - intros (p & Hp & Hd). case_decide as Hn; [by apply not_elem_of_nil in Hd|].
    apply list_elem_of_fmap in Hd as ([t a] & -> & Ht).
    apply list_elem_of_fmap in Ht as ([id [[a' ti] tn]] & [= -> ->] & Ht).
    apply list_elem_of_filter in Ht as [[Hne ->] Ht]. apply elem_alive in Ht.
    by exists id, a', ti, p.
  - intros (t & a & ti & p & Ht & Hne & Hp & Hn & ->). exists p. split; [done|].
    rewrite decide_False by tauto. apply list_elem_of_fmap. exists (t, a). split; [done|].
    apply list_elem_of_fmap. exists (t, (a, ti, gone_network dead)). split; [done|].
    apply list_elem_of_filter. split; [done|]. by apply elem_alive.
Qed.

Lemma sync_route_decodes {CL : CidrLaws} {UL : UuidLaws} {PR : ProtoLaws} target addr info :
  is_uint 32 target → peer_wf info →
  ∃ p, NoeioPacket.try_from (send_sync_route target addr info).2 = Ok p ∧
    NoeioPacket.parse_header p = Some (Header SyncRoute target 0) ∧
    NoeioPacket.payload p = Some (peer_to_bytes info) ∧
    peer_from_bytes (peer_to_bytes info) = Ok info.
Proof.
  intros Ht Hi. exists (NoeioPacket.new (Header SyncRoute target 0) (peer_to_bytes info)).
  assert (PacketHeader.wf (Header SyncRoute target 0)) as Hwf by (split; [done|split; [discriminate|done]]).
  split_and!.
  - apply try_from_Ok. split; [done|]. exists (Header SyncRoute target 0).
    split; [|done]. by apply parse_new.
  - by apply parse_new.
  - apply payload_new.
  - unfold peer_from_bytes, peer_to_bytes. rewrite decode_encode_peer by (by apply peer_to_proto_wf).
    by rewrite peer_proto_roundtrip.
Qed.
End facts.

(** ** Properties *)

Section properties.
Context {CA : CidrApi} {U : UuidApi} {PA : ProtoApi} {J : JwtApi} {P B : Type}.
Context {PC : CacheApi P PeerId entry} {BC : CacheApi B (SocketAddr * NetworkId) PeerId} {ttl : Z}
  {PL : CacheLaws P PeerId entry ttl} {BL : CacheLaws B (SocketAddr * NetworkId) PeerId ttl}.
Implicit Types (m : PeerManager P B).

(** C11. Relayed traffic carries the sender the table names, never one the packet
    claims: whatever datagram arrives, anything the relay sends in answer that
    reads as a Delivery answers a Forward, goes to the registered address of the
    peer the Forward names, holds its payload unchanged, and is stamped with a
    peer registered at the datagram's source address in the target's network.
    Such a Forward is always relayed; a Delivery arriving at the relay never is. *)
Theorem forward_authentic m now unix secret data addr :
  (∀ to bs p, (to, bs) ∈ (on_datagram m now unix secret data addr).2 →
     NoeioPacket.try_from bs = Ok p → NoeioPacket.packet_type p = Delivery →
     ∃ header target_info network sender sender_info,
       PacketHeader.from_bytes data = Some header ∧ PacketHeader.packet_type header = Forward ∧
       PeerManager.get m now (PacketHeader.peer_id header) = Some (to, target_info, network) ∧
       PeerManager.get m now sender = Some (addr, sender_info, network) ∧
       bs = PacketHeader.to_bytes (Header Delivery sender (PacketHeader.port header)) ++ drop 9 data) ∧
  (∀ header to target_info network sender,
     (length data < MAX_PACKET_LEN)%nat → PacketHeader.from_bytes data = Some header →
     PacketHeader.packet_type header = Forward →
     PeerManager.get m now (PacketHeader.peer_id header) = Some (to, target_info, network) →
     PeerManager.peer_id_by_addr m now addr network = Some sender →
     on_datagram m now unix secret data addr =
       (m, [(to, PacketHeader.to_bytes (Header Delivery sender (PacketHeader.port header)) ++
                 drop 9 data)])) ∧
  (∀ header, PacketHeader.from_bytes data = Some header →
     PacketHeader.packet_type header = Delivery →
     on_datagram m now unix secret data addr = (m, [])).
Proof.
  unfold on_datagram. split_and!.
  - intros to bs p Hin Hbs Hp.
    destruct (handle_udp_recv data addr) as [[a q]|] eqn:Hr; [|by apply not_elem_of_nil in Hin].
    apply try_from_Ok in Hbs as [Hi (h & Hh & Ht)]. unfold NoeioPacket.parse_header in Hh.
    rewrite Hi in Hh. unfold packet_recv in Hin.
    destruct (NoeioPacket.packet_type q) eqn:Hq; try by apply not_elem_of_nil in Hin.
    + destruct (handle_udp_recv_Ok _ _ _ _ Hr) as (-> & _ & Hd & h0 & Hh0 & Ht0); [congruence|].
      cbn [snd] in Hin.
      apply elem_recv_forward in Hin as (h' & ti & n & s & to' & Hp' & Hg & Hs & [= -> ->]).
      apply peer_id_by_addr_Some in Hs as [_ [si Hs]]. unfold NoeioPacket.parse_header in Hp'.
      rewrite Hd in *. rewrite Hh0 in Hp'. injection Hp' as ->.
      exists h', ti, n, s, si. split_and!; [done|congruence|done|done|done].
    + apply list_elem_of_singleton, (f_equal snd) in Hin. cbn [snd] in Hin. rewrite Hin in Hh.
      unfold NoeioPacket.new in Hh. cbn [NoeioPacket.inner] in Hh. apply header_type_of_bytes in Hh. cbn in Hh. congruence.
  - intros h to ti n s Hl Hh Ht Hg Hs. rewrite (handle_udp_recv_pass _ _ h) by (done || congruence).
    unfold packet_recv. cbn [NoeioPacket.packet_type]. rewrite Ht.
    unfold recv_forward, NoeioPacket.parse_header. cbn [NoeioPacket.inner].
    rewrite Hh, Hg, Hs, set_header_inner. done.
  - intros h Hh Ht. destruct (handle_udp_recv data addr) as [[a q]|] eqn:Hr; [|done].
    destruct (decide (NoeioPacket.packet_type q = Ping)) as [Hq|Hq].
    + unfold packet_recv. by rewrite Hq.
    + destruct (handle_udp_recv_Ok _ _ _ _ Hr Hq) as (_ & _ & _ & h' & Hh' & Ht').
      rewrite Hh in Hh'. injection Hh' as <-. unfold packet_recv. by rewrite <-Ht', Ht.
Qed.

(** What a datagram that is taken for a report carries. *)
Lemma parse_report_Some unix secret data host network :
  parse_report unix secret (NoeioPacket.Packet data Report) = Some (host, network) →
  ∃ report claims, ReportPayload.try_from (drop 9 data) = Ok report ∧
    ReportPayload.host_info report = host ∧
    verify unix secret (ReportPayload.token report) = Ok claims ∧ uuid_parse (sub claims) = Some network.
Proof.
  unfold parse_report. destruct (NoeioPacket.parse_header _); [|done].
  destruct (NoeioPacket.payload _) as [payload|] eqn:Hpay; [|done].
  assert (payload = drop 9 data) as ->.
  { destruct (Nat.lt_ge_cases (length data) 9) as [Hl|Hl];
      [apply (packet_payload_None (NoeioPacket.Packet data Report)) in Hl|
       pose proof (payload_drop (NoeioPacket.Packet data Report) Hl)]; cbn [NoeioPacket.inner] in *; congruence. }
  destruct (ReportPayload.try_from _) as [report|]; [|done].
  destruct (verify _ _ _) as [claims|] eqn:Hv; [|done].
  destruct (uuid_parse _) eqn:Hu; [|done]. intros [= <- <-]. by exists report, claims.
Qed.

(** C12. Only a verified report changes the table, and only inside its token's
    network: a datagram that changes any entry fits the buffer, has a header of type
    Report, and carries a report whose token verifies under the relay's secret with a
    network as its subject; then exactly the ids the report lists in that network are
    written, each keeping its newer known entry or
    taking the report's host, source address and network, and nothing is sent. *)
Theorem report_scope m now unix secret data addr :
  0 < ttl →
  let m' := (on_datagram m now unix secret data addr).1 in
  (∀ id upto, PeerManager.get m' upto id ≠ PeerManager.get m upto id →
     ∃ header host network report claims,
       (length data < MAX_PACKET_LEN)%nat ∧ PacketHeader.from_bytes data = Some header ∧
       PacketHeader.packet_type header = Report ∧
       parse_report unix secret (NoeioPacket.Packet data Report) = Some (host, network) ∧
       ReportPayload.try_from (drop 9 data) = Ok report ∧ ReportPayload.host_info report = host ∧
       verify unix secret (ReportPayload.token report) = Ok claims ∧ uuid_parse (sub claims) = Some network ∧
       (now ≤ upto → id ∈ reported network host)) ∧
  (∀ header host network,
     (length data < MAX_PACKET_LEN)%nat → PacketHeader.from_bytes data = Some header →
     PacketHeader.packet_type header = Report →
     parse_report unix secret (NoeioPacket.Packet data Report) = Some (host, network) →
     (on_datagram m now unix secret data addr).2 = [] ∧
     ∀ id, id ∈ reported network host →
       PeerManager.get m' now id =
         Some (match PeerManager.stale m now id host with
               | Some known => known
               | None => (addr, host, network)
               end)).
Proof.
  intros Httl. cbn zeta. unfold on_datagram. split.
  - intros id upto Hne.
    destruct (handle_udp_recv data addr) as [[a q]|] eqn:Hr; [|done].
    unfold packet_recv in Hne. destruct (NoeioPacket.packet_type q) eqn:Hq; try done.
    destruct (handle_udp_recv_Ok _ _ _ _ Hr) as (-> & Hlen & Hd & h & Hh & Ht); [congruence|].
    assert (q = NoeioPacket.Packet data Report) as -> by (destruct q; cbn in *; congruence).
    cbn [fst] in Hne.
    destruct (parse_report unix secret _) as [[host network]|] eqn:Hp.
    + pose proof Hp as (report & claims & Hrep & Hhost & Hver & Hsub)%parse_report_Some.
      exists h, host, network, report, claims. split_and!; try done.
      intros Hn.
      rewrite (recv_report_get m now unix secret addr _ _ _ upto id Httl Hn Hp) in Hne.
      by case_decide.
    + unfold recv_report in Hne. by rewrite Hp in Hne.
  - intros h host network Hl Hh Ht Hp.
    rewrite (handle_udp_recv_pass _ _ h) by (done || congruence). unfold packet_recv.
    cbn [NoeioPacket.packet_type]. rewrite Ht. cbn [fst snd]. split; [done|]. intros id Hid.
    rewrite (recv_report_get m now unix secret addr _ _ _ now id Httl (Z.le_refl _) Hp).
    rewrite decide_True by done. destruct (Z.ltb_spec now (now + ttl)); [|lia].
    unfold beat_entry. by destruct (PeerManager.stale m now id host).
Qed.

(** The sender stamp is only as strong as the weakest token: whoever holds a
    token of any network can report an id registered by someone else, in whatever
    network, with a higher version. The id then belongs to the reporter's address
    and network, its owner's address no longer resolves to it, and Forwards the
    reporter sends into its token's network are stamped with the id. *)
Theorem report_takeover m now unix secret data addr header host network victim owner :
  0 < ttl → (length data < MAX_PACKET_LEN)%nat →
  PacketHeader.from_bytes data = Some header → PacketHeader.packet_type header = Report →
  parse_report unix secret (NoeioPacket.Packet data Report) = Some (host, network) →
  PeerManager.get m now victim = Some owner → victim ∈ reported network host →
  HostInfo.resource_version (e_info owner) < HostInfo.resource_version host →
  let m' := (on_datagram m now unix secret data addr).1 in
  PeerManager.get m' now victim = Some (addr, host, network) ∧
  ((e_addr owner, e_network owner) ≠ (addr, network) →
     PeerManager.peer_id_by_addr m' now (e_addr owner) (e_network owner) ≠ Some victim).
Proof.
  intros Httl Hl Hh Ht Hp Hv Hin Hver. cbn zeta.
  assert (PeerManager.get (on_datagram m now unix secret data addr).1 now victim =
    Some (addr, host, network)) as Hg.
  { unfold on_datagram. rewrite (handle_udp_recv_pass _ _ header) by (done || congruence).
    unfold packet_recv. cbn [NoeioPacket.packet_type]. rewrite Ht. cbn [fst].
    rewrite (recv_report_get m now unix secret addr _ _ _ now victim Httl (Z.le_refl _) Hp).
    rewrite decide_True by done. destruct (Z.ltb_spec now (now + ttl)); [|lia].
    unfold beat_entry. destruct (PeerManager.stale m now victim host) as [e|] eqn:Hs; [|done].
    apply stale_Some in Hs as [He Hle]. rewrite Hv in He. injection He as <-. lia. }
  split; [done|]. intros Hne [_ (i & Hi)]%peer_id_by_addr_Some.
  rewrite Hg in Hi. by injection Hi as -> _ ->.
Qed.

(** Who hears of whom: a wake-up consumes the permit and sends, to every live
    peer, each entry of the hosts registered in its network under another id, save
    its own entry, stamped with the host's version, NAT and addresses; nothing
    else is sent. The entries are not filtered by their own network: a host that
    is in two networks is announced whole in both. What is sent decodes to a
    SyncRoute for the target holding the stamped entry. *)
Theorem sync_broadcast {CL : CidrLaws} {UL : UuidLaws} {PR : ProtoLaws} m now :
  PeerManager.trigger (sync_round m now).1 = false ∧
  (∀ id, PeerManager.get (sync_round m now).1 now id = PeerManager.get m now id) ∧
  (∀ d, d ∈ (sync_round m now).2 ↔
    ∃ target addr tinfo network source saddr info peer,
      PeerManager.get m now target = Some (addr, tinfo, network) ∧
      PeerManager.get m now source = Some (saddr, info, network) ∧ source ≠ target ∧
      peer ∈ HostInfo.peers info ∧ PeerInfo.peer_id peer ≠ target ∧
      d = send_sync_route target addr (stamp info peer)) ∧
  (∀ target addr info peer, is_uint 32 target → peer_wf peer → host_wf info →
    ∃ p, NoeioPacket.try_from (send_sync_route target addr (stamp info peer)).2 = Ok p ∧
      NoeioPacket.parse_header p = Some (Header SyncRoute target 0) ∧
      (bs ← NoeioPacket.payload p; result_ok (peer_from_bytes bs)) = Some (stamp info peer)).
Proof.
  split; [done|]. split; [done|]. split; [apply elem_sync|].
  intros target addr info peer Ht (_ & Hid & Hip & Hn & _ & Hla & Hr) (Hv & Hna & Hl & _).
  assert (peer_wf (stamp info peer)) as Hs.
  { unfold stamp. split_and!; try done.
    - by intros a [= <-].
    - cbn. by case_decide. }
  destruct (sync_route_decodes target addr _ Ht Hs) as (p & Hp & Hh & Hpl & Hd).
  exists p. split; [done|]. split; [done|]. rewrite Hpl. cbn [mbind option_bind]. by rewrite Hd.
Qed.

(** A tombstone goes to the survivors of the dead peer's network and names
    only that network: it reaches exactly the live peers there, other than the
    dead id itself, once for each entry its host had in that network, withdrawn
    and at the version last reported. *)
Theorem gone_broadcast m now dead :
  (∀ d, d ∈ gone_round m now dead ↔
    ∃ target addr tinfo peer,
      PeerManager.get m now target = Some (addr, tinfo, gone_network dead) ∧
      target ≠ gone_peer_id dead ∧
      peer ∈ HostInfo.peers (gone_info dead) ∧ PeerInfo.network_id peer = gone_network dead ∧
      d = send_sync_route target addr (tombstone_of dead peer)) ∧
  (∀ peer, PeerInfo.withdrawn (tombstone_of dead peer) = true ∧
     PeerInfo.resource_version (tombstone_of dead peer) = HostInfo.resource_version (gone_info dead) ∧
     PeerInfo.peer_id (tombstone_of dead peer) = PeerInfo.peer_id peer ∧
     PeerInfo.noeio_ip (tombstone_of dead peer) = PeerInfo.noeio_ip peer) ∧
  (∀ d, gone_network dead ∉ (PeerInfo.network_id <$> HostInfo.peers (gone_info dead)) →
     d ∉ gone_round m now dead).
Proof.
  split; [apply elem_gone|]. split; [done|].
  intros d Hn (? & ? & ? & p & _ & _ & Hp & Hpn & _)%elem_gone. apply Hn.
  apply list_elem_of_fmap. by exists p.
Qed.
End properties.

(** A host with a token for one network reports peer 42, which is registered in
    another by somebody else. *)
Module Scenario.
Import PlainJwt RelayPeers.Example.

Definition net_2 : NetworkId := default [] (uuid_parse ex_network).
Definition addr_c : SocketAddr := SockV4 (ipv4 192 0 2 66) 6666.
Definition intruder : PeerInfo :=
  PeerInfo.MkPeerInfo 0 42 (IpV4 (ipv4 110 20 0 9)) net_2 Other None [] [] false.
Definition intruder_host : HostInfo := HostInfo.MkHostInfo 9 addr_c Other "c" [] [intruder].
Definition report_data : list byte :=
  PacketHeader.to_bytes (Header Report 42 0) ++
  ReportPayload.to_bytes (ReportPayload.MkReport (ex_token 100 (Some 160)) intruder_host).

Lemma report_parses :
  parse_report 101 "k" (NoeioPacket.Packet report_data Report) = Some (intruder_host, net_2).
Proof. apply (bool_decide_eq_true_1 (parse_report _ _ _ = _)). vm_compute. reflexivity. Qed.
Lemma report_fits : (length report_data < MAX_PACKET_LEN)%nat.
Proof. apply Nat.ltb_lt. vm_compute. reflexivity. Qed.
Lemma report_listed : 42 ∈ reported net_2 intruder_host.
Proof. apply list_elem_of_singleton. reflexivity. Qed.
End Scenario.
Import PlainJwt RelayPeers.Example Scenario.

Lemma report_scope_witness :
  PeerManager.get (on_datagram registered 5 101 "k" report_data addr_c).1 5 42 =
    Some (addr_c, intruder_host, net_2).
Proof.
  exact (proj2 (proj2 (report_scope (ttl := PeerManager.HEARTBEAT_TTL) registered 5 101 "k" report_data addr_c ltac:(reflexivity))
    (Header Report 42 0) intruder_host net_2 report_fits eq_refl eq_refl report_parses) 42 report_listed).
Defined.

Lemma report_takeover_witness :
  PeerManager.get registered 5 42 = Some (addr_a, info_at 1, net_1) ∧
  PeerManager.get (on_datagram registered 5 101 "k" report_data addr_c).1 5 42 =
    Some (addr_c, intruder_host, net_2).
Proof.
  split; [reflexivity|].
  exact (proj1 (report_takeover (ttl := PeerManager.HEARTBEAT_TTL) registered 5 101 "k" report_data addr_c (Header Report 42 0)
    intruder_host net_2 42 (addr_a, info_at 1, net_1) ltac:(reflexivity) report_fits eq_refl eq_refl
    report_parses eq_refl report_listed ltac:(reflexivity))).
Defined.

Lemma sync_broadcast_witness :
  PeerManager.trigger (sync_round registered 5).1 = false.
Proof. exact (proj1 (sync_broadcast (ttl := PeerManager.HEARTBEAT_TTL) registered 5)). Defined.
