(* ===== verification/RelayTasks.v ===== *)
(** [noeio-derp/src/connection.rs] and the [Boot] command of [noeio-derp/src/main.rs]:
    the tasks of the relay, the broadcast channel between the one that reads the socket
    and the one that handles packets, and how the relay stops. What each task does with
    one input is [Relay]; here they run side by side. *)

From Stdlib Require Import ZArith Lia.
From Stdlib Require Import Strings.Byte Strings.String.
From stdpp Require Import base list strings gmap sets relations.
From S2P Require Import Prelude Text NetTypes HostInfo Packet HostCodec RelayPeers Token Relay CidrModel CodecModel.

Local Open Scope Z_scope.

(** ** The channel *)

(** [tokio::sync::broadcast] with one receiver: [chan_recv] is [None] when the receiver
    would wait, and an inner [None] is the error [Lagged]. *)
Class ChannelApi (C V : Type) : Type := {
  chan_new : nat → C;
  chan_send : C → V → C;
  chan_recv : C → option (C * option V);
}.

(** A send to a full channel overwrites the oldest value; the receiver then gets one
    [Lagged] error and goes on with the oldest value that is left. Capacities are
    rounded up to powers of two. *)
Class ChannelLaws (C V : Type) {CH : ChannelApi C V} : Type := {
  capacity : C → nat;
  pending : C → list V;
  lagged : C → bool;
  law_new k : capacity (chan_new (2 ^ k)) = (2 ^ k)%nat ∧ pending (chan_new (2 ^ k)) = [] ∧
    lagged (chan_new (2 ^ k)) = false;
  law_send c v : capacity (chan_send c v) = capacity c ∧
    pending (chan_send c v) = drop (Datatypes.S (length (pending c)) - capacity c) (pending c ++ [v]) ∧
    lagged (chan_send c v) = lagged c || (capacity c <? Datatypes.S (length (pending c)))%nat;
  law_recv c : match chan_recv c with
    | None => lagged c = false ∧ pending c = []
    | Some (c', None) => lagged c = true ∧ lagged c' = false ∧ pending c' = pending c ∧ capacity c' = capacity c
    | Some (c', Some v) => lagged c = false ∧ lagged c' = false ∧ pending c = v :: pending c' ∧ capacity c' = capacity c
    end;
}.

(** ** The tasks *)

Section tasks.
Context {CA : CidrApi} {U : UuidApi} {PA : ProtoApi} {J : JwtApi} {P B C : Type}.
Context {PC : CacheApi P PeerId entry} {BC : CacheApi B (SocketAddr * NetworkId) PeerId}.
Context {CH : ChannelApi C (SocketAddr * NoeioPacket.NoeioPacket)}.
Context (secret : string).

Record ConnectionManager : Type := MkManager {
  peer_manager : PeerManager P B;
  channel : C;
}.

(** [ConnectionManager::new] with the channel [main] makes. *)
Definition new (m : PeerManager P B) : ConnectionManager := MkManager m (chan_new 1).

Definition handle_connect (s : ConnectionManager) (data : list byte) (addr : SocketAddr) : ConnectionManager :=
  match handle_udp_recv data addr with
  | Ok v => MkManager (peer_manager s) (chan_send (channel s) v)
  | Err _ => s
  end.

(** A failed [recv] is logged and the loop goes on. *)
Definition handle_packet_recv (s : ConnectionManager) (now unix : Z) : ConnectionManager * list Datagram :=
  match chan_recv (channel s) with
  | None => (s, [])
  | Some (c, None) => (MkManager (peer_manager s) c, [])
  | Some (c, Some (addr, packet)) =>
      let '(m, out) := packet_recv (peer_manager s) now unix secret addr packet in (MkManager m c, out)
  end.

(** Waits for the trigger. *)
Definition handle_sync (m : PeerManager P B) (now : Z) : PeerManager P B * list Datagram :=
  if PeerManager.trigger m then sync_round m now else (m, []).

(** Takes the next tombstone. *)
Definition handle_gone (m : PeerManager P B) (now : Z) : PeerManager P B * list Datagram :=
  match PeerManager.gone m with
  | [] => (m, [])
  | g :: gs => (PeerManager.MkPeerManager (PeerManager.peers m) (PeerManager.by_addr m) (PeerManager.trigger m) gs,
                gone_round m now g)
  end.

Definition handle_sweep (m : PeerManager P B) (now : Z) : PeerManager P B := PeerManager.sweep m now.

(** The turns of the tasks that only look at the table. *)
Inductive Background : Type := SyncTurn (now : Z) | GoneTurn (now : Z) | SweepTurn (now : Z).
Definition background (m : PeerManager P B) (t : Background) : PeerManager P B * list Datagram :=
  match t with
  | SyncTurn now => handle_sync m now
  | GoneTurn now => handle_gone m now
  | SweepTurn now => (handle_sweep m now, [])
  end.

(** The scheduler's choices, with what the socket and the clock gave. *)
Inductive Turn : Type :=
  | Connect (data : list byte) (addr : SocketAddr)
  | PacketRecv (now unix : Z)
  | Back (t : Background).

Definition turn (s : ConnectionManager) (t : Turn) : ConnectionManager * list Datagram :=
  match t with
  | Connect data addr => (handle_connect s data addr, [])
  | PacketRecv now unix => handle_packet_recv s now unix
  | Back t => let '(m, out) := background (peer_manager s) t in (MkManager m (channel s), out)
  end.

Definition run {X T : Type} (f : X → T → X * list Datagram) (x : X) (ts : list T) : X * list Datagram :=
  foldl (λ '(x, sent) t, let '(x', out) := f x t in (x', sent ++ out)) (x, []) ts.

(** ** The relay as one loop, which handles each datagram at once *)

Inductive Event : Type :=
  | Whole (now unix : Z) (data : list byte) (addr : SocketAddr)
  | Beside (t : Background).
Definition atomic (m : PeerManager P B) (e : Event) : PeerManager P B * list Datagram :=
  match e with
  | Whole now unix data addr => on_datagram m now unix secret data addr
  | Beside t => background m t
  end.

(** What the events and the turns have in common. *)
Definition handled : list Event → list (list byte * SocketAddr) :=
  omap (λ e, match e with Whole _ _ data addr => Some (data, addr) | _ => None end).
Definition arrived : list Turn → list (list byte * SocketAddr) :=
  omap (λ t, match t with Connect data addr => Some (data, addr) | _ => None end).
Definition besides : list Event → list Background := omap (λ e, match e with Beside t => Some t | _ => None end).
Definition backs : list Turn → list Background := omap (λ t, match t with Back t => Some t | _ => None end).
End tasks.

(** ** Facts *)

Section facts.
Context {CA : CidrApi} {U : UuidApi} {PA : ProtoApi} {J : JwtApi} {P B C : Type}.
Context {PC : CacheApi P PeerId entry} {BC : CacheApi B (SocketAddr * NetworkId) PeerId}.
Context {CH : ChannelApi C (SocketAddr * NoeioPacket.NoeioPacket)} {CL : ChannelLaws C (SocketAddr * NoeioPacket.NoeioPacket)}.
Context (secret : string).
Implicit Types (m : PeerManager P B) (s : ConnectionManager (P := P) (B := B) (C := C)).

Lemma run_snoc {X T} (f : X → T → X * list Datagram) x ts t :
  run f x (ts ++ [t]) = ((f (run f x ts).1 t).1, (run f x ts).2 ++ (f (run f x ts).1 t).2).
Proof.
  unfold run. rewrite foldl_app. cbn [foldl]. destruct (foldl _ _ ts) as [x' sent]. cbn [fst snd].
  by destruct (f x' t).
Qed.

Definition accepts (x : list byte * SocketAddr) (v : SocketAddr * NoeioPacket.NoeioPacket) : Prop :=
  handle_udp_recv x.1 x.2 = Ok v.

(** Handling what the socket task accepted is handling the datagram. *)
Lemma accepted_whole m now unix x v : accepts x v →
  on_datagram m now unix secret x.1 x.2 = packet_recv m now unix secret v.1 v.2.
Proof. unfold accepts, on_datagram. intros ->. by destruct v. Qed.

(** The events of a run and the datagrams that still wait. *)
Definition explains m s ts sent (evs : list Event) q : Prop :=
  run (atomic secret) m evs = (peer_manager s, sent) ∧
  Forall2 accepts q (pending (channel s)) ∧
  handled evs ++ q `sublist_of` arrived ts ∧ besides evs = backs ts.

Lemma handled_snoc evs e : handled (evs ++ [e]) = handled evs ++ handled [e].
Proof. apply omap_app. Qed.
Lemma besides_snoc evs e : besides (evs ++ [e]) = besides evs ++ besides [e].
Proof. apply omap_app. Qed.
Lemma arrived_snoc ts t : arrived (ts ++ [t]) = arrived ts ++ arrived [t].
Proof. apply omap_app. Qed.
Lemma backs_snoc ts t : backs (ts ++ [t]) = backs ts ++ backs [t].
Proof. apply omap_app. Qed.

Lemma explained_turn m s ts sent evs q t : explains m s ts sent evs q →
  ∃ evs' q', explains m (turn secret s t).1 (ts ++ [t]) (sent ++ (turn secret s t).2) evs' q'.
Proof.
  intros (Hr & Hq & Hs & Hb). destruct t as [data addr|now unix|t]; cbn [turn].
  - exists evs. unfold handle_connect, explains. rewrite arrived_snoc, backs_snoc, !app_nil_r.
    destruct (handle_udp_recv data addr) as [v|] eqn:Hv; cbn [fst snd]; rewrite ?app_nil_r.
    + exists (drop (Datatypes.S (length (pending (channel s))) - capacity (channel s)) (q ++ [(data, addr)])).
      cbn [peer_manager channel]. destruct (law_send (channel s) v) as (_ & -> & _). split_and!; [done| | |done].
      * apply Forall2_drop. by apply Forall2_app; [|constructor; [|constructor]].
      * trans (handled evs ++ (q ++ [(data, addr)])); [apply sublist_app; [done|apply sublist_drop]|].
        rewrite app_assoc. by apply sublist_app.
    + exists q. split_and!; try done. apply sublist_inserts_r. exact Hs.
  - unfold handle_packet_recv. pose proof (law_recv (channel s)) as Hl. unfold explains.
    rewrite arrived_snoc, backs_snoc. cbn [arrived backs omap list_omap]. rewrite !app_nil_r.
    destruct (chan_recv (channel s)) as [[c [[addr packet]|]]|].
    + destruct Hl as (_ & _ & Hp & _). rewrite Hp in Hq. apply Forall2_cons_inv_r in Hq as (x & q' & Hx & Hq & ->).
      exists (evs ++ [Whole now unix x.1 x.2]), q'. rewrite run_snoc, Hr. cbn [fst snd atomic].
      rewrite (accepted_whole _ _ _ _ _ Hx). cbn [fst snd].
      destruct (packet_recv _ _ _ _ _ _) as [m' out]. cbn [fst snd peer_manager channel].
      rewrite handled_snoc, besides_snoc. cbn [handled besides omap list_omap]. rewrite app_nil_r, <-app_assoc.
      split_and!; try done. destruct x. exact Hs.
    + destruct Hl as (_ & _ & Hp & _). exists evs, q. cbn [fst snd peer_manager channel]. rewrite Hp, app_nil_r. by split_and!.
    + exists evs, q. cbn [fst snd]. rewrite app_nil_r. by split_and!.
  - exists (evs ++ [Beside t]), q. unfold explains. rewrite run_snoc, Hr, handled_snoc, besides_snoc, arrived_snoc, backs_snoc.
    cbn [fst snd atomic handled besides arrived backs omap list_omap]. rewrite !app_nil_r, Hb.
    destruct (background (peer_manager s) t) as [m' out]. by split_and!.
Qed.

(** Nothing waits in the channel of [main]. *)
Definition idle s : Prop := pending (channel s) = [] ∧ lagged (channel s) = false ∧ capacity (channel s) = 1%nat.

Lemma new_idle m : idle (new m).
Proof. destruct (law_new 0) as (Hc & Hp & Hl). by split_and!. Qed.

Lemma run_explained m ts : ∃ evs q, explains m (run (turn secret) (new m) ts).1 ts (run (turn secret) (new m) ts).2 evs q.
Proof.
  induction ts as [|t ts (evs & q & IH)] using rev_ind.
  - exists [], []. destruct (new_idle m) as [Hp _]. split_and!; [done| |done|done]. cbn. cbn in Hp. rewrite Hp. constructor.
  - rewrite run_snoc. by eapply explained_turn.
Qed.

Lemma run_app {X T} (f : X → T → X * list Datagram) x l k :
  run f x (l ++ k) = ((run f (run f x l).1 k).1, (run f x l).2 ++ (run f (run f x l).1 k).2).
Proof.
  induction k as [|t k IH] using rev_ind; [rewrite !app_nil_r; by destruct (run f x l)|].
  rewrite app_assoc, !run_snoc, IH. cbn [fst snd]. by rewrite app_assoc.
Qed.

(** A datagram that is taken out of the channel before the next one comes. *)
Lemma taken_at_once s now unix data addr : idle s → let r := run (turn secret) s [Connect data addr; PacketRecv now unix] in
  idle r.1 ∧ (peer_manager r.1, r.2) = on_datagram (peer_manager s) now unix secret data addr.
Proof.
  intros (Hp & Hl & Hc). unfold run. cbn [foldl turn]. unfold handle_connect, handle_packet_recv, on_datagram.
  destruct (handle_udp_recv data addr) as [[a p]|].
  - cbn [channel peer_manager]. destruct (law_send (channel s) (a, p)) as (Hc' & Hp' & Hl').
    rewrite Hp, Hc in Hp', Hl'. cbn in Hp'. rewrite Hl in Hl'. cbn in Hl'.
    pose proof (law_recv (chan_send (channel s) (a, p))) as Hr.
    destruct (chan_recv _) as [[c [[a' p']|]]|]; [|destruct Hr; congruence|destruct Hr; congruence].
    destruct Hr as (_ & Hlc & Hpc & Hcc). rewrite Hp' in Hpc. injection Hpc as <- <- Hpc.
    destruct (packet_recv _ _ _ _ _ _) as [m' out]. cbn. split; [|done]. split_and!; [done|done|cbn; congruence].
  - pose proof (law_recv (channel s)) as Hr. destruct (chan_recv _) as [[c [[a' p']|]]|];
      [destruct Hr as (_ & _ & Hr & _); congruence|destruct Hr; congruence|]. by cbn.
Qed.

(** Datagrams that come while the packet task is busy. *)
Lemma burst s xs : idle s → let r := run (turn secret) s (map (λ x, Connect x.1 x.2) xs) in
  let valid := omap (λ x, result_ok (handle_udp_recv x.1 x.2)) xs in
  r.2 = [] ∧ peer_manager r.1 = peer_manager s ∧ capacity (channel r.1) = 1%nat ∧
  pending (channel r.1) = option_list (last valid) ∧ lagged (channel r.1) = (1 <? length valid)%nat.
Proof.
  intros (Hp & Hl & Hc). induction xs as [|[data addr] xs IH] using rev_ind; [by split_and!|].
  destruct IH as (Ho & Hm & Hcc & Hpp & Hll). rewrite map_app, omap_app. cbv zeta.
  cbn [map fst snd]. rewrite run_snoc. cbn [turn fst snd]. rewrite Ho. unfold handle_connect. cbn [omap list_omap fst snd].
  destruct (handle_udp_recv data addr) as [v|]; cbn [result_ok fst snd]; [|by rewrite !app_nil_r].
  cbn [channel peer_manager]. destruct (law_send (channel (run (turn secret) s (map (λ x, Connect x.1 x.2) xs)).1) v)
    as (H1 & H2 & H3). rewrite Hpp, Hcc in H2. rewrite Hpp, Hcc, Hll in H3.
  split; [done|]. split; [done|]. split; [congruence|]. rewrite last_snoc, length_app. cbn [length option_list].
  destruct (omap _ xs) as [|v0 l] eqn:E using rev_ind; [by rewrite H2, H3|].
  rewrite last_snoc in H2, H3. rewrite H2, H3. split; [done|]. rewrite length_app. cbn [length option_list].
  rewrite orb_true_r. symmetry. apply Nat.ltb_lt. lia.
Qed.

Lemma run_two {X T} (f : X → T → X * list Datagram) x a b :
  run f x [a; b] = ((f (f x a).1 b).1, (f x a).2 ++ (f (f x a).1 b).2).
Proof. unfold run. cbn [foldl]. destruct (f x a) as [x1 o1]. cbn. by destruct (f x1 b). Qed.

(** One turn of the packet task, when at most one packet waits. *)
Lemma packet_turn s now unix v : pending (channel s) = option_list v → let r := handle_packet_recv secret s now unix in
  pending (channel r.1) = option_list (if lagged (channel s) then v else None) ∧ lagged (channel r.1) = false ∧
  (peer_manager r.1, r.2) =
    match (if lagged (channel s) then None else v) with
    | Some (addr, packet) => packet_recv (peer_manager s) now unix secret addr packet
    | None => (peer_manager s, [])
    end.
Proof.
  intros Hp. unfold handle_packet_recv. pose proof (law_recv (channel s)) as Hr.
  destruct (chan_recv (channel s)) as [[c1 [[a p]|]]|].
  - destruct Hr as (-> & Hl & Hpc & _). rewrite Hp in Hpc. destruct v as [[a' p']|]; [|done].
    injection Hpc as -> -> Hpc. by destruct (packet_recv _ _ _ _ _ _).
  - destruct Hr as (-> & Hl & Hpc & _). rewrite Hp in Hpc. by cbn.
  - destruct Hr as [Hl Hr]. rewrite Hl, Hr in *. by destruct v.
Qed.

(** Two turns of the packet task empty the channel. *)
Lemma two_turns m (c : C) v now unix : pending c = option_list v →
  let r := run (turn secret) (MkManager m c) [PacketRecv now unix; PacketRecv now unix] in
  (peer_manager r.1, [] ++ r.2) = match v with
    | Some (addr, packet) => packet_recv m now unix secret addr packet
    | None => (m, [])
    end.
Proof.
  intros Hp. cbv zeta. rewrite run_two. cbn [turn fst snd app].
  destruct (packet_turn (MkManager m c) now unix v Hp) as (Hp1 & Hl1 & E1).
  destruct (handle_packet_recv secret (MkManager m c) now unix) as [s1 o1]. cbn [fst snd channel peer_manager] in *.
  destruct (packet_turn s1 now unix _ Hp1) as (_ & _ & E2).
  destruct (handle_packet_recv secret s1 now unix) as [s2 o2]. rewrite Hl1 in E2. cbn [fst snd] in *.
  destruct (lagged c).
  - injection E1 as E1 Eo. rewrite E1 in E2. subst o1. exact E2.
  - injection E2 as E2 Eo. rewrite E2, Eo, app_nil_r. exact E1.
Qed.
End facts.

(** ** Stopping *)

Inductive Task : Type := ConnectTask | PacketTask | SyncTask | GoneTask | SweepTask.
#[export] Instance Task_eq_dec : EqDecision Task.
Proof. solve_decision. Defined.

(** The task set of the relay, whether it was told to stop, and whether its manager
    is still there. *)
Record Pool : Type := MkPool {
  tasks : list Task;
  signalled : bool;
  owner : bool;
}.

(** What [ConnectionManager::new] spawns. *)
Definition spawned : Pool := MkPool [ConnectTask; PacketTask; SyncTask; GoneTask; SweepTask] false true.

(** The table carries the sending end of the tombstones' channel; every task but the
    socket's holds the table, as the manager does. *)
Definition holds_table (t : Task) : bool := match t with ConnectTask => false | _ => true end.
Definition gone_open (p : Pool) : bool := owner p || existsb holds_table (tasks p).

(** Whether a task's loop can be left now. *)
Definition may_end (p : Pool) (t : Task) : bool :=
  match t with
  | ConnectTask | SweepTask => signalled p
  | PacketTask | SyncTask => false
  | GoneTask => negb (gone_open p)
  end.

Inductive pool_step (p : Pool) : Pool → Prop :=
  | step_signal : pool_step p (MkPool (tasks p) true (owner p))
  | step_release : pool_step p (MkPool (tasks p) (signalled p) false)
  | step_end t : t ∈ tasks p → may_end p t = true →
      pool_step p (MkPool (List.filter (λ t', negb (bool_decide (t' = t))) (tasks p)) (signalled p) (owner p)).

(** [ConnectionManager::shutdown] returns when every task has been joined; [main] waits
    three seconds for it and then drops it, which aborts the tasks. *)
Definition shutdown (p : Pool) : bool := bool_decide (tasks p = []).

Definition lasting (p : Pool) : Prop := PacketTask ∈ tasks p ∧ SyncTask ∈ tasks p ∧ GoneTask ∈ tasks p.

Lemma lasting_step p p' : lasting p → pool_step p p' → lasting p'.
Proof.
  intros Hl Hs. destruct Hs as [| |t Ht Hm]; [done|done|].
  assert (∀ u, u ∈ tasks p → u ≠ t → u ∈ List.filter (λ t', negb (bool_decide (t' = t))) (tasks p)) as Hkeep.
  { intros u Hu Hne. apply list_elem_of_In, filter_In. split; [by apply list_elem_of_In|].
    by rewrite bool_decide_eq_false_2. }
  destruct Hl as (Hp & Hsy & Hg).
  assert (gone_open p = true) as Ho.
  { unfold gone_open. apply orb_true_iff. right. apply existsb_exists. exists GoneTask.
    split; [by apply list_elem_of_In|done]. }
  split_and!; apply Hkeep; try done; intros <-; cbn in Hm; [done|done|by rewrite Ho in Hm].
Qed.

(** A task that may end, ends. *)
Lemma ended p t : may_end p t = true → ∃ p', rtc pool_step p p' ∧ signalled p' = signalled p ∧ t ∉ tasks p' ∧
  ∀ u, u ∈ tasks p' → u ∈ tasks p.
Proof.
  intros Hm. destruct (decide (t ∈ tasks p)) as [Ht|Ht]; [|by exists p].
  eexists. split; [by apply rtc_once, step_end|]. cbn. split; [done|]. split.
  - intros [_ Hf]%list_elem_of_In%filter_In. by rewrite bool_decide_eq_true_2 in Hf.
  - intros u [Hu _]%list_elem_of_In%filter_In. by apply list_elem_of_In.
Qed.

(** ** Properties *)

Section properties.
Context {CA : CidrApi} {U : UuidApi} {PA : ProtoApi} {J : JwtApi} {P B C : Type}.
Context {PC : CacheApi P PeerId entry} {BC : CacheApi B (SocketAddr * NetworkId) PeerId}.
Context {CH : ChannelApi C (SocketAddr * NoeioPacket.NoeioPacket)} {CL : ChannelLaws C (SocketAddr * NoeioPacket.NoeioPacket)}.

(** C18. However the relay's tasks interleave, it behaves as one loop that handles each
    datagram at once - on some of the datagrams: those it handles are handled in the
    order they came, each at most once, and the other tasks' turns fall between them as
    they did. All of them are handled when the packet task gets a turn after every one.
    But the channel between the tasks holds one packet: of datagrams that come while
    the packet task is busy only the last that is well formed is handled, the others
    are lost whatever they were. *)
Theorem relay_interleaving secret (m : PeerManager P B) :
  (∀ ts, let r := run (turn (C := C) secret) (new m) ts in
     ∃ evs, run (atomic secret) m evs = (peer_manager r.1, r.2) ∧
       handled evs `sublist_of` arrived ts ∧ besides evs = backs ts) ∧
  (∀ xs, let r := run (turn (C := C) secret) (new m)
            (flat_map (λ '(now, unix, data, addr), [Connect data addr; PacketRecv now unix]) xs) in
     run (atomic secret) m (map (λ '(now, unix, data, addr), Whole now unix data addr) xs) = (peer_manager r.1, r.2)) ∧
  (∀ xs now unix, let r := run (turn (C := C) secret) (new m)
            (map (λ x, Connect x.1 x.2) xs ++ [PacketRecv now unix; PacketRecv now unix]) in
     (peer_manager r.1, r.2) =
       match last (omap (λ x, result_ok (handle_udp_recv x.1 x.2)) xs) with
       | Some (addr, packet) => packet_recv m now unix secret addr packet
       | None => (m, [])
       end).
Proof.
  split; [|split].
  - intros ts. destruct (run_explained secret m ts) as (evs & q & Hr & _ & Hs & Hb). exists evs.
    split; [done|]. split; [|done]. trans (handled evs ++ q); [by apply sublist_inserts_r|done].
  - intros xs. cbv zeta. assert (idle (run (turn (C := C) secret) (new m) (flat_map (λ '(now, unix, data, addr),
      [Connect data addr; PacketRecv now unix]) xs)).1 ∧ run (atomic secret) m (map (λ '(now, unix, data, addr),
      Whole now unix data addr) xs) = (peer_manager (run (turn (C := C) secret) (new m) (flat_map
      (λ '(now, unix, data, addr), [Connect data addr; PacketRecv now unix]) xs)).1, (run (turn (C := C) secret)
      (new m) (flat_map (λ '(now, unix, data, addr), [Connect data addr; PacketRecv now unix]) xs)).2)) as [_ H];
      [|exact H].
    induction xs as [|[[[now unix] data] addr] xs [Hi IH]] using rev_ind; [split; [apply new_idle|done]|].
    rewrite flat_map_app, map_app. cbn [flat_map map app]. rewrite run_snoc, run_app, IH. cbn [fst snd atomic].
    destruct (taken_at_once secret _ now unix data addr Hi) as [Hi' Ht]. by rewrite <-Ht.
  - intros xs now unix. cbv zeta. rewrite run_app. cbn [fst snd].
    destruct (burst secret (new m) xs (new_idle m)) as (-> & Hm & _ & Hp & _).
    destruct (run (turn secret) (new m) (map _ xs)) as [[m1 c] o]. cbn [fst snd peer_manager channel] in *. rewrite Hm.
    exact (two_turns secret m c _ now unix Hp).
Qed.
End properties.

(** The relay never stops by itself. Three of its five tasks have no way out:
    the packet task and the broadcaster do not watch the shutdown flag, and the
    tombstone task waits for a channel to close that its own reference to the table
    keeps open. Whatever happens after the signal - the other two do end - [shutdown]
    does not return, so [main] always waits out its three seconds and lets the
    tasks be aborted. *)
Theorem shutdown_times_out p : rtc pool_step spawned p →
  shutdown p = false ∧ PacketTask ∈ tasks p ∧ SyncTask ∈ tasks p ∧ GoneTask ∈ tasks p ∧
  ∃ p', rtc pool_step p p' ∧ signalled p' = true ∧
    ∀ t, t ∈ tasks p' → t = PacketTask ∨ t = SyncTask ∨ t = GoneTask.
Proof.
  intros Hr. assert (lasting p) as (Hp & Hs & Hg).
  { revert p Hr. apply (rtc_ind_r lasting spawned); [repeat split; cbn; set_solver|].
    intros q1 q2 _ Hs IH. by eapply lasting_step. }
  split; [apply bool_decide_eq_false; intros E; rewrite E in Hp; by apply not_elem_of_nil in Hp|].
  split; [done|]. split; [done|]. split; [done|].
  destruct (ended (MkPool (tasks p) true (owner p)) ConnectTask eq_refl) as (p1 & H1 & Hs1 & Hn1 & Hk1).
  destruct (ended p1 SweepTask Hs1) as (p2 & H2 & Hs2 & Hn2 & Hk2). exists p2. split; [|split].
  - eapply rtc_l; [apply step_signal|]. by trans p1.
  - by rewrite Hs2.
  - intros [] Ht; auto; [|done]. by apply Hk2 in Ht.
Qed.

(** Told to stop, with the socket's task gone. *)
Lemma shutdown_times_out_witness :
  let p := MkPool [PacketTask; SyncTask; GoneTask; SweepTask] true true in rtc pool_step spawned p ∧ shutdown p = false.
Proof.
  cbv zeta. assert (rtc pool_step spawned (MkPool [PacketTask; SyncTask; GoneTask; SweepTask] true true)) as Hr.
  { eapply rtc_l; [apply step_signal|]. apply rtc_once.
    apply (step_end (MkPool (tasks spawned) true true) ConnectTask); [by left|done]. }
  split; [exact Hr|]. exact (proj1 (shutdown_times_out _ Hr)).
Defined.

Module Example.
(** A ring: its capacity, what it holds and whether something was overwritten. *)
Definition Ring (V : Type) : Type := nat * list V * bool.
#[export] Instance ring {V} : ChannelApi (Ring V) V := {|
  chan_new n := (n, [], false);
  chan_send '(n, l, b) v := (n, drop (Datatypes.S (length l) - n) (l ++ [v]), b || (n <? Datatypes.S (length l))%nat);
  chan_recv '(n, l, b) :=
    if (b : bool) then Some (n, l, false, None) else match l with [] => None | v :: l => Some (n, l, false, Some v) end |}.
#[export] Instance ring_laws {V} : ChannelLaws (Ring V) V.
Proof.
  apply (Build_ChannelLaws _ _ _ (λ c, c.1.1) (λ c, c.1.2) (λ c, c.2)).
  - done.
  - by intros [[n l] b] v.
  - by intros [[n [|v l]] []].
Defined.
End Example.
