(* ===== verification/DerperClient.v ===== *)
(** [noeio/src/daemon/derper.rs]: the node's side of the relays. Every relay has a
    probe task that pings it; a ranking task makes the fastest answering one the
    current. Entries are shared ([Arc]) between three indexes, so the model keeps
    them in a store and the indexes hold handles. *)

From Stdlib Require Import ZArith Lia.
From Stdlib Require Import Strings.Byte Strings.String.
From stdpp Require Import base list strings gmap fin_maps sets.
From S2P Require Import Prelude NetTypes Packet.

Local Open Scope Z_scope.

Definition U64_UNSET : Z := U64_MAX.
(** In milliseconds. *)
Definition PROBE_INTERVAL : Z := 20000.
Definition PROBE_TIMEOUT : Z := 5000.
Definition MAX_PROBE_MISSES : Z := 3.
Definition TS_LEN : nat := 8.

(** What [lookup_host] gives: [None] when resolution fails. *)
Definition resolve_addr (lookup : option (list SocketAddr)) : option SocketAddr :=
  addrs ← lookup;
  match find sock_is_ipv4 addrs with
  | Some a => Some a
  | None => head addrs
  end.

Record ResolvedDerper : Type := MkResolved {
  r_address : string;
  r_token : string;
  r_addr : SocketAddr;
  r_rtt_ms : option Z;
}.

(** ** One relay and its probe *)

Module DerperEntry.
(** [pong] is the capacity-one pong channel, [misses] the probe's counter; [done]
    counts what the probe put on the ranking task's channel. *)
Record DerperEntry : Type := MkEntry {
  address : string;
  token : string;
  addr : option SocketAddr;
  rtt_ms : Z;
  last_ping_ts : Z;
  pong : option Z;
  misses : Z;
}.

Definition new (addr_ token_ : string) (lookup : option (list SocketAddr)) : DerperEntry :=
  MkEntry addr_ token_ (resolve_addr lookup) U64_UNSET U64_UNSET None 0.

Definition rtt (e : DerperEntry) : option Z :=
  if rtt_ms e =? U64_UNSET then None else Some (rtt_ms e).

Definition resolved (e : DerperEntry) : option ResolvedDerper :=
  a ← addr e;
  Some (MkResolved (address e) (token e) a
          (if rtt_ms e =? U64_UNSET then None else Some (rtt_ms e))).

Definition set_pong (e : DerperEntry) (p : option Z) : DerperEntry :=
  MkEntry (address e) (token e) (addr e) (rtt_ms e) (last_ping_ts e) p (misses e).
Definition set_rtt (e : DerperEntry) (r : Z) : DerperEntry :=
  MkEntry (address e) (token e) (addr e) r (last_ping_ts e) (pong e) (misses e).
Definition set_misses (e : DerperEntry) (m : Z) : DerperEntry :=
  MkEntry (address e) (token e) (addr e) (rtt_ms e) (last_ping_ts e) (pong e) m.

Definition on_pong (e : DerperEntry) (echo_ts : Z) : DerperEntry :=
  let sent := last_ping_ts e in
  if (sent =? U64_UNSET) || negb (echo_ts =? sent) then e
  else match pong e with
       | None => set_pong e (Some echo_ts)
       | Some _ => e
       end.

(** The first half of a probe round: the timestamp is published, the channel
    drained and the ping built. *)
Definition probe_start (e : DerperEntry) (ts : Z) : DerperEntry * list byte :=
  (MkEntry (address e) (token e) (addr e) (rtt_ms e) ts None (misses e),
   NoeioPacket.inner (NoeioPacket.new (Header TunnelPing 0 0) (be_bytes 8 ts))).

(** [record_miss]; the flag says whether the ranking task is woken. *)
Definition record_miss (e : DerperEntry) : DerperEntry * bool :=
  let e := set_misses e (saturating_add 32 (misses e) 1) in
  if misses e =? MAX_PROBE_MISSES then (set_rtt e U64_UNSET, true) else (e, false).

Definition accept_pong (e : DerperEntry) (echo sent_ts elapsed : Z) : DerperEntry * bool :=
  if negb (echo =? sent_ts) then (e, false) else (set_rtt e elapsed, true).

(** How a round ends: the send failed, a pong was received after [elapsed]
    milliseconds, or none came. *)
Inductive Outcome : Type := SendFailed | Received (elapsed : Z) | Elapsed.

Definition probe_end (e : DerperEntry) (ts : Z) (o : Outcome) : DerperEntry * bool :=
  match o with
  | SendFailed | Elapsed => record_miss e
  | Received elapsed =>
      match pong e with
      | None => record_miss e
      | Some echo =>
          let e := set_pong e None in
          let '(e, ok) := accept_pong e echo ts elapsed in
          if ok then (set_misses e 0, true) else record_miss e
      end
  end.
End DerperEntry.
Notation DerperEntry := DerperEntry.DerperEntry.

(** ** The relays of the node *)

Module DerperManager.
(** [store] holds the entries; [servers], [by_addr] and [ordered] their handles. *)
Record DerperManager : Type := MkManager {
  store : gmap nat DerperEntry;
  next : nat;
  servers : gmap string nat;
  by_addr : gmap SocketAddr nat;
  ordered : list nat;
  current : option ResolvedDerper;
  probe_done : bool;
}.

Definition entries (m : DerperManager) : list DerperEntry :=
  omap (λ h, store m !! h) (ordered m).

(** [find_map] over the order. *)
Definition first_resolved (l : list DerperEntry) : option ResolvedDerper :=
  head (omap DerperEntry.resolved l).

(** One configured or appended server. *)
Definition push (m : DerperManager) (e : DerperEntry) : DerperManager :=
  let h := next m in
  MkManager (<[h := e]> (store m)) (S h) (<[DerperEntry.address e := h]> (servers m))
    (match DerperEntry.addr e with
     | Some a => <[a := h]> (by_addr m)
     | None => by_addr m
     end)
    (ordered m ++ [h]) (current m) (probe_done m).

Definition new (l : list DerperEntry) : DerperManager :=
  let m := fold_left push l (MkManager ∅ 0 ∅ ∅ [] None false) in
  MkManager (store m) (next m) (servers m) (by_addr m) (ordered m)
    (first_resolved (entries m)) false.

Definition append_derper_server (m : DerperManager) (e : DerperEntry) : DerperManager := push m e.

Definition set_store (m : DerperManager) (s : gmap nat DerperEntry) : DerperManager :=
  MkManager s (next m) (servers m) (by_addr m) (ordered m) (current m) (probe_done m).
Definition notify (m : DerperManager) (b : bool) : DerperManager :=
  MkManager (store m) (next m) (servers m) (by_addr m) (ordered m) (current m) (probe_done m || b).

Definition dispatch_pong (m : DerperManager) (addr : SocketAddr) (echo_ts : Z) :
    DerperManager * bool :=
  match by_addr m !! addr with
  | Some h => (set_store m (alter (λ e, DerperEntry.on_pong e echo_ts) h (store m)), true)
  | None => (m, false)
  end.

(** A round of the probe task of entry [h], which ran while [between] happened. *)
Definition probe_begin (m : DerperManager) (h : nat) (ts : Z) : DerperManager :=
  set_store m (alter (λ e, (DerperEntry.probe_start e ts).1) h (store m)).
Definition probe_finish (m : DerperManager) (h : nat) (ts : Z) (o : DerperEntry.Outcome) :
    DerperManager :=
  match store m !! h with
  | None => m
  | Some e =>
      let '(e, woken) := DerperEntry.probe_end e ts o in
      notify (set_store m (<[h := e]> (store m))) woken
  end.

Definition best (l : list DerperEntry) : option ResolvedDerper :=
  match min_by_key fst
          (omap (λ e, t ← DerperEntry.rtt e; r ← DerperEntry.resolved e; Some (t, r)) l) with
  | Some (_, r) => Some r
  | None => first_resolved l
  end.

(** One wake-up of the ranking task. *)
Definition rank_turn (m : DerperManager) : DerperManager :=
  MkManager (store m) (next m) (servers m) (by_addr m) (ordered m) (best (entries m)) false.

Definition remove_derper_server (m : DerperManager) (address : string) : DerperManager * bool :=
  match servers m !! address with
  | None => (m, false)
  | Some h =>
      let by_addr' := match store m !! h ≫= DerperEntry.addr with
                      | Some a => delete a (by_addr m)
                      | None => by_addr m
                      end in
      (MkManager (store m) (next m) (delete address (servers m)) by_addr'
         (filter (λ h', (DerperEntry.address <$> store m !! h') ≠ Some address) (ordered m))
         (current m) true, true)
  end.

Definition list_ (m : DerperManager) : list ResolvedDerper := omap DerperEntry.resolved (entries m).
End DerperManager.
Notation DerperManager := DerperManager.DerperManager.

(** ** Ranking *)

Lemma head_omap_None {X Y} (f : X → option Y) l : head (omap f l) = None ↔ ∀ x, x ∈ l → f x = None.
Proof.
  induction l as [|x l IH]; [split; [by intros _ x ?%not_elem_of_nil|done]|]. cbn.
  destruct (f x) as [y|] eqn:Hx; cbn.
  - split; [done|]. intros Hall. rewrite Hall in Hx by left. done.
  - rewrite IH. split; [|set_solver]. intros Hall z [->|Hz]%elem_of_cons; auto.
Qed.

Lemma head_omap_Some {X Y} (f : X → option Y) l y :
  head (omap f l) = Some y → ∃ x, x ∈ l ∧ f x = Some y.
Proof.
  intros Hh. assert (y ∈ omap f l) as (x & Hx & Hf)%list_elem_of_omap; [|eauto].
  destruct (omap f l); [done|]. injection Hh as ->. left.
Qed.

Section ranking.
Import DerperManager.
Implicit Types (l : list DerperEntry) (e : DerperEntry).

Definition measured l : list (Z * ResolvedDerper) :=
  omap (λ e, t ← DerperEntry.rtt e; r ← DerperEntry.resolved e; Some (t, r)) l.

Lemma elem_measured l t r :
  (t, r) ∈ measured l ↔
  ∃ e, e ∈ l ∧ DerperEntry.rtt e = Some t ∧ DerperEntry.resolved e = Some r.
Proof.
  unfold measured. rewrite list_elem_of_omap. split.
  - intros (e & He & Hf). destruct (DerperEntry.rtt e) as [t'|] eqn:Ht; [|done].
    destruct (DerperEntry.resolved e) as [r'|] eqn:Hr; [|done]. cbn in Hf. injection Hf as -> ->. eauto.
  - intros (e & He & Ht & Hr). exists e. split; [done|]. by rewrite Ht, Hr.
Qed.

Lemma best_spec l :
  match min_by_key fst (measured l) with
  | Some (t, r) => best l = Some r ∧ (t, r) ∈ measured l ∧ ∀ t' r', (t', r') ∈ measured l → t ≤ t'
  | None => best l = first_resolved l ∧ measured l = []
  end.
Proof.
  unfold best. fold (measured l). destruct (min_by_key fst (measured l)) as [[t r]|] eqn:Hm.
  - apply min_by_key_Some in Hm as [Hin Hle]. split; [done|]. split; [done|].
    intros t' r' Ht'. exact (Hle _ Ht').
  - by apply min_by_key_None in Hm.
Qed.

Lemma best_None l : best l = None ↔ ∀ e, e ∈ l → DerperEntry.resolved e = None.
Proof.
  pose proof (best_spec l) as Hb. destruct (min_by_key fst (measured l)) as [[t r]|].
  - destruct Hb as (-> & (e & He & _ & Hr)%elem_measured & _). split; [done|].
    intros Hall. rewrite Hall in Hr by done. done.
  - destruct Hb as [-> _]. apply head_omap_None.
Qed.
End ranking.

(** ** Probing *)

Section probing.
Import DerperEntry.
Implicit Types (e : DerperEntry) (ts : Z).

(** A probe round: pongs handed over by the reader while it waits, and its end. *)
Definition round e ts (pongs : list Z) (o : Outcome) : DerperEntry * bool :=
  probe_end (fold_left on_pong pongs (probe_start e ts).1) ts o.

Lemma on_pongs e pongs : ∃ p,
  fold_left on_pong pongs e = set_pong e p ∧
  p = match pong e with
      | Some q => Some q
      | None => if decide (last_ping_ts e ≠ U64_UNSET ∧ last_ping_ts e ∈ pongs)
                then Some (last_ping_ts e) else None
      end.
Proof.
  revert e. induction pongs as [|q pongs IH]; intros e.
  - exists (pong e). split; [by destruct e|]. destruct (pong e); [done|].
    rewrite decide_False; [done|]. by intros [_ ?%not_elem_of_nil].
  - cbn [fold_left]. unfold on_pong at 2.
    destruct (Z.eqb_spec (last_ping_ts e) U64_UNSET) as [Hu|Hu]; cbn [orb].
    { destruct (IH e) as (p & Hp & ->). eexists. split; [exact Hp|].
      destruct (pong e); [done|]. by rewrite !decide_False by tauto. }
    destruct (Z.eqb_spec q (last_ping_ts e)) as [->|Hq]; cbn [negb].
    + destruct (pong e) as [q'|] eqn:Hpong.
      * destruct (IH e) as (p & Hp & Heq). rewrite Hpong in Heq. subst p. eexists. split; [exact Hp|done].
      * destruct (IH (set_pong e (Some (last_ping_ts e)))) as (p & Hp & Heq). subst p.
        eexists. split; [exact Hp|]. cbn. rewrite decide_True; [done|]. split; [done|left].
    + destruct (IH e) as (p & Hp & ->). eexists. split; [exact Hp|]. destruct (pong e); [done|].
      apply decide_ext. rewrite elem_of_cons. intuition congruence.
Qed.

Lemma round_answered e ts pongs elapsed :
  ts ≠ U64_UNSET → ts ∈ pongs →
  round e ts pongs (Received elapsed) =
    (MkEntry (address e) (token e) (addr e) elapsed ts None 0, true).
Proof.
  intros Hu Hin. unfold round. destruct (on_pongs (probe_start e ts).1 pongs) as (p & -> & ->).
  cbn [probe_start fst pong last_ping_ts]. rewrite decide_True by done.
  unfold probe_end. cbn [set_pong pong]. unfold accept_pong. by rewrite Z.eqb_refl.
Qed.

(** No answer to this round's ping. *)
Definition missed ts (pongs : list Z) (o : Outcome) : Prop :=
  match o with Received _ => ts ∉ pongs | _ => True end.

Lemma round_missed e ts pongs o : missed ts pongs o →
  ∃ p, round e ts pongs o =
    (MkEntry (address e) (token e) (addr e)
       (if saturating_add 32 (misses e) 1 =? MAX_PROBE_MISSES then U64_UNSET else rtt_ms e)
       ts p (saturating_add 32 (misses e) 1),
     saturating_add 32 (misses e) 1 =? MAX_PROBE_MISSES).
Proof.
  intros Hm. unfold round. destruct (on_pongs (probe_start e ts).1 pongs) as (p & -> & ->).
  cbn [probe_start fst pong last_ping_ts]. unfold probe_end, record_miss.
  destruct o as [|elapsed|]; [| |].
  1,3: cbn [set_pong set_misses misses set_rtt address token addr rtt_ms pong];
       destruct (_ =? MAX_PROBE_MISSES); by eexists.
  cbn in Hm. rewrite decide_False by tauto.
  cbn [set_pong set_misses misses set_rtt address token addr rtt_ms pong];
       destruct (_ =? MAX_PROBE_MISSES); by eexists.
Qed.

(** Rounds without an answer, one after the other. *)
Fixpoint silence e (rounds : list (Z * list Z * Outcome)) : DerperEntry * nat :=
  match rounds with
  | [] => (e, 0%nat)
  | (ts, pongs, o) :: rounds =>
      let '(e, woken) := round e ts pongs o in
      let '(e, n) := silence e rounds in
      (e, if woken : bool then S n else n)
  end.

Lemma silence_spec e rounds :
  is_uint 32 (misses e) → Forall (λ '(ts, pongs, o), missed ts pongs o) rounds →
  let n := Z.of_nat (length rounds) in
  let r := silence e rounds in
  misses r.1 = Z.min (2 ^ 32 - 1) (misses e + n) ∧
  rtt_ms r.1 = (if (misses e <? MAX_PROBE_MISSES) && (MAX_PROBE_MISSES <=? misses e + n)
                then U64_UNSET else rtt_ms e) ∧
  r.2 = (if (misses e <? MAX_PROBE_MISSES) && (MAX_PROBE_MISSES <=? misses e + n) then 1%nat else 0%nat) ∧
  address r.1 = address e ∧ token r.1 = token e ∧ addr r.1 = addr e.
Proof.
  intros Hm Hr. revert e Hm.
  induction Hr as [|[[ts pongs] o] rounds Hmiss Hr IH]; intros e Hm; cbn zeta in *.
  - cbn [length silence fst snd]. unfold is_uint, MAX_PROBE_MISSES in *. change (Z.of_nat 0) with 0.
    destruct (Z.ltb_spec (misses e) 3), (Z.leb_spec 3 (misses e + 0)); cbn [andb];
      split_and!; (done || lia).
  - cbn [silence]. destruct (round_missed e ts pongs o Hmiss) as (p & ->).
    set (e1 := MkEntry _ _ _ _ _ _ _). assert (is_uint 32 (misses e1)) as Hm1.
    { cbn. unfold is_uint, saturating_add in *. lia. }
    specialize (IH e1 Hm1). destruct (silence e1 rounds) as [e2 k]. cbn [fst snd] in *.
    destruct IH as (IHm & IHr & IHk & IHa & IHt & IHad).
    cbn [misses rtt_ms address token addr e1] in *. cbn [length]. rewrite Nat2Z.inj_succ.
    rewrite IHm, IHr, IHk, IHa, IHt, IHad. unfold saturating_add, is_uint, MAX_PROBE_MISSES in *.
    pose proof (Nat2Z.is_nonneg (length rounds)).
    destruct (Z.eqb_spec (Z.min (2 ^ 32 - 1) (misses e + 1)) 3),
      (Z.ltb_spec (Z.min (2 ^ 32 - 1) (misses e + 1)) 3),
      (Z.leb_spec 3 (Z.min (2 ^ 32 - 1) (misses e + 1) + Z.of_nat (length rounds))),
      (Z.ltb_spec (misses e) 3), (Z.leb_spec 3 (misses e + Z.succ (Z.of_nat (length rounds))));
      cbn [andb]; split_and!; (done || lia).
Qed.
End probing.

(** ** Properties *)

(** C40. The current relay is the fastest one that answers: after every ranking turn
    it is a resolvable relay of the list, none measured being faster; with none
    measured it is the first resolvable one; it is absent only when none resolves.
    An answered ping sets the entry's round trip and clears its misses; without
    answers the measurement stands until the third consecutive miss, which erases it
    and wakes the ranking once, and only once however long the silence lasts. *)
Theorem derper_ranking :
  (∀ m, let m' := DerperManager.rank_turn m in
     (DerperManager.current m' = None ↔
        ∀ e, e ∈ DerperManager.entries m → DerperEntry.addr e = None) ∧
     (∀ r, DerperManager.current m' = Some r →
        ∃ e, e ∈ DerperManager.entries m ∧ DerperEntry.resolved e = Some r ∧
          ∀ e' t', e' ∈ DerperManager.entries m → DerperEntry.addr e' ≠ None →
            DerperEntry.rtt e' = Some t' → ∃ t, r_rtt_ms r = Some t ∧ t ≤ t')) ∧
  (∀ e ts pongs elapsed, ts ≠ U64_UNSET → ts ∈ pongs →
     let r := round e ts pongs (DerperEntry.Received elapsed) in
     DerperEntry.rtt_ms r.1 = elapsed ∧ DerperEntry.misses r.1 = 0 ∧ r.2 = true) ∧
  (∀ e rounds, DerperEntry.misses e = 0 →
     Forall (λ '(ts, pongs, o), missed ts pongs o) rounds →
     let r := silence e rounds in
     DerperEntry.rtt_ms r.1 = (if (length rounds <? 3)%nat then DerperEntry.rtt_ms e else U64_UNSET) ∧
     r.2 = (if (length rounds <? 3)%nat then 0 else 1)%nat).
Proof.
  split; [intros m; split|split].
  - unfold DerperManager.rank_turn. cbn [DerperManager.current]. rewrite best_None.
    unfold DerperEntry.resolved. split; intros Hall e He; specialize (Hall e He).
    + by destruct (DerperEntry.addr e).
    + by rewrite Hall.
  - intros r Hr. unfold DerperManager.rank_turn in Hr. cbn [DerperManager.current] in Hr.
    pose proof (best_spec (DerperManager.entries m)) as Hb.
    destruct (min_by_key fst (measured _)) as [[t r']|].
    + destruct Hb as (Heq & (e & He & Ht & Hres)%elem_measured & Hle). rewrite Heq in Hr. injection Hr as ->.
      exists e. split; [done|]. split; [done|]. intros e' t' He' Ha' Ht'. exists t. split.
      * unfold DerperEntry.resolved in Hres. destruct (DerperEntry.addr e); [|done].
        injection Hres as <-. exact Ht.
      * destruct (DerperEntry.resolved e') as [r'|] eqn:Hr'.
        -- apply (Hle t' r'). apply elem_measured. eauto.
        -- unfold DerperEntry.resolved in Hr'. by destruct (DerperEntry.addr e').
    + destruct Hb as [Heq Hnone]. rewrite Heq in Hr. apply head_omap_Some in Hr as (e & He & Hres).
      exists e. split; [done|]. split; [done|]. intros e' t' He' Ha' Ht'. exfalso.
      destruct (DerperEntry.resolved e') as [r'|] eqn:Hr'.
      * assert ((t', r') ∈ measured (DerperManager.entries m)) as Hin by (apply elem_measured; eauto).
        rewrite Hnone in Hin. by apply not_elem_of_nil in Hin.
      * unfold DerperEntry.resolved in Hr'. by destruct (DerperEntry.addr e').
  - intros e ts pongs elapsed Hu Hin. cbn zeta. by rewrite round_answered.
  - intros e rounds Hz Hr. cbn zeta.
    destruct (silence_spec e rounds) as (_ & Hrtt & Hn & _); [rewrite Hz; split; [done|reflexivity]|done|].
    rewrite Hrtt, Hn, Hz. unfold MAX_PROBE_MISSES. cbn [Z.ltb Z.compare andb].
    destruct (Z.leb_spec 3 (0 + Z.of_nat (length rounds))), (Nat.ltb_spec (length rounds) 3); (done || lia).
Qed.
