(* ===== verification/Daemon.v ===== *)
(** [noeio/src/daemon.rs], [daemon/nic.rs] and the interface scans of
    [daemon/routes.rs]: the daemon that ties the node together. Each definition is
    one turn of a task or one call; a turn returns the datagrams it puts on the
    socket. The socket is reliable or not per datagram ([send_ok]); the STUN codec
    and the host's interfaces are parameters. *)

From Stdlib Require Import ZArith Lia.
From Stdlib Require Import Strings.Byte Strings.String.
From stdpp Require Import base list strings gmap fin_maps sets.
From S2P Require Import Prelude Text NetTypes CidrModel HostInfo Packet HostCodec CodecModel Routes RoutingTable.
From S2P Require Import Reconcile Session Wireguard Peer DerperClient.

Local Open Scope Z_scope.

Definition MAX_BUFFER_SIZE : nat := 2048.
(** In milliseconds. *)
Definition WG_TIMER_TICK_MILLIS : Z := 250.

Notation Datagram := (SocketAddr * list byte)%type (only parsing).

(** ** [daemon/nic.rs] *)

(** The part of a [VirtualNic] the daemon uses, with the packets written to it. *)
Record VirtualNic : Type := MkNic {
  nic_ip : IpAddr;
  tun_name : string;
  tun_index : Z;
  written : list (list byte);
}.

Module NicManager.
(** Keyed by our own peer id in the network of the nic. *)
Definition NicManager : Type := gmap PeerId VirtualNic.

Definition new : NicManager := ∅.
Definition register (m : NicManager) (id : PeerId) (nic : VirtualNic) : NicManager := <[id := nic]> m.
Definition get (m : NicManager) (id : PeerId) : option VirtualNic := m !! id.
Definition remove (m : NicManager) (id : PeerId) : NicManager * option VirtualNic :=
  (delete id m, m !! id).
Definition contains (m : NicManager) (id : PeerId) : bool := bool_decide (is_Some (m !! id)).
Definition peers (m : NicManager) : list PeerId := (map_to_list m).*1.
Definition ips (m : NicManager) : list IpAddr := map nic_ip (map_to_list m).*2.
Definition interfaces (m : NicManager) : list (PeerId * string) :=
  map (λ '(id, nic), (id, tun_name nic)) (map_to_list m).
(** [nic.writer.write(packet)]: failures are only logged. *)
Definition write (m : NicManager) (id : PeerId) (packet : list byte) : NicManager :=
  alter (λ n, MkNic (nic_ip n) (tun_name n) (tun_index n) (written n ++ [packet])) id m.
End NicManager.
Notation NicManager := NicManager.NicManager.

(** ** What the host says about its interfaces *)

(** [pnet::datalink::NetworkInterface]. *)
Record NetworkInterface : Type := MkInterface {
  if_name : string;
  if_is_loopback : bool;
  if_ips : list (IpAddr * Z);
}.

Section host.
Context {CA : CidrApi}.

(** [routes::local_lans] (the unix build) over the interfaces found. *)
Definition local_lans_of (interfaces : list NetworkInterface) (exclude : list IpAddr) : list Cidr :=
  List.filter (λ c, cidr_prefix_len c <? 32)
    (omap (λ '(ip, prefix), match ip with
                            | IpV4 v4 => if decide (IpV4 v4 ∈ exclude) then None
                                         else Some (cidr_network (cidr_new v4 prefix))
                            | IpV6 _ => None
                            end)
      (flat_map if_ips (List.filter (λ i, negb (if_is_loopback i)) interfaces))).

(** [report_local_addrs]; [primary] is the source address the OS would use toward
    the relay. *)
Definition ip_is_loopback (i : IpAddr) : bool :=
  match i with IpV4 v4 => ipv4_is_loopback v4 | IpV6 v6 => v6 =? 1 end.
Definition socket_addr_new (ip : IpAddr) (port : Z) : SocketAddr :=
  match ip with IpV4 v4 => SockV4 v4 port | IpV6 v6 => SockV6 v6 port 0 0 end.
Definition report_local_addrs (port : Z) (primary : option IpAddr) (overlay_ips : list IpAddr) :
    list SocketAddr :=
  match primary with
  | Some ip => if negb (ip_is_loopback ip) && negb (bool_decide (ip ∈ overlay_ips))
               then [socket_addr_new ip port] else []
  | None => []
  end.
End host.

(** The attributes of a STUN message as far as they are told apart. *)
Inductive Attribute : Type :=
  | MappedAddress (a : SocketAddr) | XorMappedAddress (a : SocketAddr) | OtherAttribute.

(** [stun_codec]: [None] when the bytes are no STUN message, [Some None] for a broken
    one, and otherwise its attributes. *)
Class StunApi : Type := {
  stun_decode : list byte → option (option (list Attribute));
}.

Fixpoint parse_mapped_addr (attributes : list Attribute) : option SocketAddr :=
  match attributes with
  | [] => None
  | (MappedAddress a | XorMappedAddress a) :: _ => Some a
  | OtherAttribute :: l => parse_mapped_addr l
  end.

Module NoeioDaemon.
Section daemon.
Context {CA : CidrApi} {U : UuidApi} {KA : KeyApi} {TA : TunnApi} {PA : ProtoApi} {IW : Ipv4Wire}.
Context {ST : StunApi} {S : Type} {TS : TunnelSession S} {SO : SessionOpen S}.
(** Whether the socket takes a datagram. *)
Context (send_ok : SocketAddr → list byte → bool).

(** [wake] is the permit of the reconciler's [Notify]. *)
Record NoeioDaemon : Type := MkDaemon {
  nics : NicManager;
  derper : DerperManager;
  host_info : option HostInfo;
  router : Router.Router (P := Peer.Peer S);
  wake : bool;
  advertised : list Cidr;
  control_plane : list IpAddr;
  decisions : list Decision;
  allowed_ips_drops : gmap PeerId Z;
  accept_routes : bool;
}.

Definition set_nics (d : NoeioDaemon) (n : NicManager) : NoeioDaemon :=
  MkDaemon n (derper d) (host_info d) (router d) (wake d) (advertised d) (control_plane d)
    (decisions d) (allowed_ips_drops d) (accept_routes d).
Definition set_derper (d : NoeioDaemon) (m : DerperManager) : NoeioDaemon :=
  MkDaemon (nics d) m (host_info d) (router d) (wake d) (advertised d) (control_plane d)
    (decisions d) (allowed_ips_drops d) (accept_routes d).
Definition set_host (d : NoeioDaemon) (h : option HostInfo) : NoeioDaemon :=
  MkDaemon (nics d) (derper d) h (router d) (wake d) (advertised d) (control_plane d)
    (decisions d) (allowed_ips_drops d) (accept_routes d).
Definition set_router (d : NoeioDaemon) (r : Router.Router (P := Peer.Peer S)) : NoeioDaemon :=
  MkDaemon (nics d) (derper d) (host_info d) r (wake d) (advertised d) (control_plane d)
    (decisions d) (allowed_ips_drops d) (accept_routes d).
Definition notify (d : NoeioDaemon) : NoeioDaemon :=
  MkDaemon (nics d) (derper d) (host_info d) (router d) true (advertised d) (control_plane d)
    (decisions d) (allowed_ips_drops d) (accept_routes d).
Definition set_drops (d : NoeioDaemon) (m : gmap PeerId Z) : NoeioDaemon :=
  MkDaemon (nics d) (derper d) (host_info d) (router d) (wake d) (advertised d) (control_plane d)
    (decisions d) m (accept_routes d).

(** The peer a reference denotes, and its replacement after an interior change. *)
Definition peer_at (d : NoeioDaemon) (l : Arc) : option (Peer.Peer S) := Router.heap (router d) !! l.
Definition set_peer (d : NoeioDaemon) (l : Arc) (p : Peer.Peer S) : NoeioDaemon :=
  set_router d (Router.MkRouter (<[l := p]> (Router.heap (router d))) (Router.peers (router d))
    (Router.by_peer_id (router d)) (Router.subnets (router d))).

(** *** Advertising *)

Definition set_advertised (d : NoeioDaemon) (now : Z) (routes : list Cidr) : NoeioDaemon :=
  if decide (advertised d = routes) then d
  else
    let host := match host_info d with
      | Some h => Some (HostInfo.MkHostInfo
          (Z.max (now_version now) (wrap 64 (HostInfo.resource_version h + 1)))
          (HostInfo.nat_addr h) (HostInfo.nat_type h) (HostInfo.hostname h)
          (HostInfo.local_addrs h)
          (map (λ p, PeerInfo.MkPeerInfo (PeerInfo.resource_version p) (PeerInfo.peer_id p)
             (PeerInfo.noeio_ip p) (PeerInfo.network_id p) (PeerInfo.nat_type p)
             (PeerInfo.nat_addr p) (PeerInfo.local_addrs p) routes (PeerInfo.withdrawn p))
            (HostInfo.peers h)))
      | None => None
      end in
    MkDaemon (nics d) (derper d) host (router d) true routes (control_plane d)
      (decisions d) (allowed_ips_drops d) (accept_routes d).

Definition consumer_policy (d : NoeioDaemon) (interfaces : list NetworkInterface) : ConsumerPolicy :=
  let overlay := NicManager.ips (nics d) in
  {| Routes.accept_routes := accept_routes d;
     Routes.local_lans := local_lans_of interfaces overlay;
     Routes.self_advertised := advertised d;
     Routes.protected := {| Routes.overlay_ips := overlay; Routes.control_plane := control_plane d |} |}.

Definition peer_infos (d : NoeioDaemon) : list (Peer.Peer S) :=
  omap (peer_at d) (Router.all_peers (router d)).

(** Every route every peer advertises. *)
Definition advertisements (d : NoeioDaemon) : list (PeerId * Cidr) :=
  flat_map (λ p, map (λ c, (PeerInfo.peer_id (Peer.info p), c))
                   (PeerInfo.advertised_routes (Peer.info p))) (peer_infos d).

Definition refresh_subnets (d : NoeioDaemon) (interfaces : list NetworkInterface) : NoeioDaemon :=
  let ds := decide_routes (consumer_policy d interfaces) (advertisements d) in
  MkDaemon (nics d) (derper d) (host_info d) (Router.set_subnets (router d) (accepted ds))
    (wake d) (advertised d) (control_plane d) ds (allowed_ips_drops d) (accept_routes d).

Definition route_snapshot (d : NoeioDaemon) : list Reconciler.PeerRoutes :=
  map (λ p, Reconciler.MkPeerRoutes (Peer.local_peer_id p) (PeerInfo.peer_id (Peer.info p))
         (PeerInfo.noeio_ip (Peer.info p))
         (omap (λ '(c, exit), if exit =? PeerInfo.peer_id (Peer.info p) then Some c else None)
            (Router.subnets (router d))))
    (peer_infos d).

Definition ifindex_of (d : NoeioDaemon) (nic : PeerId) : option Z :=
  tun_index <$> NicManager.get (nics d) nic.

(** [reconcile_routes] up to the call of the reconciler: the refreshed daemon and
    the set to converge to. *)
Definition desired_routes_of (d : NoeioDaemon) (interfaces : list NetworkInterface) :
    NoeioDaemon * gset RouteKey :=
  let d := refresh_subnets d interfaces in
  (d, Reconciler.desired (NicManager.peers (nics d)) (route_snapshot d)).

Definition reconcile_routes {K} {H : NetRoute.RouteHandle K} (d : NoeioDaemon)
    (interfaces : list NetworkInterface) (r : Reconciler.Reconciler) (k : K) (fs : Fs) :
    NoeioDaemon * (Reconciler.Reconciler * K * Fs * nat) :=
  let '(d, desired) := desired_routes_of d interfaces in
  (d, Reconciler.reconcile r k fs desired (ifindex_of d)).

(** *** Membership *)

Definition apply_sync_route (d : NoeioDaemon) (peer : PeerInfo) (local_peer_id : PeerId) :
    NoeioDaemon * bool :=
  if PeerInfo.withdrawn peer then
    let '(r, removed) := Router.remove_by_peer_id (router d) (PeerInfo.peer_id peer) in
    (set_router d r, match removed with Some _ => true | None => false end)
  else
    match Router.get (router d) (PeerInfo.noeio_ip peer) with
    | Some existing =>
        match Router.info (router d) existing with
        | Some i =>
            if PeerInfo.resource_version i <? PeerInfo.resource_version peer
            then (set_router d (Router.update_info (router d) existing peer local_peer_id), true)
            else (d, false)
        | None => (d, false)
        end
    | None => (set_router d (Router.insert_new (router d) (Peer.new peer local_peer_id)), true)
    end.

(** [host.peers.iter_mut().find(..)]: only the first entry with that address. *)
Fixpoint rename_peer (ip : IpAddr) (id : PeerId) (l : list PeerInfo) : option (list PeerInfo) :=
  match l with
  | [] => None
  | p :: l =>
      if decide (PeerInfo.noeio_ip p = ip)
      then Some (PeerInfo.MkPeerInfo (PeerInfo.resource_version p) id (PeerInfo.noeio_ip p)
             (PeerInfo.network_id p) (PeerInfo.nat_type p) (PeerInfo.nat_addr p)
             (PeerInfo.local_addrs p) (PeerInfo.advertised_routes p) (PeerInfo.withdrawn p) :: l)
      else l' ← rename_peer ip id l; Some (p :: l')
  end.

Definition add_peer (d : NoeioDaemon) (peer : PeerInfo) : NoeioDaemon * result unit string :=
  match host_info d with
  | Some h =>
      let ps := match rename_peer (PeerInfo.noeio_ip peer) (PeerInfo.peer_id peer) (HostInfo.peers h) with
                | Some ps => ps
                | None => HostInfo.peers h ++ [peer]
                end in
      (set_host d (Some (HostInfo.with_networks h ps)), Ok tt)
  | None => (d, Err "host info not initialized"%string)
  end.

(** [register_nic]; [id] is the random peer id. *)
Definition register_nic (d : NoeioDaemon) (id : PeerId) (nic : VirtualNic) (network : string) :
    NoeioDaemon * result unit string :=
  match PeerInfo.new id (nic_ip nic) network with
  | Err _ => (d, Err "failed to create peer"%string)
  | Ok peer =>
      let peer := PeerInfo.with_advertised_routes peer (advertised d) in
      add_peer (notify (set_nics d (NicManager.register (nics d) id nic))) peer
  end.

(** *** The data plane *)

Definition send_to (addr : SocketAddr) (bytes : list byte) : list Datagram * bool :=
  if send_ok addr bytes then ([(addr, bytes)], true) else ([], false).

Definition send_to_peer (d : NoeioDaemon) (p : Peer.Peer S) (datagram : list byte) :
    list Datagram * bool :=
  match Peer.address p with
  | Some nat_addr =>
      send_to nat_addr (NoeioPacket.inner
        (NoeioPacket.new (Header Delivery (Peer.local_peer_id p) 0) datagram))
  | None =>
      match DerperManager.current (derper d) with
      | None => ([], false)
      | Some r =>
          send_to (r_addr r) (NoeioPacket.inner
            (NoeioPacket.new (Header Forward (PeerInfo.peer_id (Peer.info p)) 0) datagram))
      end
  end.

(** [process_outbound]: one packet read from a nic (without the macOS prefix). A
    codec is always there: [peer_codec_keys]. *)
Definition process_outbound (d : NoeioDaemon) (ip_bytes : list byte) : NoeioDaemon * list Datagram :=
  match ipv4_dst_addr ip_bytes with
  | None => (d, [])
  | Some dst =>
      match Router.lookup (router d) (IpV4 dst) with
      | None => (d, [])
      | Some l =>
          match p ← peer_at d l; c ← Peer.codec p; Some (p, c) with
          | None => (d, [])
          | Some (p, c) =>
              let '(c, out) := WireGuardTunnelSession.encapsulate c ip_bytes in
              let d := set_peer d l (Peer.set_codec p c) in
              match out with
              | ToPeer datagram => (d, (send_to_peer d p datagram).1)
              | _ => (d, [])
              end
          end
      end
  end.

(** On macOS a nic gives and takes packets behind four bytes of protocol family. *)
Definition read_packet (macos : bool) (buf : list byte) : option (list byte) :=
  if macos then if (4 <=? length buf)%nat then Some (drop 4 buf) else None else Some buf.
Definition framed (macos : bool) (packet : list byte) : list byte :=
  if macos then [x00; x00; x00; x02] ++ packet else packet.

(** One read of [process_outbound]'s loop. *)
Definition outbound_read (macos : bool) (d : NoeioDaemon) (buf : list byte) : NoeioDaemon * list Datagram :=
  match read_packet macos buf with
  | None => (d, [])
  | Some ip_bytes => process_outbound d ip_bytes
  end.

Definition write_to_nic (d : NoeioDaemon) (nic_id : PeerId) (packet : list byte) : NoeioDaemon :=
  set_nics d (NicManager.write (nics d) nic_id packet).

Definition count_drop (d : NoeioDaemon) (id : PeerId) : NoeioDaemon :=
  set_drops d (<[id := default 0 (allowed_ips_drops d !! id) + 1]> (allowed_ips_drops d)).

Definition blocked (i : PeerInfo) (inner_src : option IpAddr) : bool :=
  match inner_src with Some ip => negb (Router.allowed_source i ip) | None => false end.

(** The loop of [handle_delivery]: [i] is the info read before it, [fuel] bounds
    the replies the codec has queued; [None] when it runs out. *)
Fixpoint delivery_loop (fuel : nat) (d : NoeioDaemon) (l : Arc) (i : PeerInfo) (input : list byte)
    (src : SocketAddr) : option (NoeioDaemon * list Datagram) :=
  match fuel with
  | O => None
  | Datatypes.S n =>
      match p ← peer_at d l; c ← Peer.codec p; Some (p, c) with
      | None => Some (d, [])
      | Some (p, c) =>
          let '(c, out) := WireGuardTunnelSession.decapsulate c (Some (sock_ip src)) input in
          let d := set_peer d l (Peer.set_codec p c) in
          match out with
          | ToNic plaintext inner_src =>
              if blocked i inner_src
              then Some (count_drop d (PeerInfo.peer_id i), [])
              else Some (write_to_nic d (Peer.local_peer_id p) plaintext, [])
          | ToPeer reply =>
              let '(sent, ok) := send_to_peer d p reply in
              if ok then
                '(d, more) ← delivery_loop n d l i [] src; Some (d, sent ++ more)
              else Some (d, sent)
          | Consumed | OutErr _ => Some (d, [])
          end
      end
  end.

Definition handle_delivery (fuel : nat) (d : NoeioDaemon) (l : Arc) (payload : list byte)
    (src : SocketAddr) : option (NoeioDaemon * list Datagram) :=
  match peer_at d l with
  | None => Some (d, [])
  | Some p => delivery_loop fuel d l (Peer.info p) payload src
  end.

Definition dispatch_signalling (d : NoeioDaemon) (header : PacketHeader.PacketHeader)
    (datagram : list byte) (src : SocketAddr) : NoeioDaemon :=
  match Router.get_by_peer_id (router d) (PacketHeader.peer_id header) with
  | None => d
  | Some l =>
      match peer_at d l with
      | None => d
      | Some p => set_peer d l (Peer.inbound p datagram src).1
      end
  end.

(** A STUN answer: the address seen, and whether it moved. *)
Definition on_stun (d : NoeioDaemon) (now : Z) (host : string) (addr : SocketAddr) : NoeioDaemon :=
  let new_info := HostInfo.new now host addr in
  set_host d (Some (match host_info d with
    | Some existing =>
        HostInfo.MkHostInfo (HostInfo.resource_version new_info) (HostInfo.nat_addr new_info)
          (if decide (HostInfo.nat_addr existing = HostInfo.nat_addr new_info)
           then Other else Symmetric)
          (HostInfo.hostname new_info) (HostInfo.local_addrs existing) (HostInfo.peers existing)
    | None => new_info
    end)).

(** What one datagram does to the inbound task. *)
Inductive Inbound : Type :=
  | Handled (d : NoeioDaemon) (sent : list Datagram)
  | Panicked
  | OutOfFuel.

(** The echoed timestamp of a pong. *)
Definition echo_ts (packet : NoeioPacket.NoeioPacket) : option Z :=
  p ← NoeioPacket.payload packet; b ← slice 0 TS_LEN p; Some (be_val b).

Definition inbound_packet (fuel : nat) (d : NoeioDaemon) (packet : NoeioPacket.NoeioPacket)
    (header : PacketHeader.PacketHeader) (data : list byte) (addr : SocketAddr) : Inbound :=
  match PacketHeader.packet_type header with
  | Ping | Forward | Report => Handled d []
  | Delivery =>
      match NoeioPacket.payload packet with
      | None => Handled d []
      | Some payload =>
          match Router.get_by_peer_id (router d) (PacketHeader.peer_id header) with
          | None => Handled d []
          | Some l =>
              match handle_delivery fuel d l payload addr with
              | Some (d, sent) => Handled d sent
              | None => OutOfFuel
              end
          end
      end
  | SyncRoute =>
      let derper_ip := (λ r, sock_ip (r_addr r)) <$> DerperManager.current (derper d) in
      if decide (derper_ip ≠ Some (sock_ip addr)) then Handled d []
      else
        match NoeioPacket.payload packet with
        | None => Handled d []
        | Some payload =>
            match peer_from_bytes payload with
            | Err _ => Handled d []
            | Ok peer =>
                let '(d, changed) := apply_sync_route d peer (PacketHeader.peer_id header) in
                Handled (if changed then notify d else d) []
            end
        end
  | Seq | Ack | TunnelPing => Handled (dispatch_signalling d header data addr) []
  | TunnelPong =>
      let '(m, claimed) := match echo_ts packet with
                           | Some ts => DerperManager.dispatch_pong (derper d) addr ts
                           | None => (derper d, false)
                           end in
      let d := set_derper d m in
      Handled (if negb claimed && negb (PacketHeader.peer_id header =? 0)
               then dispatch_signalling d header data addr else d) []
  end.

(** [process_inbound]: one datagram off the socket. The two [unwrap]s of the STUN
    branch panic. *)
Definition process_inbound (fuel : nat) (d : NoeioDaemon) (now : Z) (host : string)
    (data : list byte) (addr : SocketAddr) : Inbound :=
  if (MAX_BUFFER_SIZE <=? length data)%nat then Handled d []
  else
    match (match NoeioPacket.try_from data with
           | Ok packet => h ← NoeioPacket.parse_header packet; Some (packet, h)
           | Err _ => None
           end) with
    | Some (packet, header) => inbound_packet fuel d packet header data addr
    | None =>
        match stun_decode data with
        | None => Handled d []
        | Some None => Panicked
        | Some (Some response) =>
            match parse_mapped_addr response with
            | None => Panicked
            | Some mapped => Handled (on_stun d now host mapped) []
            end
        end
    end.

(** [wg_timers]: one tick. *)
Definition timer_turn (st : NoeioDaemon * list Datagram) (l : Arc) : NoeioDaemon * list Datagram :=
  let '(d, sent) := st in
  match p ← peer_at d l; c ← Peer.codec p; Some (p, c) with
  | None => (d, sent)
  | Some (p, c) =>
      let '(c, out) := WireGuardTunnelSession.update_timers c in
      let d := set_peer d l (Peer.set_codec p c) in
      match out with
      | ToPeer datagram => (d, sent ++ (send_to_peer d p datagram).1)
      | _ => (d, sent)
      end
  end.
Definition wg_timers (d : NoeioDaemon) : NoeioDaemon * list Datagram :=
  fold_left timer_turn (Router.all_peers (router d)) (d, []).

(** [register_host_info]: one round of reports; [local_port] is the socket's port
    if it can be read and [primary] the source address toward a relay. *)
Definition reported_host (d : NoeioDaemon) (h : HostInfo) (local_port : option Z)
    (primary : SocketAddr → option IpAddr) (r : ResolvedDerper) : HostInfo :=
  match local_port with
  | None => h
  | Some port =>
      let local_addrs := report_local_addrs port (primary (r_addr r)) (NicManager.ips (nics d)) in
      HostInfo.with_local_addrs
        (HostInfo.with_networks h (map (λ p, PeerInfo.with_local_addrs p local_addrs) (HostInfo.peers h)))
        local_addrs
  end.

Definition report (d : NoeioDaemon) (h : HostInfo) (peer_id : PeerId) (local_port : option Z)
    (primary : SocketAddr → option IpAddr) (r : ResolvedDerper) : list Datagram :=
  let h := reported_host d h local_port primary r in
  let payload := ReportPayload.to_bytes (ReportPayload.MkReport (r_token r) h) in
  (send_to (r_addr r) (NoeioPacket.inner
     (NoeioPacket.new (Header Report peer_id (PacketHeader.port PacketHeader.default_header)) payload))).1.

Definition register_host_info (d : NoeioDaemon) (local_port : option Z)
    (primary : SocketAddr → option IpAddr) : list Datagram :=
  match DerperManager.list_ (derper d), host_info d, NicManager.peers (nics d) with
  | r :: rs, Some h, peer_id :: _ => flat_map (report d h peer_id local_port primary) (r :: rs)
  | _, _, _ => []
  end.
End daemon.
Arguments NoeioDaemon {CA KA TA} S : rename.
End NoeioDaemon.
Notation NoeioDaemon := NoeioDaemon.NoeioDaemon.

(** ** Facts *)

Section facts.
Context {CA : CidrApi} {U : UuidApi} {KA : KeyApi} {TA : TunnApi} {PA : ProtoApi} {IW : Ipv4Wire}.
Context {ST : StunApi} {S : Type} {TS : TunnelSession S} {SO : SessionOpen S}.
Context (send_ok : SocketAddr → list byte → bool).
Import NoeioDaemon.
Implicit Types (d : NoeioDaemon S) (l : Arc) (c : WireGuardTunnelSession).

(** A codec with the keys of another: the same tunnel, later. *)
Definition same_tunnel c c' : Prop :=
  WireGuardTunnelSession.secret c' = WireGuardTunnelSession.secret c ∧
  WireGuardTunnelSession.peer_public c' = WireGuardTunnelSession.peer_public c.

Lemma decapsulate_tunnel c src input c' out :
  WireGuardTunnelSession.decapsulate c src input = (c', out) → same_tunnel c c'.
Proof. by intros [= <- _]. Qed.

Lemma read_framed macos packet : read_packet macos (framed macos packet) = Some packet.
Proof. by destruct macos. Qed.

Lemma same_tunnel_trans c1 c2 c3 : same_tunnel c1 c2 → same_tunnel c2 c3 → same_tunnel c1 c3.
Proof. unfold same_tunnel. intros [-> ->] [-> ->]. done. Qed.

Lemma lookup_write (m : NicManager) id pt id' :
  NicManager.write m id pt !! id' =
    if decide (id' = id)
    then (λ n, MkNic (nic_ip n) (tun_name n) (tun_index n) (written n ++ [pt])) <$> m !! id'
    else m !! id'.
Proof.
  unfold NicManager.write. case_decide as Hd; [subst; apply lookup_alter_eq|].
  by apply lookup_alter_ne.
Qed.

Lemma peer_at_set d l p : peer_at (set_peer d l p) l = Some p.
Proof. unfold peer_at, set_peer, set_router. cbn. apply lookup_insert_eq. Qed.

(** The routing tables of a daemon and the identities in them, with our own ids for
    them, without the peers' sessions and codecs. *)
Definition tables (r : Router.Router (P := Peer.Peer S)) :=
  (Router.peers r, Router.by_peer_id r, Router.subnets r,
   (λ p, (peer_info p, Peer.local_peer_id p)) <$> Router.heap r).

Lemma inbound_info (p : Peer.Peer S) payload src :
  Peer.info (Peer.inbound p payload src).1 = Peer.info p ∧
  Peer.local_peer_id (Peer.inbound p payload src).1 = Peer.local_peer_id p.
Proof. unfold Peer.inbound. by case_match. Qed.

Lemma tables_set_peer d l p p' :
  peer_at d l = Some p → Peer.info p' = Peer.info p → Peer.local_peer_id p' = Peer.local_peer_id p →
  tables (router (set_peer d l p')) = tables (router d).
Proof.
  unfold peer_at, tables. cbn. intros Hp Hi Hk. f_equal. rewrite fmap_insert. apply insert_id.
  rewrite lookup_fmap, Hp. cbn. by rewrite Hi, Hk.
Qed.

(** How the delivery loop ends. *)
Lemma delivery_loop_spec fuel d l i input src d' sent p c :
  peer_at d l = Some p → Peer.codec p = Some c →
  delivery_loop send_ok fuel d l i input src = Some (d', sent) →
  tables (router d') = tables (router d) ∧ host_info d' = host_info d ∧ wake d' = wake d ∧
  (nics d' = nics d ∨
   ∃ c0 c1 bytes pt inner,
     same_tunnel c c0 ∧
     WireGuardTunnelSession.decapsulate c0 (Some (sock_ip src)) bytes = (c1, ToNic pt inner) ∧
     blocked i inner = false ∧ nics d' = NicManager.write (nics d) (Peer.local_peer_id p) pt).
Proof.
  revert d input d' sent p c. induction fuel as [|fuel IH]; intros d input d' sent p c Hp Hc; [done|].
  cbn [delivery_loop]. rewrite Hp. cbn [mbind option_bind]. rewrite Hc. cbn [mbind option_bind].
  destruct (WireGuardTunnelSession.decapsulate c (Some (sock_ip src)) input) as [c1 out] eqn:Hdec.
  pose proof (tables_set_peer d l p (Peer.set_codec p c1) Hp eq_refl eq_refl) as Hset.
  destruct out as [pt inner|reply| |err]; [| |by intros [= <- _]; split_and!; try done; left..].
  - destruct (blocked i inner) eqn:Hb; intros [= <- _]; split_and!; try done; [by left|].
    right. exists c, c1, input, pt, inner. split_and!; try done.
  - destruct (send_to_peer send_ok _ p reply) as [s ok]. destruct ok; [|intros [= <- _]; split_and!; try done; by left].
    destruct (delivery_loop _ _ _ _ _ _ _) as [[d2 more]|] eqn:Hrec; [|done].
    cbn [mbind option_bind]. intros [= <- _].
    destruct (IH _ _ _ _ (Peer.set_codec p c1) c1 (peer_at_set _ _ _) eq_refl Hrec)
      as (Ht & Hh & Hw & Hn).
    split; [by rewrite Ht|]. split; [exact Hh|]. split; [exact Hw|].
    destruct Hn as [Hn|(c0 & c2 & bytes & pt & inner & Hs & Hd & Hb & Hn)]; [by left|].
    right. exists c0, c2, bytes, pt, inner. split_and!; try done;
      by destruct (same_tunnel_trans _ _ _ (decapsulate_tunnel _ _ _ _ _ Hdec) Hs).
Qed.

(** The codec runs out of queued replies after at most [n] calls. *)
Fixpoint drains (n : nat) c (src : SocketAddr) (input : list byte) : Prop :=
  match n with
  | O => False
  | Datatypes.S n =>
      match WireGuardTunnelSession.decapsulate c (Some (sock_ip src)) input with
      | (c', ToPeer _) => drains n c' src []
      | _ => True
      end
  end.

Lemma delivery_loop_total n d l i input src p c :
  peer_at d l = Some p → Peer.codec p = Some c → drains n c src input →
  is_Some (delivery_loop send_ok n d l i input src).
Proof.
  revert d input p c. induction n as [|n IH]; intros d input p c Hp Hc Hd; [done|].
  cbn [delivery_loop drains] in *. rewrite Hp. cbn [mbind option_bind]. rewrite Hc.
  cbn [mbind option_bind].
  destruct (WireGuardTunnelSession.decapsulate c (Some (sock_ip src)) input) as [c1 out].
  destruct out as [pt inner|reply| |err]; [destruct (blocked i inner)| | |]; try by eexists.
  destruct (send_to_peer send_ok _ p reply) as [s [|]]; [|by eexists].
  destruct (IH (set_peer d l (Peer.set_codec p c1)) [] (Peer.set_codec p c1) c1 (peer_at_set _ _ _) eq_refl Hd) as [[d2 more] Hrec].
  rewrite Hrec. by eexists.
Qed.

(** Parsed, or not: the first branch of [process_inbound]. *)
Definition parsed (data : list byte) : option (NoeioPacket.NoeioPacket * PacketHeader.PacketHeader) :=
  match NoeioPacket.try_from data with
  | Ok packet => h ← NoeioPacket.parse_header packet; Some (packet, h)
  | Err _ => None
  end.

Lemma parsed_header data header :
  PacketHeader.from_bytes data = Some header →
  parsed data = Some (NoeioPacket.Packet data (PacketHeader.packet_type header), header).
Proof.
  intros Hh. unfold parsed, NoeioPacket.try_from. rewrite Hh. cbn [ok_or].
  unfold NoeioPacket.parse_header. cbn [NoeioPacket.inner]. by rewrite Hh.
Qed.

Lemma parsed_inv data packet header :
  parsed data = Some (packet, header) →
  PacketHeader.from_bytes data = Some header ∧ NoeioPacket.inner packet = data.
Proof.
  unfold parsed, NoeioPacket.try_from. destruct (PacketHeader.from_bytes data) as [h|] eqn:Hh; [|done].
  cbn [ok_or]. unfold NoeioPacket.parse_header. cbn [NoeioPacket.inner]. rewrite Hh.
  by intros [= <- <-].
Qed.

Lemma inbound_parsed fuel d now host data addr header :
  (length data < MAX_BUFFER_SIZE)%nat → PacketHeader.from_bytes data = Some header →
  process_inbound send_ok fuel d now host data addr =
    inbound_packet send_ok fuel d (NoeioPacket.Packet data (PacketHeader.packet_type header))
      header data addr.
Proof.
  intros Hl Hh. unfold process_inbound. destruct (Nat.leb_spec MAX_BUFFER_SIZE (length data)); [lia|].
  fold (parsed data). by rewrite (parsed_header _ _ Hh).
Qed.

Lemma dispatch_signalling_frame d header data src :
  let d' := dispatch_signalling d header data src in
  nics d' = nics d ∧ tables (router d') = tables (router d) ∧ host_info d' = host_info d ∧
  derper d' = derper d ∧ wake d' = wake d.
Proof.
  unfold dispatch_signalling. destruct (Router.get_by_peer_id _ _) as [l|]; [|done].
  destruct (peer_at d l) as [p|] eqn:Hp; [|done]. split_and!; try done.
  by apply (tables_set_peer d l p); [|apply inbound_info..].
Qed.
End facts.

(** *** Membership *)

Section membership.
Context {CA : CidrApi} {U : UuidApi} {KA : KeyApi} {TA : TunnApi}.
Context {S : Type} {TS : TunnelSession S} {SO : SessionOpen S}.
Import NoeioDaemon.
Implicit Types (d : NoeioDaemon S) (r : Router.Router (P := Peer.Peer S)).

(** The identity registered at an overlay address. *)
Definition info_at r (ip : IpAddr) : option PeerInfo := l ← Router.get r ip; Router.info r l.

Lemma info_at_insert_new r p ip : Router.wf r →
  info_at (Router.insert_new r p) ip =
    if decide (ip = PeerInfo.noeio_ip (peer_info p)) then Some (peer_info p) else info_at r ip.
Proof.
  intros [Hk _]. unfold info_at, Router.get. rewrite insert_new_lookup. case_decide as Hip.
  - cbn [mbind option_bind]. by rewrite insert_new_info, alloc_info, decide_True.
  - destruct (Router.peers r !! ip) as [l|] eqn:Hl; [|done]. cbn [mbind option_bind].
    rewrite insert_new_info, alloc_info, decide_False; [done|]. by eapply keyed_alloc_ne.
Qed.

Lemma info_at_update_info r l i k ip : Router.wf r → Router.get r (PeerInfo.noeio_ip i) = Some l →
  info_at (Router.update_info r l i k) ip =
    if decide (ip = PeerInfo.noeio_ip i) then Some i else info_at r ip.
Proof.
  intros [Hk _] Hl. unfold info_at.
  assert (Router.get (Router.update_info r l i k) ip = Router.get r ip) as ->.
  { unfold Router.get, Router.update_info. by destruct (Router.heap r !! l). }
  destruct (Hk _ _ Hl) as (old & Hold & _). case_decide as Hip.
  - subst ip. rewrite Hl. cbn [mbind option_bind]. by rewrite RoutingTable.update_info_info, decide_True, Hold.
  - destruct (Router.get r ip) as [l'|] eqn:Hl'; [|done]. cbn [mbind option_bind].
    rewrite RoutingTable.update_info_info, decide_False; [done|]. intros ->. apply Hip. exact (keyed_inj r _ _ l Hk Hl' Hl).
Qed.

Lemma info_at_remove r ip ip' :
  info_at (Router.remove r ip).1 ip' =
    match (Router.remove r ip).2 with
    | Some _ => if decide (ip' = ip) then None else info_at r ip'
    | None => info_at r ip'
    end.
Proof.
  destruct (Router.remove r ip) as [r' [l|]] eqn:Hr.
  - destruct (remove_Some _ _ _ _ Hr) as (i & Hl & Hi & ->). cbn [fst snd].
    unfold info_at, Router.get. cbn [Router.peers]. case_decide as Hip.
    + subst. by rewrite lookup_delete_eq.
    + by rewrite lookup_delete_ne.
  - pose proof (remove_None r ip) as Hn. rewrite Hr in Hn. cbn [fst snd] in *. by rewrite Hn.
Qed.

(** What a live announcement leaves at its address. *)
Definition newer (known : option PeerInfo) (peer : PeerInfo) : PeerInfo :=
  match known with
  | Some i => if PeerInfo.resource_version i <? PeerInfo.resource_version peer then peer else i
  | None => peer
  end.

Lemma apply_live d peer k : Router.wf (router d) → PeerInfo.withdrawn peer = false →
  let '(d', changed) := apply_sync_route d peer k in
  (∀ ip, info_at (router d') ip =
     if decide (ip = PeerInfo.noeio_ip peer)
     then Some (newer (info_at (router d) ip) peer) else info_at (router d) ip) ∧
  (changed = true ↔
     ∀ i, info_at (router d) (PeerInfo.noeio_ip peer) = Some i →
       PeerInfo.resource_version i < PeerInfo.resource_version peer).
Proof.
  intros Hwf Hlive. unfold apply_sync_route. rewrite Hlive.
  destruct (Router.get (router d) (PeerInfo.noeio_ip peer)) as [l|] eqn:Hget.
  - destruct (proj1 Hwf _ _ Hget) as (i & Hi & Hip). rewrite Hi.
    assert (info_at (router d) (PeerInfo.noeio_ip peer) = Some i) as Hat
      by (unfold info_at; by rewrite Hget).
    destruct (Z.ltb_spec (PeerInfo.resource_version i) (PeerInfo.resource_version peer)) as [Hv|Hv].
    + split.
      * intros ip. cbn [router set_router]. rewrite info_at_update_info by done.
        case_decide as Heq; [|done]. subst ip. rewrite Hat. cbn [newer].
        by rewrite (proj2 (Z.ltb_lt _ _) Hv).
      * split; [|done]. intros _ j Hj. by simplify_eq.
    + split.
      * intros ip. case_decide as Heq; [|done]. subst ip. rewrite Hat. cbn [newer].
        by rewrite (proj2 (Z.ltb_ge _ _) Hv).
      * split; [done|]. intros Hall. specialize (Hall i Hat). lia.
  - assert (info_at (router d) (PeerInfo.noeio_ip peer) = None) as Hat
      by (unfold info_at; by rewrite Hget).
    split.
    + intros ip. cbn [router set_router]. rewrite info_at_insert_new by done.
      change (peer_info (Peer.new peer k)) with peer. case_decide as Heq; [|done]. subst ip. by rewrite Hat.
    + split; [|done]. intros _ j Hj. congruence.
Qed.

Lemma apply_withdrawn d peer k : Router.wf (router d) → PeerInfo.withdrawn peer = true →
  let '(d', changed) := apply_sync_route d peer k in
  Router.get_by_peer_id (router d') (PeerInfo.peer_id peer) = None ∧
  (∀ ip, info_at (router d') ip =
     if decide (Router.by_peer_id (router d) !! PeerInfo.peer_id peer = Some ip)
     then None else info_at (router d) ip) ∧
  changed = bool_decide (is_Some (Router.get_by_peer_id (router d) (PeerInfo.peer_id peer))).
Proof.
  intros Hwf Hw. unfold apply_sync_route. rewrite Hw. unfold Router.remove_by_peer_id.
  set (id := PeerInfo.peer_id peer).
  destruct (Router.by_peer_id (router d) !! id) as [ip|] eqn:Hid.
  - destruct (proj2 Hwf _ _ Hid) as (l & i & Hl & Hi & Heq).
    pose proof (info_at_remove (router d) ip) as Hat.
    destruct (Router.remove (router d) ip) as [r' o] eqn:Hr. cbn [fst snd] in Hat.
    assert (o = Some l) as ->.
    { unfold Router.remove in Hr. rewrite Hl, Hi in Hr. by injection Hr. }
    destruct (remove_Some _ _ _ _ Hr) as (i' & _ & Hi' & ->). cbn [router set_router].
    split; [|split].
    + unfold Router.get_by_peer_id. cbn [Router.by_peer_id].
      assert (PeerInfo.peer_id i' = id) as -> by congruence. by rewrite lookup_delete_eq.
    + intros ip'. rewrite Hat. destruct (decide (ip' = ip)) as [->|Hne].
      * by rewrite decide_True.
      * rewrite decide_False by congruence. done.
    + unfold Router.get_by_peer_id, Router.get. rewrite Hid. cbn [mbind option_bind]. by rewrite Hl.
  - cbn [router set_router]. unfold Router.get_by_peer_id. rewrite Hid. split; [done|].
    split; [|done]. intros ip. by rewrite decide_False.
Qed.
End membership.

(** ** Properties *)

Section properties.
Context {CA : CidrApi} {U : UuidApi} {KA : KeyApi} {TA : TunnApi} {PA : ProtoApi} {IW : Ipv4Wire}.
Context {ST : StunApi} {S : Type} {TS : TunnelSession S} {SO : SessionOpen S}.
Context (send_ok : SocketAddr → list byte → bool).
Import NoeioDaemon.
Implicit Types (d : NoeioDaemon S) (l : Arc) (c : WireGuardTunnelSession).

Lemma parsed_payload data packet header :
  parsed data = Some (packet, header) → NoeioPacket.payload packet = Some (drop 9 data).
Proof.
  intros [Hh Hinner]%parsed_inv. rewrite payload_drop; [by rewrite Hinner|]. rewrite Hinner.
  apply header_from_bytes_inv in Hh as (_ & rest & ->).
  rewrite length_app, length_header_bytes. lia.
Qed.

(** A delivery writes at most one packet, and no table. *)
Lemma handle_delivery_frame fuel d l payload addr d' sent :
  handle_delivery send_ok fuel d l payload addr = Some (d', sent) →
  tables (router d') = tables (router d) ∧
  (nics d' = nics d ∨
   ∃ p c c0 c1 bytes pt inner,
     peer_at d l = Some p ∧ Peer.codec p = Some c ∧ same_tunnel c c0 ∧
     WireGuardTunnelSession.decapsulate c0 (Some (sock_ip addr)) bytes = (c1, ToNic pt inner) ∧
     blocked (Peer.info p) inner = false ∧
     nics d' = NicManager.write (nics d) (Peer.local_peer_id p) pt).
Proof.
  unfold handle_delivery. destruct (peer_at d l) as [p|] eqn:Hp; [|intros [= <- _]; auto].
  destruct (Peer.codec p) as [c|] eqn:Hc.
  - intros Hloop. destruct (delivery_loop_spec _ _ _ _ _ _ _ _ _ _ _ Hp Hc Hloop)
      as (Ht & _ & _ & [Hn|(c0 & c1 & bytes & pt & inner & Hs & Hd & Hb & Hn)]); [auto|].
    split; [done|]. right. by exists p, c, c0, c1, bytes, pt, inner.
  - destruct fuel as [|n]; [done|]. cbn [delivery_loop]. rewrite Hp. cbn [mbind option_bind].
    rewrite Hc. cbn [mbind option_bind]. intros [= <- _]. auto.
Qed.

Lemma apply_sync_route_nics d q k : nics (apply_sync_route d q k).1 = nics d.
Proof.
  unfold apply_sync_route. destruct (PeerInfo.withdrawn q).
  - by destruct (Router.remove_by_peer_id _ _).
  - repeat (case_match; try done).
Qed.

Lemma handled d d' (sent sent' : list (SocketAddr * list byte)) :
  Handled d sent = Handled d' sent' → nics d' = nics d ∧ tables (router d') = tables (router d).
Proof. by intros [= <- _]. Qed.

(** Types other than Delivery and SyncRoute touch no nic and no table. *)
Lemma inbound_other fuel d packet header data addr d' sent :
  PacketHeader.packet_type header ≠ Delivery → PacketHeader.packet_type header ≠ SyncRoute →
  inbound_packet send_ok fuel d packet header data addr = Handled d' sent →
  nics d' = nics d ∧ tables (router d') = tables (router d).
Proof.
  assert (∀ d0, nics (dispatch_signalling d0 header data addr) = nics d0 ∧
    tables (router (dispatch_signalling d0 header data addr)) = tables (router d0)) as Hsig.
  { intros d0. by destruct (dispatch_signalling_frame d0 header data addr) as (? & ? & _). }
  intros Hd Hs. unfold inbound_packet. destruct (PacketHeader.packet_type header); try done;
    try apply handled; try (intros [= <- _]; apply Hsig).
  destruct (match echo_ts packet with Some _ => _ | None => _ end) as [m b].
  intros [= <- _]. case_match; [apply (Hsig (set_derper d m))|done].
Qed.

(** The three ways a datagram is handled. *)
Lemma process_inbound_inv fuel d now host data addr d' sent :
  process_inbound send_ok fuel d now host data addr = Handled d' sent →
  (nics d' = nics d ∧ tables (router d') = tables (router d)) ∨
  (∃ header l, PacketHeader.from_bytes data = Some header ∧ PacketHeader.packet_type header = Delivery ∧
     Router.get_by_peer_id (router d) (PacketHeader.peer_id header) = Some l ∧
     handle_delivery send_ok fuel d l (drop 9 data) addr = Some (d', sent)) ∨
  (∃ header r peer, PacketHeader.from_bytes data = Some header ∧
     PacketHeader.packet_type header = SyncRoute ∧
     DerperManager.current (derper d) = Some r ∧ sock_ip (r_addr r) = sock_ip addr ∧
     peer_from_bytes (drop 9 data) = Ok peer ∧
     d' = (let '(d1, changed) := apply_sync_route d peer (PacketHeader.peer_id header) in
           if changed then notify d1 else d1)).
Proof.
  unfold process_inbound. destruct (Nat.leb_spec MAX_BUFFER_SIZE (length data)).
  { intros Hh. left. by eapply handled. }
  fold (parsed data). destruct (parsed data) as [[packet header]|] eqn:Hp.
  - pose proof (parsed_payload _ _ _ Hp) as Hpay. apply parsed_inv in Hp as [Hh _]. intros Hin.
    destruct (decide (PacketHeader.packet_type header = Delivery)) as [Ht|Hd];
      [|destruct (decide (PacketHeader.packet_type header = SyncRoute)) as [Ht|Hs]].
    + unfold inbound_packet in Hin. rewrite Ht, Hpay in Hin.
      destruct (Router.get_by_peer_id _ _) as [l|] eqn:Hl; [|left; by eapply handled].
      destruct (handle_delivery _ _ _ _ _ _) as [[d2 s2]|] eqn:Hloop; [|done]. injection Hin as <- <-.
      right; left. by exists header, l.
    + unfold inbound_packet in Hin. rewrite Ht, Hpay in Hin.
      case_decide as Hip; [left; by eapply handled|].
      destruct (peer_from_bytes _) as [q|] eqn:Hq; [|left; by eapply handled].
      destruct (DerperManager.current (derper d)) as [r|]; [|done]. injection Hip as Hip.
      right; right. exists header, r, q. split_and!; try done.
      destruct (apply_sync_route d q _) as [d2 b]. by injection Hin as <- _.
    + left. by eapply inbound_other.
  - intros Hin. left. destruct (stun_decode data) as [[attrs|]|]; try done; [destruct (parse_mapped_addr attrs)|]; try done;
      by injection Hin as <- _.
Qed.

Lemma inbound_packet_not_panicked fuel d packet header data addr :
  inbound_packet send_ok fuel d packet header data addr ≠ Panicked.
Proof. unfold inbound_packet. repeat (case_match; try done). Qed.

(** C1. Nothing reaches a nic that a tunnel did not decrypt and the sender may not
    send: whatever datagram arrives, every nic is left as it was, or has gained
    one packet - the plaintext the named peer's own tunnel produced, on the nic of
    that peer's network, with an inner source that is the peer's overlay address
    or lies in a subnet it advertises. The turn ends as soon as the codec has no
    reply left to send. *)
Theorem inbound_plaintext fuel d now host data addr :
  (∀ d' sent id, process_inbound send_ok fuel d now host data addr = Handled d' sent →
     nics d' !! id = nics d !! id ∨
     ∃ header l p c c0 c1 bytes pt inner n,
       PacketHeader.from_bytes data = Some header ∧ PacketHeader.packet_type header = Delivery ∧
       Router.get_by_peer_id (router d) (PacketHeader.peer_id header) = Some l ∧
       peer_at d l = Some p ∧ Peer.codec p = Some c ∧ same_tunnel c c0 ∧
       WireGuardTunnelSession.decapsulate c0 (Some (sock_ip addr)) bytes = (c1, ToNic pt inner) ∧
       (∀ ip, inner = Some ip → Router.allowed_source (Peer.info p) ip = true) ∧
       id = Peer.local_peer_id p ∧ nics d !! id = Some n ∧
       nics d' !! id = Some (MkNic (nic_ip n) (tun_name n) (tun_index n) (written n ++ [pt]))) ∧
  (∀ header l p c,
     PacketHeader.from_bytes data = Some header →
     Router.get_by_peer_id (router d) (PacketHeader.peer_id header) = Some l →
     peer_at d l = Some p → Peer.codec p = Some c → drains fuel c addr (drop 9 data) →
     process_inbound send_ok fuel d now host data addr ≠ OutOfFuel).
Proof.
  split.
  - intros d' sent id [[Hn _]|[(header & l & Hh & Ht & Hl & Hdel)|(header & r & q & _ & _ & _ & _ & _ & ->)]]
      %process_inbound_inv; [left; by rewrite Hn| |].
    + apply handle_delivery_frame in Hdel
        as (_ & [Hn|(p & c & c0 & c1 & bytes & pt & inner & Hp & Hc & Hs & Hd & Hb & Hn)]);
        [left; by rewrite Hn|].
      rewrite Hn, lookup_write. case_decide as Hid; [|by left].
      destruct (nics d !! id) as [n|] eqn:Hnic; [|by left]. right.
      exists header, l, p, c, c0, c1, bytes, pt, inner, n. split_and!; try done.
      intros ip ->. unfold blocked in Hb. by destruct (Router.allowed_source (Peer.info p) ip).
    + left. pose proof (apply_sync_route_nics d q (PacketHeader.peer_id header)) as Hn.
      destruct (apply_sync_route d q _) as [d2 b]. cbn [fst] in Hn. destruct b; cbn; by rewrite Hn.
  - intros header l p c Hh Hl Hp Hc Hdr. unfold process_inbound.
    destruct (Nat.leb_spec MAX_BUFFER_SIZE (length data)); [done|].
    fold (parsed data). pose proof (parsed_header _ _ Hh) as Hpd. rewrite Hpd.
    apply parsed_payload in Hpd. unfold inbound_packet. rewrite Hpd, Hl. unfold handle_delivery.
    rewrite Hp.
    destruct (delivery_loop_total send_ok fuel d l (Peer.info p) _ addr p c Hp Hc Hdr) as [[d2 s2] ->].
    repeat (case_match; try done).
Qed.

(** C23. Only the relay changes the routing table, and only a broken STUN answer
    stops the inbound task: a datagram that changes which peers, ids, identities or
    subnets are known is a SyncRoute from the address of the current relay whose payload
    decodes, and what it does is [apply_sync_route], waking the reconciler when
    that reports a change; a SyncRoute from anywhere else is dropped. A datagram
    that is no packet but decodes as a STUN message that is broken or carries no
    mapped address panics the task, from whatever address it comes. *)
Theorem inbound_gate fuel d now host data addr :
  (∀ d' sent, process_inbound send_ok fuel d now host data addr = Handled d' sent →
     tables (router d') ≠ tables (router d) →
     ∃ header r peer,
       PacketHeader.from_bytes data = Some header ∧ PacketHeader.packet_type header = SyncRoute ∧
       DerperManager.current (derper d) = Some r ∧ sock_ip (r_addr r) = sock_ip addr ∧
       peer_from_bytes (drop 9 data) = Ok peer ∧
       d' = (let '(d1, changed) := apply_sync_route d peer (PacketHeader.peer_id header) in
             if changed then notify d1 else d1)) ∧
  (∀ header, (length data < MAX_BUFFER_SIZE)%nat →
     PacketHeader.from_bytes data = Some header → PacketHeader.packet_type header = SyncRoute →
     (∀ r, DerperManager.current (derper d) = Some r → sock_ip (r_addr r) ≠ sock_ip addr) →
     process_inbound send_ok fuel d now host data addr = Handled d []) ∧
  (process_inbound send_ok fuel d now host data addr = Panicked ↔
     (length data < MAX_BUFFER_SIZE)%nat ∧ PacketHeader.from_bytes data = None ∧
     (stun_decode data = Some None ∨
      ∃ attrs, stun_decode data = Some (Some attrs) ∧ parse_mapped_addr attrs = None)).
Proof.
  split_and!.
  - intros d' sent [[_ Ht]|[(header & l & _ & _ & _ & Hdel)|Hsync]]%process_inbound_inv Hne;
      [done| |exact Hsync].
    by apply handle_delivery_frame in Hdel as [Ht _].
  - intros header Hl Hh Ht Hr. rewrite (inbound_parsed _ _ _ _ _ _ _ header) by done.
    unfold inbound_packet. rewrite Ht.
    destruct (DerperManager.current (derper d)) as [r|]; cbn [fmap option_fmap option_map].
    + rewrite decide_True; [done|]. intros [= Heq]. by apply (Hr r).
    + by rewrite decide_True.
  - unfold process_inbound. fold (parsed data).
    destruct (Nat.leb_spec MAX_BUFFER_SIZE (length data)); [split; [done|lia]|].
    destruct (parsed data) as [[packet header]|] eqn:Hp.
    + apply parsed_inv in Hp as [Hh _]. rewrite Hh. split; [|naive_solver].
      by intros ?%inbound_packet_not_panicked.
    + assert (PacketHeader.from_bytes data = None) as Hnone.
      { destruct (PacketHeader.from_bytes data) as [h|] eqn:Hh; [|done].
        by rewrite (parsed_header _ _ Hh) in Hp. }
      rewrite Hnone. destruct (stun_decode data) as [[attrs|]|]; [|naive_solver..].
      destruct (parse_mapped_addr attrs) eqn:Hattrs; naive_solver.
Qed.

(** C24. A live announcement never goes back in time, and a tombstone always wins:
    folding in a SyncRoute for a peer that is not withdrawn leaves, at its overlay
    address, whichever of the known and the announced identity has the higher
    version, nothing changing elsewhere, and reports a change exactly when the
    announcement was new; a withdrawn one drops the peer of that id, whatever the
    versions, and that peer only. *)
Theorem sync_route_versions d peer local_id :
  Router.reachable (router d) →
  let '(d', changed) := apply_sync_route d peer local_id in
  (PeerInfo.withdrawn peer = false →
     (∀ ip, info_at (router d') ip =
        if decide (ip = PeerInfo.noeio_ip peer)
        then Some (newer (info_at (router d) ip) peer) else info_at (router d) ip) ∧
     (changed = true ↔
        ∀ i, info_at (router d) (PeerInfo.noeio_ip peer) = Some i →
          PeerInfo.resource_version i < PeerInfo.resource_version peer)) ∧
  (PeerInfo.withdrawn peer = true →
     Router.get_by_peer_id (router d') (PeerInfo.peer_id peer) = None ∧
     (∀ ip, info_at (router d') ip =
        if decide (Router.by_peer_id (router d) !! PeerInfo.peer_id peer = Some ip)
        then None else info_at (router d) ip) ∧
     changed = bool_decide (is_Some (Router.get_by_peer_id (router d) (PeerInfo.peer_id peer)))).
Proof.
  intros Hwf%wf_reachable. pose proof (apply_live d peer local_id Hwf) as Hl.
  pose proof (apply_withdrawn d peer local_id Hwf) as Hw.
  by destruct (apply_sync_route d peer local_id).
Qed.

(** Outbound traffic is encrypted and takes the path of the peer its destination
    resolves to: a packet read from a nic leads to at most one datagram, holding
    what that peer's codec produced, either to the selected direct address as a
    Delivery under our own id in its network, when that path is connected, or to
    the current relay as a Forward naming the peer; with neither it is dropped. *)
Theorem outbound_path d ip_bytes to bytes :
  (to, bytes) ∈ (process_outbound send_ok d ip_bytes).2 →
  ∃ dst l p c c' datagram,
    ipv4_dst_addr ip_bytes = Some dst ∧ Router.lookup (router d) (IpV4 dst) = Some l ∧
    peer_at d l = Some p ∧ Peer.codec p = Some c ∧
    WireGuardTunnelSession.encapsulate c ip_bytes = (c', ToPeer datagram) ∧
    match Peer.address p with
    | Some nat_addr => to = nat_addr ∧
        bytes = PacketHeader.to_bytes (Header Delivery (Peer.local_peer_id p) 0) ++ datagram
    | None => ∃ r, DerperManager.current (derper d) = Some r ∧ to = r_addr r ∧
        bytes = PacketHeader.to_bytes (Header Forward (PeerInfo.peer_id (Peer.info p)) 0) ++ datagram
    end.
Proof.
  unfold process_outbound. destruct (ipv4_dst_addr ip_bytes) as [dst|]; [|by intros ?%not_elem_of_nil].
  destruct (Router.lookup _ _) as [l|] eqn:Hl; [|by intros ?%not_elem_of_nil].
  destruct (peer_at d l) as [p|] eqn:Hp; [|by intros ?%not_elem_of_nil].
  cbn [mbind option_bind]. destruct (Peer.codec p) as [c|] eqn:Hc; [|by intros ?%not_elem_of_nil].
  cbn [mbind option_bind].
  destruct (WireGuardTunnelSession.encapsulate c ip_bytes) as [c' out] eqn:He.
  destruct out as [| datagram | |]; try by intros ?%not_elem_of_nil.
  cbn [snd]. intros Hin. exists dst, l, p, c, c', datagram. split_and!; try done.
  unfold send_to_peer, send_to in Hin. destruct (Peer.address p) as [a|].
  - destruct (send_ok _ _); [|by apply not_elem_of_nil in Hin].
    apply list_elem_of_singleton in Hin. by injection Hin as -> ->.
  - change (derper (set_peer d l (Peer.set_codec p c'))) with (derper d) in Hin.
    destruct (DerperManager.current (derper d)) as [r|]; [|by apply not_elem_of_nil in Hin].
    destruct (send_ok _ _); [|by apply not_elem_of_nil in Hin].
    apply list_elem_of_singleton in Hin. exists r. by injection Hin as -> ->.
Qed.
End properties.

(** A daemon with one known peer and the current relay. *)
Module Example.
#[export] Instance no_stun : StunApi := {| stun_decode _ := None |}.
(** The destination is the first four bytes. *)
#[export] Instance bare_wire : Ipv4Wire := {|
  ipv4_src_addr bs := Some (be_val (take 4 (drop 4 bs)));
  ipv4_dst_addr bs := Some (be_val (take 4 bs)) |}.

Definition relay : ResolvedDerper := MkResolved "relay" "token" (SockV4 (ipv4 198 51 100 1) 8080) None.
Definition manager : DerperManager := DerperManager.MkManager ∅ 0 ∅ ∅ [] (Some relay) false.
Definition start : NoeioDaemon UdpTunnelSession :=
  NoeioDaemon.MkDaemon {[ 12 := MkNic (IpV4 (ipv4 110 20 0 9)) "noeio0" 3 [] ]} manager None
    Router.new false [] [] [] ∅ true.
Definition known : NoeioDaemon UdpTunnelSession := (NoeioDaemon.apply_sync_route start ex_info 12).1.
Definition always (a : SocketAddr) (bs : list byte) : bool := true.
Definition packet_out : list byte := be_bytes 4 (ipv4 110 20 0 1) ++ be_bytes 4 (ipv4 110 20 0 9).
Definition forwarded : list byte :=
  PacketHeader.to_bytes (Header Forward 11 0) ++ packet_out.
End Example.
Import Example.

Lemma sync_route_versions_witness :
  info_at (NoeioDaemon.router (NoeioDaemon.apply_sync_route start ex_info 12).1) (IpV4 (ipv4 110 20 0 1)) =
    Some ex_info.
Proof.
  exact (proj1 (proj1 (sync_route_versions start ex_info 12 (rtc_refl _ _)) eq_refl) (IpV4 (ipv4 110 20 0 1))).
Defined.

Lemma outbound_path_witness :
  ∃ dst, ipv4_dst_addr packet_out = Some dst ∧
    (r_addr relay, forwarded) ∈ (NoeioDaemon.process_outbound always known packet_out).2.
Proof.
  assert ((r_addr relay, forwarded) ∈ (NoeioDaemon.process_outbound always known packet_out).2) as Hin.
  { apply list_elem_of_singleton. reflexivity. }
  destruct (outbound_path always known packet_out _ _ Hin) as (dst & _ & _ & _ & _ & _ & Hd & _).
  by exists dst.
Defined.
