(* ===== verification/Membership.v ===== *)
(** What the daemon knows of the network, as a refinement: the abstract state is a map
    from overlay addresses to identities, the abstract steps are the relay's
    announcements, and every other turn of the daemon - packets of either direction,
    codec timers, path selection, route refreshes, advertising, nics, the relay
    client - stutters. *)

From Stdlib Require Import ZArith Lia.
From Stdlib Require Import Strings.Byte Strings.String.
From stdpp Require Import base list strings gmap fin_maps.
From S2P Require Import Prelude Text NetTypes CidrModel HostInfo Packet HostCodec CodecModel RoutingTable Session Wireguard Peer DerperClient Daemon.

Local Open Scope Z_scope.

(** ** The specification *)

Section spec.
Context {CA : CidrApi}.

Notation Members := (gmap IpAddr PeerInfo).

(** A live announcement wins over what is known at its address when it is newer; a
    withdrawn one drops whoever has its id. *)
Definition announce (m : Members) (q : PeerInfo) : Members :=
  if PeerInfo.withdrawn q
  then filter (λ e, PeerInfo.peer_id e.2 ≠ PeerInfo.peer_id q) m
  else <[PeerInfo.noeio_ip q := newer (m !! PeerInfo.noeio_ip q) q]> m.

(** The relay does not hand the id of a known peer to another address. *)
Definition admissible (m : Members) (q : PeerInfo) : Prop :=
  PeerInfo.withdrawn q = true ∨
  ∀ ip i, m !! ip = Some i → PeerInfo.peer_id i = PeerInfo.peer_id q → ip = PeerInfo.noeio_ip q.

Fixpoint orderly (m : Members) (qs : list PeerInfo) : Prop :=
  match qs with
  | [] => True
  | q :: qs => admissible m q ∧ orderly (announce m q) qs
  end.
End spec.
Notation Members := (gmap IpAddr PeerInfo).

(** ** The turns of the daemon *)

Section turns.
Context {CA : CidrApi} {U : UuidApi} {KA : KeyApi} {TA : TunnApi} {PA : ProtoApi} {IW : Ipv4Wire}.
Context {ST : StunApi} {S : Type} {TS : TunnelSession S} {SO : SessionOpen S}.
Context (send_ok : SocketAddr → list byte → bool).
Import NoeioDaemon.
Implicit Types (d : NoeioDaemon S) (r : Router.Router (P := Peer.Peer S)).

(** What a datagram announces: a SyncRoute from the address of the current relay
    whose payload decodes. *)
Definition announced d (data : list byte) (addr : SocketAddr) : list PeerInfo :=
  if (length data <? MAX_BUFFER_SIZE)%nat then
    match PacketHeader.from_bytes data, DerperManager.current (derper d), peer_from_bytes (drop 9 data) with
    | Some h, Some relay, Ok q =>
        if decide (PacketHeader.packet_type h = SyncRoute ∧ sock_ip (r_addr relay) = sock_ip addr)
        then [q] else []
    | _, _, _ => []
    end
  else [].

(** One turn of any task, with what it hears announced. *)
Inductive turn : NoeioDaemon S → list PeerInfo → NoeioDaemon S → Prop :=
  | turn_inbound d fuel now host data addr d' sent :
      process_inbound send_ok fuel d now host data addr = Handled d' sent →
      turn d (announced d data addr) d'
  | turn_outbound d ip_bytes : turn d [] (process_outbound send_ok d ip_bytes).1
  | turn_timers d : turn d [] (wg_timers send_ok d).1
  | turn_select d l p : peer_at d l = Some p → turn d [] (set_peer d l (Peer.select_session p))
  | turn_sessions d l p ss : peer_at d l = Some p → turn d [] (set_peer d l (Peer.set_sessions p ss))
  | turn_refresh d interfaces : turn d [] (refresh_subnets d interfaces)
  | turn_advertise d now routes : turn d [] (set_advertised d now routes)
  | turn_nic d id nic network : turn d [] (register_nic d id nic network).1
  | turn_stun d now host addr : turn d [] (on_stun d now host addr)
  | turn_derper d m : turn d [] (set_derper d m).

(** Turns in sequence, with everything heard on the way. *)
Inductive run : NoeioDaemon S → list PeerInfo → NoeioDaemon S → Prop :=
  | run_nil d : run d [] d
  | run_cons d qs d' qs' d'' : turn d qs d' → run d' qs' d'' → run d (qs ++ qs') d''.

(** ** Stuttering *)

(** The same members, whatever became of subnets, sessions and codecs. *)
Definition same_members r r' : Prop :=
  Router.peers r' = Router.peers r ∧ Router.by_peer_id r' = Router.by_peer_id r ∧
  ∀ l, Router.info r' l = Router.info r l.

#[export] Instance same_members_preorder : PreOrder same_members.
Proof.
  split; [done|]. intros r1 r2 r3 (H1 & H2 & H3) (H4 & H5 & H6).
  split_and!; [congruence|congruence|]. intros l. by rewrite H6.
Qed.

Lemma tables_same r r' : tables r' = tables r → same_members r r'.
Proof.
  intros [= Hp Hb _ Hh]. split_and!; [done|done|]. intros l. unfold Router.info.
  apply (f_equal (λ m, fst <$> m !! l)) in Hh. rewrite !lookup_fmap, <-!option_fmap_compose in Hh. exact Hh.
Qed.

Lemma same_wf r r' : same_members r r' → Router.wf r → Router.wf r'.
Proof.
  intros (Hp & Hb & Hi) [Hk Hs]. split.
  - intros ip l. rewrite Hp, Hi. apply Hk.
  - intros id ip. rewrite Hb, Hp. setoid_rewrite Hi. apply Hs.
Qed.

Lemma same_complete r r' : same_members r r' → Router.complete r → Router.complete r'.
Proof. intros (Hp & Hb & Hi) Hc ip l i. rewrite Hp, Hb, Hi. apply Hc. Qed.

Lemma same_info_at r r' ip : same_members r r' → info_at r' ip = info_at r ip.
Proof.
  intros (Hp & _ & Hi). unfold info_at, Router.get. rewrite Hp.
  destruct (Router.peers r !! ip); cbn; [apply Hi|done].
Qed.

Lemma same_set_peer d l p p' :
  peer_at d l = Some p → Peer.info p' = Peer.info p → Peer.local_peer_id p' = Peer.local_peer_id p →
  same_members (router d) (router (set_peer d l p')).
Proof. intros Hp Hi Hk. by apply tables_same, (tables_set_peer d l p). Qed.

Lemma same_timer st l : same_members (router st.1) (router (timer_turn send_ok st l).1).
Proof.
  destruct st as [d sent]. unfold timer_turn. cbn [fst].
  destruct (peer_at d l) as [p|] eqn:Hp; [|done]. cbn [mbind option_bind].
  destruct (Peer.codec p) as [c|]; [|done]. cbn [mbind option_bind].
  destruct (WireGuardTunnelSession.update_timers c) as [c' out].
  by destruct out; apply (same_set_peer d l p).
Qed.

Lemma same_timers d : same_members (router d) (router (wg_timers send_ok d).1).
Proof.
  unfold wg_timers. change (router d) with (router (d, @nil (SocketAddr * list byte)).1) at 1.
  generalize (d, @nil (SocketAddr * list byte)).
  induction (Router.all_peers (router d)) as [|l ls IH]; intros st; [done|].
  cbn [fold_left]. etrans; [apply same_timer|apply IH].
Qed.

Lemma same_outbound d ip_bytes :
  same_members (router d) (router (process_outbound send_ok d ip_bytes).1).
Proof.
  unfold process_outbound. destruct (ipv4_dst_addr ip_bytes) as [dst|]; [|done].
  destruct (Router.lookup _ _) as [l|]; [|done].
  destruct (peer_at d l) as [p|] eqn:Hp; [|done]. cbn [mbind option_bind].
  destruct (Peer.codec p) as [c|]; [|done]. cbn [mbind option_bind].
  destruct (WireGuardTunnelSession.encapsulate c ip_bytes) as [c' out].
  by destruct out; apply (same_set_peer d l p).
Qed.

Lemma same_advertise d now routes : router (set_advertised d now routes) = router d.
Proof. unfold set_advertised. by case_decide. Qed.

Lemma same_nic d id nic network : router (register_nic d id nic network).1 = router d.
Proof.
  unfold register_nic. destruct (PeerInfo.new _ _ _) as [q|]; [|done].
  unfold add_peer. by case_match.
Qed.

(** A datagram announces, or stutters. *)
Lemma inbound_members fuel d now host data addr d' sent :
  process_inbound send_ok fuel d now host data addr = Handled d' sent →
  (announced d data addr = [] ∧ same_members (router d) (router d')) ∨
  ∃ q k, announced d data addr = [q] ∧ peer_from_bytes (drop 9 data) = Ok q ∧
    router d' = router (apply_sync_route d q k).1.
Proof.
  intros Hin. unfold announced. destruct (Nat.ltb_spec (length data) MAX_BUFFER_SIZE) as [Hlen|Hlen].
  2: { left. split; [done|]. unfold process_inbound in Hin.
       destruct (Nat.leb_spec MAX_BUFFER_SIZE (length data)); [|lia]. by injection Hin as <- _. }
  destruct (process_inbound_inv send_ok _ _ _ _ _ _ _ _ Hin)
    as [[_ Ht]|[(h & l & Hh & Hd & _ & Hdel)|(h & relay & q & Hh & Hs & Hc & Hip & Hq & ->)]].
  - destruct (PacketHeader.from_bytes data) as [h|] eqn:Hh; [|left; split; [done|by apply tables_same]].
    destruct (DerperManager.current (derper d)) as [relay|] eqn:Hc; [|left; split; [done|by apply tables_same]].
    destruct (peer_from_bytes (drop 9 data)) as [q|] eqn:Hq; [|left; split; [done|by apply tables_same]].
    case_decide as Hs; [|left; split; [done|by apply tables_same]].
    destruct Hs as [Hs Hip]. right. exists q, (PacketHeader.peer_id h). split; [done|].
    split; [done|].
    rewrite (inbound_parsed _ _ _ _ _ _ _ h) in Hin by done. unfold inbound_packet in Hin.
    pose proof (parsed_payload _ _ _ (parsed_header _ _ Hh)) as Hpay.
    rewrite Hs, Hc in Hin. rewrite Hs in Hpay. cbn [fmap option_fmap option_map] in Hin.
    rewrite decide_False in Hin by (rewrite Hip; tauto).
    rewrite Hpay, Hq in Hin.
    destruct (apply_sync_route d q _) as [d2 b]. injection Hin as <- _. by destruct b.
  - left. rewrite Hh. apply handle_delivery_frame in Hdel as [Ht _].
    split; [|by apply tables_same]. clear Hin.
    destruct (DerperManager.current (derper d)) as [relay|], (peer_from_bytes (drop 9 data)) as [q|]; try done.
    rewrite decide_False; [done|]. intros [Hs _]. congruence.
  - right. rewrite Hh, Hc, Hq, decide_True by done. exists q, (PacketHeader.peer_id h).
    split; [done|]. split; [done|].
    destruct (apply_sync_route d q _) as [d2 b]. by destruct b.
Qed.

(** Every turn announces at most one identity, or stutters. *)
Lemma turn_members d qs d' :
  turn d qs d' →
  (qs = [] ∧ same_members (router d) (router d')) ∨
  ∃ q k, qs = [q] ∧ (∃ bytes, peer_from_bytes bytes = Ok q) ∧ router d' = router (apply_sync_route d q k).1.
Proof.
  destruct 1; try (left; split; [done|]; done).
  - destruct (inbound_members fuel d now host data addr d' sent H) as [Hs|(q & k & Hq & Hb & Hr)];
      [by left|]. right. exists q, k. by eauto.
  - left. split; [done|]. apply same_outbound.
  - left. split; [done|]. apply same_timers.
  - left. split; [done|]. by apply (same_set_peer d l p).
  - left. split; [done|]. by apply (same_set_peer d l p).
  - left. split; [done|]. by rewrite same_advertise.
  - left. split; [done|]. by rewrite same_nic.
Qed.
End turns.

(** ** The simulation *)

Section simulation.
Context {CA : CidrApi} {U : UuidApi} {KA : KeyApi} {TA : TunnApi} {PA : ProtoApi} {IW : Ipv4Wire}.
Context {ST : StunApi} {S : Type} {TS : TunnelSession S} {SO : SessionOpen S}.
Context (send_ok : SocketAddr → list byte → bool).
Import NoeioDaemon.
Implicit Types (d : NoeioDaemon S) (r : Router.Router (P := Peer.Peer S)).

(** The router is well formed, its index complete, and it holds exactly [m]. *)
Definition simulates r (m : Members) : Prop :=
  Router.wf r ∧ Router.complete r ∧ ∀ ip, info_at r ip = m !! ip.

Lemma simulates_same r r' m : same_members r r' → simulates r m → simulates r' m.
Proof.
  intros Hs (Hwf & Hc & Hat). split_and!; [by eapply same_wf|by eapply same_complete|].
  intros ip. by rewrite (same_info_at _ _ _ Hs).
Qed.

Lemma no_clash_admissible r m q :
  (∀ ip, info_at r ip = m !! ip) → PeerInfo.withdrawn q = false → admissible m q → no_clash r q.
Proof.
  intros Hat Hw [Ha|Ha]; [congruence|]. intros ip l j Hl Hj. apply (Ha ip j).
  rewrite <-Hat. unfold info_at. by rewrite Hl.
Qed.

Lemma info_at_keyed r ip i : Router.keyed r → info_at r ip = Some i → PeerInfo.noeio_ip i = ip.
Proof.
  unfold info_at, Router.get. intros Hk. destruct (Router.peers r !! ip) as [l|] eqn:Hl; [|done].
  cbn. destruct (Hk _ _ Hl) as (j & Hj & <-). congruence.
Qed.

Lemma apply_sync_complete d m q k :
  simulates (router d) m → admissible m q →
  Router.wf (router (apply_sync_route d q k).1) ∧ Router.complete (router (apply_sync_route d q k).1).
Proof.
  intros (Hwf & Hc & Hat) Ha. unfold apply_sync_route. destruct (PeerInfo.withdrawn q) eqn:Hw.
  - pose proof (complete_step _ _ (conj Hwf Hc) (distinct_remove_by_peer_id (router d) (PeerInfo.peer_id q))).
    by destruct (Router.remove_by_peer_id _ _).
  - pose proof (no_clash_admissible _ _ q Hat Hw Ha) as Hnc.
    destruct (Router.get (router d) (PeerInfo.noeio_ip q)) as [l|] eqn:Hl.
    + destruct (Router.info _ l) as [i|]; [|done]. destruct (_ <? _); [|done].
      eapply complete_step; [done|]. by apply distinct_update.
    + eapply complete_step; [done|]. by apply (distinct_insert _ (Peer.new q k)).
Qed.

(** The index finds an address exactly if the member there has the id. *)
Lemma simulates_index r m id ip :
  simulates r m →
  Router.by_peer_id r !! id = Some ip ↔ ∃ i, m !! ip = Some i ∧ PeerInfo.peer_id i = id.
Proof.
  intros ((Hk & Hs) & Hc & Hat). split.
  - intros (l & i & Hl & Hi & Heq)%Hs. exists i. split; [|done].
    rewrite <-Hat. unfold info_at, Router.get. by rewrite Hl.
  - intros (i & Hi & <-). rewrite <-Hat in Hi. unfold info_at, Router.get in Hi.
    destruct (Router.peers r !! ip) as [l|] eqn:Hl; [|done]. by eapply Hc.
Qed.

Lemma apply_sync_simulates d m q k :
  simulates (router d) m → admissible m q →
  simulates (router (apply_sync_route d q k).1) (announce m q).
Proof.
  intros Hsim Ha. destruct (apply_sync_complete d m q k Hsim Ha) as [Hwf' Hc'].
  split_and!; [done|done|]. clear Hwf' Hc'. destruct Hsim as (Hwf & Hc & Hat). intros ip.
  unfold announce. destruct (PeerInfo.withdrawn q) eqn:Hw.
  - pose proof (apply_withdrawn d q k Hwf Hw) as Happ.
    destruct (apply_sync_route d q k) as [d' changed]. destruct Happ as (_ & -> & _).
    pose proof (simulates_index (router d) m (PeerInfo.peer_id q) ip (conj Hwf (conj Hc Hat))) as Hidx.
    rewrite Hat. destruct (m !! ip) as [i|] eqn:Hi.
    + case_decide as Hid.
      * apply Hidx in Hid as (j & Hj & Heq). symmetry. apply map_lookup_filter_None. right.
        intros j' Hj' Hne. apply Hne. cbn. congruence.
      * symmetry. apply map_lookup_filter_Some. split; [done|]. cbn. intros Heq. apply Hid, Hidx. eauto.
    + transitivity (@None PeerInfo); [by case_decide|]. symmetry. apply map_lookup_filter_None. by left.
  - pose proof (apply_live d q k Hwf Hw) as Happ.
    destruct (apply_sync_route d q k) as [d' changed]. destruct Happ as [-> _].
    rewrite lookup_insert, !Hat. repeat case_decide; congruence.
Qed.

Lemma run_simulates d qs d' m :
  run send_ok d qs d' → simulates (router d) m → orderly m qs →
  simulates (router d') (foldl announce m qs).
Proof.
  intros Hrun. revert m. induction Hrun as [d|d qs d' qs' d'' Ht Hrun IH]; intros m Hsim Ho; [done|].
  apply turn_members in Ht as [[-> Hs]|(q & k & -> & _ & Hr)].
  - apply IH; [|done]. by eapply simulates_same.
  - destruct Ho as [Ha Ho]. apply IH; [|done]. rewrite Hr. by apply apply_sync_simulates.
Qed.

Lemma simulates_new : simulates Router.new ∅.
Proof. split; [apply wf_new|]. split; [intros ? ? ?; done|done]. Qed.
End simulation.

(** ** Any order, any number of times *)

Section any_order.
Context {CA : CidrApi} {U : UuidApi} {KA : KeyApi} {TA : TunnApi} {PA : ProtoApi} {IW : Ipv4Wire}.
Context {ST : StunApi} {S : Type} {TS : TunnelSession S} {SO : SessionOpen S}.
Context (send_ok : SocketAddr → list byte → bool).
Import NoeioDaemon.
Implicit Types (d : NoeioDaemon S) (r : Router.Router (P := Peer.Peer S)).

Lemma apply_sync_wf d q k :
  Router.wf (router d) → Router.wf (router (apply_sync_route d q k).1).
Proof.
  intros Hwf. unfold apply_sync_route. destruct (PeerInfo.withdrawn q).
  - pose proof (wf_remove_by_peer_id (router d) (PeerInfo.peer_id q) Hwf).
    by destruct (Router.remove_by_peer_id _ _).
  - destruct (Router.get (router d) (PeerInfo.noeio_ip q)) as [l|] eqn:Hl; [|by apply wf_insert_new].
    destruct (Router.info _ l) as [i|]; [|done]. destruct (_ <? _); [|done]. by apply wf_update_info.
Qed.

(** What the router holds comes from what was heard, whatever the relay does. *)
Definition heard r (qs : list PeerInfo) : Prop :=
  Router.wf r ∧
  ∀ ip i, info_at r ip = Some i →
    i ∈ qs ∧ PeerInfo.withdrawn i = false ∧ PeerInfo.noeio_ip i = ip.

(** The newest of the live announcements heard for each address. *)
Definition newest r (qs : list PeerInfo) : Prop :=
  ∀ q, q ∈ qs → ∃ i, info_at r (PeerInfo.noeio_ip q) = Some i ∧
    PeerInfo.resource_version q ≤ PeerInfo.resource_version i.

Lemma apply_sync_heard d q k qs :
  heard (router d) qs → heard (router (apply_sync_route d q k).1) (qs ++ [q]).
Proof.
  intros [Hwf Hin]. split; [by apply apply_sync_wf|].
  assert (∀ i ip, info_at (router d) ip = Some i →
    i ∈ qs ++ [q] ∧ PeerInfo.withdrawn i = false ∧ PeerInfo.noeio_ip i = ip) as Hold.
  { intros i ip Hi. destruct (Hin ip i Hi) as [? ?]. split; [|done]. apply elem_of_app. by left. }
  intros ip i. destruct (PeerInfo.withdrawn q) eqn:Hw.
  - pose proof (apply_withdrawn d q k Hwf Hw) as Happ.
    destruct (apply_sync_route d q k) as [d' changed]. destruct Happ as (_ & -> & _).
    case_decide; [done|]. apply Hold.
  - pose proof (apply_live d q k Hwf Hw) as Happ.
    destruct (apply_sync_route d q k) as [d' changed]. destruct Happ as [-> _].
    case_decide as Hip; [|apply Hold]. intros [= <-]. subst ip. unfold newer.
    destruct (info_at _ _) as [j|] eqn:Hj; [destruct (_ <? _); [|by apply Hold]|];
      (split; [apply elem_of_app; right; by left|done]).
Qed.

Lemma apply_sync_newest d q k qs :
  Router.wf (router d) → PeerInfo.withdrawn q = false → newest (router d) qs →
  newest (router (apply_sync_route d q k).1) (qs ++ [q]).
Proof.
  intros Hwf Hw Hnew x Hx. pose proof (apply_live d q k Hwf Hw) as Happ.
  destruct (apply_sync_route d q k) as [d' changed]. destruct Happ as [Hat _]. cbn [fst].
  rewrite Hat. case_decide as Hip.
  - eexists. split; [reflexivity|]. unfold newer. apply elem_of_app in Hx as [Hx|Hx].
    + destruct (Hnew x Hx) as (i & Hi & Hle). rewrite Hi.
      destruct (Z.ltb_spec (PeerInfo.resource_version i) (PeerInfo.resource_version q)); lia.
    + apply list_elem_of_singleton in Hx as ->. destruct (info_at _ _) as [i|]; [|lia].
      destruct (Z.ltb_spec (PeerInfo.resource_version i) (PeerInfo.resource_version q)); lia.
  - apply elem_of_app in Hx as [Hx|Hx]; [by apply Hnew|].
    by apply list_elem_of_singleton in Hx as ->.
Qed.

Lemma run_heard d qs d' seen :
  run send_ok d qs d' → heard (router d) seen → heard (router d') (seen ++ qs).
Proof.
  intros Hrun. revert seen. induction Hrun as [d|d qs d' qs' d'' Ht Hrun IH]; intros seen Hh;
    [by rewrite app_nil_r|].
  rewrite app_assoc. apply IH.
  apply turn_members in Ht as [[-> Hs]|(q & k & -> & _ & ->)]; [|by apply apply_sync_heard].
  rewrite app_nil_r. destruct Hh as [Hwf Hin]. split; [by eapply same_wf|].
  intros ip i. rewrite (same_info_at _ _ _ Hs). apply Hin.
Qed.

Lemma run_newest d qs d' seen :
  run send_ok d qs d' → heard (router d) seen → newest (router d) seen →
  Forall (λ q, PeerInfo.withdrawn q = false) qs → newest (router d') (seen ++ qs).
Proof.
  intros Hrun. revert seen. induction Hrun as [d|d qs d' qs' d'' Ht Hrun IH]; intros seen Hh Hn Hl;
    [by rewrite app_nil_r|].
  apply Forall_app in Hl as [Hl Hl']. rewrite app_assoc.
  pose proof (run_heard d qs d' seen) as Hh'.
  assert (run send_ok d qs d') as Hone by (rewrite <-(app_nil_r qs); by eapply run_cons, run_nil).
  apply IH; [by apply Hh'| |done].
  apply turn_members in Ht as [[-> Hs]|(q & k & -> & _ & ->)].
  - rewrite app_nil_r. intros q Hq. rewrite (same_info_at _ _ _ Hs). by apply Hn.
  - apply Forall_cons in Hl as [Hl _]. apply apply_sync_newest; [apply Hh|exact Hl|done].
Qed.

Lemma heard_new : heard Router.new [].
Proof. split; [apply wf_new|]. by intros ip i. Qed.

Lemma newest_new : newest Router.new [].
Proof. intros q Hq. by apply not_elem_of_nil in Hq. Qed.

(** Everything heard was decoded. *)
Lemma run_decoded {CL : CidrLaws} {UL : UuidLaws} d qs d' :
  run send_ok d qs d' → Forall decoded_ok qs.
Proof.
  induction 1 as [|d qs d' qs' d'' Ht Hrun IH]; [done|]. apply Forall_app. split; [|done].
  apply turn_members in Ht as [[-> _]|(q & k & -> & [bytes Hb] & _)]; [done|].
  apply Forall_singleton. by eapply peer_from_bytes_ok.
Qed.
End any_order.

(** A daemon that hears its relay announce peers. *)
Import Example.
Definition sync_of (q : PeerInfo) : list byte :=
  PacketHeader.to_bytes (Header SyncRoute 12 0) ++ peer_to_bytes q.
Definition hear (d : NoeioDaemon UdpTunnelSession) (q : PeerInfo) : NoeioDaemon UdpTunnelSession :=
  let '(d1, changed) := NoeioDaemon.apply_sync_route d q 12 in
  if changed then NoeioDaemon.notify d1 else d1.

Lemma hear_inbound d q :
  DerperManager.current (NoeioDaemon.derper d) = Some relay →
  (length (sync_of q) < MAX_BUFFER_SIZE)%nat →
  PacketHeader.from_bytes (sync_of q) = Some (Header SyncRoute 12 0) →
  peer_from_bytes (drop 9 (sync_of q)) = Ok q →
  NoeioDaemon.process_inbound always 1 d 0 "host" (sync_of q) (r_addr relay) = NoeioDaemon.Handled (hear d q) [].
Proof.
  intros Hc Hl Hh Hq.
  rewrite (inbound_parsed _ _ _ _ _ _ _ _ Hl Hh). unfold NoeioDaemon.inbound_packet.
  rewrite (parsed_payload _ _ _ (parsed_header _ _ Hh)), Hq, Hc. cbn [PacketHeader.packet_type fmap option_fmap option_map].
  rewrite decide_False by tauto. unfold hear. cbn [PacketHeader.peer_id].
  by destruct (NoeioDaemon.apply_sync_route d q 12).
Qed.

Lemma hear_turn d q :
  DerperManager.current (NoeioDaemon.derper d) = Some relay →
  (length (sync_of q) < MAX_BUFFER_SIZE)%nat →
  PacketHeader.from_bytes (sync_of q) = Some (Header SyncRoute 12 0) →
  peer_from_bytes (drop 9 (sync_of q)) = Ok q →
  turn always d [q] (hear d q).
Proof.
  intros Hc Hl Hh Hq.
  assert (announced d (sync_of q) (r_addr relay) = [q]) as <-.
  { unfold announced. rewrite (proj2 (Nat.ltb_lt _ _) Hl), Hh, Hc, Hq. by rewrite decide_True. }
  apply (turn_inbound always d 1 0 "host" _ _ _ []). by apply hear_inbound.
Qed.

(** The second peer, in its second version. *)
Definition ex_info_c : PeerInfo :=
  PeerInfo.MkPeerInfo 2 12 (IpV4 (ipv4 110 20 0 2)) (replicate 16 Byte.x07) Other None [] [] false.

Lemma start_hears qs : Forall (λ q, q = ex_info ∨ q = ex_info_c) qs → run always start qs (foldl hear start qs).
Proof.
  assert (DerperManager.current (NoeioDaemon.derper start) = Some relay) as Hc by done.
  revert Hc. generalize start. induction qs as [|q qs IH]; intros d Hc Hqs; [apply run_nil|].
  apply Forall_cons in Hqs as [Hq Hqs]. apply (run_cons always d [q] (hear d q) qs).
  - destruct Hq as [-> | ->]; (apply hear_turn; [exact Hc|apply Nat.ltb_lt|..]).
    all: apply (bool_decide_unpack _); vm_compute; exact I.
  - apply IH; [|done]. rewrite <-Hc. unfold hear, NoeioDaemon.apply_sync_route.
    repeat (case_match; simplify_eq/=; try done).
Qed.

(** ** Properties *)

Section properties.
Context {CA : CidrApi} {U : UuidApi} {KA : KeyApi} {TA : TunnApi} {PA : ProtoApi} {IW : Ipv4Wire}.
Context {ST : StunApi} {S : Type} {TS : TunnelSession S} {SO : SessionOpen S}.
Context (send_ok : SocketAddr → list byte → bool).
Import NoeioDaemon.
Implicit Types (d : NoeioDaemon S).

(** C4. The daemon refines the map of its members. Whatever turns it takes from an
    empty router - datagrams from anyone, outbound packets, timers, path selection,
    route refreshes, changes of the relay - it knows at every overlay address
    exactly what folding the announcements it heard into an empty map leaves
    there, and looking an id up finds exactly the member of the map that has it,
    as long as the relay never gives the id of a known peer to another address. *)
Theorem membership_refines d0 qs d :
  router d0 = Router.new → run send_ok d0 qs d → orderly ∅ qs →
  let m := foldl announce ∅ qs in
  (∀ ip, info_at (router d) ip = m !! ip) ∧
  (∀ id i, (l ← Router.get_by_peer_id (router d) id; Router.info (router d) l) = Some i ↔
     m !! PeerInfo.noeio_ip i = Some i ∧ PeerInfo.peer_id i = id).
Proof.
  intros H0 Hrun Ho m.
  assert (simulates (router d) m) as Hsim
    by (eapply run_simulates; [done|rewrite H0; apply simulates_new|done]).
  split; [apply Hsim|]. intros id i.
  assert (∀ ip, Router.by_peer_id (router d) !! id = Some ip ↔
    ∃ i, m !! ip = Some i ∧ PeerInfo.peer_id i = id) as Hidx by (intros ip; by apply simulates_index).
  destruct Hsim as (Hwf & _ & Hat). unfold Router.get_by_peer_id. split.
  - destruct (Router.by_peer_id (router d) !! id) as [ip|] eqn:Hid; [|done].
    pose proof (proj1 (Hidx ip) eq_refl) as (j & Hj & Hjd). cbn. intros Hi.
    change (info_at (router d) ip = Some i) in Hi.
    rewrite (info_at_keyed _ _ _ (proj1 Hwf) Hi). rewrite Hat in Hi. split; [done|]. congruence.
  - intros [Hi Hid]. rewrite (proj2 (Hidx (PeerInfo.noeio_ip i))) by eauto. by rewrite <-Hat in Hi.
Qed.

(** C28. What reaches the routing table is well typed: whatever datagrams arrive and
    whatever else the daemon does, every identity it holds was announced by a
    relay, is not a tombstone, is stored under its own overlay address, and has a
    sixteen-byte network id and only routes in network form. *)
Theorem members_typed {CL : CidrLaws} {UL : UuidLaws} d0 qs d ip i :
  router d0 = Router.new → run send_ok d0 qs d → info_at (router d) ip = Some i →
  i ∈ qs ∧ PeerInfo.withdrawn i = false ∧ PeerInfo.noeio_ip i = ip ∧
  length (PeerInfo.network_id i) = 16%nat ∧
  Forall (λ c, cidr_network c = c) (PeerInfo.advertised_routes i).
Proof.
  intros H0 Hrun Hi.
  assert (heard (router d) qs) as [_ Hin]
    by (apply (run_heard send_ok d0 qs d []); [done|rewrite H0; apply heard_new]).
  destruct (Hin ip i Hi) as (Hq & Hw & Hip). split_and!; [done|done|done|..];
    by destruct (proj1 (Forall_forall _ _) (run_decoded send_ok _ _ _ Hrun) i Hq).
Qed.

(** C29. Reordered and repeated announcements do not matter: two daemons that start
    empty and hear the same live announcements, in any order and any number of
    times, with anything else happening in between, agree on every member, as long
    as one address and version always stand for one identity. *)
Theorem announcements_converge d0 d0' qs qs' d d' :
  router d0 = Router.new → router d0' = Router.new →
  run send_ok d0 qs d → run send_ok d0' qs' d' →
  (∀ q, q ∈ qs ↔ q ∈ qs') →
  (∀ q, q ∈ qs → PeerInfo.withdrawn q = false) →
  (∀ q1 q2, q1 ∈ qs → q2 ∈ qs → PeerInfo.noeio_ip q1 = PeerInfo.noeio_ip q2 →
     PeerInfo.resource_version q1 = PeerInfo.resource_version q2 → q1 = q2) →
  ∀ ip, info_at (router d) ip = info_at (router d') ip.
Proof.
  intros H0 H0' Hrun Hrun' Heq Hlive Hone ip.
  assert (∀ d0 qs d, router d0 = Router.new → run send_ok d0 qs d →
    (∀ q, q ∈ qs → PeerInfo.withdrawn q = false) → heard (router d) qs ∧ newest (router d) qs) as Hboth.
  { intros e0 l e He Hr Hl. split; [apply (run_heard send_ok e0 l e []); [done|rewrite He; apply heard_new]|].
    apply (run_newest send_ok e0 l e []); [done|rewrite He; apply heard_new|rewrite He; apply newest_new|].
    by apply Forall_forall. }
  destruct (Hboth _ _ _ H0 Hrun Hlive) as [[_ Hh] Hn].
  destruct (Hboth d0' qs' d' H0' Hrun') as [[_ Hh'] Hn']; [intros q Hq; by apply Hlive, Heq|].
  destruct (info_at (router d) ip) as [i|] eqn:Hi, (info_at (router d') ip) as [j|] eqn:Hj; [| | |done].
  - destruct (Hh _ _ Hi) as (Hiq & _ & Hip), (Hh' _ _ Hj) as (Hjq%Heq & _ & Hjp).
    destruct (Hn j Hjq) as (x & Hx & Hle), (Hn' i ltac:(by apply Heq)) as (y & Hy & Hle').
    f_equal. apply Hone; [done|done|congruence|]. rewrite Hjp, Hi in Hx. rewrite Hip, Hj in Hy.
    simplify_eq. lia.
  - destruct (Hh _ _ Hi) as (Hiq%Heq & _ & <-). destruct (Hn' i Hiq) as (y & Hy & _). congruence.
  - destruct (Hh' _ _ Hj) as (Hjq%Heq & _ & <-). destruct (Hn j Hjq) as (y & Hy & _). congruence.
Qed.
End properties.

Lemma ex_orderly : orderly ∅ [ex_info; ex_info_c].
Proof.
  split; [right; by intros|]. split; [|done]. right. intros ip i.
  change (announce ∅ ex_info) with ({[ PeerInfo.noeio_ip ex_info := ex_info ]} : Members).
  intros [_ <-]%lookup_singleton_Some Heq. discriminate Heq.
Qed.

Lemma membership_refines_witness :
  let d := foldl hear start [ex_info; ex_info_c] in
  info_at (NoeioDaemon.router d) (PeerInfo.noeio_ip ex_info) = Some ex_info ∧
  (l ← Router.get_by_peer_id (NoeioDaemon.router d) 12; Router.info (NoeioDaemon.router d) l) = Some ex_info_c.
Proof.
  intros d.
  assert (Forall (λ q, q = ex_info ∨ q = ex_info_c) [ex_info; ex_info_c]) as Hqs
    by (repeat constructor; auto).
  destruct (membership_refines always start [ex_info; ex_info_c] d eq_refl (start_hears _ Hqs) ex_orderly)
    as [H1 H2].
  split; [rewrite H1|apply H2; split]; apply (bool_decide_unpack _); vm_compute; exact I.
Defined.

Lemma members_typed_witness :
  ex_info_c ∈ [ex_info; ex_info_c] ∧ length (PeerInfo.network_id ex_info_c) = 16%nat.
Proof.
  assert (Forall (λ q, q = ex_info ∨ q = ex_info_c) [ex_info; ex_info_c]) as Hqs
    by (repeat constructor; auto).
  assert (info_at (NoeioDaemon.router (foldl hear start [ex_info; ex_info_c]))
    (PeerInfo.noeio_ip ex_info_c) = Some ex_info_c) as Hat
    by (apply (bool_decide_unpack _); vm_compute; exact I).
  destruct (members_typed always start [ex_info; ex_info_c] _ _ _ eq_refl (start_hears _ Hqs) Hat)
    as (Hin & _ & _ & Hlen & _). split; [exact Hin|exact Hlen].
Defined.

Lemma announcements_converge_witness :
  let ip := PeerInfo.noeio_ip ex_info_c in
  info_at (NoeioDaemon.router (foldl hear start [ex_info; ex_info_c])) ip =
  info_at (NoeioDaemon.router (foldl hear start [ex_info_c; ex_info; ex_info_c])) ip.
Proof.
  assert (∀ qs, (∀ q, q ∈ qs → q = ex_info ∨ q = ex_info_c) → run always start qs (foldl hear start qs)) as Hrun
    by (intros qs Hq; by apply start_hears, Forall_forall).
  assert (∀ q, q ∈ [ex_info; ex_info_c] → q = ex_info ∨ q = ex_info_c) as Hin.
  { intros q. rewrite !elem_of_cons. intros [|[|?%not_elem_of_nil]]; [by left|by right|done]. }
  apply (announcements_converge always start start _ _ _ _ eq_refl eq_refl (Hrun [ex_info; ex_info_c] Hin)
    (Hrun [ex_info_c; ex_info; ex_info_c] ltac:(intros q; rewrite !elem_of_cons; intros [|[|[|?%not_elem_of_nil]]]; tauto))).
  - intros q. rewrite !elem_of_cons. tauto.
  - intros q [-> | ->]%Hin; reflexivity.
  - intros q1 q2 [-> | ->]%Hin [-> | ->]%Hin Hip; first [reflexivity|discriminate Hip].
Defined.
