(* ===== verification/SubnetRoute.v ===== *)
(** A subnet behind a peer, end to end on the node that uses it: from what the daemon
    holds of its members ([Membership]) through the election of exits ([Routes]), the
    routing table ([RoutingTable]) and the kernel's routes ([Reconcile]) to the
    packets ([Daemon]): one exit per prefix, and all of them agree on it. *)

From Stdlib Require Import ZArith Lia.
From Stdlib Require Import Strings.Byte Strings.String.
From stdpp Require Import base list strings gmap fin_maps sets.
From S2P Require Import Prelude Text NetTypes CidrModel HostInfo Packet HostCodec CodecModel Routes RoutingTable NetRoute Reconcile Session Wireguard Peer DerperClient Daemon Membership.

Local Open Scope Z_scope.

(** ** The specification *)

Section spec.
Context {CA : CidrApi}.
Implicit Types (m : Members) (n : Cidr).

(** Member [id] advertises prefix [n]. *)
Definition offers m n (id : PeerId) : Prop :=
  ∃ ip i c, m !! ip = Some i ∧ PeerInfo.peer_id i = id ∧ c ∈ PeerInfo.advertised_routes i ∧ cidr_network c = n.

(** The member traffic into [n] goes to: the lowest id that offers it. *)
Definition exit_for m n (id : PeerId) : Prop := offers m n id ∧ ∀ id', offers m n id' → id ≤ id'.

(** The subnets a node with [policy] uses. *)
Definition uses (policy : ConsumerPolicy) m n (id : PeerId) : Prop :=
  Routes.accept_routes policy = true ∧ prefix_admissible policy n ∧ exit_for m n id.
End spec.

(** ** The daemon's tables *)

Section tables.
Context {CA : CidrApi} {CL : CidrLaws} {U : UuidApi} {KA : KeyApi} {TA : TunnApi} {PA : ProtoApi} {IW : Ipv4Wire}.
Context {ST : StunApi} {S : Type} {TS : TunnelSession S} {SO : SessionOpen S}.
Import NoeioDaemon.
Implicit Types (d : NoeioDaemon S) (m : Members) (n : Cidr).

Lemma elem_peer_infos d p :
  p ∈ peer_infos d ↔ ∃ ip l, Router.get (router d) ip = Some l ∧ peer_at d l = Some p.
Proof.
  unfold peer_infos, Router.all_peers, Router.get. rewrite list_elem_of_omap. split.
  - intros (l & ([ip l'] & -> & Hin%elem_of_map_to_list)%list_elem_of_fmap & Hp). by exists ip, l'.
  - intros (ip & l & Hl & Hp). exists l. split; [|done]. apply list_elem_of_fmap. exists (ip, l).
    split; [done|]. by apply elem_of_map_to_list.
Qed.

(** The peers are the members. *)
Lemma peer_infos_members d m i : simulates (router d) m →
  (∃ p, p ∈ peer_infos d ∧ Peer.info p = i) ↔ m !! PeerInfo.noeio_ip i = Some i.
Proof.
  intros ([Hk _] & _ & Hat). rewrite <-Hat. unfold info_at, Router.info, peer_info. cbn. split.
  - intros (p & (ip & l & Hl & Hp)%elem_peer_infos & <-). destruct (Hk _ _ Hl) as (j & Hj & <-).
    unfold Router.info in Hj. unfold peer_at in Hp. rewrite Hp in Hj. injection Hj as <-. rewrite Hl. cbn. by rewrite Hp.
  - intros (l & Hl & (p & Hp & Hi)%fmap_Some)%bind_Some. exists p. split; [|done].
    apply elem_peer_infos. by exists (PeerInfo.noeio_ip i), l.
Qed.

Lemma elem_advertisements d id (c : Cidr) :
  (id, c) ∈ advertisements d ↔
  ∃ p, p ∈ peer_infos d ∧ PeerInfo.peer_id (Peer.info p) = id ∧ c ∈ PeerInfo.advertised_routes (Peer.info p).
Proof.
  unfold advertisements. rewrite list_elem_of_In, in_flat_map. setoid_rewrite <-list_elem_of_In. split.
  - intros (p & Hp & (c' & [= -> ->] & Hc)%list_elem_of_fmap). by exists p.
  - intros (p & Hp & <- & Hc). exists p. split; [done|]. apply list_elem_of_fmap. by exists c.
Qed.

Lemma advertisements_offers d m n id : simulates (router d) m →
  (∃ c, (id, c) ∈ advertisements d ∧ cidr_network c = n) ↔ offers m n id.
Proof.
  intros Hsim. unfold offers. setoid_rewrite elem_advertisements. split.
  - intros (c & (p & Hp & Hid & Hc) & Hn). exists (PeerInfo.noeio_ip (Peer.info p)), (Peer.info p), c.
    split; [|done]. apply (peer_infos_members d m _ Hsim). by exists p.
  - intros (ip & i & c & Hi & Hid & Hc & Hn). exists c. split; [|done].
    assert (PeerInfo.noeio_ip i = ip) as Hip.
    { destruct Hsim as ([Hk _] & _ & Hat). by eapply info_at_keyed; [exact Hk|rewrite Hat]. }
    rewrite <-Hip in Hi. apply (peer_infos_members d m i Hsim) in Hi as (p & Hp & <-). by exists p.
Qed.

Lemma is_exit_for d m n id : simulates (router d) m → is_exit (advertisements d) n id ↔ exit_for m n id.
Proof.
  intros Hsim. unfold is_exit, exit_for. rewrite (advertisements_offers d m n id Hsim). split.
  - intros [Ho Hm]. split; [done|]. intros id' (c & Hc & Hn)%(advertisements_offers d m n id' Hsim). by eapply Hm.
  - intros [Ho Hm]. split; [done|]. intros id' c Hc Hn. apply Hm, (advertisements_offers d m n id' Hsim). by exists c.
Qed.

(** The election: the table's subnets are those of the specification. *)
Lemma elem_refreshed d m ifs n id : simulates (router d) m →
  (n, id) ∈ Router.subnets (router (refresh_subnets d ifs)) ↔ uses (consumer_policy d ifs) m n id.
Proof.
  intros Hsim. unfold refresh_subnets, Router.set_subnets. cbn [router Router.subnets].
  rewrite elem_of_dedup_merge_sort, accepted_spec. unfold uses. by rewrite (is_exit_for d m n id Hsim).
Qed.

Lemma simulates_refresh d m ifs : simulates (router d) m → simulates (router (refresh_subnets d ifs)) m.
Proof. apply simulates_same. by split_and!. Qed.

(** A used prefix is in network form. *)
Lemma uses_network policy m n id : uses policy m n id → cidr_network n = n.
Proof. intros (_ & _ & (_ & _ & c & _ & _ & _ & <-) & _). apply cidr_network_idemp. Qed.

(** Every exit is a member whose id the index resolves. *)
Lemma exit_resolves d m n id : simulates (router d) m → exit_for m n id →
  ∃ i l p, m !! PeerInfo.noeio_ip i = Some i ∧ PeerInfo.peer_id i = id ∧
    (∃ c, c ∈ PeerInfo.advertised_routes i ∧ cidr_network c = n) ∧
    Router.get_by_peer_id (router d) id = Some l ∧ peer_at d l = Some p ∧ Peer.info p = i ∧ p ∈ peer_infos d.
Proof.
  intros Hsim [(ip & i & c & Hi & Hid & Hc & Hn) _]. pose proof Hsim as ([Hk _] & _ & Hat).
  assert (PeerInfo.noeio_ip i = ip) as Hip by (by eapply info_at_keyed; [exact Hk|rewrite Hat]).
  pose proof (proj2 (simulates_index (router d) m id ip Hsim) (ex_intro _ i (conj Hi Hid))) as Hidx.
  rewrite <-Hat in Hi. unfold info_at in Hi. apply bind_Some in Hi as (l & Hl & Hi).
  unfold Router.info in Hi. apply fmap_Some in Hi as (p & Hp & Hi). cbn in Hi.
  exists i, l, p. rewrite Hip, <-Hat. unfold Router.get_by_peer_id. rewrite Hidx. cbn. unfold info_at, Router.info, peer_at.
  rewrite Hl. cbn. rewrite Hp. cbn. subst i. split_and!; try done; [by exists c|].
  apply elem_peer_infos. by exists ip, l.
Qed.
End tables.

(** ** Packets and routes *)

Section packets.
Context {CA : CidrApi} {CL : CidrLaws} {U : UuidApi} {KA : KeyApi} {TA : TunnApi} {PA : ProtoApi} {IW : Ipv4Wire}.
Context {ST : StunApi} {S : Type} {TS : TunnelSession S} {SO : SessionOpen S}.
Import NoeioDaemon.
Implicit Types (d : NoeioDaemon S) (m : Members) (n : Cidr).

(** Two prefixes in network form of one length that share an address are one. *)
Lemma same_network n n' a :
  is_uint 32 a → cidr_network n = n → cidr_network n' = n' → cidr_prefix_len n = cidr_prefix_len n' →
  cidr_contains_addr n a = true → cidr_contains_addr n' a = true → n = n'.
Proof.
  intros Ha Hn Hn' Hl Hc Hc'. rewrite cidr_contains_addr_spec in Hc, Hc' by done.
  apply cidr_ext; [|done]. rewrite <-Hn, <-Hn', !cidr_network_address, <-Hc, <-Hc'. by rewrite Hl.
Qed.

(** Where a packet for an address behind a peer goes. *)
Lemma lookup_used d m ifs n a l v4 :
  simulates (router d) m → uses (consumer_policy d ifs) m n a →
  Router.get_by_peer_id (router d) a = Some l → is_uint 32 v4 → cidr_contains_addr n v4 = true →
  m !! IpV4 v4 = None →
  (∀ n' a', uses (consumer_policy d ifs) m n' a' → cidr_contains_addr n' v4 = true →
     cidr_prefix_len n' ≤ cidr_prefix_len n) →
  Router.lookup (router (refresh_subnets d ifs)) (IpV4 v4) = Some l.
Proof.
  intros Hsim Hu Hl Hv Hc Hnone Hlong. unfold Router.lookup, refresh_subnets. cbn [router].
  set (es := accepted _). change (Router.get (Router.set_subnets _ _) ?ip) with (Router.get (router d) ip).
  assert (∀ n' a', (n', a') ∈ es ↔ uses (consumer_policy d ifs) m n' a') as Hes.
  { intros n' a'. unfold es. rewrite accepted_spec. unfold uses. by rewrite (is_exit_for d m n' a' Hsim). }
  assert (Router.get (router d) (IpV4 v4) = None) as ->.
  { destruct Hsim as ([Hk _] & _ & Hat). rewrite <-Hat in Hnone. unfold info_at in Hnone.
    destruct (Router.get (router d) (IpV4 v4)) as [l'|] eqn:Hg; [|done]. cbn in Hnone.
    destruct (Hk _ _ Hg) as (i & Hi & _). congruence. }
  pose proof (lookup_exit_spec (router d) es v4) as Hspec.
  destruct (Router.lookup_exit _ v4) as [id|]; cbn [mbind option_bind].
  - destruct Hspec as (c & Hin & Hcc & Hmax). pose proof (Hmax n a (proj2 (Hes n a) Hu) Hc) as Hle.
    apply Hes in Hin. pose proof (Hlong c id Hin Hcc) as Hge.
    assert (c = n) as ->.
    { apply (same_network c n v4); try done; [by eapply uses_network|by eapply uses_network|lia]. }
    destruct Hin as (_ & _ & [Ho Hm]), Hu as (_ & _ & [Ho' Hm']). specialize (Hm _ Ho'). specialize (Hm' _ Ho).
    assert (id = a) as -> by lia. done.
  - exfalso. rewrite (Hspec n a) in Hc by by apply Hes. done.
Qed.

(** A packet out of a prefix the peer offers is not blocked. *)
Lemma offered_source (i : PeerInfo) (c : Cidr) v4 :
  c ∈ PeerInfo.advertised_routes i → is_uint 32 v4 → cidr_contains_addr (cidr_network c) v4 = true →
  blocked i (Some (IpV4 v4)) = false.
Proof.
  intros Hc Hv Hin. unfold blocked, Router.allowed_source. case_decide; [done|].
  apply negb_false_iff, existsb_exists. exists c. split; [by apply list_elem_of_In|].
  by rewrite <-cidr_network_contains.
Qed.

(** The nic through which the daemon reaches the member at [ip]. *)
Definition via d (ip : IpAddr) : option PeerId :=
  Peer.local_peer_id <$> (Router.get (router d) ip ≫= peer_at d).

(** What the kernel has to hold for the members, in terms of the specification. *)
Definition wanted_key d m ifs (key : RouteKey) : Prop :=
  ∃ i, m !! PeerInfo.noeio_ip i = Some i ∧ via d (PeerInfo.noeio_ip i) = Some (Reconciler.nic key) ∧
    NicManager.contains (nics d) (Reconciler.nic key) = true ∧
    ((∃ v4, PeerInfo.noeio_ip i = IpV4 v4 ∧ Reconciler.cidr key = cidr_new v4 32) ∨
     uses (consumer_policy d ifs) m (Reconciler.cidr key) (PeerInfo.peer_id i)).

Lemma elem_nics (nm : NicManager) id : id ∈ NicManager.peers nm ↔ NicManager.contains nm id = true.
Proof.
  unfold NicManager.peers, NicManager.contains. rewrite bool_decide_eq_true, list_elem_of_fmap. split.
  - intros ([id' v] & -> & Hin%elem_of_map_to_list). by eexists.
  - intros [v Hv]. exists (id, v). split; [done|]. by apply elem_of_map_to_list.
Qed.

Lemma elem_wanted d m ifs key : simulates (router d) m →
  key ∈ (desired_routes_of d ifs).2 ↔ wanted_key d m ifs key.
Proof.
  intros Hsim. unfold desired_routes_of. cbn [snd]. unfold Reconciler.desired. rewrite elem_of_desired_fold.
  set (d' := refresh_subnets d ifs). unfold contributes, wanted_key, via.
  change (nics d') with (nics d). setoid_rewrite elem_nics.
  assert (∀ pr, pr ∈ route_snapshot d' ↔ ∃ p, p ∈ peer_infos d ∧ pr = Reconciler.MkPeerRoutes (Peer.local_peer_id p)
    (PeerInfo.peer_id (Peer.info p)) (PeerInfo.noeio_ip (Peer.info p))
    (omap (λ '(c, exit), if exit =? PeerInfo.peer_id (Peer.info p) then Some c else None) (Router.subnets (router d')))) as Hpr.
  { intros pr. unfold route_snapshot. rewrite list_elem_of_fmap. by setoid_rewrite (and_comm (_ = _)). }
  assert (∀ c id, c ∈ omap (λ '(c, exit), if exit =? id then Some c else None) (Router.subnets (router d')) ↔
    uses (consumer_policy d ifs) m c id) as Hs.
  { intros c id. rewrite list_elem_of_omap. rewrite <-(elem_refreshed d m ifs c id Hsim). split.
    - intros ([c' e] & Hin & He). destruct (Z.eqb_spec e id); [|done]. by simplify_eq.
    - intros Hin. exists (c, id). by rewrite Z.eqb_refl. }
  split.
  - intros [[]%not_elem_of_empty|(pr & (p & Hp & ->)%Hpr & Hn & Hk & Hc)]. cbn in Hn, Hk, Hc.
    exists (Peer.info p). apply elem_peer_infos in Hp as (ip & l & Hl & Hp). rewrite Hk.
    assert (info_at (router d) ip = Some (Peer.info p)) as Hi.
    { unfold info_at, Router.info. unfold peer_at in Hp. rewrite Hl. cbn. by rewrite Hp. }
    pose proof Hsim as ([Hkd _] & _ & Hat). rewrite (info_at_keyed _ _ _ Hkd Hi).
    rewrite <-Hat, Hl. cbn. rewrite Hp. split_and!; try done. destruct Hc as [(v4 & Hv & Hc)|(c & Hc & Hcn)].
    + left. exists v4. split; [|done]. by rewrite <-(info_at_keyed _ _ _ Hkd Hi).
    + right. apply Hs in Hc. by rewrite Hcn, (uses_network _ _ _ _ Hc).
  - intros (i & Hi & Hv & Hn & Hc). right. apply fmap_Some in Hv as (p & (l & Hl & Hp)%bind_Some & Hk).
    assert (Peer.info p = i) as Hpi.
    { destruct Hsim as (_ & _ & Hat). rewrite <-Hat in Hi. unfold info_at, Router.info in Hi. unfold peer_at in Hp.
      rewrite Hl in Hi. cbn in Hi. rewrite Hp in Hi. by injection Hi. }
    eexists. split; [apply Hpr; exists p; split; [apply elem_peer_infos; by exists (PeerInfo.noeio_ip i), l|done]|].
    cbn. rewrite <-Hk, Hpi. split; [done|]. split; [done|]. destruct Hc as [Hc|Hc]; [by left|]. right.
    exists (Reconciler.cidr key). split; [by apply Hs|]. by rewrite (uses_network _ _ _ _ Hc).
Qed.
End packets.

(** ** Kernel *)

Section kernel.
Context {CA : CidrApi} {CL : CidrLaws} {U : UuidApi} {KA : KeyApi} {TA : TunnApi} {PA : ProtoApi} {IW : Ipv4Wire}.
Context {ST : StunApi} {S : Type} {TS : TunnelSession S} {SO : SessionOpen S}.
Context {K : Type} {RH : RouteHandle K} {KL : KernelLaws}.
Import NoeioDaemon.
Implicit Types (d : NoeioDaemon S) (m : Members) (n : Cidr).

(** The kernel holds, of the routes the reconciler remembers or wants, the remembered
    ones; neither set uses one prefix through two nics. *)
Definition ready d ifs (r : Reconciler.Reconciler) (k : K) : Prop :=
  let D := (desired_routes_of d ifs).2 in
  one_nic (Reconciler.installed r) ∧ one_nic D ∧
  in_sync (ifindex_of d) (D ∪ Reconciler.installed r) k (Reconciler.installed r).

Lemma contains_index d nic : NicManager.contains (nics d) nic = true → is_Some (ifindex_of d nic).
Proof. unfold NicManager.contains, ifindex_of, NicManager.get. by intros [? ->]%bool_decide_eq_true. Qed.

(** After a pass the kernel holds the specification's routes and no other. *)
Lemma pass_wanted d m ifs r k fs : simulates (router d) m → ready d ifs r k →
  let '(d', (r', k', _, _)) := reconcile_routes d ifs r k fs in
  d' = refresh_subnets d ifs ∧
  (∀ key, key ∈ Reconciler.installed r' ↔ wanted_key d m ifs key) ∧
  ∀ rt, managed ((desired_routes_of d ifs).2 ∪ Reconciler.installed r) rt →
    rt ∈ table k' ↔ ∃ key i, wanted_key d m ifs key ∧ ifindex_of d (Reconciler.nic key) = Some i ∧ rt = route_of key i.
Proof.
  intros Hsim (HoS & HoD & Hsync). unfold reconcile_routes.
  pose proof (elem_wanted d m ifs) as Hw.
  destruct (desired_routes_of d ifs) as [d' D] eqn:Hd. cbn [snd] in *.
  assert (d' = refresh_subnets d ifs) as -> by (unfold desired_routes_of in Hd; by injection Hd as <- _).
  change (ifindex_of (refresh_subnets d ifs)) with (ifindex_of d). unfold Reconciler.reconcile.
  pose proof (pass_sync (ifindex_of d) _ k D (Reconciler.installed r)
    (union_subseteq_r _ _) (union_subseteq_l _ _) HoS HoD Hsync) as Hp.
  destruct (Reconciler.reconcile_pass _ _ _ _) as [[k' L] c]. destruct Hp as [Hs Hiff]. cbn [Reconciler.installed].
  assert (∀ key, key ∈ L ↔ wanted_key d m ifs key) as HL.
  { intros key. rewrite Hiff, <-Hw by done. split; [tauto|]. intros Hk. split; [done|]. right.
    apply Hw in Hk; [|done]. destruct Hk as (_ & _ & _ & Hk & _). by apply contains_index. }
  split; [done|]. split; [done|]. intros rt Hrt. rewrite (Hs rt Hrt). by setoid_rewrite HL.
Qed.

(** A node in one network never wants a prefix through two nics. *)
Lemma single_nic d m ifs nic v : simulates (router d) m → nics d = {[ nic := v ]} →
  one_nic (desired_routes_of d ifs).2.
Proof.
  intros Hsim Hn. assert (∀ key, key ∈ (desired_routes_of d ifs).2 → Reconciler.nic key = nic) as Hone.
  { intros key (_ & _ & _ & Hc & _)%(elem_wanted d m ifs); [|done]. rewrite Hn in Hc.
    apply bool_decide_eq_true in Hc as [w Hw]. by apply lookup_singleton_Some in Hw as [<- _]. }
  intros [n1 c1] [n2 c2] H1 H2 Hc. apply Hone in H1, H2. cbn in *. congruence.
Qed.

(** The first pass of a node, on a kernel without routes of its own. *)
Lemma ready_fresh d m ifs nic v f (k : K) : simulates (router d) m → nics d = {[ nic := v ]} → table k = [] →
  ready d ifs (Reconciler.new f) k.
Proof.
  intros Hsim Hn Hk. split; [apply one_nic_empty|]. split; [by eapply single_nic|].
  intros rt _. rewrite Hk. split; [by intros ?%not_elem_of_nil|by intros (key & i & []%not_elem_of_empty & _)].
Qed.
End kernel.

(** ** Properties *)

Section properties.
Context {CA : CidrApi} {CL : CidrLaws} {U : UuidApi} {KA : KeyApi} {TA : TunnApi} {PA : ProtoApi} {IW : Ipv4Wire}.
Context {ST : StunApi} {S : Type} {TS : TunnelSession S} {SO : SessionOpen S}.
Context {K : Type} {RH : RouteHandle K} {KL : KernelLaws}.
Import NoeioDaemon.
Implicit Types (d : NoeioDaemon S) (m : Members) (n : Cidr).

(** C5. A subnet behind a peer works end to end once the reconciler has run: for a prefix
    the policy admits, the member with the lowest id that offers it is the exit, and
    everything agrees on it. The kernel sends the prefix into the nic of that
    member's network and nowhere else; a packet the nic then yields for an address in
    it is encrypted by that member's codec and sent on that member's path - unless
    the address is a member's own, or a used prefix that is longer contains it; and
    an answer with a source in the prefix is let through that member's tunnel. *)
Theorem subnet_routed send_ok d m ifs n a r k fs :
  simulates (router d) m → uses (consumer_policy d ifs) m n a → ready d ifs r k →
  let '(d', (r', k', _, _)) := reconcile_routes d ifs r k fs in
  ∃ i l p, m !! PeerInfo.noeio_ip i = Some i ∧ PeerInfo.peer_id i = a ∧
    Router.get_by_peer_id (router d') a = Some l ∧ peer_at d' l = Some p ∧ Peer.info p = i ∧
    (∀ idx rt, ifindex_of d (Peer.local_peer_id p) = Some idx →
       destination rt = IpV4 (cidr_address n) → prefix rt = cidr_prefix_len n →
       rt ∈ table k' ↔ rt = route_of (Reconciler.Key (Peer.local_peer_id p) n) idx) ∧
    (∀ v4 pkt c c' dg, is_uint 32 v4 → cidr_contains_addr n v4 = true → m !! IpV4 v4 = None →
       (∀ n' a', uses (consumer_policy d ifs) m n' a' → cidr_contains_addr n' v4 = true →
          cidr_prefix_len n' ≤ cidr_prefix_len n) →
       ipv4_dst_addr pkt = Some v4 → Peer.codec p = Some c →
       WireGuardTunnelSession.encapsulate c pkt = (c', ToPeer dg) →
       process_outbound send_ok d' pkt =
         (set_peer d' l (Peer.set_codec p c'),
          (send_to_peer send_ok (set_peer d' l (Peer.set_codec p c')) p dg).1)) ∧
    (∀ v4, is_uint 32 v4 → cidr_contains_addr n v4 = true → blocked (Peer.info p) (Some (IpV4 v4)) = false).
Proof.
  intros Hsim Hu Hready. pose proof Hready as (_ & HoD & _).
  pose proof (pass_wanted d m ifs r k fs Hsim Hready) as Hpass.
  destruct (reconcile_routes d ifs r k fs) as [d' [[[r' k'] fs'] c0]]. destruct Hpass as (-> & _ & Hk).
  destruct (exit_resolves d m n a Hsim (proj2 (proj2 Hu))) as (i & l & p & Hi & Hid & (c & Hc & Hn) & Hl & Hp & Hpi & Hin).
  exists i, l, p. split_and!; try done.
  - intros idx rt Hidx Hdest Hpre. set (key := Reconciler.Key (Peer.local_peer_id p) n).
    assert (wanted_key d m ifs key) as Hkey.
    { exists i. split; [done|]. apply elem_peer_infos in Hin as (ip & l' & Hl' & Hp').
      assert (ip = PeerInfo.noeio_ip i) as ->.
      { destruct Hsim as ([Hkd _] & _). destruct (Hkd _ _ Hl') as (j & Hj & <-). unfold Router.info in Hj.
        unfold peer_at in Hp'. rewrite Hp' in Hj. injection Hj as <-. cbn. by rewrite Hpi. }
      unfold via. rewrite Hl'. cbn. rewrite Hp'. split; [done|]. split.
      - unfold ifindex_of in Hidx. apply fmap_Some in Hidx as (v & Hv & _). apply bool_decide_eq_true. by exists v.
      - right. by rewrite Hid. }
    assert (key ∈ (desired_routes_of d ifs).2) as HkD by by apply (elem_wanted d m ifs).
    rewrite (Hk rt) by (exists key; split; [by apply elem_of_union_l|done]). split.
    + intros (key' & j & Hw & Hj & ->). apply (elem_wanted d m ifs) in Hw; [|done].
      assert (key' = key) as ->.
      { apply (HoD key' key Hw HkD). by apply key_cidr_eq. }
      change (ifindex_of d (Peer.local_peer_id p) = Some j) in Hj. congruence.
    + intros ->. by exists key, idx.
  - intros v4 pkt cd c' dg Hv Hcv Hnone Hlong Hdst Hcd He. unfold process_outbound. rewrite Hdst.
    rewrite (lookup_used d m ifs n a l v4) by done. change (peer_at (refresh_subnets d ifs) l) with (peer_at d l).
    rewrite Hp. cbn [mbind option_bind]. rewrite Hcd. cbn [mbind option_bind]. by rewrite He.
  - intros v4 Hv Hcv. rewrite Hpi. apply (offered_source i c v4 Hc Hv). by rewrite Hn.
Qed.
End properties.

(** Two members offer the same /24; the one with the lower id is the exit. *)
Module Scenario.
Import Daemon.Example.

Definition lan : Cidr := cidr_new (ipv4 192 168 10 0) 24.
Definition offering (id ip : Z) : PeerInfo :=
  PeerInfo.MkPeerInfo 1 id (IpV4 ip) (replicate 16 Byte.x07) Other None [] [lan] false.
Definition ip_11 : Z := ipv4 110 20 0 1.
Definition ip_13 : Z := ipv4 110 20 0 3.
Definition one : NoeioDaemon UdpTunnelSession := (NoeioDaemon.apply_sync_route start (offering 11 ip_11) 12).1.
Definition both : NoeioDaemon UdpTunnelSession := (NoeioDaemon.apply_sync_route one (offering 13 ip_13) 12).1.
Definition members : Members := announce (announce ∅ (offering 11 ip_11)) (offering 13 ip_13).

Lemma members_lookup ip i : members !! ip = Some i ↔
  (ip = IpV4 ip_11 ∧ i = offering 11 ip_11) ∨ (ip = IpV4 ip_13 ∧ i = offering 13 ip_13).
Proof.
  unfold members, announce. cbn [PeerInfo.withdrawn offering PeerInfo.noeio_ip].
  rewrite !lookup_insert_Some, lookup_empty. cbn [newer].
  split; [intros [[<- <-]|[Hne [[<- <-]|[_ Hn]]]]; [by right|by left|done]|].
  intros [[-> ->]|[-> ->]]; [right|by left]. by split; [|left].
Qed.

Lemma both_simulates : simulates (NoeioDaemon.router both) members.
Proof.
  unfold both, members. apply apply_sync_simulates; [apply apply_sync_simulates; [apply simulates_new|]|]; right.
  - intros ip i. by rewrite lookup_empty.
  - intros ip i. unfold announce. cbn [PeerInfo.withdrawn offering PeerInfo.noeio_ip].
    intros [[<- <-]|[_ Hn]]%lookup_insert_Some; [done|by rewrite lookup_empty in Hn].
Qed.

Lemma lan_network : cidr_network lan = lan.
Proof. reflexivity. Qed.

Lemma both_offer id : offers members lan id ↔ id = 11 ∨ id = 13.
Proof.
  split.
  - intros (ip & i & c & Hi & <- & _). apply members_lookup in Hi as [[_ ->]|[_ ->]]; [by left|by right].
  - intros [->| ->]; [exists (IpV4 ip_11), (offering 11 ip_11), lan|exists (IpV4 ip_13), (offering 13 ip_13), lan];
      (split_and!; [apply members_lookup; tauto|done|by left|exact lan_network]).
Qed.

Lemma both_admissible : prefix_admissible (NoeioDaemon.consumer_policy both []) lan.
Proof.
  split; [by intros l ?%not_elem_of_nil|]. split; [by intros l ?%not_elem_of_nil|].
  assert (is_err (validate_cidr lan (protected (NoeioDaemon.consumer_policy both []))) = false) as He by reflexivity.
  by apply is_err_false in He as [[] He].
Qed.

Lemma both_uses : uses (NoeioDaemon.consumer_policy both []) members lan 11.
Proof.
  split; [reflexivity|]. split; [exact both_admissible|]. split; [apply both_offer; by left|].
  intros id' [->| ->]%both_offer; lia.
Qed.

Lemma both_nics : NoeioDaemon.nics both = {[ 12 := MkNic (IpV4 (ipv4 110 20 0 9)) "noeio0" 3 [] ]}.
Proof. reflexivity. Qed.
End Scenario.
Import Daemon.Example Scenario.

Lemma subnet_routed_witness :
  let '(d', (_, k', _, _)) := NoeioDaemon.reconcile_routes both [] (Reconciler.new None) (∅ : fib) (MkFs ∅ true) in
  ∃ p, Peer.info p = offering 11 ip_11 ∧ Router.get_by_peer_id (NoeioDaemon.router d') 11 = Some 0%nat ∧
    NoeioDaemon.peer_at d' 0%nat = Some p ∧
    NoeioDaemon.blocked (Peer.info p) (Some (IpV4 (ipv4 192 168 10 7))) = false.
Proof.
  pose proof (subnet_routed always both members [] lan 11 (Reconciler.new None) (∅ : fib) (MkFs ∅ true)
    both_simulates both_uses (ready_fresh both members [] 12 _ None (∅ : fib) both_simulates both_nics eq_refl)) as H.
  pose proof (pass_wanted both members [] (Reconciler.new None) (∅ : fib) (MkFs ∅ true) both_simulates
    (ready_fresh both members [] 12 _ None (∅ : fib) both_simulates both_nics eq_refl)) as Hp.
  destruct (NoeioDaemon.reconcile_routes _ _ _ _ _) as [d' [[[r' k'] fs'] n']]. destruct Hp as (-> & _ & _).
  destruct H as (i & l & p & Hi & Hid & Hl & Hp & <- & _ & _ & Hb). exists p.
  assert (l = 0%nat) as ->.
  { assert (Router.get_by_peer_id (NoeioDaemon.router (NoeioDaemon.refresh_subnets both [])) 11 = Some 0%nat) as H0
      by (apply (bool_decide_unpack _); vm_compute; exact I). congruence. }
  split_and!; [|done|done|apply Hb; [split; vm_compute; congruence|reflexivity]].
  apply members_lookup in Hi as [[_ ->]|[_ Hi]]; [done|]. rewrite Hi in Hid. discriminate Hid.
Defined.
