(* ===== verification/Convergence.v ===== *)
(** The loop of [spawn] in [noeio/src/daemon/reconciler.rs] beside the daemon's other
    tasks: the permit of its [Notify], a pass that is under way while the routing table
    changes, and what the kernel holds when the loop sleeps. The pass is [Reconcile],
    what it wants is [SubnetRoute], the other tasks take the turns of [Membership]. *)

From Stdlib Require Import ZArith Lia.
From Stdlib Require Import Strings.Byte Strings.String.
From stdpp Require Import base list strings gmap fin_maps sets relations.
From S2P Require Import Prelude Text NetTypes CidrModel HostInfo Packet HostCodec CodecModel Routes RoutingTable NetRoute Reconcile Session Wireguard Peer DerperClient Daemon Membership SubnetRoute.

Local Open Scope Z_scope.

(** ** The loop *)

Section loop.
Context {CA : CidrApi} {U : UuidApi} {KA : KeyApi} {TA : TunnApi} {PA : ProtoApi} {IW : Ipv4Wire}.
Context {ST : StunApi} {S : Type} {TS : TunnelSession S} {SO : SessionOpen S}.
Context {K : Type} {RH : RouteHandle K}.
Context (send_ok : SocketAddr → list byte → bool) (interfaces : list NetworkInterface).

(** The loop waits for the permit or the tick; it has been woken; it applies what it
    wants. *)
Inductive Phase : Type :=
  | Waiting
  | Woken
  | Applying (desired : gset RouteKey).

Record Loop : Type := MkLoop {
  node : NoeioDaemon S;
  phase : Phase;
  reconciler : Reconciler.Reconciler;
  kernel : K;
  state_fs : Fs;
}.

(** [notify.notified().await] returned. *)
Definition take_permit (d : NoeioDaemon S) : NoeioDaemon S :=
  NoeioDaemon.MkDaemon (NoeioDaemon.nics d) (NoeioDaemon.derper d) (NoeioDaemon.host_info d)
    (NoeioDaemon.router d) false (NoeioDaemon.advertised d) (NoeioDaemon.control_plane d)
    (NoeioDaemon.decisions d) (NoeioDaemon.allowed_ips_drops d) (NoeioDaemon.accept_routes d).

(** The loop's own turns. The pass starts by reading what it wants; the kernel calls
    follow, with the interfaces as they are then. *)
Inductive loop_step : Loop → Loop → Prop :=
  | step_notified d r k fs : NoeioDaemon.wake d = true →
      loop_step (MkLoop d Waiting r k fs) (MkLoop (take_permit d) Woken r k fs)
  | step_tick d r k fs : loop_step (MkLoop d Waiting r k fs) (MkLoop d Woken r k fs)
  | step_read d r k fs :
      loop_step (MkLoop d Woken r k fs)
        (MkLoop (NoeioDaemon.desired_routes_of d interfaces).1
                (Applying (NoeioDaemon.desired_routes_of d interfaces).2) r k fs)
  | step_apply d desired r k fs r' k' fs' n :
      Reconciler.reconcile r k fs desired (NoeioDaemon.ifindex_of d) = (r', k', fs', n) →
      loop_step (MkLoop d (Applying desired) r k fs) (MkLoop d Waiting r' k' fs').

(** A nic keeps its interface for as long as the daemon lives, and the id of a new one,
    which is random, is none that the reconciler remembers. *)
Definition keeps_nics (r : Reconciler.Reconciler) (d d' : NoeioDaemon S) : Prop :=
  (∀ id i, NoeioDaemon.ifindex_of d id = Some i → NoeioDaemon.ifindex_of d' id = Some i) ∧
  (∀ key, key ∈ Reconciler.installed r → NoeioDaemon.ifindex_of d (Reconciler.nic key) = None →
     NoeioDaemon.ifindex_of d' (Reconciler.nic key) = None).

(** What the daemon wants lies in [M], and uses no prefix through two nics. *)
Definition fits (M : gset RouteKey) (d : NoeioDaemon S) : Prop :=
  (NoeioDaemon.desired_routes_of d interfaces).2 ⊆ M ∧
  one_nic (NoeioDaemon.desired_routes_of d interfaces).2.

Inductive step (M : gset RouteKey) : Loop → Loop → Prop :=
  | step_loop st st' : loop_step st st' → step M st st'
  | step_other d d' qs p r k fs : turn send_ok d qs d' → keeps_nics r d d' → fits M d' →
      step M (MkLoop d p r k fs) (MkLoop d' p r k fs).
End loop.
Arguments Loop {CA KA TA} S K : rename.

(** ** What a turn can change of what is wanted *)

Section view.
Context {CA : CidrApi} {U : UuidApi} {KA : KeyApi} {TA : TunnApi} {PA : ProtoApi} {IW : Ipv4Wire}.
Context {ST : StunApi} {S : Type} {TS : TunnelSession S} {SO : SessionOpen S}.
Import NoeioDaemon.
Implicit Types (d : NoeioDaemon S).

Definition nic_view (n : VirtualNic) : IpAddr * Z := (nic_ip n, tun_index n).

(** What the wanted routes depend on. *)
Definition route_view d :=
  (Router.peers (router d), (λ p, (peer_info p, Peer.local_peer_id p)) <$> Router.heap (router d),
   advertised d, control_plane d, accept_routes d, nic_view <$> nics d).

Lemma elem_of_view {B} (f : VirtualNic → B) (g : IpAddr * Z → B) (m : NicManager) x :
  (∀ n, f n = g (nic_view n)) →
  x ∈ map f (map_to_list m).*2 ↔ ∃ id v, (nic_view <$> m) !! id = Some v ∧ x = g v.
Proof.
  intros Hfg. rewrite list_elem_of_fmap. setoid_rewrite list_elem_of_fmap. setoid_rewrite lookup_fmap_Some. split.
  - intros (n & -> & [id n'] & -> & Hin%elem_of_map_to_list). exists id, (nic_view n'). split; [by exists n'|]. apply Hfg.
  - intros (id & v & (n & <- & Hn) & ->). exists n. split; [by rewrite Hfg|]. exists (id, n).
    split; [done|]. by apply elem_of_map_to_list.
Qed.

Lemma ips_view (m m' : NicManager) ip : nic_view <$> m' = nic_view <$> m →
  ip ∈ NicManager.ips m' ↔ ip ∈ NicManager.ips m.
Proof. intros H. unfold NicManager.ips. rewrite !(elem_of_view nic_ip fst) by done. by rewrite H. Qed.

Lemma view_Some (m m' : NicManager) id : nic_view <$> m' = nic_view <$> m → is_Some (m' !! id) → is_Some (m !! id).
Proof.
  intros H [v Hv]. assert ((nic_view <$> m') !! id = Some (nic_view v)) as Hn by (apply lookup_fmap_Some; by exists v).
  rewrite H in Hn. apply lookup_fmap_Some in Hn as (w & _ & Hw). by exists w.
Qed.

Lemma nics_view (m m' : NicManager) id : nic_view <$> m' = nic_view <$> m →
  id ∈ NicManager.peers m' ↔ id ∈ NicManager.peers m.
Proof.
  intros H. rewrite !elem_nics. unfold NicManager.contains. rewrite !bool_decide_eq_true.
  split; by apply view_Some.
Qed.

Lemma ifindex_view d id : ifindex_of d id = snd <$> (nic_view <$> nics d) !! id.
Proof. unfold ifindex_of, NicManager.get. rewrite lookup_fmap, <-option_fmap_compose. done. Qed.

(** The same addresses of ours, the same decisions. *)
Lemma local_lans_view ifs l l' : (∀ ip, ip ∈ l' ↔ ip ∈ l) → local_lans_of ifs l' = local_lans_of ifs l.
Proof.
  intros Hl. unfold local_lans_of. f_equal. apply list_omap_ext, Forall2_same_length_lookup_2; [done|].
  intros i [ip p] [ip' p'] H1 H2. rewrite H1 in H2. injection H2 as <- <-. destruct ip as [v4|]; [|done].
  destruct (decide (IpV4 v4 ∈ l')), (decide (IpV4 v4 ∈ l)); naive_solver.
Qed.

Lemma validate_view (c : Cidr) l l' cp : (∀ ip, ip ∈ l' ↔ ip ∈ l) →
  is_err (validate_cidr c {| overlay_ips := l'; Routes.control_plane := cp |}) =
  is_err (validate_cidr c {| overlay_ips := l; Routes.control_plane := cp |}).
Proof.
  intros Hl. apply eq_bool_prop_intro. rewrite !Is_true_true.
  assert (∀ o, is_err (validate_cidr c {| overlay_ips := o; Routes.control_plane := cp |}) = true ↔
    ¬ validate_cidr c {| overlay_ips := o; Routes.control_plane := cp |} = Ok tt) as He.
  { intros o. destruct (validate_cidr c _) as [[]|]; cbn; naive_solver. }
  rewrite !He, !validate_cidr_Ok. cbn [overlay_ips Routes.control_plane]. by setoid_rewrite Hl.
Qed.

Lemma decide_view ifs d d' adv : route_view d' = route_view d →
  decide_routes (consumer_policy d' ifs) adv = decide_routes (consumer_policy d ifs) adv.
Proof.
  intros [= _ _ Hadv Hcp Hacc Hn]. unfold decide_routes, consumer_policy. cbn [Routes.accept_routes].
  rewrite Hacc. destruct (accept_routes d); [|done]. cbn [negb]. apply map_ext. intros [id c].
  pose proof (λ ip, ips_view (nics d) (nics d') ip Hn) as Hips.
  unfold decide_one. cbn [local_lans self_advertised protected]. f_equal.
  rewrite (local_lans_view ifs _ _ Hips), Hadv, Hcp. by rewrite (validate_view _ _ _ _ Hips).
Qed.

Definition peer_view (p : Peer.Peer S) : PeerInfo * PeerId := (peer_info p, Peer.local_peer_id p).

Lemma peer_infos_view d d' : route_view d' = route_view d →
  map peer_view (peer_infos d') = map peer_view (peer_infos d).
Proof.
  intros [= Hp Hh _ _ _ _]. unfold peer_infos, Router.all_peers. rewrite Hp.
  change (map peer_view) with (fmap (M := list) peer_view). rewrite !list_fmap_omap.
  apply list_omap_ext, Forall2_same_length_lookup_2; [done|]. intros i l l' H1 H2. rewrite H1 in H2. injection H2 as <-.
  unfold peer_at. apply (f_equal (lookup l)) in Hh. by rewrite !lookup_fmap in Hh.
Qed.

Lemma flat_map_map {A B C} (f : B → list C) (g : A → B) l : flat_map f (map g l) = flat_map (λ x, f (g x)) l.
Proof. induction l as [|x l IH]; cbn; [done|]. by rewrite IH. Qed.

(** Turns that leave the view leave what is wanted. *)
Lemma same_desired ifs d d' : route_view d' = route_view d →
  (desired_routes_of d' ifs).2 = (desired_routes_of d ifs).2.
Proof.
  intros Hv. pose proof (peer_infos_view d d' Hv) as Hpi.
  assert (advertisements d' = advertisements d) as Hadv.
  { unfold advertisements. apply (f_equal (flat_map (λ '(i, _), map (λ c, (PeerInfo.peer_id i, c)) (PeerInfo.advertised_routes i)))) in Hpi.
    by rewrite !flat_map_map in Hpi. }
  assert (Router.subnets (router (refresh_subnets d' ifs)) = Router.subnets (router (refresh_subnets d ifs))) as Hsub.
  { unfold refresh_subnets, Router.set_subnets. cbn [router Router.subnets]. by rewrite Hadv, (decide_view ifs d d' _ Hv). }
  assert (route_snapshot (refresh_subnets d' ifs) = route_snapshot (refresh_subnets d ifs)) as Hsnap.
  { unfold route_snapshot. rewrite Hsub. set (subs := Router.subnets _).
    change (peer_infos (refresh_subnets ?x ifs)) with (peer_infos x).
    apply (f_equal (map (λ '(i, k), Reconciler.MkPeerRoutes k (PeerInfo.peer_id i) (PeerInfo.noeio_ip i)
      (omap (λ '(c, exit), if exit =? PeerInfo.peer_id i then Some c else None) subs)))) in Hpi.
    by rewrite !map_map in Hpi. }
  unfold desired_routes_of. cbn [snd]. rewrite Hsnap. apply set_eq. intros key.
  unfold Reconciler.desired. rewrite !elem_of_desired_fold. unfold contributes.
  change (nics (refresh_subnets ?x ifs)) with (nics x).
  injection Hv as _ _ _ _ _ Hn. by setoid_rewrite (λ id, nics_view (nics d) (nics d') id Hn).
Qed.
End view.

(** ** Turns that change what is wanted leave a permit *)

Section turns.
Context {CA : CidrApi} {U : UuidApi} {KA : KeyApi} {TA : TunnApi} {PA : ProtoApi} {IW : Ipv4Wire}.
Context {ST : StunApi} {S : Type} {TS : TunnelSession S} {SO : SessionOpen S}.
Context (send_ok : SocketAddr → list byte → bool).
Import NoeioDaemon.
Implicit Types (d : NoeioDaemon S).

Definition settings d := (advertised d, control_plane d, accept_routes d, wake d).
(** The wanted routes and the permit are as they were. *)
Definition quiet d d' : Prop := route_view d' = route_view d ∧ wake d' = wake d.

Lemma quiet_refl d : quiet d d.
Proof. done. Qed.
Lemma quiet_trans d1 d2 d3 : quiet d1 d2 → quiet d2 d3 → quiet d1 d3.
Proof. intros [H1 H2] [H3 H4]. split; congruence. Qed.

Lemma quiet_frame d d' : tables (router d') = tables (router d) →
  nic_view <$> nics d' = nic_view <$> nics d → settings d' = settings d → quiet d d'.
Proof.
  intros Ht Hn Hs. unfold tables in Ht. unfold settings in Hs. injection Ht as Hp _ _ Hh. injection Hs as Ha Hc Hr Hw.
  split; [|done]. unfold route_view.
  change (λ p : Peer.Peer S, (peer_info p, Peer.local_peer_id p)) with (λ p : Peer.Peer S, (Peer.info p, Peer.local_peer_id p)).
  by rewrite Hp, Hh, Ha, Hc, Hr, Hn.
Qed.

Lemma quiet_set_peer d l p p' : peer_at d l = Some p → Peer.info p' = Peer.info p →
  Peer.local_peer_id p' = Peer.local_peer_id p → quiet d (set_peer d l p').
Proof. intros Hp Hi Hk. apply quiet_frame; [by apply (tables_set_peer d l p)|done|done]. Qed.

Lemma write_view (m : NicManager) id pkt : nic_view <$> NicManager.write m id pkt = nic_view <$> m.
Proof.
  apply map_eq. intros id'. rewrite !lookup_fmap, lookup_write. case_decide as Hid; [|done]. subst id'.
  rewrite <-option_fmap_compose. done.
Qed.

Lemma delivery_settings fuel d l i input src d' sent :
  delivery_loop send_ok fuel d l i input src = Some (d', sent) → settings d' = settings d.
Proof.
  revert d input d' sent. induction fuel as [|fuel IH]; intros d input d' sent; [done|]. cbn [delivery_loop].
  destruct (p ← peer_at d l; _) as [[p c]|]; [|by intros [= <- _]].
  destruct (WireGuardTunnelSession.decapsulate c (Some (sock_ip src)) input) as [c1 [pt inner|reply| |err]];
    [destruct (blocked i inner)| | |]; try by intros [= <- _].
  destruct (send_to_peer send_ok _ p reply) as [s [|]]; [|by intros [= <- _]].
  destruct (delivery_loop _ _ _ _ _ _ _) as [[d2 more]|] eqn:Hrec; [|done]. intros [= <- _]. by apply IH in Hrec.
Qed.

Lemma quiet_delivery fuel d l payload addr d' sent :
  handle_delivery send_ok fuel d l payload addr = Some (d', sent) → quiet d d'.
Proof.
  intros Hd. assert (settings d' = settings d) as Hs.
  { unfold handle_delivery in Hd. destruct (peer_at d l) as [p|]; [|by injection Hd as <- _]. by eapply delivery_settings. }
  apply handle_delivery_frame in Hd as [Ht [Hn|(p & c & c0 & c1 & bytes & pt & inner & _ & _ & _ & _ & _ & Hn)]];
    apply quiet_frame; try done; rewrite Hn; [done|apply write_view].
Qed.

Lemma quiet_signalling d header data src : quiet d (dispatch_signalling d header data src).
Proof.
  unfold dispatch_signalling. destruct (Router.get_by_peer_id _ _) as [l|]; [|done].
  destruct (peer_at d l) as [p|] eqn:Hp; [|done]. by apply (quiet_set_peer d l p); [|apply inbound_info..].
Qed.

(** An announcement that changes nothing. *)
Lemma quiet_sync d q k d1 : apply_sync_route d q k = (d1, false) → quiet d d1.
Proof.
  unfold apply_sync_route. destruct (PeerInfo.withdrawn q).
  - unfold Router.remove_by_peer_id. destruct (Router.by_peer_id (router d) !! _) as [ip|].
    + pose proof (remove_None (router d) ip) as Hn. destruct (Router.remove (router d) ip) as [r [l|]]; [done|].
      cbn in Hn. rewrite Hn by done. by intros [= <-].
    + by intros [= <-].
  - destruct (Router.get _ _) as [l|]; [|done]. destruct (Router.info _ l) as [i|]; [|by intros [= <-]].
    destruct (_ <? _); [done|]. by intros [= <-].
Qed.

Lemma inbound_quiet fuel d now host data addr d' sent :
  process_inbound send_ok fuel d now host data addr = Handled d' sent → wake d' = true ∨ quiet d d'.
Proof.
  assert (∀ d0 s, Handled d0 s = Handled d' sent → quiet d d0 → wake d' = true ∨ quiet d d') as Hq
    by (intros d0 s [= <- _]; by right).
  unfold process_inbound. destruct (_ <=? _)%nat; [intros H; by apply (Hq _ _ H)|]. fold (parsed data).
  destruct (parsed data) as [[packet header]|].
  - unfold inbound_packet. destruct (PacketHeader.packet_type header); try (intros H; by apply (Hq _ _ H)).
    + case_decide as Hip; [intros H; by apply (Hq _ _ H)|].
      destruct (NoeioPacket.payload packet) as [payload|]; [|intros H; by apply (Hq _ _ H)].
      destruct (peer_from_bytes payload) as [q|]; [|intros H; by apply (Hq _ _ H)].
      destruct (apply_sync_route d q _) as [d1 [|]] eqn:Ha; [intros [= <- _]; by left|].
      intros H. apply (Hq _ _ H). by eapply quiet_sync.
    + intros H. apply (Hq _ _ H), quiet_signalling.
    + intros H. apply (Hq _ _ H), quiet_signalling.
    + intros H. apply (Hq _ _ H), quiet_signalling.
    + destruct (match echo_ts packet with Some _ => _ | None => _ end) as [m b]. intros H. apply (Hq _ _ H).
      apply (quiet_trans d (set_derper d m)); [done|]. case_match; [apply quiet_signalling|done].
    + destruct (NoeioPacket.payload packet) as [payload|]; [|intros H; by apply (Hq _ _ H)].
      destruct (Router.get_by_peer_id _ _) as [l|]; [|intros H; by apply (Hq _ _ H)].
      destruct (handle_delivery _ _ _ _ _ _) as [[d1 s]|] eqn:Hd; [|done].
      intros H. apply (Hq _ _ H). by eapply quiet_delivery.
  - destruct (stun_decode data) as [[attrs|]|]; [destruct (parse_mapped_addr attrs) as [a|]|..]; try done; intros H; by apply (Hq _ _ H).
Qed.

Lemma quiet_timers d : quiet d (wg_timers send_ok d).1.
Proof.
  unfold wg_timers. assert (∀ ls st, quiet st.1 (fold_left (timer_turn send_ok) ls st).1) as H; [|apply (H _ (d, []))].
  induction ls as [|l ls IH]; intros st; [done|]. cbn [fold_left]. eapply quiet_trans; [|apply IH].
  destruct st as [d0 sent]. unfold timer_turn. cbn [fst].
  destruct (peer_at d0 l) as [p|] eqn:Hp; [|done]. cbn [mbind option_bind].
  destruct (Peer.codec p) as [c|]; [|done]. cbn [mbind option_bind].
  destruct (WireGuardTunnelSession.update_timers c) as [c' out]. by destruct out; apply (quiet_set_peer d0 l p).
Qed.

Lemma quiet_outbound d ip_bytes : quiet d (process_outbound send_ok d ip_bytes).1.
Proof.
  unfold process_outbound. destruct (ipv4_dst_addr ip_bytes) as [dst|]; [|done].
  destruct (Router.lookup _ _) as [l|]; [|done].
  destruct (peer_at d l) as [p|] eqn:Hp; [|done]. cbn [mbind option_bind].
  destruct (Peer.codec p) as [c|]; [|done]. cbn [mbind option_bind].
  destruct (WireGuardTunnelSession.encapsulate c ip_bytes) as [c' out]. by destruct out; apply (quiet_set_peer d l p).
Qed.

(** Whatever task takes a turn. *)
Lemma turn_quiet d qs d' : turn send_ok d qs d' → wake d' = true ∨ quiet d d'.
Proof.
  destruct 1 as [d fuel now host data addr d' sent H| d pkt|d|d l p Hp|d l p ss Hp|d ifs|d now routes|d id nic nw|d now host addr|d m].
  - by eapply inbound_quiet.
  - right. apply quiet_outbound.
  - right. apply quiet_timers.
  - right. by apply (quiet_set_peer d l p).
  - right. by apply (quiet_set_peer d l p).
  - by right.
  - unfold set_advertised. case_decide; [by right|by left].
  - unfold register_nic. destruct (PeerInfo.new _ _ _) as [q|]; [|by right].
    left. unfold add_peer. cbn [host_info notify set_nics]. by destruct (host_info d).
  - by right.
  - by right.
Qed.
End turns.

(** ** The invariant *)

Section invariant.
Context {CA : CidrApi} {CL : CidrLaws} {U : UuidApi} {KA : KeyApi} {TA : TunnApi} {PA : ProtoApi} {IW : Ipv4Wire}.
Context {ST : StunApi} {S : Type} {TS : TunnelSession S} {SO : SessionOpen S}.
Context {K : Type} {RH : RouteHandle K} {KL : KernelLaws}.
Context (send_ok : SocketAddr → list byte → bool) (ifs : list NetworkInterface) (M : gset RouteKey).
Import NoeioDaemon.
Implicit Types (d : NoeioDaemon S) (D : gset RouteKey) (st : Loop S K).
Local Notation wanted d := (desired_routes_of d ifs).2.

Lemma wanted_registered d key : key ∈ wanted d → is_Some (ifindex_of d (Reconciler.nic key)).
Proof.
  unfold desired_routes_of. cbn [snd]. unfold Reconciler.desired. rewrite elem_of_desired_fold.
  intros [[]%not_elem_of_empty|(p & _ & Hn & -> & _)]. by apply elem_nics, contains_index in Hn.
Qed.

(** The remembered routes are the kernel's. *)
Definition mirrors d (r : Reconciler.Reconciler) (k : K) : Prop :=
  one_nic (Reconciler.installed r) ∧ Reconciler.installed r ⊆ M ∧ in_sync (ifindex_of d) M k (Reconciler.installed r).

Definition loop_ok (st : Loop S K) : Prop :=
  fits ifs M (node st) ∧ mirrors (node st) (reconciler st) (kernel st) ∧
  match phase st with
  | Waiting => wake (node st) = true ∨ Reconciler.installed (reconciler st) = wanted (node st)
  | Woken => True
  | Applying D => D ⊆ M ∧ one_nic D ∧ (∀ key, key ∈ D → is_Some (ifindex_of (node st) (Reconciler.nic key))) ∧
                  (wake (node st) = true ∨ D = wanted (node st))
  end.

(** The loop as it starts, with whatever it restored. *)
Definition loop_start (st : Loop S K) : Prop :=
  phase st = Woken ∧ fits ifs M (node st) ∧ mirrors (node st) (reconciler st) (kernel st).

Lemma start_ok st : loop_start st → loop_ok st.
Proof. intros (Hp & Hf & Hm). split; [done|]. split; [done|]. by rewrite Hp. Qed.

Lemma same_fits d d' : route_view d' = route_view d → fits ifs M d → fits ifs M d'.
Proof. intros Hv. unfold fits. by rewrite (same_desired ifs d d' Hv). Qed.

Lemma loop_step_ok st st' : loop_step ifs st st' → loop_ok st → loop_ok st'.
Proof.
  destruct 1 as [d r k fs Hw|d r k fs|d r k fs|d D r k fs r' k' fs' n Hrec]; intros (Hf & Hm & Hp).
  - split; [by apply (same_fits d)|]. by split.
  - by split.
  - assert (route_view (refresh_subnets d ifs) = route_view d) as Hv by done.
    unfold desired_routes_of. cbn [fst]. fold (wanted d). cbn [node phase reconciler kernel] in *.
    split; [by apply (same_fits d)|]. split; [exact Hm|]. destruct Hf as [HD Ho]. split; [done|]. split; [done|].
    split; [exact (wanted_registered d)|]. right. symmetry. by apply same_desired.
  - destruct Hm as (HoS & HSM & Hsync), Hp as (HDM & HoD & Hreg & Hcur). cbn [node phase reconciler kernel] in *.
    unfold Reconciler.reconcile in Hrec.
    pose proof (pass_sync (ifindex_of d) M k D (Reconciler.installed r) HSM HDM HoS HoD Hsync) as Hpass.
    destruct (Reconciler.reconcile_pass _ _ _ _) as [[k1 L] c]. destruct Hpass as [Hs Hiff]. injection Hrec as <- <- _ _.
    assert (L = D) as ->.
    { apply set_eq. intros key. rewrite Hiff. split; [tauto|]. intros Hk. split; [done|]. right. by apply Hreg. }
    split; [done|]. cbn [node phase reconciler kernel]. split; [|done]. by split_and!.
Qed.

(** Nothing the other tasks do disturbs what the loop relies on. *)
Lemma other_ok d d' qs p (r : Reconciler.Reconciler) (k : K) fs :
  turn send_ok d qs d' → keeps_nics r d d' → fits ifs M d' →
  loop_ok (MkLoop d p r k fs) → loop_ok (MkLoop d' p r k fs).
Proof.
  intros Ht [Hkeep Hold] Hf' (Hf & (HoS & HSM & Hsync) & Hp). cbn [node phase reconciler kernel] in *.
  split; [done|]. cbn [node phase reconciler kernel]. split.
  - split; [done|]. split; [done|]. intros rt Hrt. rewrite (Hsync rt Hrt).
    assert (∀ key i, key ∈ Reconciler.installed r →
      ifindex_of d (Reconciler.nic key) = Some i ↔ ifindex_of d' (Reconciler.nic key) = Some i) as Hsame.
    { intros key i Hk. split; [apply Hkeep|]. intros Hi.
      destruct (ifindex_of d (Reconciler.nic key)) as [j|] eqn:Hj; [apply Hkeep in Hj; congruence|].
      rewrite Hold in Hi by done. done. }
    split; intros (key & i & Hk & Hi & ->); exists key, i; (split_and!; [done|by apply (Hsame key i Hk)|done]).
  - apply turn_quiet in Ht. assert (wake d' = true ∨ wanted d' = wanted d ∧ wake d' = wake d) as Hq.
    { destruct Ht as [Hw|[Hv Hw]]; [by left|right]. split; [by apply same_desired|done]. }
    destruct p as [| |D]; [|done|].
    + destruct Hq as [Hw|[-> Hw]]; [by left|]. rewrite Hw. exact Hp.
    + destruct Hp as (HDM & HoD & Hreg & Hcur). split; [done|]. split; [done|]. split.
      * intros key [i Hi]%Hreg. exists i. by apply Hkeep.
      * destruct Hq as [Hw|[-> Hw]]; [by left|]. rewrite Hw. exact Hcur.
Qed.

Lemma run_loop_ok st st' : rtc (step send_ok ifs M) st st' → loop_ok st → loop_ok st'.
Proof.
  induction 1 as [|st st1 st2 Hs _ IH]; [done|]. intros Hok. apply IH.
  destruct Hs as [st st' Hs|d d' qs p r k fs Ht Hk Hf]; [by eapply loop_step_ok|by eapply other_ok].
Qed.

(** What the loop holds while it sleeps without a permit. *)
Lemma asleep_synced st : loop_ok st → phase st = Waiting → wake (node st) = false →
  Reconciler.installed (reconciler st) = wanted (node st) ∧
  ∀ rt, managed M rt → rt ∈ table (kernel st) ↔
    ∃ key i, key ∈ wanted (node st) ∧ ifindex_of (node st) (Reconciler.nic key) = Some i ∧ rt = route_of key i.
Proof.
  intros (_ & (_ & _ & Hs) & Hp) Hph Hw. rewrite Hph in Hp. destruct Hp as [Hp|Hp]; [congruence|].
  rewrite <-Hp. split; [done|exact Hs].
Qed.

(** Undisturbed, a woken loop is asleep again after two turns. *)
Lemma woken_sleeps d r (k : K) fs : ∃ st', rtc (loop_step ifs) (MkLoop d Woken r k fs) st' ∧
  phase st' = Waiting ∧ wake (node st') = wake d ∧ wanted (node st') = wanted d.
Proof.
  destruct (Reconciler.reconcile r k fs (wanted d) (ifindex_of (desired_routes_of d ifs).1)) as [[[r' k'] fs'] n] eqn:Hr.
  eexists. split; [eapply rtc_l; [apply step_read|]; eapply rtc_once, step_apply, Hr|].
  split; [done|]. split; [done|]. by apply (same_desired ifs d).
Qed.

Lemma loop_sleeps st : ∃ st', rtc (loop_step ifs) st st' ∧ phase st' = Waiting ∧ wake (node st') = false ∧
  wanted (node st') = wanted (node st).
Proof.
  assert (∀ d, wanted (take_permit d) = wanted d) as Htake by (intros; by apply same_desired).
  assert (∀ st : Loop S K, phase st = Waiting → ∃ st', rtc (loop_step ifs) st st' ∧ phase st' = Waiting ∧
    wake (node st') = false ∧ wanted (node st') = wanted (node st)) as Hwait.
  { intros [d p r k fs] Hp. cbn in Hp. subst p. destruct (wake d) eqn:Hw; [|by exists (MkLoop d Waiting r k fs)].
    destruct (woken_sleeps (take_permit d) r k fs) as (st' & Hrun & Hp' & Hw' & Hd). exists st'.
    split; [eapply rtc_l; [by apply step_notified|exact Hrun]|]. split; [done|]. split; [done|]. by rewrite Hd, Htake. }
  destruct st as [d p r k fs]. destruct p as [| |D].
  - by apply Hwait.
  - destruct (woken_sleeps d r k fs) as (st1 & Hrun1 & Hp1 & _ & Hd1).
    destruct (Hwait st1 Hp1) as (st2 & Hrun2 & Hp2 & Hw2 & Hd2). exists st2.
    split; [by etrans|]. split; [done|]. split; [done|]. by rewrite Hd2.
  - destruct (Reconciler.reconcile r k fs D (ifindex_of d)) as [[[r' k'] fs'] n] eqn:Hr.
    destruct (Hwait (MkLoop d Waiting r' k' fs') eq_refl) as (st2 & Hrun2 & Hp2 & Hw2 & Hd2). exists st2.
    split; [eapply rtc_l; [by eapply step_apply|exact Hrun2]|]. done.
Qed.
End invariant.

(** ** Properties *)

Section properties.
Context {CA : CidrApi} {CL : CidrLaws} {U : UuidApi} {KA : KeyApi} {TA : TunnApi} {PA : ProtoApi} {IW : Ipv4Wire}.
Context {ST : StunApi} {S : Type} {TS : TunnelSession S} {SO : SessionOpen S}.
Context {K : Type} {RH : RouteHandle K} {KL : KernelLaws}.
Import NoeioDaemon.

(** C6. No change of the routing table is lost on the kernel. The daemon's tasks take any
    turns beside the loop, also while a pass is under way. Whenever the loop sleeps and
    holds no permit, the kernel holds exactly the routes the daemon wants at that
    moment - every turn after which it wants something else has left a permit - and
    from any state the loop, once left alone, gets there in finitely many turns of its
    own, without waiting for the tick. *)
Theorem no_lost_wakeup send_ok ifs M (st0 st : Loop S K) :
  loop_start ifs M st0 → rtc (step send_ok ifs M) st0 st →
  let synced st := let wanted := (desired_routes_of (node st) ifs).2 in
    Reconciler.installed (reconciler st) = wanted ∧
    ∀ rt, managed M rt → rt ∈ table (kernel st) ↔
      ∃ key i, key ∈ wanted ∧ ifindex_of (node st) (Reconciler.nic key) = Some i ∧ rt = route_of key i in
  (phase st = Waiting → wake (node st) = false → synced st) ∧
  ∃ st', rtc (loop_step ifs) st st' ∧ phase st' = Waiting ∧ wake (node st') = false ∧ synced st' ∧
    (desired_routes_of (node st') ifs).2 = (desired_routes_of (node st) ifs).2.
Proof.
  intros Hst Hrun synced. pose proof (run_loop_ok send_ok ifs M _ _ Hrun (start_ok ifs M _ Hst)) as Hok.
  split; [intros Hp Hw; by apply (asleep_synced ifs M)|].
  destruct (loop_sleeps ifs st) as (st' & Hr & Hp & Hw & Hd). exists st'. split_and!; [done..| |done].
  apply (asleep_synced ifs M); [|done|done].
  apply (rtc_invariant (loop_step ifs) (loop_ok ifs M)) with (x := st); [|done|done].
  intros x y Hx Hxy. by apply (loop_step_ok ifs M x).
Qed.
End properties.

Module Scenario.
Import Daemon.Example SubnetRoute.Scenario.

Definition awake : Loop UdpTunnelSession fib := MkLoop both Woken (Reconciler.new None) ∅ (MkFs ∅ true).
Definition all_wanted : gset RouteKey := (NoeioDaemon.desired_routes_of both []).2.

Lemma awake_starts : loop_start [] all_wanted awake.
Proof.
  split; [done|]. split; [split; [done|by eapply single_nic; [exact both_simulates|exact both_nics]]|].
  split; [apply one_nic_empty|]. split; [apply empty_subseteq|].
  intros rt _. split; [by intros ?%not_elem_of_nil|by intros (key & i & []%not_elem_of_empty & _)].
Qed.

(** The subnet of the two members is among them. *)
Lemma lan_wanted : Reconciler.Key 12 lan ∈ all_wanted.
Proof.
  apply (elem_wanted both members []); [exact both_simulates|]. exists (offering 11 ip_11).
  split; [apply members_lookup; by left|]. split; [reflexivity|]. split; [reflexivity|].
  right. exact both_uses.
Qed.
End Scenario.
Import Daemon.Example SubnetRoute.Scenario Scenario.

Lemma no_lost_wakeup_witness :
  ∃ st', rtc (loop_step []) awake st' ∧ phase st' = Waiting ∧
    Reconciler.Key 12 lan ∈ Reconciler.installed (reconciler st').
Proof.
  destruct (no_lost_wakeup always [] all_wanted awake awake awake_starts (rtc_refl _ _))
    as (_ & st' & Hr & Hp & _ & [Hi _] & Hd).
  exists st'. split; [exact Hr|]. split; [exact Hp|]. rewrite Hi, Hd. exact lan_wanted.
Defined.
