(* ===== verification/DirectPath.v ===== *)
(** Direct paths: the hole-punch sessions of two daemons ([Session]), the datagrams the
    daemons feed them ([Daemon]), the path selection ([Peer]) and the traffic that
    takes the path, end to end. *)

From Stdlib Require Import ZArith Lia.
From Stdlib Require Import Strings.Byte Strings.String.
From stdpp Require Import base list strings gmap fin_maps sets.
From S2P Require Import Prelude Text NetTypes CidrModel HostInfo Packet HostCodec CodecModel Routes RoutingTable Session Wireguard Peer DerperClient Daemon Membership.

Local Open Scope Z_scope.

(** ** What the daemon's calls do to its peers *)

Section heap.
Context {CA : CidrApi} {U : UuidApi} {KA : KeyApi} {TA : TunnApi} {PA : ProtoApi} {IW : Ipv4Wire}.
Context {ST : StunApi} {S : Type} {TS : TunnelSession S} {SO : SessionOpen S}.
Context (send_ok : SocketAddr → list byte → bool).
Import NoeioDaemon.
Implicit Types (d : NoeioDaemon S) (p : Peer.Peer S) (Q : Peer.Peer S → Prop).

(** Every peer a reference denotes satisfies [Q]. *)
Definition all_peers Q d : Prop := ∀ l p, peer_at d l = Some p → Q p.

Lemma all_peers_impl Q Q' d : (∀ p, Q p → Q' p) → all_peers Q d → all_peers Q' d.
Proof. intros Himp Hd l p Hp. by eapply Himp, Hd. Qed.

Lemma all_peers_set Q d l p : all_peers Q d → Q p → all_peers Q (set_peer d l p).
Proof.
  intros Hd HQ l' p'. unfold peer_at, set_peer, set_router. cbn.
  destruct (decide (l' = l)) as [->|Hne]; [by rewrite lookup_insert_eq; intros [= <-]|].
  rewrite lookup_insert_ne by done. apply Hd.
Qed.

Lemma all_peers_same Q d d' : Router.heap (router d') = Router.heap (router d) → all_peers Q d → all_peers Q d'.
Proof. intros Hh Hd l p. unfold peer_at. rewrite Hh. apply Hd. Qed.

(** The calls that only put packets through the codecs. *)
Section codecs.
Context (Q : Peer.Peer S → Prop) (Hcodec : ∀ p c, Q p → Q (Peer.set_codec p c)).

Lemma all_peers_codec d l p c : all_peers Q d → peer_at d l = Some p → all_peers Q (set_peer d l (Peer.set_codec p c)).
Proof. intros Hd Hp. apply all_peers_set; [done|]. by eapply Hcodec, Hd. Qed.

Lemma delivery_loop_peers fuel d l i input src d' sent :
  all_peers Q d → delivery_loop send_ok fuel d l i input src = Some (d', sent) → all_peers Q d'.
Proof.
  revert d input d' sent. induction fuel as [|n IH]; intros d input d' sent Hd; [done|]. cbn [delivery_loop].
  destruct (peer_at d l) as [p|] eqn:Hp; [|by intros [= <- _]]. cbn [mbind option_bind].
  destruct (Peer.codec p) as [c|]; [|by intros [= <- _]]. cbn [mbind option_bind].
  destruct (WireGuardTunnelSession.decapsulate c _ input) as [c' out].
  pose proof (all_peers_codec d l p c' Hd Hp) as Hset.
  destruct out as [pt inner|reply| |err]; [| |by intros [= <- _]..].
  - destruct (blocked i inner); intros [= <- _]; exact Hset.
  - destruct (send_to_peer _ _ _ _) as [s ok]. destruct ok; [|by intros [= <- _]].
    destruct (delivery_loop _ _ _ _ _ _ _) as [[d2 more]|] eqn:Hrec; [|done].
    cbn [mbind option_bind]. intros [= <- _]. by eapply IH.
Qed.

Lemma outbound_peers d ip_bytes : all_peers Q d → all_peers Q (process_outbound send_ok d ip_bytes).1.
Proof.
  intros Hd. unfold process_outbound. destruct (ipv4_dst_addr ip_bytes); [|done].
  destruct (Router.lookup _ _) as [l|]; [|done]. destruct (peer_at d l) as [p|] eqn:Hp; [|done]. cbn [mbind option_bind].
  destruct (Peer.codec p) as [c|]; [|done]. cbn [mbind option_bind].
  destruct (WireGuardTunnelSession.encapsulate c ip_bytes) as [c' out].
  destruct out; by apply all_peers_codec.
Qed.

Lemma timers_peers d : all_peers Q d → all_peers Q (wg_timers send_ok d).1.
Proof.
  unfold wg_timers. change d with (d, @nil (SocketAddr * list byte)).1 at 1.
  generalize (d, @nil (SocketAddr * list byte)).
  induction (Router.all_peers (router d)) as [|l ls IH]; intros [d0 sent] Hd; [done|].
  cbn [fold_left]. apply IH. unfold timer_turn. destruct (peer_at d0 l) as [p|] eqn:Hp; [|done].
  cbn [mbind option_bind]. destruct (Peer.codec p) as [c|]; [|done]. cbn [mbind option_bind].
  destruct (WireGuardTunnelSession.update_timers c) as [c' out]. destruct out; by apply all_peers_codec.
Qed.
End codecs.

Lemma heap_remove r id : Router.heap (Router.remove_by_peer_id (P := Peer.Peer S) r id).1 = Router.heap r.
Proof. unfold Router.remove_by_peer_id, Router.remove. repeat (case_match; try done). Qed.

(** An announcement makes peers and renames them. *)
Lemma apply_sync_peers Q d q k :
  Q (Peer.new q k) → (∀ p, Q p → Q (Peer.update_info p q k)) →
  all_peers Q d → all_peers Q (apply_sync_route d q k).1.
Proof.
  intros Hnew Hupd Hd. unfold apply_sync_route. destruct (PeerInfo.withdrawn q).
  - pose proof (heap_remove (router d) (PeerInfo.peer_id q)) as Hh.
    destruct (Router.remove_by_peer_id _ _) as [r o]. by apply (all_peers_same Q d).
  - destruct (Router.get (router d) _) as [l|].
    + destruct (Router.info _ _) as [i|]; [|done]. destruct (_ <? _); [|done].
      unfold Router.update_info. destruct (Router.heap (router d) !! l) as [p|] eqn:Hp; [|done].
      apply (all_peers_same Q (set_peer d l (Peer.update_info p q k))); [done|].
      apply all_peers_set; [done|]. by eapply Hupd, Hd.
    + apply (all_peers_same Q (set_peer d (fresh (dom (Router.heap (router d)))) (Peer.new q k))); [|by apply all_peers_set].
      unfold Router.insert_new, Router.insert. cbn. by case_match.
Qed.

Lemma signalling_peers Q d header data src :
  (∀ p, Q p → Q (Peer.inbound p data src).1) → all_peers Q d → all_peers Q (dispatch_signalling d header data src).
Proof.
  intros Hin Hd. unfold dispatch_signalling. destruct (Router.get_by_peer_id _ _) as [l|]; [|done].
  destruct (peer_at d l) as [p|] eqn:Hp; [|done]. apply all_peers_set; [done|]. by eapply Hin, Hd.
Qed.

(** Whatever a datagram is, [Q] of every peer survives it. *)
Lemma inbound_peers Q fuel d now host data addr d' sent :
  (∀ p c, Q p → Q (Peer.set_codec p c)) → (∀ p, Q p → Q (Peer.inbound p data addr).1) →
  (∀ q k, Q (Peer.new q k)) → (∀ p q k, Q p → Q (Peer.update_info p q k)) →
  process_inbound send_ok fuel d now host data addr = Handled d' sent → all_peers Q d → all_peers Q d'.
Proof.
  intros Hcodec Hin Hnew Hupd Hd' Hd. revert Hd'. unfold process_inbound. destruct (_ <=? _)%nat; [by intros [= <- _]|].
  fold (parsed data). destruct (parsed data) as [[packet header]|].
  - unfold inbound_packet. destruct (PacketHeader.packet_type header); try by intros [= <- _].
    + case_decide; [by intros [= <- _]|]. destruct (NoeioPacket.payload packet); [|by intros [= <- _]].
      destruct (peer_from_bytes _) as [q|]; [|by intros [= <- _]].
      pose proof (apply_sync_peers Q d q (PacketHeader.peer_id header) (Hnew _ _) (λ p, Hupd p _ _) Hd) as Hs.
      destruct (apply_sync_route d q _) as [d1 []]; by intros [= <- _].
    + intros [= <- _]. by apply signalling_peers.
    + intros [= <- _]. by apply signalling_peers.
    + intros [= <- _]. by apply signalling_peers.
    + destruct (match echo_ts packet with Some _ => _ | None => _ end) as [m b]. intros [= <- _].
      case_match; [|done]. by apply signalling_peers.
    + destruct (NoeioPacket.payload packet) as [payload|]; [|by intros [= <- _]].
      destruct (Router.get_by_peer_id _ _) as [l|]; [|by intros [= <- _]]. unfold handle_delivery.
      destruct (peer_at d l) as [p|]; [|by intros [= <- _]].
      destruct (delivery_loop _ _ _ _ _ _ _) as [[d2 s2]|] eqn:Hl; [|done]. intros [= <- _].
      by eapply delivery_loop_peers.
  - destruct (stun_decode data) as [[attrs|]|]; [destruct (parse_mapped_addr attrs)| |]; try done; by intros [= <- _].
Qed.
End heap.

(** ** A path's history *)

Section history.
Context {CA : CidrApi} {U : UuidApi} {KA : KeyApi} {TA : TunnApi} {PA : ProtoApi} {IW : Ipv4Wire} {ST : StunApi}.
Context (send_ok : SocketAddr → list byte → bool).
Import NoeioDaemon.
Implicit Types (d : NoeioDaemon UdpTunnelSession) (p : Peer.Peer UdpTunnelSession)
  (s : Peer.PeerSession UdpTunnelSession) (log : list (SocketAddr * list byte)).

(** What the session's own tasks do: anything but take a datagram. *)
Definition own_event (e : UdpSession.event) : Prop :=
  match e with UdpSession.EDatagram _ => False | _ => True end.

(** The session toward [a] moved on. *)
Definition with_session d l p (a : SocketAddr) (u : UdpTunnelSession) : NoeioDaemon UdpTunnelSession :=
  set_peer d l (Peer.set_sessions p (Peer.replace_session a (Peer.MkPeerSession a u) (Peer.sessions p))).

(** A turn of any task of the daemon or of a session, with the datagrams taken off the
    socket; a session that is opened on the way draws any nonce. *)
Inductive path_turn : NoeioDaemon UdpTunnelSession → list (SocketAddr * list byte) → NoeioDaemon UdpTunnelSession → Prop :=
  | path_inbound nonce d fuel now host data addr d' sent :
      process_inbound (SO := udp_open nonce) send_ok fuel d now host data addr = Handled d' sent →
      path_turn d [(addr, data)] d'
  | path_task d l p a s e u :
      peer_at d l = Some p → Peer.find_session (Peer.sessions p) a = Some s →
      own_event e → UdpSession.step (Peer.session s) e u → path_turn d [] (with_session d l p a u)
  | path_select d l p : peer_at d l = Some p → path_turn d [] (set_peer d l (Peer.select_session p))
  | path_outbound d ip_bytes : path_turn d [] (process_outbound send_ok d ip_bytes).1
  | path_timers d : path_turn d [] (wg_timers send_ok d).1
  | path_refresh d interfaces : path_turn d [] (refresh_subnets d interfaces)
  | path_advertise d now routes : path_turn d [] (set_advertised d now routes)
  | path_nic d id nic network : path_turn d [] (register_nic d id nic network).1
  | path_stun d now host addr : path_turn d [] (on_stun d now host addr)
  | path_derper d m : path_turn d [] (set_derper d m).

(** Turns in sequence, with every datagram taken off the socket on the way. *)
Inductive path_run (d0 : NoeioDaemon UdpTunnelSession) : list (SocketAddr * list byte) → NoeioDaemon UdpTunnelSession → Prop :=
  | path_nil : path_run d0 [] d0
  | path_snoc log d new d' : path_run d0 log d → path_turn d new d' → path_run d0 (log ++ new) d'.

(** The session is what its tasks and datagrams off the socket have made of it. *)
Definition explained log s : Prop :=
  ∃ n id tr, UdpSession.run (UdpSession.connect n id) tr (Peer.session s) ∧
    ∀ data, UdpSession.EDatagram data ∈ tr → ∃ src, (src, data) ∈ log.

Definition paths_ok log p : Prop :=
  NoDup (Peer.addr <$> Peer.sessions p) ∧
  (∀ a, a ∈ (Peer.addr <$> Peer.sessions p) → a ∈ Peer.candidate_addrs p) ∧
  ∀ s, s ∈ Peer.sessions p → explained log s.

Lemma explained_more log new s : explained log s → explained (log ++ new) s.
Proof.
  intros (n & id & tr & Hr & Hd). exists n, id, tr. split; [done|].
  intros data (src & Hin)%Hd. exists src. set_solver.
Qed.

Lemma paths_ok_more log new p : paths_ok log p → paths_ok (log ++ new) p.
Proof. intros (Hn & Hc & He). split_and!; try done. intros s Hs. by apply explained_more, He. Qed.

Lemma explained_step log a u e u' :
  explained log (Peer.MkPeerSession a u) → UdpSession.step u e u' →
  (∀ data, e = UdpSession.EDatagram data → ∃ src, (src, data) ∈ log) → explained log (Peer.MkPeerSession a u').
Proof.
  intros (n & id & tr & Hr & Hd) Hs He. exists n, id, (tr ++ [e]). split; [by eapply UdpSession.run_snoc|].
  intros data [Hin|Hin%list_elem_of_singleton]%elem_of_app; [by apply Hd|by apply He].
Qed.

(** [try_create_tunnel] keeps sessions or opens them. *)
Lemma try_create_ok nonce log p force :
  NoDup (Peer.addr <$> Peer.sessions p) → (∀ s, s ∈ Peer.sessions p → explained log s) →
  paths_ok log (Peer.try_create_tunnel (SO := udp_open nonce) p force).
Proof.
  intros Hn He. destruct (try_create_tunnel_spec (SO := udp_open nonce) p force Hn) as [Hn' Hf].
  split_and!; [exact Hn'| |].
  - intros a Ha. change (Peer.candidate_addrs (Peer.try_create_tunnel p force)) with (Peer.candidate_addrs p).
    destruct (decide (a ∈ Peer.candidate_addrs p)) as [|Hc]; [done|]. exfalso.
    specialize (Hf a). rewrite decide_False in Hf by done. by apply find_session_None in Hf.
  - intros s Hs. pose proof (find_session_NoDup _ s Hn' Hs) as Hfs. rewrite Hf in Hfs. case_decide; [|done].
    injection Hfs as <-. assert (explained log (Peer.MkPeerSession (Peer.addr s)
      (session_connect (SessionOpen := udp_open nonce) (Peer.addr s) (Peer.local_peer_id p)))) as Hfresh.
    { exists (nonce (Peer.addr s)), (Peer.local_peer_id p), []. split; [constructor|]. by intros data ?%not_elem_of_nil. }
    unfold wanted. destruct (Peer.find_session (Peer.sessions p) (Peer.addr s)) as [s0|] eqn:H0; [|exact Hfresh].
    destruct (keep force s0); [|exact Hfresh]. apply find_session_Some in H0 as [H0 _]. by apply He.
Qed.

(** A datagram goes into sessions of the peer, which keep their addresses. *)
Lemma inbound_sessions nonce p data src :
  let ss := Peer.sessions (Peer.inbound (SO := udp_open nonce) p data src).1 in
  Peer.addr <$> ss = Peer.addr <$> Peer.sessions p ∧
  ∀ s', s' ∈ ss → ∃ s, s ∈ Peer.sessions p ∧
    (s' = s ∨ s' = Peer.MkPeerSession (Peer.addr s) (UdpSession.dispatch_one (Peer.session s) data)).
Proof.
  unfold Peer.inbound. destruct (Peer.find_session _ _) as [found|].
  - assert (∀ ss, let fed := (Peer.feed_first (SO := udp_open nonce) data src ss).1 in
      Peer.addr <$> fed = Peer.addr <$> ss ∧ ∀ s', s' ∈ fed → ∃ s, s ∈ ss ∧
      (s' = s ∨ s' = Peer.MkPeerSession (Peer.addr s) (UdpSession.dispatch_one (Peer.session s) data))) as Hall.
    { induction ss as [|s ss [IHa IH]]; [by split; [|intros ? ?%not_elem_of_nil]|]. cbn [Peer.feed_first]. case_decide.
      - split; [done|]. cbn [Peer.feed fst]. intros s' [Hs|Hs]%elem_of_cons; [exists s|exists s']; split; [left|by right|by right|by left].
      - destruct (Peer.feed_first data src ss) as [ss' ok]. cbn [fst] in *. split; [cbn; by f_equal|].
        intros s' [->|(s0 & Hs0 & ?)%IH]%elem_of_cons; [exists s|exists s0]; split; [left|by left|by right|done]. }
    specialize (Hall (Peer.sessions p)). by destruct (Peer.feed_first _ _ _).
  - cbn. split; [by induction (Peer.sessions p) as [|s ss IH]; cbn; f_equal|].
    intros s' ([s0 ok] & -> & (s & [= -> ->] & Hs)%list_elem_of_fmap)%list_elem_of_fmap.
    exists s. split; [done|by right].
Qed.

Lemma inbound_ok nonce log p data src :
  (src, data) ∈ log → paths_ok log p → paths_ok log (Peer.inbound (SO := udp_open nonce) p data src).1.
Proof.
  intros Hlog (Hn & Hc & He). destruct (inbound_sessions nonce p data src) as [Ha Hs].
  destruct (inbound_info (SO := udp_open nonce) p data src) as [Hi _]. split_and!.
  - by rewrite Ha.
  - rewrite Ha. unfold Peer.candidate_addrs. by rewrite Hi.
  - intros s' (s0 & Hin & Hor)%Hs. destruct s0 as [a u]. apply He in Hin. destruct Hor as [->| ->]; [done|]. cbn.
    apply (explained_step log a u (UdpSession.EDatagram data)); [done|constructor|].
    intros ? [= <-]. by exists src.
Qed.

Lemma task_ok log p a s e u :
  Peer.find_session (Peer.sessions p) a = Some s → own_event e → UdpSession.step (Peer.session s) e u →
  paths_ok log p →
  paths_ok log (Peer.set_sessions p (Peer.replace_session a (Peer.MkPeerSession a u) (Peer.sessions p))).
Proof.
  intros Hs He Hstep (Hn & Hc & Hex). pose proof (find_session_Some _ _ _ Hs) as [Hin Ha].
  pose proof (replace_addrs (Peer.sessions p) a (Peer.MkPeerSession a u) eq_refl) as Hr.
  assert (a ∈ (Peer.addr <$> Peer.sessions p)) as Hk by (rewrite <-Ha; by apply list_elem_of_fmap_2).
  rewrite decide_True in Hr by done. split_and!; cbn [Peer.sessions Peer.set_sessions]; try by rewrite Hr.
  intros s' Hs'. assert (NoDup (Peer.addr <$> Peer.replace_session a (Peer.MkPeerSession a u) (Peer.sessions p)))
    as Hn' by by rewrite Hr.
  pose proof (find_session_NoDup _ s' Hn' Hs') as Hf. rewrite find_replace in Hf by done. case_decide.
  - injection Hf as <-. apply (explained_step log a (Peer.session s) e); [|done|by intros data ->].
    rewrite <-Ha. destruct s. by apply Hex.
  - apply find_session_Some in Hf as [Hf _]. by apply Hex.
Qed.

Lemma path_turn_ok log d new d' :
  path_turn d new d' → all_peers (paths_ok log) d → all_peers (paths_ok (log ++ new)) d'.
Proof.
  assert (∀ d, all_peers (paths_ok log) d → all_peers (paths_ok (log ++ [])) d) as Hnil by by rewrite app_nil_r.
  destruct 1 as [nonce d fuel now host data addr d' sent Hin|d l p a s e u Hp Hs He Hstep|d l p Hp| | | | | | |]; intros Hd.
  - apply (inbound_peers (SO := udp_open nonce) send_ok _ fuel d now host data addr d' sent); try done.
    + intros p. apply inbound_ok. set_solver.
    + intros q k. apply try_create_ok; [constructor|by intros s ?%not_elem_of_nil].
    + intros p q k (Hn & _ & He). by apply try_create_ok.
    + eapply all_peers_impl; [|exact Hd]. apply paths_ok_more.
  - apply Hnil, all_peers_set; [done|]. eapply task_ok; try done. by apply (Hd l).
  - apply Hnil, all_peers_set; [done|]. apply (Hd l p Hp).
  - by apply Hnil, outbound_peers.
  - by apply Hnil, timers_peers.
  - by apply Hnil, (all_peers_same _ d).
  - apply Hnil, (all_peers_same _ d); [|done]. unfold set_advertised. by case_decide.
  - apply Hnil, (all_peers_same _ d); [|done]. unfold register_nic, add_peer. by repeat case_match.
  - by apply Hnil, (all_peers_same _ d).
  - by apply Hnil, (all_peers_same _ d).
Qed.

Lemma path_run_ok d0 log d :
  Router.heap (router d0) = ∅ → path_run d0 log d → all_peers (paths_ok log) d.
Proof.
  intros H0. induction 1 as [|log d new d' _ IH Ht]; [|by eapply path_turn_ok].
  intros l p. unfold peer_at. by rewrite H0.
Qed.
End history.

(** ** The hole punch of two daemons *)

Section punch.
Context {CA : CidrApi} {U : UuidApi} {KA : KeyApi} {TA : TunnApi} {PA : ProtoApi} {IW : Ipv4Wire} {ST : StunApi}.
Context (send_ok : SocketAddr → list byte → bool) (nonce : SocketAddr → Z).
Import NoeioDaemon.
Implicit Types (d : NoeioDaemon UdpTunnelSession) (p : Peer.Peer UdpTunnelSession) (u : UdpTunnelSession).
#[local] Existing Instance udp_open.
#[local] Notation inbound_at := (process_inbound (SO := udp_open nonce) send_ok).

(** The session toward [a] of the peer at [l]. *)
Definition session_at d (l : Arc) (a : SocketAddr) : option UdpTunnelSession :=
  p ← peer_at d l; Peer.session <$> Peer.find_session (Peer.sessions p) a.

(** [d] knows the peer under [id], is [own] to it, and has a session toward [a]. *)
Definition punching d (l : Arc) p (id own : PeerId) (a : SocketAddr) u : Prop :=
  Router.get_by_peer_id (router d) id = Some l ∧ peer_at d l = Some p ∧
  NoDup (Peer.addr <$> Peer.sessions p) ∧ Peer.local_peer_id p = own ∧
  Peer.find_session (Peer.sessions p) a = Some (Peer.MkPeerSession a u) ∧ UdpSession.peer_id u = own.

(** The selector finds a usable path when there is one. *)
Lemma selected_address p a s :
  NoDup (Peer.addr <$> Peer.sessions p) → Peer.find_session (Peer.sessions p) a = Some s → up s →
  ∃ x sx, Peer.address (Peer.select_session p) = Some x ∧
    Peer.find_session (Peer.sessions p) x = Some sx ∧ up sx.
Proof.
  intros Hn Hs Hup. apply find_session_Some in Hs as [Hs Ha].
  pose proof (proj2 (elem_of_connected p a (rtt_of s)) (ex_intro _ s (conj Hs (conj Hup (conj Ha eq_refl))))) as Hc.
  pose proof (pick_Some (Peer.selected p) (Peer.connected p)) as Hpick.
  unfold Peer.address. cbn [Peer.select_session Peer.selected Peer.sessions].
  destruct (Peer.pick _ _) as [x|]; [|rewrite Hpick in Hc; by apply not_elem_of_nil in Hc].
  destruct Hpick as (r & (sx & Hsx & Hupx & <- & _)%elem_of_connected). exists (Peer.addr sx), sx. cbn [mbind option_bind].
  rewrite (find_session_NoDup _ sx Hn Hsx). cbn [mbind option_bind]. by rewrite decide_True.
Qed.

Lemma address_usable p x :
  Peer.address p = Some x → ∃ s, Peer.find_session (Peer.sessions p) x = Some s ∧ up s.
Proof.
  unfold Peer.address. intros (sel & _ & (s & Hs & Hx)%bind_Some)%bind_Some. case_decide; [|done].
  injection Hx as <-. by exists s.
Qed.

(** Traffic for a peer with a direct path takes it. *)
Lemma outbound_direct d l p c c' dst ip_bytes datagram x :
  peer_at d l = Some p → Peer.address p = Some x → Peer.codec p = Some c →
  ipv4_dst_addr ip_bytes = Some dst → Router.lookup (router d) (IpV4 dst) = Some l →
  WireGuardTunnelSession.encapsulate c ip_bytes = (c', ToPeer datagram) →
  let bytes := PacketHeader.to_bytes (Header Delivery (Peer.local_peer_id p) 0) ++ datagram in
  send_ok x bytes = true → (process_outbound send_ok d ip_bytes).2 = [(x, bytes)].
Proof.
  intros Hp Ha Hc Hdst Hl He bytes Hok. unfold process_outbound. rewrite Hdst, Hl, Hp. cbn [mbind option_bind].
  rewrite Hc. cbn [mbind option_bind]. rewrite He. cbn [snd]. unfold send_to_peer, send_to. rewrite Ha.
  cbn [NoeioPacket.new NoeioPacket.inner]. fold bytes. by rewrite Hok.
Qed.

Lemma find_fed ss data a s :
  Peer.find_session ss a = Some s →
  ∀ b, Peer.find_session (Peer.feed_first (SO := udp_open nonce) data a ss).1 b =
    if decide (a = b) then Some (Peer.MkPeerSession a (UdpSession.dispatch_one (Peer.session s) data))
    else Peer.find_session ss b.
Proof.
  induction ss as [|x ss IH]; [done|]. cbn [Peer.find_session List.find Peer.feed_first]. intros Hf b.
  destruct (decide (Peer.addr x = a)) as [Hx|Hx].
  - rewrite bool_decide_eq_true_2 in Hf by done. injection Hf as <-. cbn. rewrite Hx.
    destruct (decide (a = b)); [by rewrite bool_decide_eq_true_2|by rewrite bool_decide_eq_false_2].
  - rewrite bool_decide_eq_false_2 in Hf by done. specialize (IH Hf b).
    destruct (Peer.feed_first data a ss) as [ss' ok]. cbn in *. case_bool_decide as Hb; [|exact IH].
    rewrite decide_False; [done|congruence].
Qed.

(** A control packet goes to the peer its header names. *)
Lemma inbound_control fuel d now host t id v addr :
  t = Seq ∨ t = Ack → is_uint 32 id →
  let data := NoeioPacket.inner (UdpSession.control_packet t id v) in
  inbound_at fuel d now host data addr =
    Handled (dispatch_signalling (SO := udp_open nonce) d (Header t id 0) data addr) [].
Proof.
  intros Ht Hid data. assert (PacketHeader.wf (Header t id 0)) as Hwf by (split; unfold is_uint in *; cbn; lia).
  assert (PacketHeader.from_bytes data = Some (Header t id 0)) as Hh by apply (parse_new _ (be_bytes 8 v) Hwf).
  rewrite (inbound_parsed (SO := udp_open nonce) send_ok fuel d now host data addr (Header t id 0)); [|apply Nat.ltb_lt|done].
  - unfold inbound_packet. by destruct Ht as [-> | ->].
  - unfold data. rewrite control_packet_inner, length_app, length_header_bytes, length_be_bytes. done.
Qed.

(** It is the session toward its sender that takes it. *)
Lemma signalling_session d l p id own a u t data :
  punching d l p id own a u →
  let d' := dispatch_signalling (SO := udp_open nonce) d (Header t id 0) data a in
  ∃ p', punching d' l p' id own a (UdpSession.dispatch_one u data) ∧
    Peer.codec p' = Peer.codec p ∧ router d' = router (set_peer d l p') ∧
    ∀ b, b ≠ a → Peer.find_session (Peer.sessions p') b = Peer.find_session (Peer.sessions p) b.
Proof.
  intros (Hl & Hp & Hn & Hk & Hf & Hid). unfold dispatch_signalling. cbn [PacketHeader.peer_id]. rewrite Hl, Hp.
  exists (Peer.inbound (SO := udp_open nonce) p data a).1.
  destruct (inbound_sessions nonce p data a) as [Ha _]. destruct (inbound_info (SO := udp_open nonce) p data a) as [_ Hk'].
  pose proof (find_fed _ data a _ Hf) as Hfed.
  assert (∀ b, Peer.find_session (Peer.sessions (Peer.inbound (SO := udp_open nonce) p data a).1) b =
    if decide (a = b) then Some (Peer.MkPeerSession a (UdpSession.dispatch_one u data))
    else Peer.find_session (Peer.sessions p) b) as Hsess.
  { unfold Peer.inbound. rewrite Hf. specialize (Hfed). by destruct (Peer.feed_first _ _ _). }
  assert (Peer.codec (Peer.inbound (SO := udp_open nonce) p data a).1 = Peer.codec p) as Hcodec
    by (unfold Peer.inbound; by case_match).
  split_and!; try done.
  - split_and!; try done; [apply peer_at_set|by rewrite Ha|by rewrite Hk'|by rewrite Hsess, decide_True|].
    pose proof (dispatch_cases u data) as Hd%dispatched_same. by destruct Hd as ((_ & _ & _ & _ & ->) & _).
  - intros b Hb. by rewrite Hsess, decide_False.
Qed.
End punch.

(** ** Properties *)

(** The path to [to] is the peer's own: an address it announced, and an answer to this
    path's punch was heard. *)
Definition confirmed {CA : CidrApi} {KA : KeyApi} {TA : TunnApi} (log : list (SocketAddr * list byte))
    (p : Peer.Peer UdpTunnelSession) (to : SocketAddr) : Prop :=
  to ∈ Peer.candidate_addrs p ∧
  ∃ s src data, Peer.find_session (Peer.sessions p) to = Some s ∧ (src, data) ∈ log ∧
    is_ack_of (UdpSession.nonce (Peer.session s)) data.

Section properties.
Context {CA : CidrApi} {U : UuidApi} {KA : KeyApi} {TA : TunnApi} {PA : ProtoApi} {IW : Ipv4Wire} {ST : StunApi}.
Context (send_ok : SocketAddr → list byte → bool) (nonce : SocketAddr → Z).
Import NoeioDaemon.
Implicit Types (d : NoeioDaemon UdpTunnelSession) (p : Peer.Peer UdpTunnelSession) (u : UdpTunnelSession).
#[local] Notation inbound_at := (process_inbound (SO := udp_open nonce) send_ok).

(** C9. No traffic to an address nobody confirmed. However the daemon's tasks and its
    peers' session tasks are interleaved from a daemon without peers, and whatever
    datagrams come in: the address a peer is reached at directly is one that its current
    announcement offers, and a datagram that echoes the nonce of the session punching
    toward it has come in. A packet read from a nic goes to such an address or to the
    current relay. *)
Theorem direct_path_confirmed d0 log d ip_bytes to bytes :
  Router.heap (router d0) = ∅ → path_run send_ok d0 log d →
  (∀ l p a, peer_at d l = Some p → Peer.address p = Some a → confirmed log p a) ∧
  ((to, bytes) ∈ (process_outbound send_ok d ip_bytes).2 →
   (∃ r, DerperManager.current (derper d) = Some r ∧ to = r_addr r) ∨
   ∃ dst l p, ipv4_dst_addr ip_bytes = Some dst ∧ Router.lookup (router d) (IpV4 dst) = Some l ∧
     peer_at d l = Some p ∧ confirmed log p to).
Proof.
  intros H0 Hrun. pose proof (path_run_ok send_ok d0 log d H0 Hrun) as Hok.
  assert (∀ l p a, peer_at d l = Some p → Peer.address p = Some a → confirmed log p a) as Hconf.
  { intros l p a Hp (s & Hs & Hup)%address_usable. destruct (Hok l p Hp) as (_ & Hc & He).
    pose proof (find_session_Some _ _ _ Hs) as [Hin <-]. split; [apply Hc; by apply list_elem_of_fmap_2|].
    destruct (He s Hin) as (n & id & tr & Hr & Hd). pose proof (inv_run _ _ _ _ Hr) as Hinv.
    destruct (inv_ack _ _ _ _ Hinv (or_intror Hup)) as (data & (src & Hlog)%Hd & Hack).
    exists s, src, data. split; [done|]. split; [done|]. by rewrite (inv_nonce _ _ _ _ Hinv). }
  split; [exact Hconf|]. intros Hin. apply outbound_path in Hin as (dst & l & p & c & c' & dg & Hdst & Hl & Hp & _ & _ & Hto).
  destruct (Peer.address p) as [a|] eqn:Ha.
  - right. destruct Hto as [-> _]. exists dst, l, p. split_and!; try done. by apply (Hconf l).
  - left. destruct Hto as (r & Hr & -> & _). by exists r.
Qed.

(** C8. A hole punch opens the direct path. Two daemons know each other, each under the id
    the other goes by, and each has a session toward the other's address; one of them
    waits for the answer to its Seq. When that Seq reaches the other daemon, it queues an
    Ack toward the sender; when the Ack comes back the waiting session connects on its
    next step, the peer has a direct path at the selector's next turn - this one when no
    other is up - and from then on every packet for the peer goes out on a connected path
    as a Delivery under the id by which the other daemon knows its sender. *)
Theorem direct_path_opens fuel now host a b la lb pa pb id_a id_b addr_a addr_b ua ub i deadline :
  punching a lb pb id_b id_a addr_b ub → punching b la pa id_a id_b addr_a ua →
  is_uint 32 id_a → is_uint 32 id_b → is_uint 64 (UdpSession.nonce ub) →
  UdpSession.handshake ub = UdpSession.HsWait i deadline → UdpSession.sending ua = true →
  let seq := NoeioPacket.inner (UdpSession.control_packet Seq id_a (UdpSession.nonce ub)) in
  let ack := NoeioPacket.inner (UdpSession.control_packet Ack id_b (UdpSession.nonce ub)) in
  (∃ b' pa' ua', inbound_at fuel b now host seq addr_a = Handled b' [] ∧
     punching b' la pa' id_a id_b addr_a ua' ∧ UdpSession.outbound ua' = UdpSession.outbound ua ++ [ack]) ∧
  ∃ a1 p1 u1 u2 x, inbound_at fuel a now host ack addr_b = Handled a1 [] ∧
    punching a1 lb p1 id_b id_a addr_b u1 ∧
    UdpSession.handshake_step u1 = Some u2 ∧ UdpSession.status u2 = Connected ∧
    let a2 := with_session a1 lb p1 addr_b u2 in
    ∃ p2, peer_at a2 lb = Some p2 ∧ let p3 := Peer.select_session p2 in
    Peer.address p3 = Some x ∧
    ((∀ s, s ∈ Peer.sessions pb → Peer.addr s ≠ addr_b → ¬ up s) → x = addr_b) ∧
    ∀ ip_bytes dst c c' datagram,
      Peer.codec pb = Some c → ipv4_dst_addr ip_bytes = Some dst →
      Router.lookup (router a) (IpV4 dst) = Some lb →
      WireGuardTunnelSession.encapsulate c ip_bytes = (c', ToPeer datagram) →
      let bytes := PacketHeader.to_bytes (Header Delivery id_a 0) ++ datagram in
      send_ok x bytes = true → (process_outbound send_ok (set_peer a2 lb p3) ip_bytes).2 = [(x, bytes)].
Proof.
  intros Ha Hb Hida Hidb Hn Hh Hsend seq ack. split.
  - destruct (signalling_session nonce b la pa id_a id_b addr_a ua Seq seq Hb) as (pa' & Hp' & _).
    eexists _, pa', _. split; [by apply inbound_control; [left|]|]. split; [exact Hp'|].
    destruct Hb as (_ & _ & _ & _ & _ & Hid). unfold ack. rewrite <-Hid. by apply dispatch_seq.
  - destruct (signalling_session nonce a lb pb id_b id_a addr_b ub Ack ack Ha) as (p1 & Hp1 & Hcodec & Hrouter & Hother).
    destruct (dispatch_ack ub id_b (UdpSession.nonce ub) Hidb Hn) as (Hp & Hhs & _). fold ack in Hp, Hhs.
    rewrite Z.eqb_refl, orb_true_r in Hp. set (u1 := UdpSession.dispatch_one ub ack) in *.
    set (u2 := UdpSession.set_handshake (UdpSession.set_state (UdpSession.set_ack u1 false) Connected)
      (UdpSession.HsPing (UdpSession.now u1 + UdpSession.PING_INTERVAL))).
    assert (UdpSession.handshake_step u1 = Some u2) as Hstep
      by (unfold UdpSession.handshake_step; by rewrite Hhs, Hh, Hp).
    set (a1 := dispatch_signalling (SO := udp_open nonce) a (Header Ack id_b 0) ack addr_b) in *.
    pose proof Hp1 as (Hl1 & Hat1 & Hn1 & Hk1 & Hf1 & _).
    set (p2 := Peer.set_sessions p1 (Peer.replace_session addr_b (Peer.MkPeerSession addr_b u2) (Peer.sessions p1))).
    assert (∀ y, Peer.find_session (Peer.sessions p2) y =
      if decide (addr_b = y) then Some (Peer.MkPeerSession addr_b u2) else Peer.find_session (Peer.sessions p1) y)
      as Hf2 by (intros y; by apply find_replace).
    assert (NoDup (Peer.addr <$> Peer.sessions p2)) as Hn2.
    { cbn [p2 Peer.sessions Peer.set_sessions]. rewrite replace_addrs by done. rewrite decide_True; [done|].
      apply find_session_Some in Hf1 as [Hin _]. by apply (list_elem_of_fmap_2 Peer.addr) in Hin. }
    destruct (selected_address p2 addr_b (Peer.MkPeerSession addr_b u2)) as (x & sx & Hx & Hsx & Hupx); [done| |done|].
    { by rewrite Hf2, decide_True. }
    exists a1, p1, u1, u2, x. split; [by apply inbound_control; [right|]|]. split_and!; try done.
    exists p2. split; [apply peer_at_set|]. split; [exact Hx|]. split.
    + intros Honly. destruct (decide (addr_b = x)) as [<-|Hne]; [done|]. exfalso.
      rewrite Hf2, decide_False, Hother in Hsx by congruence. apply find_session_Some in Hsx as [Hin Hax].
      apply (Honly sx Hin); [congruence|done].
    + intros ip_bytes dst c c' dg Hc Hdst Hl He. rewrite <-Hk1. apply (outbound_direct send_ok _ lb (Peer.select_session p2) c c' dst ip_bytes dg x);
        try done; [apply peer_at_set|by rewrite <-Hcodec in Hc|].
      cbn [router set_peer set_router with_session]. rewrite Hrouter. exact Hl.
Qed.

(** A session that outlives a change of our own id goes on under the old one: the peer
    takes the new id, its live session toward an address still on offer is kept as it is,
    and a daemon that knows us under the new id only takes no signalling of it. *)
Theorem renamed_session_unheard p q k a u b header data src :
  NoDup (Peer.addr <$> Peer.sessions p) →
  Peer.find_session (Peer.sessions p) a = Some (Peer.MkPeerSession a u) → UdpSession.status u ≠ Timeout →
  PeerInfo.network_id q = PeerInfo.network_id (Peer.info p) → PeerInfo.nat_type q = PeerInfo.nat_type (Peer.info p) →
  let p' := Peer.update_info (SO := udp_open nonce) p q k in
  a ∈ Peer.candidate_addrs p' →
  PacketHeader.peer_id header = UdpSession.peer_id u → Router.get_by_peer_id (router b) (UdpSession.peer_id u) = None →
  Peer.local_peer_id p' = k ∧ Peer.find_session (Peer.sessions p') a = Some (Peer.MkPeerSession a u) ∧
  dispatch_signalling (SO := udp_open nonce) b header data src = b.
Proof.
  intros Hn Hf Hst Hnet Hnat p' Ha Hid Hnone. split_and!; [done| |].
  - unfold p', Peer.update_info. rewrite Hnet, Hnat, !bool_decide_eq_true_2 by done. cbn [negb orb].
    set (p1 := Peer.MkPeer _ _ _ _ _). destruct (try_create_tunnel_spec (SO := udp_open nonce) p1 false Hn) as [_ Hspec].
    rewrite Hspec, decide_True by exact Ha. cbn [p1 Peer.sessions]. rewrite Hf. unfold wanted, keep. cbn.
    by rewrite bool_decide_eq_false_2.
  - unfold dispatch_signalling. by rewrite Hid, Hnone.
Qed.
End properties.

(** Daemon 12 hears of peer 11 and punches toward its public address; peer 11 has heard of
    12 in turn. *)
Import Example.

Module Scenario.
Import NoeioDaemon.
Definition l_11 : Arc := fresh (∅ : gset Arc).
Definition heard_11 : NoeioDaemon UdpTunnelSession := hear start ex_info.
Definition sent_seq : UdpTunnelSession := default (UdpSession.connect 77 12) (UdpSession.handshake_step (UdpSession.connect 77 12)).
Definition punched : NoeioDaemon UdpTunnelSession := with_session heard_11 l_11 ex_peer wan_a sent_seq.
Definition punched_peer : Peer.Peer UdpTunnelSession :=
  Peer.set_sessions ex_peer (Peer.replace_session wan_a (Peer.MkPeerSession wan_a sent_seq) (Peer.sessions ex_peer)).
Definition ack_77 : list byte := NoeioPacket.inner (UdpSession.control_packet Ack 11 77).
Definition answered : NoeioDaemon UdpTunnelSession := dispatch_signalling punched (Header Ack 11 0) ack_77 wan_a.
Definition answered_peer : Peer.Peer UdpTunnelSession := (Peer.inbound punched_peer ack_77 wan_a).1.
Definition acked : UdpTunnelSession := UdpSession.dispatch_one sent_seq ack_77.
Definition linked : UdpTunnelSession := default acked (UdpSession.handshake_step acked).
Definition connected_peer : Peer.Peer UdpTunnelSession :=
  Peer.set_sessions answered_peer (Peer.replace_session wan_a (Peer.MkPeerSession wan_a linked) (Peer.sessions answered_peer)).
Definition connected : NoeioDaemon UdpTunnelSession := with_session answered l_11 answered_peer wan_a linked.
Definition selected : NoeioDaemon UdpTunnelSession := set_peer connected l_11 (Peer.select_session connected_peer).

Lemma heard_11_at : peer_at heard_11 l_11 = Some ex_peer.
Proof. reflexivity. Qed.
Lemma answered_at : peer_at answered l_11 = Some answered_peer.
Proof. reflexivity. Qed.

Definition log : list (SocketAddr * list byte) := [(r_addr relay, sync_of ex_info); (wan_a, ack_77)].

Lemma selected_run : path_run always start log selected.
Proof.
  apply (path_snoc _ _ log connected []).
  2: { apply path_select. apply peer_at_set. }
  apply (path_snoc _ _ log answered []).
  2: { apply (path_task always _ _ _ _ (Peer.MkPeerSession wan_a acked) UdpSession.EHandshake);
         [exact answered_at|reflexivity|exact I|by constructor]. }
  apply (path_snoc _ _ [(r_addr relay, sync_of ex_info)] punched [(wan_a, ack_77)]).
  2: { apply (path_inbound always (λ _, 77) _ 1 0 "host" _ _ _ []), inbound_control; [by right|done]. }
  apply (path_snoc _ _ [(r_addr relay, sync_of ex_info)] heard_11 []).
  2: { apply (path_task always _ _ _ _ (Peer.MkPeerSession wan_a (UdpSession.connect 77 12)) UdpSession.EHandshake);
         [exact heard_11_at|reflexivity|exact I|by constructor]. }
  apply (path_snoc _ _ [] start [(r_addr relay, sync_of ex_info)]); [constructor|].
  apply (path_inbound always (λ _, 77) _ 1 0 "host" _ _ _ []), hear_inbound; [done|apply Nat.ltb_lt|..].
  all: apply (bool_decide_unpack _); vm_compute; exact I.
Qed.

(** The other side: daemon 11 has heard of peer 12. *)
Definition info_12 : PeerInfo :=
  PeerInfo.MkPeerInfo 1 12 (IpV4 (ipv4 110 20 0 9)) (replicate 16 Byte.x07) Other None [lan_a] [] false.
Definition peer_12 : Peer.Peer UdpTunnelSession := Peer.new info_12 11.
Definition heard_12 : NoeioDaemon UdpTunnelSession := (apply_sync_route start info_12 11).1.

Lemma punching_11 : punching punched l_11 punched_peer 11 12 wan_a sent_seq.
Proof.
  split_and!; try reflexivity. apply (bool_decide_unpack _). vm_compute. exact I.
Qed.

Lemma punching_12 : punching heard_12 l_11 peer_12 12 11 lan_a (UdpSession.connect 77 11).
Proof.
  split_and!; try reflexivity. apply (bool_decide_unpack _). vm_compute. exact I.
Qed.
End Scenario.

Lemma direct_path_confirmed_witness :
  Router.heap (NoeioDaemon.router start) = ∅ ∧ path_run always start Scenario.log Scenario.selected ∧
  confirmed Scenario.log (Peer.select_session Scenario.connected_peer) wan_a.
Proof.
  split; [reflexivity|]. split; [exact Scenario.selected_run|].
  apply (proj1 (direct_path_confirmed always start Scenario.log Scenario.selected packet_out wan_a []
    eq_refl Scenario.selected_run) Scenario.l_11); reflexivity.
Defined.

Lemma renamed_session_unheard_witness :
  Peer.local_peer_id (Peer.update_info (SO := udp_open (λ _, 77)) Scenario.punched_peer ex_info 13) = 13 ∧
  UdpSession.peer_id Scenario.sent_seq = 12.
Proof.
  split; [|reflexivity].
  apply (renamed_session_unheard (λ _, 77) Scenario.punched_peer ex_info 13 wan_a Scenario.sent_seq start
    (Header Seq 12 0) [] wan_a); try reflexivity; try done.
  all: apply (bool_decide_unpack _); vm_compute; exact I.
Defined.

Lemma direct_path_opens_witness :
  ∃ (d : NoeioDaemon.NoeioDaemon UdpTunnelSession) p2, NoeioDaemon.peer_at d Scenario.l_11 = Some p2 ∧ Peer.address (Peer.select_session p2) = Some wan_a.
Proof.
  destruct (direct_path_opens always (λ _, 77) 1 0 "host" Scenario.punched Scenario.heard_12
    Scenario.l_11 Scenario.l_11 Scenario.peer_12 Scenario.punched_peer 12 11 lan_a wan_a
    (UdpSession.connect 77 11) Scenario.sent_seq 0 (500 * UdpSession.MS) Scenario.punching_11 Scenario.punching_12)
    as (_ & a1 & p1 & u1 & u2 & x & _ & _ & _ & _ & p2 & Hp & Hx & Honly & _); try done.
  eexists _, p2. split; [exact Hp|]. rewrite Hx. f_equal. apply Honly.
  unfold up. refine (proj1 (Forall_forall _ _) (bool_decide_unpack (Forall _ _) _)). vm_compute. exact I.
Defined.
