(* ===== verification/Discovery.v ===== *)
(** How two nodes learn of each other: a node's report ([Daemon], [HostCodec]), the
    relay's table and broadcast ([Relay], [RelayPeers], [Token]), and the other node's
    routing table ([Daemon], [RoutingTable]), put end to end over the wire. *)

From Stdlib Require Import ZArith Lia.
From Stdlib Require Import Strings.Byte Strings.String.
From stdpp Require Import base list strings gmap.
From S2P Require Import Prelude Text NetTypes CidrModel HostInfo Packet HostCodec CodecModel Wire RoutingTable RelayPeers Token Relay Session Wireguard Peer DerperClient Daemon Membership.

Local Open Scope Z_scope.

Section discovery.
Context {CA : CidrApi} {CL : CidrLaws} {U : UuidApi} {UL : UuidLaws} {PA : ProtoApi} {PRL : ProtoLaws}.
Context {J : JwtApi} {P B : Type}.
Context {PC : CacheApi P PeerId entry} {BC : CacheApi B (SocketAddr * NetworkId) PeerId} {ttl : Z}
  {PL : CacheLaws P PeerId entry ttl} {BL : CacheLaws B (SocketAddr * NetworkId) PeerId ttl}.
Context {KA : KeyApi} {TA : TunnApi} {IW : Ipv4Wire} {ST : StunApi}.
Context {S : Type} {TS : TunnelSession S} {SO : SessionOpen S}.
Implicit Types (m : PeerManager P B) (d : NoeioDaemon S) (h : HostInfo) (r : ResolvedDerper).

(** *** The report *)

(** What a node's report says, as a packet. *)
Definition report_bytes (id : PeerId) (tok : string) h : list byte :=
  NoeioPacket.inner (NoeioPacket.new (Header Report id 0)
    (ReportPayload.to_bytes (ReportPayload.MkReport tok h))).

(** A sane report: it encodes what it says and fits the relay's buffer. *)
Definition sendable (id : PeerId) (tok : string) h : Prop :=
  is_uint 32 id ∧ host_wf h ∧ utf8_valid (list_byte_of_string tok) = true ∧
  Z.of_nat (length (list_byte_of_string tok)) < 65536 ∧
  (length (report_bytes id tok h) < MAX_PACKET_LEN)%nat.

Lemma report_header id tok h : is_uint 32 id →
  PacketHeader.from_bytes (report_bytes id tok h) = Some (Header Report id 0).
Proof. intros Hid. apply header_from_to_bytes. split; [done|]. by split. Qed.

Lemma report_parses_back id tok h unix secret claims network :
  sendable id tok h → verify unix secret tok = Ok claims → uuid_parse (sub claims) = Some network →
  parse_report unix secret (NoeioPacket.Packet (report_bytes id tok h) Report) = Some (h, network).
Proof.
  intros (Hid & Hh & Hu & Hl & _) Hv Hn. unfold parse_report, NoeioPacket.parse_header.
  cbn [NoeioPacket.inner]. rewrite report_header by done.
  assert (NoeioPacket.payload (NoeioPacket.Packet (report_bytes id tok h) Report) =
    Some (ReportPayload.to_bytes (ReportPayload.MkReport tok h))) as -> by apply (payload_new (Header Report id 0)).
  unfold ReportPayload.try_from, ReportPayload.to_bytes. cbn [ReportPayload.token ReportPayload.host_info].
  rewrite token_frame_decode_encode by done. rewrite host_roundtrip by done.
  rewrite string_of_list_byte_of_string. cbn. by rewrite Hv, Hn.
Qed.

Lemma on_report m now unix secret id tok h addr :
  is_uint 32 id → (length (report_bytes id tok h) < MAX_PACKET_LEN)%nat →
  on_datagram m now unix secret (report_bytes id tok h) addr =
    (recv_report m now unix secret addr (NoeioPacket.Packet (report_bytes id tok h) Report), []).
Proof.
  intros Hid Hl. unfold on_datagram.
  by rewrite (handle_udp_recv_pass _ addr _ Hl (report_header id tok h Hid)).
Qed.

(** *** The broadcast *)

Lemma stamp_wf h p : host_wf h → peer_wf p → peer_wf (stamp h p).
Proof.
  intros (Hv & Hna & Hl & _) (_ & Hid & Hip & Hn & _ & Hla & Hr). unfold stamp. split_and!; try done.
  - by intros a [= <-].
  - cbn. by case_decide.
Qed.

(** What a broadcast does to the daemon that gets it from its current relay. *)
Lemma sync_heard send_ok fuel d now host target to q addr r :
  is_uint 32 target → peer_wf q → DerperManager.current (NoeioDaemon.derper d) = Some r →
  sock_ip (r_addr r) = sock_ip addr →
  (length (send_sync_route target to q).2 < MAX_BUFFER_SIZE)%nat →
  NoeioDaemon.process_inbound send_ok fuel d now host (send_sync_route target to q).2 addr =
    NoeioDaemon.Handled (let '(d1, changed) := NoeioDaemon.apply_sync_route d q target in
                         if changed then NoeioDaemon.notify d1 else d1) [].
Proof.
  intros Ht Hq Hr Hip Hl. set (bytes := (send_sync_route target to q).2) in *.
  destruct (sync_route_decodes target to q Ht Hq) as (p & Hp & Hh & Hpl & Hd).
  apply try_from_Ok in Hp as [Hi _]. unfold NoeioPacket.parse_header in Hh. rewrite Hi in Hh.
  fold bytes in Hh. rewrite (inbound_parsed _ _ _ _ _ _ _ _ Hl Hh).
  pose proof (parsed_payload _ _ _ (parsed_header _ _ Hh)) as Hpay. unfold NoeioDaemon.inbound_packet.
  rewrite Hpay, Hr. cbn [PacketHeader.packet_type fmap option_fmap option_map].
  rewrite decide_False by (rewrite Hip; tauto).
  change (drop 9 bytes) with (peer_to_bytes q). rewrite Hd.
  cbn [PacketHeader.peer_id]. by destruct (NoeioDaemon.apply_sync_route d q target).
Qed.

(** A report with a valid token puts every entry of its host into the next broadcast
    to every other member of the token's network. *)
Lemma report_broadcast m now unix secret network id tok h addr claims pl pa id_b addr_b hb :
  0 < ttl → sendable id tok h → verify unix secret tok = Ok claims → uuid_parse (sub claims) = Some network →
  pl ∈ HostInfo.peers h → PeerInfo.network_id pl = network →
  PeerManager.stale m now (PeerInfo.peer_id pl) h = None →
  PeerManager.get m now id_b = Some (addr_b, hb, network) → id_b ∉ reported network h →
  pa ∈ HostInfo.peers h → PeerInfo.peer_id pa ≠ id_b →
  send_sync_route id_b addr_b (stamp h pa) ∈
    (sync_round (on_datagram m now unix secret (report_bytes id tok h) addr).1 now).2.
Proof.
  intros Httl Hs Hv Hn Hpl Hnet Hstale Hb Hbn Hpa Hne. pose proof Hs as (Hid & _ & _ & _ & Hfit).
  pose proof (report_parses_back id tok h unix secret claims network Hs Hv Hn) as Hparse.
  assert (PeerInfo.peer_id pl ∈ reported network h) as Hrep.
  { apply list_elem_of_fmap. exists pl. split; [done|]. by apply list_elem_of_filter. }
  apply elem_sync. exists id_b, addr_b, hb, network, (PeerInfo.peer_id pl), addr, h, pa.
  rewrite on_report by done. cbn [fst].
  rewrite !(recv_report_get m now unix secret addr _ h network now) by (done || lia).
  rewrite decide_False by done. split; [done|]. rewrite decide_True by done.
  destruct (Z.ltb_spec now (now + ttl)); [|lia]. unfold beat_entry. rewrite Hstale.
  assert (PeerInfo.peer_id pl ≠ id_b) by congruence. done.
Qed.

(** A known identity is what its address resolves to. *)
Lemma info_at_lookup d ip i :
  info_at (NoeioDaemon.router d) ip = Some i →
  ∃ l p, Router.lookup (NoeioDaemon.router d) ip = Some l ∧ NoeioDaemon.peer_at d l = Some p ∧
    Peer.info p = i.
Proof.
  unfold info_at, Router.lookup. destruct (Router.get _ ip) as [l|] eqn:Hl; [|done]. cbn.
  unfold Router.info. intros (p & Hp & ->)%fmap_Some. by exists l, p.
Qed.
End discovery.

(** ** Properties *)

Section properties.
Context {CA : CidrApi} {CL : CidrLaws} {U : UuidApi} {UL : UuidLaws} {PA : ProtoApi} {PRL : ProtoLaws}.
Context {J : JwtApi} {P B : Type}.
Context {PC : CacheApi P PeerId entry} {BC : CacheApi B (SocketAddr * NetworkId) PeerId} {ttl : Z}
  {PL : CacheLaws P PeerId entry ttl} {BL : CacheLaws B (SocketAddr * NetworkId) PeerId ttl}.
Context {KA : KeyApi} {TA : TunnApi} {IW : Ipv4Wire} {ST : StunApi}.
Context {S : Type} {TS : TunnelSession S} {SO : SessionOpen S}.
Implicit Types (m : PeerManager P B) (d : NoeioDaemon S) (h : HostInfo) (r : ResolvedDerper).

(** C10. Discovery. A node [a] that reports itself with a valid token becomes known to
    every live member [b] of the token's network in one report and one broadcast:
    the relay takes the report that [a] sends, its next broadcast holds a datagram
    to [b]'s registered address, and when [b] gets it from its relay, [b] holds
    [a]'s identity with the version, NAT and addresses of the report - unless it
    already knew a newer one - and a packet for [a]'s overlay address resolves to a
    peer with that identity; if it was news, [b]'s route reconciler is woken. *)
Theorem discovery send_a send_b fuel m now unix secret network
    (a : NoeioDaemon S) ha id local_port primary ra addr_a pa
    (b : NoeioDaemon S) id_b addr_b hb rb from now_b host_b claims :
  let h := NoeioDaemon.reported_host a ha local_port primary ra in
  let data := report_bytes id (r_token ra) h in
  let m1 := (on_datagram m now unix secret data addr_a).1 in
  let q := stamp h pa in
  0 < ttl → sendable id (r_token ra) h → send_a (r_addr ra) data = true →
  verify unix secret (r_token ra) = Ok claims → uuid_parse (sub claims) = Some network →
  pa ∈ HostInfo.peers h → PeerInfo.network_id pa = network → PeerInfo.withdrawn pa = false →
  PeerManager.stale m now (PeerInfo.peer_id pa) h = None →
  PeerManager.get m now id_b = Some (addr_b, hb, network) → id_b ∉ reported network h → is_uint 32 id_b →
  Router.reachable (NoeioDaemon.router b) → DerperManager.current (NoeioDaemon.derper b) = Some rb →
  sock_ip (r_addr rb) = sock_ip from →
  (length (send_sync_route id_b addr_b q).2 < MAX_BUFFER_SIZE)%nat →
  NoeioDaemon.report send_a a ha id local_port primary ra = [(r_addr ra, data)] ∧
  send_sync_route id_b addr_b q ∈ (sync_round m1 now).2 ∧
  ∃ b', NoeioDaemon.process_inbound send_b fuel b now_b host_b (send_sync_route id_b addr_b q).2 from =
          NoeioDaemon.Handled b' [] ∧
    let old := info_at (NoeioDaemon.router b) (PeerInfo.noeio_ip pa) in
    (∃ l p, Router.lookup (NoeioDaemon.router b') (PeerInfo.noeio_ip pa) = Some l ∧
       NoeioDaemon.peer_at b' l = Some p ∧ Peer.info p = newer old q) ∧
    ((∀ i, old = Some i → PeerInfo.resource_version i < HostInfo.resource_version h) →
       newer old q = q ∧ NoeioDaemon.wake b' = true).
Proof.
  intros h data m1 q Httl Hs Hsend Hv Hn Hpa Hnet Hw Hstale Hb Hbn Hidb Hreach Hr Hip Hlen.
  pose proof Hs as (Hid & Hh & _ & _ & Hfit).
  assert (peer_wf pa) as Hwfp by (destruct Hh as (_ & _ & _ & Hf); rewrite Forall_forall in Hf; by apply Hf).
  split; [|split].
  - unfold NoeioDaemon.report, NoeioDaemon.send_to. fold h.
    change (NoeioPacket.inner _) with data. by rewrite Hsend.
  - assert (PeerInfo.peer_id pa ≠ id_b).
    { intros <-. apply Hbn, list_elem_of_fmap. exists pa. split; [done|]. by apply list_elem_of_filter. }
    by apply (report_broadcast m now unix secret network id _ h addr_a claims pa pa id_b addr_b hb).
  - eexists. split; [apply (sync_heard send_b fuel b now_b host_b id_b addr_b q from rb);
      [done|by apply stamp_wf|done|done|done]|].
    pose proof (apply_live b q id_b (wf_reachable _ Hreach) Hw) as Hlive.
    destruct (NoeioDaemon.apply_sync_route b q id_b) as [d1 changed]. destruct Hlive as [Hat Hch].
    specialize (Hat (PeerInfo.noeio_ip q)). rewrite decide_True in Hat by done.
    split.
    + destruct (info_at_lookup d1 _ _ Hat) as (l & p & Hl & Hp & Hi). exists l, p.
      by destruct changed.
    + intros Hnews. change (PeerInfo.noeio_ip q) with (PeerInfo.noeio_ip pa) in Hch.
      assert (changed = true) as -> by by apply Hch. split; [|done].
      unfold newer. destruct (info_at (NoeioDaemon.router b) (PeerInfo.noeio_ip pa)) as [i|] eqn:Ho; [|done].
      change (PeerInfo.resource_version q) with (HostInfo.resource_version h).
      by rewrite (proj2 (Z.ltb_lt _ _) (Hnews i eq_refl)).
Qed.

(** A withdrawal is meant to be the relay's own word about a peer it evicted, but a
    report may carry one: whoever holds a token for the network of [b] lists, next to
    an entry of its own, any id as withdrawn; the relay broadcasts the entry to every
    member, and [b] drops the peer with that id - whoever announced it, whatever its
    version, even when it is alive and reporting. *)
Theorem forged_withdrawal fuel m now unix secret network id tok h addr claims pl victim
    (b : NoeioDaemon S) id_b addr_b hb rb from now_b host_b send_b :
  let m1 := (on_datagram m now unix secret (report_bytes id tok h) addr).1 in
  let q := stamp h victim in
  0 < ttl → sendable id tok h → verify unix secret tok = Ok claims → uuid_parse (sub claims) = Some network →
  pl ∈ HostInfo.peers h → PeerInfo.network_id pl = network →
  PeerManager.stale m now (PeerInfo.peer_id pl) h = None →
  PeerManager.get m now id_b = Some (addr_b, hb, network) → id_b ∉ reported network h → is_uint 32 id_b →
  victim ∈ HostInfo.peers h → PeerInfo.withdrawn victim = true → PeerInfo.peer_id victim ≠ id_b →
  Router.reachable (NoeioDaemon.router b) → DerperManager.current (NoeioDaemon.derper b) = Some rb →
  sock_ip (r_addr rb) = sock_ip from → (length (send_sync_route id_b addr_b q).2 < MAX_BUFFER_SIZE)%nat →
  send_sync_route id_b addr_b q ∈ (sync_round m1 now).2 ∧
  ∃ b', NoeioDaemon.process_inbound send_b fuel b now_b host_b (send_sync_route id_b addr_b q).2 from =
          NoeioDaemon.Handled b' [] ∧
    Router.get_by_peer_id (NoeioDaemon.router b') (PeerInfo.peer_id victim) = None ∧
    ∀ ip, info_at (NoeioDaemon.router b') ip =
      if decide (Router.by_peer_id (NoeioDaemon.router b) !! PeerInfo.peer_id victim = Some ip)
      then None else info_at (NoeioDaemon.router b) ip.
Proof.
  intros m1 q Httl Hs Hv Hn Hpl Hnet Hstale Hb Hbn Hidb Hvic Hw Hne Hreach Hr Hip Hlen.
  split; [by apply (report_broadcast m now unix secret network id tok h addr claims pl victim id_b addr_b hb)|].
  pose proof Hs as (_ & Hh & _).
  assert (peer_wf victim) as Hwf by (destruct Hh as (_ & _ & _ & Hf); rewrite Forall_forall in Hf; by apply Hf).
  eexists. split; [apply (sync_heard send_b fuel b now_b host_b id_b addr_b q from rb);
    [done|by apply stamp_wf|done|done|done]|].
  pose proof (apply_withdrawn b q id_b (wf_reachable _ Hreach) Hw) as Happ.
  destruct (NoeioDaemon.apply_sync_route b q id_b) as [d1 changed]. destruct Happ as (Hget & Hat & _).
  by destruct changed.
Qed.
End properties.

(** Node 42 reports itself with a token for its network; node 43, already there, has
    an empty routing table. *)
Module Scenario.
Import PlainJwt RelayPeers.Example Relay.Scenario Daemon.Example.

Definition ra : ResolvedDerper :=
  MkResolved "relay" (ex_token 100 (Some 160)) (r_addr relay) None.
Definition at_relay := PeerManager.heartbeat RelayPeers.Example.start 0 43 (RelayPeers.Example.info_at 1) addr_b net_2.

Lemma bare_wf id ip nw w : is_uint 32 id → is_uint 32 ip → length nw = 16%nat →
  peer_wf (PeerInfo.MkPeerInfo 0 id (IpV4 ip) nw Other None [] [] w).
Proof. intros. split_and!; try done; by constructor. Qed.

Lemma host_sendable_with ps :
  Forall peer_wf ps →
  (length (report_bytes 42 (r_token ra) (HostInfo.MkHostInfo 9 addr_c Other "c" [] ps)) <? MAX_PACKET_LEN)%nat = true →
  sendable 42 (r_token ra) (HostInfo.MkHostInfo 9 addr_c Other "c" [] ps).
Proof.
  intros Hps Hl%Nat.ltb_lt. split; [by apply uint_bool|]. split; [|done].
  split; [by apply uint_bool|]. split; [split; by apply uint_bool|]. split; [constructor|done].
Qed.

Lemma intruder_wf : peer_wf intruder.
Proof. apply bare_wf; [by apply uint_bool|by apply uint_bool|done]. Qed.

Lemma host_sendable : sendable 42 (r_token ra) intruder_host.
Proof.
  apply host_sendable_with; [|vm_compute; reflexivity].
  apply Forall_singleton, intruder_wf.
Qed.

(** The same host, withdrawing the peer that [known] has learnt. *)
Definition evicted : PeerInfo :=
  PeerInfo.MkPeerInfo 0 11 (IpV4 (ipv4 110 20 0 77)) net_2 Other None [] [] true.
Definition forger : HostInfo := HostInfo.MkHostInfo 9 addr_c Other "c" [] [intruder; evicted].
Lemma forger_sendable : sendable 42 (r_token ra) forger.
Proof.
  apply host_sendable_with; [|vm_compute; reflexivity].
  apply Forall_cons. split; [apply intruder_wf|]. apply Forall_singleton, bare_wf;
    [by apply uint_bool|by apply uint_bool|done].
Qed.

Lemma known_reachable : Router.reachable (NoeioDaemon.router known).
Proof. apply rtc_once, (Router.step_insert Router.new (Peer.new ex_info 12)). Qed.
End Scenario.
Import PlainJwt RelayPeers.Example Relay.Scenario Daemon.Example Scenario.

Lemma discovery_witness :
  ∃ b', NoeioDaemon.process_inbound always 1 Daemon.Example.start 7 "b"
          (send_sync_route 43 addr_b (stamp intruder_host intruder)).2 (r_addr relay) = NoeioDaemon.Handled b' [] ∧
    NoeioDaemon.wake b' = true ∧
    ∃ l p, Router.lookup (NoeioDaemon.router b') (IpV4 (ipv4 110 20 0 9)) = Some l ∧
      NoeioDaemon.peer_at b' l = Some p ∧ Peer.info p = stamp intruder_host intruder.
Proof.
  assert (verify 101 "k" (r_token ra) = Ok (ex_claims 100 (Some 160))) as Hv
    by (apply (bool_decide_unpack _); vm_compute; exact I).
  destruct (discovery (ttl := PeerManager.HEARTBEAT_TTL) always always 1 at_relay 5 101 "k" net_2
    Daemon.Example.start intruder_host 42 None (λ _, None) ra addr_c intruder
    Daemon.Example.start 43 addr_b (RelayPeers.Example.info_at 1) relay (r_addr relay) 7 "b" (ex_claims 100 (Some 160)))
    as (_ & _ & b' & Hb & (l & p & Hl & Hp & Hi) & Hnews).
  - reflexivity.
  - exact host_sendable.
  - reflexivity.
  - exact Hv.
  - apply (bool_decide_unpack _). vm_compute. exact I.
  - by left.
  - reflexivity.
  - reflexivity.
  - reflexivity.
  - reflexivity.
  - intros Hin%list_elem_of_singleton. discriminate Hin.
  - by apply uint_bool.
  - apply rtc_refl.
  - reflexivity.
  - reflexivity.
  - apply Nat.ltb_lt. vm_compute. reflexivity.
  - destruct Hnews as [Hq Hwake]; [by intros i|].
    exists b'. split; [exact Hb|]. split; [exact Hwake|]. exists l, p.
    split; [exact Hl|]. split; [exact Hp|]. by rewrite Hi, Hq.
Defined.

Lemma forged_withdrawal_witness :
  Daemon.info_at (NoeioDaemon.router known) (IpV4 (ipv4 110 20 0 1)) = Some ex_info ∧
  ∃ b', NoeioDaemon.process_inbound always 1 known 7 "b"
          (send_sync_route 43 addr_b (stamp forger evicted)).2 (r_addr relay) = NoeioDaemon.Handled b' [] ∧
    Daemon.info_at (NoeioDaemon.router b') (IpV4 (ipv4 110 20 0 1)) = None.
Proof.
  split; [apply (bool_decide_unpack _); vm_compute; exact I|].
  assert (verify 101 "k" (r_token ra) = Ok (ex_claims 100 (Some 160))) as Hv
    by (apply (bool_decide_unpack _); vm_compute; exact I).
  destruct (forged_withdrawal (ttl := PeerManager.HEARTBEAT_TTL) 1 at_relay 5 101 "k" net_2 42 (r_token ra)
    forger addr_c (ex_claims 100 (Some 160)) intruder evicted known 43 addr_b (RelayPeers.Example.info_at 1)
    relay (r_addr relay) 7 "b" always) as (_ & b' & Hb & _ & Hat).
  - reflexivity.
  - exact forger_sendable.
  - exact Hv.
  - apply (bool_decide_unpack _). vm_compute. exact I.
  - by left.
  - reflexivity.
  - reflexivity.
  - reflexivity.
  - intros Hin. cbn in Hin. apply elem_of_cons in Hin as [Hin|Hin]; [discriminate Hin|].
    apply list_elem_of_singleton in Hin. discriminate Hin.
  - by apply uint_bool.
  - right. by left.
  - reflexivity.
  - discriminate.
  - exact known_reachable.
  - reflexivity.
  - reflexivity.
  - apply Nat.ltb_lt. vm_compute. reflexivity.
  - exists b'. split; [exact Hb|]. rewrite Hat. by rewrite decide_True by reflexivity.
Defined.
