(* ===== verification/StunAnswers.v ===== *)
(** What the daemon makes of STUN answers ([noeio/src/daemon.rs], the STUN branch of
    [process_inbound]) and what the relay then makes of its reports. *)

From Stdlib Require Import ZArith Lia.
From Stdlib Require Import Strings.Byte Strings.String.
From stdpp Require Import base list strings gmap fin_maps.
From S2P Require Import Prelude Text NetTypes CidrModel HostInfo Packet HostCodec CodecModel RoutingTable RelayPeers Session Wireguard Peer DerperClient Daemon.

Local Open Scope string_scope.
Local Open Scope Z_scope.

Section stun.
Context {CA : CidrApi} {U : UuidApi} {KA : KeyApi} {TA : TunnApi} {PA : ProtoApi} {IW : Ipv4Wire}.
Context {ST : StunApi} {S : Type} {TS : TunnelSession S} {SO : SessionOpen S}.
Context (send_ok : SocketAddr → list byte → bool).
Context {P B : Type} {PC : CacheApi P PeerId entry} {BC : CacheApi B (SocketAddr * NetworkId) PeerId}.
Context {PL : CacheLaws P PeerId entry PeerManager.HEARTBEAT_TTL}.
Context {BL : CacheLaws B (SocketAddr * NetworkId) PeerId PeerManager.HEARTBEAT_TTL}.

(** Answers in the order they come: when, under which host name, with which address. *)
Definition answers (l : list (Z * string * SocketAddr)) (d : NoeioDaemon S) : NoeioDaemon S :=
  foldl (λ d '(now, host, addr), NoeioDaemon.on_stun d now host addr) d l.

Lemma answers_snoc l now host addr d :
  answers (l ++ [(now, host, addr)]) d = NoeioDaemon.on_stun (answers l d) now host addr.
Proof. unfold answers. by rewrite foldl_app. Qed.

Lemma answers_peers l d h : NoeioDaemon.host_info d = Some h →
  ∃ h', NoeioDaemon.host_info (answers l d) = Some h' ∧ HostInfo.peers h' = HostInfo.peers h ∧
    HostInfo.local_addrs h' = HostInfo.local_addrs h.
Proof.
  intros Hh. induction l as [|[[now host] addr] l (h' & IH & Hp & Hl)] using rev_ind; [by exists h|].
  rewrite answers_snoc. unfold NoeioDaemon.on_stun. rewrite IH. eexists. by split_and!.
Qed.

Lemma reported_version (d : NoeioDaemon S) h port primary r :
  HostInfo.resource_version (NoeioDaemon.reported_host d h port primary r) = HostInfo.resource_version h.
Proof. by destruct port. Qed.

Lemma inbound_stun fuel (d : NoeioDaemon S) now host data addr : PacketHeader.from_bytes data = None →
  NoeioDaemon.process_inbound send_ok fuel d now host data addr =
    if (MAX_BUFFER_SIZE <=? length data)%nat then NoeioDaemon.Handled d []
    else match stun_decode data with
         | None => NoeioDaemon.Handled d []
         | Some None => NoeioDaemon.Panicked
         | Some (Some response) =>
             match parse_mapped_addr response with
             | None => NoeioDaemon.Panicked
             | Some mapped => NoeioDaemon.Handled (NoeioDaemon.on_stun d now host mapped) []
             end
         end.
Proof.
  intros Hh. unfold NoeioDaemon.process_inbound. fold (parsed data).
  destruct (parsed data) as [[packet header]|] eqn:Hp; [|done].
  apply parsed_inv in Hp as [Hh' _]. by rewrite Hh' in Hh.
Qed.

(** A report of version [v] at a relay that knows a live entry of the id. *)
Lemma beat_known (m : PeerManager P B) at_ id info from net old :
  PeerManager.get m at_ id = Some old →
  PeerManager.get (PeerManager.heartbeat m at_ id info from net) at_ id =
    Some (if HostInfo.resource_version info <=? HostInfo.resource_version old.1.2 then old else (from, info, net)).
Proof.
  intros Hold. rewrite (heartbeat_get (ttl := PeerManager.HEARTBEAT_TTL)), decide_True by done.
  rewrite (proj2 (Z.ltb_lt _ _)) by (unfold PeerManager.HEARTBEAT_TTL; lia). f_equal.
  unfold beat_entry, PeerManager.stale. rewrite Hold. cbn. by destruct (_ <=? _).
Qed.
End stun.

(** What a STUN answer does, whatever came before. The host is known from then on by
    the mapped address, the host name and a version that is the clock's; its peers stay,
    its NAT is [Symmetric] exactly when the address differs from the previous answer's,
    and nothing else of the daemon changes. It is not asked for: any datagram that
    decodes as an answer is one, wherever it comes from. And the version does not
    grow with the clock behind the last one: the relay then takes the report for a
    duplicate and keeps the old address until the clock has caught up, while a report
    after a change of the advertised routes always gets through. *)
Theorem stun_answers {CA : CidrApi} {U : UuidApi} {KA : KeyApi} {TA : TunnApi} {PA : ProtoApi}
    {IW : Ipv4Wire} {ST : StunApi} {S} {TS : TunnelSession S} {SO : SessionOpen S}
    (send_ok : SocketAddr → list byte → bool) {P B : Type} {PC : CacheApi P PeerId entry} {BC : CacheApi B (SocketAddr * NetworkId) PeerId}
    {PL : CacheLaws P PeerId entry PeerManager.HEARTBEAT_TTL}
    {BL : CacheLaws B (SocketAddr * NetworkId) PeerId PeerManager.HEARTBEAT_TTL}
    fuel (d0 : NoeioDaemon S) l now host addr data src :
  PacketHeader.from_bytes data = None → (length data < MAX_BUFFER_SIZE)%nat →
  (∃ response, stun_decode data = Some (Some response) ∧ parse_mapped_addr response = Some addr) →
  let d := answers l d0 in
  let d' := NoeioDaemon.on_stun d now host addr in
  NoeioDaemon.process_inbound send_ok fuel d now host data src = NoeioDaemon.Handled d' [] ∧
  (NoeioDaemon.nics d' = NoeioDaemon.nics d ∧ NoeioDaemon.router d' = NoeioDaemon.router d ∧
   NoeioDaemon.advertised d' = NoeioDaemon.advertised d ∧ NoeioDaemon.derper d' = NoeioDaemon.derper d) ∧
  ∃ h', NoeioDaemon.host_info d' = Some h' ∧ HostInfo.nat_addr h' = addr ∧
    HostInfo.hostname h' = host ∧ HostInfo.resource_version h' = now_version now ∧
    match NoeioDaemon.host_info d with
    | Some h => HostInfo.peers h' = HostInfo.peers h ∧
        (HostInfo.nat_type h' = Symmetric ↔ HostInfo.nat_addr h ≠ addr)
    | None => HostInfo.peers h' = [] ∧ HostInfo.nat_type h' = nat_type_default
    end ∧
    ∀ (m : PeerManager P B) at_ id from net old port primary r, PeerManager.get m at_ id = Some old →
      PeerManager.get (PeerManager.heartbeat m at_ id (NoeioDaemon.reported_host d' h' port primary r) from net) at_ id =
        Some (if now_version now <=? HostInfo.resource_version old.1.2 then old
              else (from, NoeioDaemon.reported_host d' h' port primary r, net)).
Proof.
  intros Hh Hlen (response & Hdec & Hmap). cbv zeta. split.
  { rewrite inbound_stun by done. destruct (Nat.leb_spec MAX_BUFFER_SIZE (length data)); [lia|].
    by rewrite Hdec, Hmap. }
  split; [by split_and!|]. eexists. split; [reflexivity|].
  assert (Hbeat : ∀ h', HostInfo.resource_version h' = now_version now →
    ∀ (m : PeerManager P B) at_ id from net old port primary r, PeerManager.get m at_ id = Some old →
      PeerManager.get (PeerManager.heartbeat m at_ id (NoeioDaemon.reported_host
        (NoeioDaemon.on_stun (answers l d0) now host addr) h' port primary r) from net) at_ id =
        Some (if now_version now <=? HostInfo.resource_version old.1.2 then old
              else (from, NoeioDaemon.reported_host
                (NoeioDaemon.on_stun (answers l d0) now host addr) h' port primary r, net))).
  { intros h' Hv m at_ id from net old port primary r Hold.
    rewrite beat_known with (old := old) by done. by rewrite reported_version, Hv. }
  destruct (NoeioDaemon.host_info (answers l d0)) as [h|].
  - split_and!; try done; [|by apply Hbeat].
    cbn. destruct (decide (HostInfo.nat_addr h = addr)); naive_solver.
  - split_and!; try done. by apply Hbeat.
Qed.

Module Example.
Import RelayPeers.Example Daemon.Example.
(** One byte is an answer that names [addr_b]. *)
#[export] Instance one_byte : StunApi := {|
  stun_decode bs := if decide (length bs = 1%nat) then Some (Some [OtherAttribute; XorMappedAddress addr_b]) else None |}.
End Example.
Import RelayPeers.Example Daemon.Example Example.

(** The clock has been set back: the relay keeps the address it had at version 1. *)
Lemma stun_answers_witness :
  let d := answers [(7, "host", addr_a)] Daemon.Example.start in
  ∃ d' h', NoeioDaemon.process_inbound always 1 d 0 "host" [x01] (r_addr relay) = NoeioDaemon.Handled d' [] ∧
    NoeioDaemon.host_info d' = Some h' ∧ HostInfo.nat_addr h' = addr_b ∧ HostInfo.nat_type h' = Symmetric ∧
    PeerManager.get (PeerManager.heartbeat registered 0 42
        (NoeioDaemon.reported_host d' h' None (λ _, None) relay) addr_b net_1) 0 42 =
      PeerManager.get registered 0 42.
Proof.
  cbv zeta. destruct (stun_answers always 1 Daemon.Example.start [(7, "host", addr_a)] 0 "host" addr_b
    [x01] (r_addr relay)) as (Hin & _ & h' & Hh & Ha & _ & _ & Hp & Hk).
  { reflexivity. }
  { apply (bool_decide_unpack _). vm_compute. exact I. }
  { exists [OtherAttribute; XorMappedAddress addr_b]. split; reflexivity. }
  refine (ex_intro _ _ (ex_intro _ h' (conj Hin (conj Hh (conj Ha (conj _ _)))))).
  - apply Hp. discriminate.
  - exact (Hk registered 0 42 addr_b net_1 (addr_a, RelayPeers.Example.info_at 1, net_1) None (λ _, None) relay eq_refl).
Defined.
