(* ===== verification/Network.v ===== *)
(** The whole network: relays and daemons as processes that exchange datagrams over a
    wire that loses, repeats, delays and reorders them, and on which anybody may put
    anything that does not claim a relay's address. A relay is [Relay] over
    [RelayPeers], a daemon is [Daemon] with the turns of [Membership]. *)

From Stdlib Require Import ZArith Lia.
From Stdlib Require Import Strings.Byte Strings.String.
From stdpp Require Import base list strings gmap.
From S2P Require Import Prelude Text NetTypes CidrModel HostInfo Packet HostCodec CodecModel Wire Decoded RoutingTable RelayPeers Token Relay Session Wireguard Peer DerperClient Daemon Membership Discovery.

Local Open Scope Z_scope.

(** ** What a relay's table can hold *)

Section table.
Context {CA : CidrApi} {P B : Type} {PC : CacheApi P PeerId entry}
  {BC : CacheApi B (SocketAddr * NetworkId) PeerId} {ttl : Z}
  {PL : CacheLaws P PeerId entry ttl} {BL : CacheLaws B (SocketAddr * NetworkId) PeerId ttl}.
Implicit Types (m : PeerManager P B) (Q : PeerId → entry → Prop).

(** [Q] holds of every stored entry, live or expired, and of every tombstone that
    waits to be sent. *)
Definition table_ok Q m : Prop :=
  (∀ id e t, entries (PeerManager.peers m) !! id = Some (e, t) → Q id e) ∧
  (∀ g, g ∈ PeerManager.gone m → ∃ addr, Q (gone_peer_id g) (addr, gone_info g, gone_network g)).

Lemma table_ok_impl Q Q' m : (∀ id e, Q id e → Q' id e) → table_ok Q m → table_ok Q' m.
Proof.
  intros HQ [He Hg]. split; [intros id e t H; by eapply HQ, He|]. intros g Hin.
  destruct (Hg g Hin) as [a Ha]. exists a. by apply HQ.
Qed.

Lemma table_ok_get Q m now id e : table_ok Q m → PeerManager.get m now id = Some e → Q id e.
Proof. intros [He _] (t & Ht & _)%get_Some. by eapply He. Qed.

(** A notice of an eviction carries an entry that was stored. *)
Lemma tombstones_ok Q m (l : list (PeerId * entry * RemovalCause)) :
  table_ok Q m →
  (∀ n, n ∈ l → ∃ t, entries (PeerManager.peers m) !! n.1.1 = Some (n.1.2, t)) →
  ∀ g, g ∈ flat_map PeerManager.tombstone l → ∃ addr, Q (gone_peer_id g) (addr, gone_info g, gone_network g).
Proof.
  intros [He _] Hl g ([[id [[a i] nw]] c] & Hn & Hg)%elem_flat_map.
  destruct (Hl _ Hn) as [t Ht]. unfold PeerManager.tombstone in Hg. case_bool_decide;
    [|by apply not_elem_of_nil in Hg]. apply list_elem_of_singleton in Hg as ->. exists a. by eapply He.
Qed.

Lemma write_notice_stored {K V} `{Countable K} tl now (c c' : gmap K (V * Z)) k cause n :
  write_notice tl now c c' k cause n → ∃ t, c !! n.1.1 = Some (n.1.2, t).
Proof. intros [(t & -> & ? & _)|(_ & (t & ? & _) & _)]; by exists t. Qed.

Lemma table_ok_insert Q m now id e :
  table_ok Q m → Q id e → table_ok Q (PeerManager.insert_both m now id e).
Proof.
  intros Hm He. destruct e as [[a i] n]. unfold PeerManager.insert_both. split;
    cbn [PeerManager.listen PeerManager.set_by_addr PeerManager.peers PeerManager.gone].
  - intros id' e t. destruct (decide (id' = id)) as [->|Hne]; [rewrite law_insert; by intros [= <- _]|].
    intros Ht. apply (proj1 Hm id' e t). revert Ht.
    apply kept_Some with (tl := ttl) (now := now). by apply law_insert_kept.
  - intros g [Hg|Hg]%elem_of_app; [by apply Hm|]. revert Hg. apply (tombstones_ok Q m); [done|].
    intros x Hx. apply law_insert_notice in Hx. by eapply write_notice_stored.
Qed.

Lemma table_ok_heartbeat Q m now id info addr network :
  table_ok Q m → Q id (addr, info, network) →
  table_ok Q (PeerManager.heartbeat m now id info addr network).
Proof.
  intros Hm He. destruct (PeerManager.stale m now id info) as [e|] eqn:Hs.
  - rewrite (heartbeat_stale _ _ _ _ _ _ e) by done. apply stale_Some in Hs as [Hs _].
    apply table_ok_insert; [done|]. by eapply table_ok_get.
  - rewrite heartbeat_accept by done. by apply (table_ok_insert Q m now).
Qed.

Lemma table_ok_sweep Q m now : table_ok Q m → table_ok Q (PeerManager.sweep m now).
Proof.
  intros Hm. unfold PeerManager.sweep. split;
    cbn [PeerManager.listen PeerManager.set_by_addr PeerManager.peers PeerManager.gone].
  - intros id e t. rewrite law_sweep. destruct (entries _ !! id) as [[v u]|] eqn:He; [|done].
    destruct (now <? u + ttl); [|done]. intros [= -> ->]. by eapply Hm.
  - intros g [Hg|Hg]%elem_of_app; [by apply Hm|]. revert Hg. apply (tombstones_ok Q m); [done|].
    intros x Hx. apply law_sweep_notice in Hx as (_ & t & Ht & _). by exists t.
Qed.
End table.

(** ** One relay *)

Section relay.
Context {CA : CidrApi} {CL : CidrLaws} {U : UuidApi} {UL : UuidLaws} {PA : ProtoApi} {PRL : ProtoLaws}.
Context {J : JwtApi} {P B : Type}.
Context {PC : CacheApi P PeerId entry} {BC : CacheApi B (SocketAddr * NetworkId) PeerId} {ttl : Z}
  {PL : CacheLaws P PeerId entry ttl} {BL : CacheLaws B (SocketAddr * NetworkId) PeerId ttl}.
Implicit Types (m : PeerManager P B) (Q : PeerId → entry → Prop).

(** The report a datagram makes the relay take, with the network of its token. *)
Definition admitted (unix : Z) (secret : string) (data : list byte) (from : SocketAddr) :
    option (HostInfo * NetworkId) :=
  match handle_udp_recv data from with
  | Ok (_, p) => if decide (NoeioPacket.packet_type p = Report) then parse_report unix secret p else None
  | Err _ => None
  end.

Lemma admitted_token unix secret data from h network :
  admitted unix secret data from = Some (h, network) →
  host_wf h ∧ ∃ tok claims, verify unix secret tok = Ok claims ∧ uuid_parse (sub claims) = Some network.
Proof.
  unfold admitted. destruct (handle_udp_recv data from) as [[a p]|]; [|done]. case_decide; [|done].
  unfold parse_report. destruct (NoeioPacket.parse_header p); [|done].
  destruct (NoeioPacket.payload p) as [payload|]; [|done].
  destruct (ReportPayload.try_from payload) as [r|] eqn:Hr; [|done].
  destruct (verify unix secret _) as [claims|] eqn:Hv; [|done].
  destruct (uuid_parse (sub claims)) as [n|] eqn:Hn; [|done]. intros [= <- <-].
  split; [by eapply report_wf|by eauto].
Qed.

Lemma table_ok_datagram Q m now unix secret data from :
  table_ok Q m →
  (∀ h network id, admitted unix secret data from = Some (h, network) → id ∈ reported network h →
     Q id (from, h, network)) →
  table_ok Q (on_datagram m now unix secret data from).1.
Proof.
  unfold admitted, on_datagram. intros Hm HQ.
  destruct (handle_udp_recv data from) as [[a p]|] eqn:Hr; [|done].
  unfold packet_recv. destruct (NoeioPacket.packet_type p) eqn:Hp; try done.
  destruct (handle_udp_recv_Ok _ _ _ _ Hr) as (-> & _); [congruence|]. cbn [fst].
  rewrite decide_True in HQ by done. unfold recv_report.
  destruct (parse_report unix secret p) as [[h network]|]; [|done].
  assert (∀ id, id ∈ reported network h → Q id (from, h, network)) as HQ' by eauto. clear HQ.
  unfold reported in HQ'. revert m Hm HQ'. induction (HostInfo.peers h) as [|i l IH]; intros m Hm HQ'; [done|].
  cbn [fold_left]. rewrite filter_cons in HQ'. case_decide as Hi.
  - apply IH; [|intros id Hid; apply HQ'; by right]. apply table_ok_heartbeat; [done|].
    rewrite Hi. apply HQ'. by left.
  - by apply IH.
Qed.

(** What the relay answers never reads as an announcement. *)
Lemma answers_announce_nothing m now unix secret data from to bs h :
  (to, bs) ∈ (on_datagram m now unix secret data from).2 → PacketHeader.from_bytes bs = Some h →
  PacketHeader.packet_type h ≠ SyncRoute.
Proof.
  unfold on_datagram. destruct (handle_udp_recv data from) as [[a p]|]; [|by intros ?%not_elem_of_nil].
  unfold packet_recv. destruct (NoeioPacket.packet_type p); try by intros ?%not_elem_of_nil.
  - intros (h' & ti & n & s & to' & _ & _ & _ & E)%elem_recv_forward Hh.
    apply (f_equal snd) in E. cbn [snd] in E. rewrite E in Hh.
    apply header_type_of_bytes in Hh. cbn in Hh. congruence.
  - cbn [snd]. intros E%list_elem_of_singleton Hh. apply (f_equal snd) in E. cbn [snd] in E.
    rewrite E in Hh. unfold NoeioPacket.new in Hh. cbn [NoeioPacket.inner] in Hh. apply header_type_of_bytes in Hh.
    cbn in Hh. congruence.
Qed.
End relay.

(** ** The network *)

Section network.
Context {CA : CidrApi} {CL : CidrLaws} {U : UuidApi} {UL : UuidLaws} {PA : ProtoApi} {PRL : ProtoLaws}.
Context {J : JwtApi} {P B : Type}.
Context {PC : CacheApi P PeerId entry} {BC : CacheApi B (SocketAddr * NetworkId) PeerId} {ttl : Z}
  {PL : CacheLaws P PeerId entry ttl} {BL : CacheLaws B (SocketAddr * NetworkId) PeerId ttl}.
Context {KA : KeyApi} {TA : TunnApi} {IW : Ipv4Wire} {ST : StunApi}.
Context {S : Type} {TS : TunnelSession S} {SO : SessionOpen S}.
(** Which nodes a datagram to an address can end up at, through whatever NATs. *)
Context (send_ok : SocketAddr → list byte → bool) (reaches : SocketAddr → nat → Prop).

Record RelayProc : Type := MkRelay {
  table : PeerManager P B;
  secret : string;
}.

(** Relays by address, daemons by a name; [in_flight] keeps every datagram ever sent:
    from, to and bytes. A datagram that is lost is one nobody reads. *)
Record Net : Type := MkNet {
  relays : gmap IpAddr RelayProc;
  nodes : gmap nat (NoeioDaemon S);
  in_flight : list (SocketAddr * SocketAddr * list byte);
}.

(** A report the relay at [acc_relay] took. *)
Record Accepted : Type := MkAccepted {
  acc_relay : IpAddr;
  acc_unix : Z;
  acc_from : SocketAddr;
  acc_host : HostInfo;
  acc_network : NetworkId;
}.

(** What a process leaves: its state, and datagrams from one of its addresses. *)
Definition sent_from (a : SocketAddr) (out : list (SocketAddr * list byte)) :
    list (SocketAddr * SocketAddr * list byte) := map (λ '(to, bs), (a, to, bs)) out.
Definition on_relay (n : Net) (ip : IpAddr) (sec : string) (here : SocketAddr)
    (mo : PeerManager P B * list (SocketAddr * list byte)) : Net :=
  MkNet (<[ip := MkRelay mo.1 sec]> (relays n)) (nodes n) (in_flight n ++ sent_from here mo.2).
Definition on_node (n : Net) (k : nat) (here : SocketAddr) (d : NoeioDaemon S)
    (out : list (SocketAddr * list byte)) : Net :=
  MkNet (relays n) (<[k := d]> (nodes n)) (in_flight n ++ sent_from here out).

Definition drain (m : PeerManager P B) (gs : list Gone) : PeerManager P B :=
  PeerManager.MkPeerManager (PeerManager.peers m) (PeerManager.by_addr m) (PeerManager.trigger m) gs.

Definition admissions (ip : IpAddr) (unix : Z) (sec : string) (data : list byte) (from : SocketAddr) :
    list Accepted :=
  match admitted unix sec data from with
  | Some (h, network) => [MkAccepted ip unix from h network]
  | None => []
  end.

(** The daemon's relay, when it has chosen one, is one of the network's. *)
Definition trusting (n : Net) (d : NoeioDaemon S) : Prop :=
  ∀ r, DerperManager.current (NoeioDaemon.derper d) = Some r → is_Some (relays n !! sock_ip (r_addr r)).

Inductive net_step (n : Net) : list Accepted → Net → Prop :=
  (** anybody sends anything, from any address that is no relay's *)
  | step_send from to data :
      relays n !! sock_ip from = None →
      net_step n [] (MkNet (relays n) (nodes n) (in_flight n ++ [(from, to, data)]))
  (** a relay handles a datagram that was sent to it *)
  | step_relay ip r from to data here now unix :
      relays n !! ip = Some r → (from, to, data) ∈ in_flight n → sock_ip to = ip → sock_ip here = ip →
      net_step n (admissions ip unix (secret r) data from)
        (on_relay n ip (secret r) here (on_datagram (table r) now unix (secret r) data from))
  (** its broadcaster wakes up, its table is swept, it sends a tombstone *)
  | step_sync ip r here now :
      relays n !! ip = Some r → sock_ip here = ip →
      net_step n [] (on_relay n ip (secret r) here (sync_round (table r) now))
  | step_sweep ip r here now :
      relays n !! ip = Some r →
      net_step n [] (on_relay n ip (secret r) here (PeerManager.sweep (table r) now, []))
  | step_gone ip r here now g gs :
      relays n !! ip = Some r → PeerManager.gone (table r) = g :: gs → sock_ip here = ip →
      net_step n [] (on_relay n ip (secret r) here (drain (table r) gs, gone_round (table r) now g))
  (** a relay starts again, with an empty table *)
  | step_restart ip r here m :
      relays n !! ip = Some r → entries (PeerManager.peers m) = ∅ → PeerManager.gone m = [] →
      net_step n [] (on_relay n ip (secret r) here (m, []))
  (** a daemon starts; handles a datagram that reached it; takes any other turn *)
  | step_boot k here d :
      NoeioDaemon.router d = Router.new → trusting n d → net_step n [] (on_node n k here d [])
  | step_hear k d fuel now host from to data d' sent here :
      nodes n !! k = Some d → (from, to, data) ∈ in_flight n → reaches to k →
      NoeioDaemon.process_inbound send_ok fuel d now host data from = NoeioDaemon.Handled d' sent →
      relays n !! sock_ip here = None → trusting n d' →
      net_step n [] (on_node n k here d' sent)
  | step_turn k d d' sent here :
      nodes n !! k = Some d → turn send_ok d [] d' → relays n !! sock_ip here = None → trusting n d' →
      net_step n [] (on_node n k here d' sent).

Inductive net_run (n : Net) : list Accepted → Net → Prop :=
  | net_nil : net_run n [] n
  | net_snoc evs n1 evs' n2 : net_run n evs n1 → net_step n1 evs' n2 → net_run n (evs ++ evs') n2.

(** Fresh relays, no daemon yet, nothing sent. *)
Definition initial (n : Net) : Prop :=
  (∀ ip r, relays n !! ip = Some r →
     entries (PeerManager.peers (table r)) = ∅ ∧ PeerManager.gone (table r) = []) ∧
  nodes n = ∅ ∧ in_flight n = [].

(** *** What is vouched for *)

(** The entry comes from a report taken for it. *)
Definition vouched (evs : list Accepted) (ip : IpAddr) (id : PeerId) (e : entry) : Prop :=
  host_wf (e_info e) ∧
  ∃ unix, MkAccepted ip unix (e_addr e) (e_info e) (e_network e) ∈ evs ∧
    id ∈ reported (e_network e) (e_info e).

(** What the relay may announce to an address: an identity out of a report taken for
    the network of a report taken from that address, stamped, or a withdrawal. *)
Definition told (evs : list Accepted) (ip : IpAddr) (to : SocketAddr) (q : PeerInfo) : Prop :=
  ∃ source s target t pa,
    vouched evs ip source s ∧ vouched evs ip target t ∧ e_network s = e_network t ∧ e_addr t = to ∧
    pa ∈ HostInfo.peers (e_info s) ∧ (q = stamp (e_info s) pa ∨ PeerInfo.withdrawn q = true).

Lemma vouched_mono evs evs' ip id e : vouched evs ip id e → vouched (evs ++ evs') ip id e.
Proof. intros [Hw (u & Hu & Hid)]. split; [done|]. exists u. split; [|done]. apply elem_of_app. by left. Qed.

Lemma told_mono evs evs' ip to q : told evs ip to q → told (evs ++ evs') ip to q.
Proof.
  intros (so & s & ta & t & pa & Hs & Ht & H). exists so, s, ta, t, pa.
  split; [by apply vouched_mono|]. split; [by apply vouched_mono|done].
Qed.

(** Announcements on the wire from a relay's address were made by it. *)
Definition announces (bs : list byte) (q : PeerInfo) : Prop :=
  ∃ h, PacketHeader.from_bytes bs = Some h ∧ PacketHeader.packet_type h = SyncRoute ∧
    peer_from_bytes (drop 9 bs) = Ok q.

Record net_ok (evs : list Accepted) (n : Net) : Prop := MkOk {
  ok_table : ∀ ip r, relays n !! ip = Some r → table_ok (vouched evs ip) (table r);
  ok_wire : ∀ from to bs q, (from, to, bs) ∈ in_flight n → is_Some (relays n !! sock_ip from) →
    announces bs q → told evs (sock_ip from) to q;
  ok_heard : ∀ k d, nodes n !! k = Some d → trusting n d ∧
    ∃ qs, heard (NoeioDaemon.router d) qs ∧
      Forall (λ q, ∃ ip to, reaches to k ∧ told evs ip to q) qs;
  ok_real : ∀ a, a ∈ evs → ∃ r tok claims, relays n !! acc_relay a = Some r ∧
    verify (acc_unix a) (secret r) tok = Ok claims ∧ uuid_parse (sub claims) = Some (acc_network a);
}.

Lemma trusting_keeps n n' d :
  (∀ ip, is_Some (relays n !! ip) → is_Some (relays n' !! ip)) → trusting n d → trusting n' d.
Proof. intros Hk Ht r Hr. apply Hk. by apply Ht. Qed.

Lemma on_relay_keeps n ip r here mo :
  relays n !! ip = Some r →
  ∀ ip', is_Some (relays (on_relay n ip (secret r) here mo) !! ip') ↔ is_Some (relays n !! ip').
Proof.
  intros Hr ip'. cbn. destruct (decide (ip = ip')) as [<-|Hne].
  - rewrite lookup_insert_eq, Hr. split; eauto.
  - by rewrite lookup_insert_ne.
Qed.

Lemma elem_sent_from a out from to bs : (from, to, bs) ∈ sent_from a out ↔ from = a ∧ (to, bs) ∈ out.
Proof.
  unfold sent_from. rewrite list_elem_of_fmap. split.
  - by intros ([to' bs'] & [= -> -> ->] & ?).
  - intros [-> ?]. by exists (to, bs).
Qed.

Lemma heard_still evs evs' k (qs : list PeerInfo) :
  Forall (λ q, ∃ ip to, reaches to k ∧ told evs ip to q) qs →
  Forall (λ q, ∃ ip to, reaches to k ∧ told (evs ++ evs') ip to q) qs.
Proof.
  intros Hqs. eapply Forall_impl; [exact Hqs|]. intros q (ip & to & Hr & Ht). exists ip, to.
  split; [done|by apply told_mono].
Qed.

(** A turn of a relay. *)
Lemma relay_turn evs evs' n ip r here mo :
  net_ok evs n → relays n !! ip = Some r → table_ok (vouched (evs ++ evs') ip) mo.1 →
  (∀ to bs q, (to, bs) ∈ mo.2 → announces bs q → told (evs ++ evs') (sock_ip here) to q) →
  (∀ a, a ∈ evs' → acc_relay a = ip ∧ ∃ tok claims,
     verify (acc_unix a) (secret r) tok = Ok claims ∧ uuid_parse (sub claims) = Some (acc_network a)) →
  net_ok (evs ++ evs') (on_relay n ip (secret r) here mo).
Proof.
  intros [Ht Hw Hh Hreal] Hr Hm Hout Hnew. pose proof (on_relay_keeps n ip r here mo Hr) as Hkeep.
  constructor.
  - intros ip' r'. cbn. intros [[<- <-]|[Hne Hr']]%lookup_insert_Some; [done|].
    eapply table_ok_impl; [|by eapply Ht]. intros id e. apply vouched_mono.
  - intros from to bs q [Hin|[-> Hin]%elem_sent_from]%elem_of_app Hip Ha; [|by eapply Hout].
    apply told_mono. eapply Hw; [done|by apply Hkeep|done].
  - intros k d Hd. destruct (Hh k d Hd) as [Htr (qs & Hq & Hqs)]. split.
    + eapply trusting_keeps; [|done]. intros ip' Hip'. by apply Hkeep.
    + exists qs. split; [done|by apply heard_still].
  - assert (relays (on_relay n ip (secret r) here mo) !! ip = Some (MkRelay mo.1 (secret r))) as Hnow
      by apply lookup_insert_eq.
    intros a [Hin|Hin]%elem_of_app.
    + destruct (Hreal a Hin) as (r' & tok & claims & Hr' & Hv).
      destruct (decide (acc_relay a = ip)) as [E|Hne].
      * rewrite E in *. exists (MkRelay mo.1 (secret r)), tok, claims. rewrite Hr in Hr'. by injection Hr' as <-.
      * exists r', tok, claims. split; [|done]. cbn. by rewrite lookup_insert_ne.
    + destruct (Hnew a Hin) as (E & tok & claims & Hv). rewrite E.
      by exists (MkRelay mo.1 (secret r)), tok, claims.
Qed.

(** A turn of a daemon. *)
Lemma node_turn evs n k here d out :
  net_ok evs n → trusting n d → (out = [] ∨ relays n !! sock_ip here = None) →
  (∃ qs, heard (NoeioDaemon.router d) qs ∧ Forall (λ q, ∃ ip to, reaches to k ∧ told evs ip to q) qs) →
  net_ok evs (on_node n k here d out).
Proof.
  intros [Ht Hw Hh Hreal] Htr Hhere Hqs. constructor; [done| | |done].
  - intros from to bs q [Hin|[-> Hin]%elem_sent_from]%elem_of_app Hip Ha; [by eapply Hw|].
    destruct Hhere as [->|Hn]; [by apply not_elem_of_nil in Hin|]. cbn in Hip. rewrite Hn in Hip.
    by destruct Hip.
  - intros k' d'. cbn. intros [[<- <-]|[Hne Hd]]%lookup_insert_Some; [done|by apply Hh].
Qed.

(** What a broadcast or a tombstone on the wire says. *)
Lemma sync_announces target to info q :
  peer_wf info → announces (send_sync_route target to info).2 q → q = info.
Proof.
  intros Hi (h & _ & _ & Hq). change (drop 9 (send_sync_route target to info).2) with (peer_to_bytes info) in Hq.
  unfold peer_from_bytes, peer_to_bytes in Hq.
  rewrite decode_encode_peer, peer_proto_roundtrip in Hq by (done || by apply peer_to_proto_wf). congruence.
Qed.

Lemma host_peer_wf h p : host_wf h → p ∈ HostInfo.peers h → peer_wf p.
Proof. intros (_ & _ & _ & Hp) Hin. rewrite Forall_forall in Hp. by apply Hp. Qed.

Lemma sync_told evs ip (m : PeerManager P B) now to bs q :
  table_ok (vouched evs ip) m → (to, bs) ∈ (sync_round m now).2 → announces bs q → told evs ip to q.
Proof.
  intros Hm (target & addr & ti & nw & source & sa & info & pa & Ht & Hs & _ & Hpa & _ & E)%elem_sync Ha.
  pose proof (table_ok_get _ _ _ _ _ Hm Ht) as Hvt. pose proof (table_ok_get _ _ _ _ _ Hm Hs) as Hvs.
  assert (peer_wf (stamp info pa)) as Hwf.
  { apply stamp_wf; [apply Hvs|]. eapply host_peer_wf; [apply Hvs|done]. }
  assert (to = addr ∧ bs = (send_sync_route target addr (stamp info pa)).2) as [-> ->] by (by inversion E).
  apply sync_announces in Ha as ->; [|done].
  exists source, (sa, info, nw), target, (addr, ti, nw), pa. split_and!; try done. by left.
Qed.

Lemma gone_told evs ip (m : PeerManager P B) now g gs to bs q :
  table_ok (vouched evs ip) m → PeerManager.gone m = g :: gs → (to, bs) ∈ gone_round m now g →
  announces bs q → told evs ip to q.
Proof.
  intros Hm Hg (target & addr & ti & pa & Ht & _ & Hpa & _ & E)%elem_gone Ha.
  pose proof (table_ok_get _ _ _ _ _ Hm Ht) as Hvt.
  destruct (proj2 Hm g) as [sa Hvs]; [rewrite Hg; by left|].
  assert (peer_wf (tombstone_of g pa)) as Hwf.
  { destruct Hvs as [Hh _]. pose proof (host_peer_wf _ _ Hh Hpa) as (_ & Hp). split; [apply Hh|exact Hp]. }
  assert (to = addr ∧ bs = (send_sync_route target addr (tombstone_of g pa)).2) as [-> ->] by (by inversion E).
  apply sync_announces in Ha as ->; [|done].
  exists (gone_peer_id g), (sa, gone_info g, gone_network g), target, (addr, ti, gone_network g), pa.
  split_and!; try done. by right.
Qed.

Lemma turn_heard d qs d' seen :
  turn send_ok d qs d' → heard (NoeioDaemon.router d) seen → heard (NoeioDaemon.router d') (seen ++ qs).
Proof.
  intros Ht. apply (run_heard send_ok). rewrite <-(app_nil_r qs). eapply run_cons; [done|apply run_nil].
Qed.

(** A daemon hears only what its relay told an address of its own. *)
Lemma announced_told evs n k d from to data :
  net_ok evs n → nodes n !! k = Some d → (from, to, data) ∈ in_flight n → reaches to k →
  Forall (λ q, ∃ ip to, reaches to k ∧ told evs ip to q) (announced d data from).
Proof.
  intros Hok Hd Hin Hr. destruct (ok_heard _ _ Hok _ _ Hd) as [Htr _]. unfold announced.
  destruct (_ <? _)%nat; [|constructor].
  destruct (PacketHeader.from_bytes data) as [h|] eqn:Hh; [|constructor].
  destruct (DerperManager.current (NoeioDaemon.derper d)) as [relay|] eqn:Hc; [|constructor].
  destruct (peer_from_bytes (drop 9 data)) as [q|] eqn:Hq; [|constructor].
  case_decide as Hs; [|constructor]. destruct Hs as [Hs Hip]. apply Forall_singleton.
  exists (sock_ip from), to. split; [done|].
  eapply (ok_wire _ _ Hok); [done| |by exists h]. rewrite <-Hip. by apply Htr.
Qed.

Lemma admissions_inv a ip unix sec data from :
  a ∈ admissions ip unix sec data from →
  ∃ h network, admitted unix sec data from = Some (h, network) ∧ a = MkAccepted ip unix from h network.
Proof.
  unfold admissions. destruct (admitted unix sec data from) as [[h network]|]; [|by intros ?%not_elem_of_nil].
  intros ->%list_elem_of_singleton. by exists h, network.
Qed.

Lemma no_news evs n : net_ok evs n → net_ok (evs ++ []) n.
Proof. by rewrite app_nil_r. Qed.

Lemma step_ok evs n evs' n' : net_ok evs n → net_step n evs' n' → net_ok (evs ++ evs') n'.
Proof.
  intros Hok Hstep.
  destruct Hstep as [from to data Hnr|ip r from to data here now unix Hr Hin Hto Hhere|ip r here now Hr Hhere
    |ip r here now Hr|ip r here now g gs Hr Hg Hhere|ip r here m Hr He Hg|k here d Hnew Htr
    |k d fuel now host from to data d' sent here Hd Hin Hre Hp Hhere Htr|k d d' sent here Hd Ht Hhere Htr].
  - apply no_news. destruct Hok as [Ht Hw Hh Hreal]. constructor; try done. cbn.
    intros f t bs q [Hi|Hi]%elem_of_app Hip Ha; [by eapply Hw|].
    apply list_elem_of_singleton in Hi as [= -> -> ->]. rewrite Hnr in Hip. by destruct Hip.
  - apply relay_turn; [done|done| | |].
    + apply table_ok_datagram.
      * eapply table_ok_impl; [|by eapply (ok_table _ _ Hok)]. intros ? ?. apply vouched_mono.
      * intros h network id Ha Hid. destruct (admitted_token _ _ _ _ _ _ Ha) as [Hwf _]. split; [done|].
        exists unix. split; [|done]. apply elem_of_app. right. unfold admissions. rewrite Ha. by left.
    + intros t bs q Ho (h & Hh & Hs & _). by destruct (answers_announce_nothing _ _ _ _ _ _ _ _ _ Ho Hh).
    + intros a (h & network & Ha & ->)%admissions_inv. split; [done|].
      by destruct (admitted_token _ _ _ _ _ _ Ha) as [_ Htok].
  - apply relay_turn; [done|done| | |by intros a ?%not_elem_of_nil]; rewrite app_nil_r.
    + by eapply (ok_table _ _ Hok).
    + rewrite Hhere. intros t bs q. apply sync_told. by eapply (ok_table _ _ Hok).
  - apply relay_turn; [done|done| |by intros ? ? ? ?%not_elem_of_nil|by intros a ?%not_elem_of_nil].
    rewrite app_nil_r. apply table_ok_sweep. by eapply (ok_table _ _ Hok).
  - pose proof (ok_table _ _ Hok _ _ Hr) as Htab.
    apply relay_turn; [done|done| | |by intros a ?%not_elem_of_nil]; rewrite app_nil_r.
    + split; [apply Htab|]. intros g' Hg'. apply Htab. rewrite Hg. by right.
    + rewrite Hhere. intros t bs q. by eapply gone_told.
  - apply relay_turn; [done|done| |by intros ? ? ? ?%not_elem_of_nil|by intros a ?%not_elem_of_nil].
    split; cbn [fst]; [rewrite He; intros ? ? ?; by rewrite lookup_empty|].
    rewrite Hg. by intros g ?%not_elem_of_nil.
  - apply no_news, node_turn; [done|done|by left|]. exists []. split; [|done]. rewrite Hnew. apply heard_new.
  - apply no_news, node_turn; [done|done|by right|].
    destruct (ok_heard _ _ Hok _ _ Hd) as [_ (qs & Hq & Hqs)]. exists (qs ++ announced d data from).
    split; [eapply turn_heard; [by eapply turn_inbound|done]|].
    apply Forall_app. split; [done|by eapply announced_told].
  - apply no_news, node_turn; [done|done|by right|].
    destruct (ok_heard _ _ Hok _ _ Hd) as [_ (qs & Hq & Hqs)]. exists (qs ++ []).
    split; [by eapply turn_heard|by rewrite app_nil_r].
Qed.

Lemma initial_ok n : initial n → net_ok [] n.
Proof.
  intros (Hr & Hn & Hf). constructor.
  - intros ip r [He Hg]%Hr. split; [rewrite He; intros ? ? ?; by rewrite lookup_empty|].
    rewrite Hg. by intros g ?%not_elem_of_nil.
  - rewrite Hf. by intros ? ? ? ? ?%not_elem_of_nil.
  - rewrite Hn. intros k d. by rewrite lookup_empty.
  - by intros a ?%not_elem_of_nil.
Qed.

Lemma run_ok n0 evs n : initial n0 → net_run n0 evs n → net_ok evs n.
Proof. intros Hi Hrun. induction Hrun; [by apply initial_ok|by eapply step_ok]. Qed.
End network.

(** ** Property *)

Section property.
Context {CA : CidrApi} {CL : CidrLaws} {U : UuidApi} {UL : UuidLaws} {PA : ProtoApi} {PRL : ProtoLaws}.
Context {J : JwtApi} {P B : Type}.
Context {PC : CacheApi P PeerId entry} {BC : CacheApi B (SocketAddr * NetworkId) PeerId} {ttl : Z}
  {PL : CacheLaws P PeerId entry ttl} {BL : CacheLaws B (SocketAddr * NetworkId) PeerId ttl}.
Context {KA : KeyApi} {TA : TunnApi} {IW : Ipv4Wire} {ST : StunApi}.
Context {S : Type} {TS : TunnelSession S} {SO : SessionOpen S}.
Context (send_ok : SocketAddr → list byte → bool) (reaches : SocketAddr → nat → Prop).

(** C2. Membership across the network needs a token on both sides. Relays and daemons run
    in any interleaving, restart, and exchange datagrams that are lost, repeated and
    reordered, while anybody sends anything from any address but a relay's. Then
    whatever identity a daemon's routing table holds, some relay took a report with a
    token of some network that lists it - and it is that entry with the report's
    version, NAT and addresses - and the same relay took a report with a token of the
    same network from an address that reaches the daemon: without a report of its own
    under a token of the network, a node learns nothing of the network's members. *)
Theorem network_authentic n0 evs (n : Net) k d ip q :
  initial n0 → net_run send_ok reaches n0 evs n →
  nodes n !! k = Some d → info_at (NoeioDaemon.router d) ip = Some q →
  PeerInfo.noeio_ip q = ip ∧ PeerInfo.withdrawn q = false ∧
  ∃ relay r network u1 from h pa u2 to h',
    relays n !! relay = Some r ∧
    MkAccepted relay u1 from h network ∈ evs ∧ pa ∈ HostInfo.peers h ∧ q = stamp h pa ∧
    reaches to k ∧ MkAccepted relay u2 to h' network ∈ evs ∧
    (∀ u, u = u1 ∨ u = u2 → ∃ tok claims,
       verify u (secret r) tok = Ok claims ∧ uuid_parse (sub claims) = Some network).
Proof.
  intros Hi Hrun Hd Hq. pose proof (run_ok send_ok reaches _ _ _ Hi Hrun) as Hok.
  destruct (ok_heard _ _ _ Hok _ _ Hd) as [_ (qs & [_ Hh] & Hqs)].
  destruct (Hh ip q Hq) as (Hin & Hw & Hip). split; [done|]. split; [done|].
  rewrite Forall_forall in Hqs. destruct (Hqs q Hin) as (relay & to & Hr & Ht).
  destruct Ht as (source & s & target & t & pa & [_ (u1 & H1 & _)] & [_ (u2 & H2 & _)] & En & <- & Hpa & E).
  destruct E as [E|E]; [|congruence]. rewrite <-En in H2.
  destruct (ok_real _ _ _ Hok _ H1) as (r & tok & claims & Hrl & Hv).
  destruct (ok_real _ _ _ Hok _ H2) as (r2 & tok2 & claims2 & Hrl2 & Hv2). cbn in Hrl, Hrl2, Hv, Hv2.
  rewrite Hrl in Hrl2. injection Hrl2 as <-.
  exists relay, r, (e_network s), u1, (e_addr s), (e_info s), pa, u2, (e_addr t), (e_info t).
  split_and!; try done. intros u [->| ->]; eauto.
Qed.
End property.

(** Nodes 42 and 43 report themselves, the relay broadcasts, and 43 hears of 42. *)
Module Scenario.
Import PlainJwt RelayPeers.Example Relay.Scenario Daemon.Example.

Definition peer_43 : PeerInfo :=
  PeerInfo.MkPeerInfo 0 43 (IpV4 (ipv4 110 20 0 10)) net_2 Other None [] [] false.
Definition host_43 : HostInfo := HostInfo.MkHostInfo 1 addr_b Other "b" [] [peer_43].
Definition report_43 : list byte :=
  PacketHeader.to_bytes (Header Report 43 0) ++
  ReportPayload.to_bytes (ReportPayload.MkReport (ex_token 100 (Some 160)) host_43).

Definition home (to : SocketAddr) (k : nat) : Prop := to = addr_b ∧ k = 0%nat.
Definition relay_ip : IpAddr := sock_ip (r_addr relay).
Definition net := Net (P := gmap Z (entry * Z)) (B := gmap (SocketAddr * list byte) (Z * Z)) (S := UdpTunnelSession).
Definition quiet : net := MkNet {[ relay_ip := MkRelay RelayPeers.Example.start "k" ]} ∅ [].
Definition booted : net := on_node quiet 0 (r_addr relay) Daemon.Example.start [].
Definition asked : net := MkNet (relays booted) (nodes booted)
  ([(addr_c, r_addr relay, report_data)] ++ [(addr_b, r_addr relay, report_43)]).
Definition table_1 := (on_datagram RelayPeers.Example.start 5 101 "k" report_data addr_c).1.
Definition table_2 := (on_datagram table_1 5 101 "k" report_43 addr_b).1.
Definition reported_1 : net :=
  on_relay asked relay_ip "k" (r_addr relay) (on_datagram RelayPeers.Example.start 5 101 "k" report_data addr_c).
Definition reported_2 : net :=
  on_relay reported_1 relay_ip "k" (r_addr relay) (on_datagram table_1 5 101 "k" report_43 addr_b).
Definition broadcast : net := on_relay reported_2 relay_ip "k" (r_addr relay) (sync_round table_2 5).
Definition news := send_sync_route 43 addr_b (stamp intruder_host intruder).
Definition heard_43 := NoeioDaemon.apply_sync_route Daemon.Example.start (stamp intruder_host intruder) 43.
Definition informed : net := on_node broadcast 0 addr_b (if heard_43.2 then NoeioDaemon.notify heard_43.1 else heard_43.1) [].
End Scenario.
Import PlainJwt RelayPeers.Example Relay.Scenario Daemon.Example Scenario.

Lemma admitted_42 : admitted 101 "k" report_data addr_c = Some (intruder_host, net_2).
Proof. apply (bool_decide_unpack _). vm_compute. exact I. Qed.
Lemma admitted_43 : admitted 101 "k" report_43 addr_b = Some (host_43, net_2).
Proof. apply (bool_decide_unpack _). vm_compute. exact I. Qed.
Lemma known_42 : PeerManager.get table_2 5 42 = Some (addr_c, intruder_host, net_2).
Proof. apply (bool_decide_unpack _). vm_compute. exact I. Qed.
Lemma known_43 : PeerManager.get table_2 5 43 = Some (addr_b, host_43, net_2).
Proof. apply (bool_decide_unpack _). vm_compute. exact I. Qed.

Lemma quiet_initial : initial quiet.
Proof.
  split; [|by split]. intros ip r. unfold quiet. cbn [relays]. intros [<- <-]%lookup_singleton_Some. by split.
Qed.

Lemma on_relay_at (n : net) ip sec here mo : relays (on_relay n ip sec here mo) !! ip = Some (MkRelay mo.1 sec).
Proof. apply lookup_insert_eq. Qed.

Lemma trusting_start (n : net) : is_Some (relays n !! relay_ip) → trusting n Daemon.Example.start.
Proof. by intros Hs r [= <-]. Qed.

(** The run up to the broadcast. *)
Lemma broadcast_run :
  net_run always home quiet
    [MkAccepted relay_ip 101 addr_c intruder_host net_2; MkAccepted relay_ip 101 addr_b host_43 net_2] broadcast.
Proof.
  assert (admissions relay_ip 101 "k" report_data addr_c = [MkAccepted relay_ip 101 addr_c intruder_host net_2]) as E1
    by (unfold admissions; by rewrite admitted_42).
  assert (admissions relay_ip 101 "k" report_43 addr_b = [MkAccepted relay_ip 101 addr_b host_43 net_2]) as E2
    by (unfold admissions; by rewrite admitted_43).
  assert (net_run always home quiet [] asked) as Hasked.
  { apply (net_snoc _ _ _ [] (MkNet (relays booted) (nodes booted) [(addr_c, r_addr relay, report_data)]) []);
      [apply (net_snoc _ _ _ [] booted []); [apply (net_snoc _ _ _ [] quiet []); [apply net_nil|]|]|].
    - apply (step_boot always home quiet 0 (r_addr relay)); [reflexivity|]. apply trusting_start. by eexists.
    - apply (step_send always home booted). reflexivity.
    - apply (step_send always home (MkNet (relays booted) (nodes booted) [(addr_c, r_addr relay, report_data)])).
      reflexivity. }
  apply (net_snoc _ _ _ [MkAccepted relay_ip 101 addr_c intruder_host net_2; MkAccepted relay_ip 101 addr_b host_43 net_2]
    reported_2 []); [apply (net_snoc _ _ _ [MkAccepted relay_ip 101 addr_c intruder_host net_2] reported_1
      [MkAccepted relay_ip 101 addr_b host_43 net_2]); [apply (net_snoc _ _ _ [] asked
        [MkAccepted relay_ip 101 addr_c intruder_host net_2]); [exact Hasked|]|]|].
  - rewrite <-E1. apply (step_relay always home asked relay_ip (MkRelay RelayPeers.Example.start "k") addr_c (r_addr relay) _ _ 5 101);
      [reflexivity|by left|reflexivity|reflexivity].
  - rewrite <-E2. apply (step_relay always home reported_1 relay_ip (MkRelay table_1 "k") addr_b (r_addr relay) _ _ 5 101);
      [apply on_relay_at| |reflexivity|reflexivity].
    apply elem_of_app. left. right. by left.
  - apply (step_sync always home reported_2 relay_ip (MkRelay table_2 "k") (r_addr relay) 5); [apply on_relay_at|reflexivity].
Qed.

Lemma news_sent : (addr_b, news.2) ∈ (sync_round table_2 5).2.
Proof.
  apply elem_sync. exists 43, addr_b, host_43, net_2, 42, addr_c, intruder_host, intruder.
  split; [exact known_43|]. split; [exact known_42|]. split; [done|]. split; [by left|]. split; [discriminate|done].
Qed.

Lemma informed_run :
  net_run always home quiet
    [MkAccepted relay_ip 101 addr_c intruder_host net_2; MkAccepted relay_ip 101 addr_b host_43 net_2] informed.
Proof.
  apply (net_snoc _ _ _ [MkAccepted relay_ip 101 addr_c intruder_host net_2; MkAccepted relay_ip 101 addr_b host_43 net_2]
    broadcast []); [exact broadcast_run|].
  apply (step_hear always home broadcast 0 Daemon.Example.start 1 7 "b" (r_addr relay) addr_b news.2).
  - reflexivity.
  - apply elem_of_app. right. apply elem_sent_from. split; [done|exact news_sent].
  - by split.
  - unfold news. rewrite (sync_heard always 1 Daemon.Example.start 7 "b" 43 addr_b (stamp intruder_host intruder) (r_addr relay) relay).
    + unfold heard_43. by destruct (NoeioDaemon.apply_sync_route _ _ _).
    + by apply uint_bool.
    + destruct (admitted_token _ _ _ _ _ _ admitted_42) as [Hw _]. apply stamp_wf; [done|].
      eapply host_peer_wf; [done|]. by left.
    + reflexivity.
    + reflexivity.
    + apply Nat.ltb_lt. vm_compute. reflexivity.
  - reflexivity.
  - intros r [= <-]. by eexists.
Qed.

Lemma network_authentic_witness :
  Daemon.info_at (NoeioDaemon.router (if heard_43.2 then NoeioDaemon.notify heard_43.1 else heard_43.1))
    (IpV4 (ipv4 110 20 0 9)) = Some (stamp intruder_host intruder) ∧
  ∃ relay network u from h, MkAccepted relay u from h network ∈
    [MkAccepted relay_ip 101 addr_c intruder_host net_2; MkAccepted relay_ip 101 addr_b host_43 net_2] ∧
    ∃ pa, pa ∈ HostInfo.peers h ∧ stamp intruder_host intruder = stamp h pa.
Proof.
  assert (Daemon.info_at (NoeioDaemon.router (if heard_43.2 then NoeioDaemon.notify heard_43.1 else heard_43.1))
    (IpV4 (ipv4 110 20 0 9)) = Some (stamp intruder_host intruder)) as Hat
    by (apply (bool_decide_unpack _); vm_compute; exact I).
  split; [exact Hat|].
  destruct (network_authentic always home quiet _ informed 0 _ _ _ quiet_initial informed_run eq_refl Hat)
    as (_ & _ & relay & r & network & u1 & from & h & pa & _ & _ & _ & _ & Hin & Hpa & E & _).
  exists relay, network, u1, from, h. split; [exact Hin|]. exists pa. split; [exact Hpa|exact E].
Defined.
