(* ===== verification/Departure.v ===== *)
(** What becomes of a peer whose reports stop, and of one whose reports go on: the relay's
    sweep and tombstones ([RelayPeers], [Relay], [RelayTasks]), the daemon that hears of
    it ([Daemon], [Membership]) and its routes ([SubnetRoute]), end to end. *)

From Stdlib Require Import ZArith Lia.
From Stdlib Require Import Strings.Byte Strings.String.
From stdpp Require Import base list strings gmap fin_maps sets.
From S2P Require Import Prelude Text NetTypes CidrModel HostInfo Packet HostCodec CodecModel Wire Decoded Routes RoutingTable NetRoute Reconcile RelayPeers Token Relay RelayTasks Session Wireguard Peer DerperClient Daemon Membership SubnetRoute Discovery Network.

Local Open Scope Z_scope.

(** ** The relay *)

Section relay.
Context {CA : CidrApi} {CL : CidrLaws} {U : UuidApi} {UL : UuidLaws} {PA : ProtoApi} {PRL : ProtoLaws}.
Context {J : JwtApi} {P B : Type}.
Context {PC : CacheApi P PeerId entry} {BC : CacheApi B (SocketAddr * NetworkId) PeerId} {ttl : Z}
  {PL : CacheLaws P PeerId entry ttl} {BL : CacheLaws B (SocketAddr * NetworkId) PeerId ttl}.
Context (secret : string).
Implicit Types (m : PeerManager P B) (id : PeerId) (e : entry) (ev : Event).

Definition event_time ev : Z :=
  match ev with
  | Whole now _ _ _ => now
  | Beside (SyncTurn now) | Beside (GoneTurn now) | Beside (SweepTurn now) => now
  end.

(** The report of [id] that an event makes the relay take. *)
Definition listed id ev : option HostInfo :=
  match ev with
  | Whole _ unix data from =>
      '(h, network) ← admitted unix secret data from;
      if decide (id ∈ reported network h) then Some h else None
  | Beside _ => None
  end.

Definition silent id (evs : list Event) : Prop := ∀ ev, ev ∈ evs → listed id ev = None.

(** A datagram is the heartbeats of the ids it reports. *)
Lemma datagram_ind (I : PeerManager P B → Prop) m now unix data from :
  I m →
  (∀ m' h network id, admitted unix secret data from = Some (h, network) → id ∈ reported network h →
     I m' → I (PeerManager.heartbeat m' now id h from network)) →
  I (on_datagram m now unix secret data from).1.
Proof.
  unfold admitted, on_datagram. intros Hm HI.
  destruct (handle_udp_recv data from) as [[a p]|] eqn:Hr; [|done].
  unfold packet_recv. destruct (NoeioPacket.packet_type p) eqn:Hp; try done.
  destruct (handle_udp_recv_Ok _ _ _ _ Hr) as (-> & _); [congruence|]. cbn [fst].
  rewrite decide_True in HI by done. unfold recv_report.
  destruct (parse_report unix secret p) as [[h network]|]; [|done].
  assert (∀ m' id, id ∈ reported network h → I m' → I (PeerManager.heartbeat m' now id h from network)) as HI'
    by (intros; by apply HI). clear HI. unfold reported in HI'.
  revert m Hm HI'. induction (HostInfo.peers h) as [|i l IH]; intros m Hm HI'; [done|].
  cbn [fold_left]. rewrite filter_cons in HI'. case_decide as Hi.
  - apply IH; [|intros m' id Hid; apply HI'; by right]. rewrite Hi. apply HI'; [by left|done].
  - by apply IH.
Qed.

Definition stored m id e t : Prop := entries (PeerManager.peers m) !! id = Some (e, t).
Definition absent m id : Prop := entries (PeerManager.peers m) !! id = None.
Definition grave id e : Gone := MkGone id (e_info e) (e_network e).

(** Still stored, or gone with its tombstone in the queue. *)
Definition parting m id e t : Prop := stored m id e t ∨ absent m id ∧ grave id e ∈ PeerManager.gone m.

(** The heartbeat of another peer. *)
Lemma heartbeat_gone_more m now id info addr network g :
  g ∈ PeerManager.gone m → g ∈ PeerManager.gone (PeerManager.heartbeat m now id info addr network).
Proof.
  destruct (heartbeat_gone m now id info addr network) as (l & -> & _). intros Hg. apply elem_of_app. by left.
Qed.

Lemma heartbeat_absent m now id id' info addr network : id' ≠ id →
  absent m id → absent (PeerManager.heartbeat m now id' info addr network) id.
Proof.
  unfold absent. intros Hne Ha. rewrite heartbeat_peers.
  destruct (beat_entry m now id' info addr network) as [[a i] n]. cbn.
  destruct (entries (cache_insert (PeerManager.peers m) now id' (a, i, n)).1 !! id) as [x|] eqn:Hx; [|done].
  rewrite (kept_Some ttl now _ _ id x (law_insert_kept _ _ _ _ id (not_eq_sym Hne)) Hx) in Ha. done.
Qed.

Lemma heartbeat_parting m now id id' info addr network e t : id' ≠ id →
  parting m id e t → parting (PeerManager.heartbeat m now id' info addr network) id e t.
Proof.
  intros Hne [Hs|[Ha Hg]]; [|right; split; [by apply heartbeat_absent|by apply heartbeat_gone_more]].
  assert (∃ be, PeerManager.peers (PeerManager.heartbeat m now id' info addr network) =
      (cache_insert (PeerManager.peers m) now id' be).1 ∧
    PeerManager.gone (PeerManager.heartbeat m now id' info addr network) =
      (PeerManager.gone m ++ flat_map PeerManager.tombstone (cache_insert (PeerManager.peers m) now id' be).2)%list)
    as (be & Hpe & Hgo).
  { destruct (PeerManager.stale m now id' info) as [be|] eqn:Hst.
    - rewrite (heartbeat_stale _ _ _ _ _ _ be) by done. exists be. by destruct be as [[??]?].
    - rewrite heartbeat_accept by done. by exists (addr, info, network). }
  unfold parting, stored, absent. rewrite Hpe, Hgo.
  destruct (law_insert_kept (PeerManager.peers m) now id' be id (not_eq_sym Hne)) as [->|[Hexp Hnone]]; [by left|].
  right. split; [done|]. apply elem_of_app. right. apply elem_tombstones. exists (e_addr e), Expired. split; [|by left].
  assert (∀ v, expired ttl now (entries (PeerManager.peers m)) id v → v = e) as Huniq.
  { intros v (u & Hu & _). unfold stored in Hs. congruence. }
  destruct Hexp as [v Hv]. pose proof (Huniq v Hv) as ->.
  apply law_insert_notice. right. cbn. split; [done|]. destruct e as [[a i] n]. done.
Qed.

Lemma sweep_parting m now id e t : parting m id e t →
  parting (PeerManager.sweep m now) id e t ∧ (t + ttl ≤ now → absent (PeerManager.sweep m now) id).
Proof.
  unfold parting, stored, absent. intros Hp. unfold PeerManager.sweep.
  cbn [PeerManager.listen PeerManager.set_by_addr PeerManager.peers PeerManager.gone]. rewrite law_sweep.
  destruct Hp as [Hs|[Ha Hg]].
  - rewrite Hs. destruct (Z.ltb_spec now (t + ttl)) as [|Hle]; [split; [by left|lia]|]. split; [|done]. right.
    split; [done|]. apply elem_of_app. right. apply elem_tombstones. exists (e_addr e), Expired. split; [|by left].
    apply law_sweep_notice. split; [done|]. exists t. destruct e as [[a i] n]. done.
  - rewrite Ha. split; [|done]. right. split; [done|]. apply elem_of_app. by left.
Qed.

Lemma datagram_quiet (I : PeerManager P B → Prop) m now unix data from id :
  listed id (Whole now unix data from) = None →
  (∀ m' id' info network, id' ≠ id → I m' → I (PeerManager.heartbeat m' now id' info from network)) →
  I m → I (on_datagram m now unix secret data from).1.
Proof.
  intros Hl HI Hm. apply datagram_ind; [done|]. intros m' h network id' Hadm Hin. apply HI. intros ->.
  unfold listed in Hl. rewrite Hadm in Hl. cbn in Hl. by rewrite decide_True in Hl.
Qed.

Lemma event_absent m id ev : listed id ev = None → absent m id → absent (atomic secret m ev).1 id.
Proof.
  destruct ev as [now unix data from|[now|now|now]]; intros Hl Ha; cbn [atomic background].
  - by apply (datagram_quiet (λ m, absent m id) m now unix data from id Hl); [intros; apply heartbeat_absent|].
  - unfold handle_sync. by destruct (PeerManager.trigger m).
  - unfold handle_gone. by destruct (PeerManager.gone m).
  - unfold absent in *. cbn. by rewrite law_sweep, Ha.
Qed.

(** The task of tombstones takes the one of [id]. *)
Definition mourned m id e ev : Prop :=
  ∃ now, ev = Beside (GoneTurn now) ∧ (atomic secret m ev).2 = gone_round m now (grave id e).

Lemma event_parting m id e t ev : listed id ev = None → parting m id e t →
  parting (atomic secret m ev).1 id e t ∨ absent (atomic secret m ev).1 id ∧ mourned m id e ev.
Proof.
  destruct ev as [now unix data from|[now|now|now]]; intros Hl Hp; cbn [atomic background].
  - left. by apply (datagram_quiet (λ m, parting m id e t) m now unix data from id Hl); [intros; apply heartbeat_parting|].
  - left. unfold handle_sync. by destruct (PeerManager.trigger m).
  - unfold mourned. cbn [atomic background]. unfold handle_gone.
    destruct (PeerManager.gone m) as [|g gs] eqn:Hg; [by left|]. cbn [fst snd].
    destruct Hp as [Hs|[Ha Hin]]; [by left; left|]. rewrite Hg in Hin.
    apply elem_of_cons in Hin as [<-|Hin]; [right; split; [done|by exists now]|left; by right].
  - left. by apply sweep_parting.
Qed.
End relay.

(** ** Runs of the relay *)

Section runs.
Context {CA : CidrApi} {CL : CidrLaws} {U : UuidApi} {UL : UuidLaws} {PA : ProtoApi} {PRL : ProtoLaws}.
Context {J : JwtApi} {P B : Type}.
Context {PC : CacheApi P PeerId entry} {BC : CacheApi B (SocketAddr * NetworkId) PeerId} {ttl : Z}
  {PL : CacheLaws P PeerId entry ttl} {BL : CacheLaws B (SocketAddr * NetworkId) PeerId ttl}.
Context (secret : string).
Implicit Types (m : PeerManager P B) (id : PeerId) (e : entry) (ev : Event).
Local Notation run m evs := (RelayTasks.run (atomic secret) m evs).

(** The turn in which the tombstone of [id] is taken, among the turns [evs]. *)
Definition buried m id e (evs : list Event) : Prop :=
  ∃ pre ev post, evs = pre ++ ev :: post ∧ mourned secret (run m pre).1 id e ev.

Lemma silent_app id l k : silent secret id (l ++ k) ↔ silent secret id l ∧ silent secret id k.
Proof. unfold silent. setoid_rewrite elem_of_app. naive_solver. Qed.

Lemma buried_snoc m id e evs ev : buried m id e evs → buried m id e (evs ++ [ev]).
Proof.
  intros (pre & ev' & post & -> & Hm). exists pre, ev', (post ++ [ev]). split; [|done].
  by rewrite <-app_assoc.
Qed.

Lemma run_absent m id evs : silent secret id evs → absent m id → absent (run m evs).1 id.
Proof.
  induction evs as [|ev evs IH] using rev_ind; [done|]. intros [Hs Hev]%silent_app Ha. rewrite run_snoc. cbn [fst].
  apply event_absent; [apply Hev; by left|]. by apply IH.
Qed.

Lemma run_parting m id e t evs : silent secret id evs → parting m id e t →
  parting (run m evs).1 id e t ∨ absent (run m evs).1 id ∧ buried m id e evs.
Proof.
  induction evs as [|ev evs IH] using rev_ind; [by left|]. intros [Hs Hev]%silent_app Hp. rewrite run_snoc. cbn [fst].
  assert (listed secret id ev = None) as Hl by (apply Hev; by left).
  destruct (IH Hs Hp) as [Hpart|[Ha Hb]].
  - destruct (event_parting secret (run m evs).1 id e t ev Hl Hpart) as [?|[Ha Hmo]]; [by left|]. right.
    split; [done|]. by exists evs, ev, [].
  - right. split; [by apply event_absent|by apply buried_snoc].
Qed.

(** A sweep after its time removes the entry for good. *)
Lemma run_swept m id e t evs s : silent secret id evs → stored m id e t →
  Beside (SweepTurn s) ∈ evs → t + ttl ≤ s → absent (run m evs).1 id.
Proof.
  intros Hs Hst (pre & post & ->)%list_elem_of_split Ht. rewrite cons_middle, app_assoc in *.
  apply silent_app in Hs as [Hpre Hpost]. rewrite run_app. cbn [fst]. apply run_absent; [done|].
  apply silent_app in Hpre as [Hpre _]. rewrite run_snoc. cbn [fst atomic background].
  destruct (run_parting m id e t pre Hpre (or_introl Hst)) as [Hp|[Ha _]]; [by apply (sweep_parting _ s id e t)|].
  apply (event_absent secret _ id (Beside (SweepTurn s))); done.
Qed.

Lemma buried_sent m id e evs dg : buried m id e evs →
  ∃ pre now post, evs = pre ++ Beside (GoneTurn now) :: post ∧
    (dg ∈ gone_round (run m pre).1 now (grave id e) → dg ∈ (run m evs).2).
Proof.
  intros (pre & ev & post & -> & now & -> & Hm). exists pre, now, post. split; [done|]. intros Hin.
  rewrite cons_middle, app_assoc, run_app. cbn [snd]. apply elem_of_app. left.
  rewrite run_snoc. cbn [snd]. apply elem_of_app. right. by rewrite Hm.
Qed.

(** Turns of the task of tombstones empty its queue. *)
Lemma drained m evs now n : length (PeerManager.gone (run m evs).1) = n →
  PeerManager.gone (run m (evs ++ replicate n (Beside (GoneTurn now)))).1 = [].
Proof.
  revert evs. induction n as [|n IH]; intros evs Hl; [rewrite app_nil_r; by apply nil_length_inv|].
  cbn [replicate]. rewrite cons_middle, app_assoc. apply IH. rewrite run_snoc. cbn [fst atomic background].
  unfold handle_gone. destruct (PeerManager.gone (run m evs).1) as [|g gs]; [done|]. cbn in *. lia.
Qed.

(** The tombstone of a silent peer goes out to every member that is there when its
    turn comes. *)
Lemma silence_buries m id e t evs s now b addr_b p :
  let turns := evs ++ replicate (length (PeerManager.gone (run m evs).1)) (Beside (GoneTurn now)) in
  silent secret id evs → stored m id e t → Beside (SweepTurn s) ∈ evs → t + ttl ≤ s → b ≠ id →
  (∀ pre at_ post, turns = pre ++ Beside (GoneTurn at_) :: post →
     ∃ hb, PeerManager.get (run m pre).1 at_ b = Some (addr_b, hb, e_network e)) →
  p ∈ HostInfo.peers (e_info e) → PeerInfo.network_id p = e_network e →
  absent (run m turns).1 id ∧ send_sync_route b addr_b (tombstone_of (grave id e) p) ∈ (run m turns).2.
Proof.
  intros turns Hs Hst Hsw Ht Hne Hlive Hp Hn.
  assert (silent secret id turns) as Hst'.
  { apply silent_app. split; [done|]. by intros ev [-> _]%elem_of_replicate. }
  assert (Beside (SweepTurn s) ∈ turns) as Hsw' by (apply elem_of_app; by left).
  split; [by apply (run_swept m id e t turns s)|].
  assert (buried m id e turns) as Hb.
  { pose proof (run_swept m id e t turns s Hst' Hst Hsw' Ht) as Ha. unfold absent in Ha.
    destruct (run_parting m id e t turns Hst' (or_introl Hst)) as [[Hc|[_ Hg]]|[_ Hb]]; [| |done].
    - unfold stored in Hc. congruence.
    - unfold turns in Hg. rewrite (drained m evs now _ eq_refl) in Hg. by apply not_elem_of_nil in Hg. }
  apply (buried_sent _ _ _ _ (send_sync_route b addr_b (tombstone_of (grave id e) p))) in Hb
    as (pre & at_ & post & Heq & Hin). apply Hin, elem_gone.
  destruct (Hlive pre at_ post Heq) as [hb Hb]. by exists b, addr_b, hb, p.
Qed.
End runs.

(** ** A peer whose reports go on *)

Section lease.
Context {CA : CidrApi} {CL : CidrLaws} {U : UuidApi} {UL : UuidLaws} {PA : ProtoApi} {PRL : ProtoLaws}.
Context {J : JwtApi} {P B : Type}.
Context {PC : CacheApi P PeerId entry} {BC : CacheApi B (SocketAddr * NetworkId) PeerId} {ttl : Z}
  {PL : CacheLaws P PeerId entry ttl} {BL : CacheLaws B (SocketAddr * NetworkId) PeerId ttl}.
Context (secret : string).
Implicit Types (m : PeerManager P B) (id : PeerId) (e : entry) (ev : Event).
Local Notation run m evs := (RelayTasks.run (atomic secret) m evs).

(** The clock after [evs], and the time of the last report of [id]. *)
Definition clock : Z → list Event → Z := foldl (λ _ ev, event_time ev).
Definition reported_at id : Z → list Event → Z :=
  foldl (λ t ev, if listed secret id ev then event_time ev else t).

(** [id] reports again within every [ttl] and its version stays: at version [v], last
    reported at [t], the clock at [now]. *)
Fixpoint steady id v (t now : Z) (evs : list Event) : Prop :=
  match evs with
  | [] => True
  | ev :: evs =>
      now ≤ event_time ev ∧ event_time ev < t + ttl ∧
      (∀ h, listed secret id ev = Some h → HostInfo.resource_version h ≤ v) ∧
      steady id v (if listed secret id ev then event_time ev else t) (event_time ev) evs
  end.

(** What the table says of [id] from [now] to the end of its time. *)
Definition leased m id e (t now : Z) : Prop :=
  ∀ upto, now ≤ upto → upto < t + ttl → PeerManager.get m upto id = Some e.

(** Two tables between which no tombstone of [id] was queued. *)
Definition spared id m m' : Prop :=
  ∀ g, g ∈ PeerManager.gone m' → gone_peer_id g = id → g ∈ PeerManager.gone m.

Lemma live_not_dead m now id e g : PeerManager.get m now id = Some e → gone_peer_id g = id → ¬ dead (ttl := ttl) m now g.
Proof.
  intros (t & He & Ht)%(get_Some (ttl := ttl)) <- (a & u & Hu & Hle).
  assert (t = u) as -> by (pose proof (eq_trans (eq_sym He) Hu) as E; congruence). lia.
Qed.

Lemma heartbeat_leased m0 m id e t now id' info addr network : t ≤ now → now < t + ttl →
  (id' = id → HostInfo.resource_version info ≤ HostInfo.resource_version (e_info e)) →
  leased m id e t now ∧ spared id m0 m →
  let m' := PeerManager.heartbeat m now id' info addr network in leased m' id e t now ∧ spared id m0 m'.
Proof.
  intros Hle Hlt Hv [Hl Hsp] m'. assert (PeerManager.get m now id = Some e) as Hg by (by apply Hl). split.
  - intros upto Hn Hu. unfold m'. rewrite heartbeat_get by done. case_decide as Hid; [|by apply Hl]. subst id'.
    destruct (Z.ltb_spec upto (now + ttl)); [|lia]. f_equal. unfold beat_entry.
    by rewrite (proj2 (stale_Some m now id info e) (conj Hg (Hv eq_refl))).
  - intros g Hin Hid. unfold m' in Hin.
    destruct (heartbeat_gone m now id' info addr network) as (l & Heq & Hd & _). rewrite Heq in Hin.
    apply elem_of_app in Hin as [Hin|Hin]; [by apply Hsp|].
    exfalso. by apply (live_not_dead m now id e g Hg Hid), Hd.
Qed.

Lemma sweep_leased m id e t now : now < t + ttl → leased m id e t now →
  leased (PeerManager.sweep m now) id e t now ∧ spared id m (PeerManager.sweep m now).
Proof.
  intros Hlt Hl. split.
  - intros upto Hn Hu. rewrite <-(Hl upto Hn Hu). exact (get_sweep (PeerManager.peers m) now upto id Hn).
  - intros g Hin Hid. destruct (sweep_gone m now) as (l & Heq & Hd). rewrite Heq in Hin.
    apply elem_of_app in Hin as [Hin|Hin]; [done|]. exfalso.
    apply (live_not_dead m now id e g); [apply Hl; lia|done|by apply Hd].
Qed.

(** A report taken renews the lease. *)
Lemma listed_renews m id e now unix data from h : 0 < ttl → PeerManager.get m now id = Some e →
  listed secret id (Whole now unix data from) = Some h →
  HostInfo.resource_version h ≤ HostInfo.resource_version (e_info e) →
  leased (on_datagram m now unix secret data from).1 id e now now.
Proof.
  intros Httl Hg Hl Hv upto Hn Hu. unfold listed, admitted in Hl. unfold on_datagram.
  destruct (handle_udp_recv data from) as [[a p]|] eqn:Hr; [|done]. case_decide as Hp; [|done].
  destruct (handle_udp_recv_Ok _ _ _ _ Hr) as (-> & _); [congruence|].
  destruct (parse_report unix secret p) as [[h' network]|] eqn:Hpr; [|done]. cbn in Hl.
  destruct (decide (id ∈ reported network h')) as [Hid|]; [|done]. injection Hl as ->.
  unfold packet_recv. rewrite Hp. cbn [fst].
  rewrite (recv_report_get m now unix secret from p h network upto id Httl Hn Hpr), decide_True by done.
  destruct (Z.ltb_spec upto (now + ttl)); [|lia]. f_equal. unfold beat_entry.
  by rewrite (proj2 (stale_Some m now id h e) (conj Hg Hv)).
Qed.

Lemma event_leased m id e t now ev : 0 < ttl → t ≤ now → now ≤ event_time ev → event_time ev < t + ttl →
  (∀ h, listed secret id ev = Some h → HostInfo.resource_version h ≤ HostInfo.resource_version (e_info e)) →
  leased m id e t now →
  let m' := (atomic secret m ev).1 in
  leased m' id e (if listed secret id ev then event_time ev else t) (event_time ev) ∧ spared id m m'.
Proof.
  intros Httl Hle Hn Hlt Hv Hl m'. assert (leased m id e t (event_time ev)) as Hl'.
  { intros upto Hu. apply Hl. lia. }
  destruct ev as [at_ unix data from|[at_|at_|at_]]; unfold m'; cbn [atomic background event_time listed] in *.
  - assert (leased (on_datagram m at_ unix secret data from).1 id e t at_ ∧
      spared id m (on_datagram m at_ unix secret data from).1) as [Hkeep Hsp].
    { apply (datagram_ind secret (λ m', leased m' id e t at_ ∧ spared id m m')); [by split; [|intros g]|].
      intros m1 h network id' Hadm Hin. apply heartbeat_leased; [lia|done|]. intros ->. apply Hv.
      rewrite Hadm. cbn. by rewrite decide_True. }
    split; [|done]. destruct (admitted unix secret data from ≫= _) as [h|] eqn:Hlist; [|done].
    apply (listed_renews m id e at_ unix data from h); [done|apply Hl'; lia|done|by apply Hv].
  - unfold handle_sync. destruct (PeerManager.trigger m); (split; [done|by intros g]).
  - unfold handle_gone. destruct (PeerManager.gone m) as [|g gs] eqn:Hg; [split; [done|by intros g]|]. split; [done|].
    intros g' Hin _. rewrite Hg. by right.
  - by apply sweep_leased.
Qed.

Lemma run_steady m id e t now evs : 0 < ttl → t ≤ now → leased m id e t now →
  steady id (HostInfo.resource_version (e_info e)) t now evs →
  leased (run m evs).1 id e (reported_at id t evs) (clock now evs) ∧ spared id m (run m evs).1.
Proof.
  intros Httl. revert m t now. induction evs as [|ev evs IH]; intros m t now Hle Hl Hs; [by split; [|intros g]|].
  destruct Hs as (Hn & Hlt & Hv & Hs). destruct (event_leased m id e t now ev Httl Hle Hn Hlt Hv Hl) as [Hl1 Hsp].
  assert (run m (ev :: evs) = ((run (atomic secret m ev).1 evs).1,
    (atomic secret m ev).2 ++ (run (atomic secret m ev).1 evs).2)) as ->.
  { change (ev :: evs) with ([ev] ++ evs). rewrite run_app.
    assert (run m [ev] = atomic secret m ev) as ->; [|done].
    unfold RelayTasks.run. cbn [foldl]. by destruct (atomic secret m ev). }
  cbn [fst]. assert ((if listed secret id ev then event_time ev else t) ≤ event_time ev) as Hle'
    by (destruct (listed secret id ev); lia).
  destruct (IH (atomic secret m ev).1 _ (event_time ev) Hle' Hl1 Hs) as [Hl2 Hsp2].
  split; [exact Hl2|]. intros g Hin Hid. apply Hsp; [by apply Hsp2|done].
Qed.
End lease.

(** ** The member that hears of it *)

Section member.
Context {CA : CidrApi} {CL : CidrLaws} {U : UuidApi} {UL : UuidLaws} {PA : ProtoApi} {PRL : ProtoLaws}.
Context {KA : KeyApi} {TA : TunnApi} {IW : Ipv4Wire} {ST : StunApi}.
Context {S : Type} {TS : TunnelSession S} {SO : SessionOpen S}.
Implicit Types (d : NoeioDaemon S) (mm : Members) (q : PeerInfo).

Lemma withdrawn_members mm q ip i : PeerInfo.withdrawn q = true →
  announce mm q !! ip = Some i ↔ mm !! ip = Some i ∧ PeerInfo.peer_id i ≠ PeerInfo.peer_id q.
Proof. unfold announce. intros ->. by rewrite map_lookup_filter_Some. Qed.

(** The standby that offers a prefix takes over from a withdrawn exit. *)
Lemma withdrawn_exit mm q n x : PeerInfo.withdrawn q = true →
  exit_for (announce mm q) n x ↔
  offers mm n x ∧ x ≠ PeerInfo.peer_id q ∧ ∀ y, offers mm n y → y ≠ PeerInfo.peer_id q → x ≤ y.
Proof.
  intros Hw. assert (∀ y, offers (announce mm q) n y ↔ offers mm n y ∧ y ≠ PeerInfo.peer_id q) as Ho.
  { intros y. unfold offers. split.
    - intros (ip & i & c & [Hi Hne]%withdrawn_members & Hid & Hc & Hn); [|done]. rewrite <-Hid. split; [|done].
      by exists ip, i, c.
    - intros [(ip & i & c & Hi & Hid & Hc & Hn) Hne]. exists ip, i, c. split; [|done].
      apply withdrawn_members; [done|]. by rewrite Hid. }
  unfold exit_for. setoid_rewrite Ho. naive_solver.
Qed.

Lemma tombstone_wf g p : host_wf (gone_info g) → p ∈ HostInfo.peers (gone_info g) → peer_wf (tombstone_of g p).
Proof. intros Hh Hp. pose proof (host_peer_wf _ _ Hh Hp) as [_ Hw]. split; [apply Hh|exact Hw]. Qed.

(** What a daemon does with a tombstone from its relay. *)
Lemma withdrawal_heard send_ok fuel d mm now host target to q from r :
  simulates (NoeioDaemon.router d) mm → PeerInfo.withdrawn q = true → is_uint 32 target → peer_wf q →
  DerperManager.current (NoeioDaemon.derper d) = Some r → sock_ip (r_addr r) = sock_ip from →
  (length (send_sync_route target to q).2 < MAX_BUFFER_SIZE)%nat →
  ∃ d', NoeioDaemon.process_inbound send_ok fuel d now host (send_sync_route target to q).2 from =
          NoeioDaemon.Handled d' [] ∧
    simulates (NoeioDaemon.router d') (announce mm q) ∧
    (∀ ifs, NoeioDaemon.consumer_policy d' ifs = NoeioDaemon.consumer_policy d ifs) ∧
    ((∃ ip i, mm !! ip = Some i ∧ PeerInfo.peer_id i = PeerInfo.peer_id q) → NoeioDaemon.wake d' = true).
Proof.
  intros Hsim Hw Ht Hq Hr Hip Hl.
  eexists. split; [apply (sync_heard send_ok fuel d now host target to q from r); done|].
  pose proof (apply_sync_simulates d mm q target Hsim (or_introl Hw)) as Hsim'.
  pose proof (apply_withdrawn d q target (proj1 Hsim) Hw) as Happ.
  assert (∀ ifs, NoeioDaemon.consumer_policy (NoeioDaemon.apply_sync_route d q target).1 ifs =
    NoeioDaemon.consumer_policy d ifs) as Hpol.
  { intros ifs. unfold NoeioDaemon.apply_sync_route. rewrite Hw. by destruct (Router.remove_by_peer_id _ _). }
  destruct (NoeioDaemon.apply_sync_route d q target) as [d1 changed]. cbn [fst] in *.
  destruct Happ as (_ & _ & Hch). split; [by destruct changed|]. split; [by destruct changed|].
  intros (ip & i & Hi & Hid). assert (changed = true) as ->; [|done]. rewrite Hch. apply bool_decide_eq_true.
  unfold Router.get_by_peer_id.
  rewrite (proj2 (simulates_index _ mm (PeerInfo.peer_id q) ip Hsim) (ex_intro _ i (conj Hi Hid))). cbn.
  destruct Hsim as (_ & _ & Hat). rewrite <-Hat in Hi. apply bind_Some in Hi as (l & Hl' & _). by exists l.
Qed.
End member.

(** ** Properties *)

Section properties.
Context {CA : CidrApi} {CL : CidrLaws} {U : UuidApi} {UL : UuidLaws} {PA : ProtoApi} {PRL : ProtoLaws}.
Context {J : JwtApi} {P B : Type}.
Context {PC : CacheApi P PeerId entry} {BC : CacheApi B (SocketAddr * NetworkId) PeerId} {ttl : Z}
  {PL : CacheLaws P PeerId entry ttl} {BL : CacheLaws B (SocketAddr * NetworkId) PeerId ttl}.
Context {KA : KeyApi} {TA : TunnApi} {IW : Ipv4Wire} {ST : StunApi}.
Context {S : Type} {TS : TunnelSession S} {SO : SessionOpen S}.
Context {K : Type} {RH : RouteHandle K} {KL : KernelLaws}.
Implicit Types (m : PeerManager P B) (d : NoeioDaemon S) (mm : Members).

(** C7. A peer that dies is forgotten by everybody, its routes included. When the reports
    of [id] stop, then whatever else the relay handles, a sweep past the time to live
    removes its entry, and once the task of tombstones has had its turns a tombstone
    for it has been sent to every member [b] that was there. When [b] gets it from its
    relay, [b] drops exactly the members with that id and wakes its reconciler; after
    the next pass the kernel holds the routes of the remaining members and no other,
    and a prefix the dead peer was the exit of goes to the lowest remaining id that
    offers it, if there is one. *)
Theorem dead_peer_forgotten secret m id (e : entry) t (evs : list Event) s now b addr_b p :
  let turns := evs ++ replicate (length (PeerManager.gone (RelayTasks.run (atomic secret) m evs).1)) (Beside (GoneTurn now)) in
  let q := tombstone_of (grave id e) p in
  silent secret id evs → stored (ttl := ttl) m id e t → Beside (SweepTurn s) ∈ evs → t + ttl ≤ s → b ≠ id → is_uint 32 b →
  (∀ pre at_ post, turns = pre ++ Beside (GoneTurn at_) :: post →
     ∃ hb, PeerManager.get (RelayTasks.run (atomic secret) m pre).1 at_ b = Some (addr_b, hb, e_network e)) →
  host_wf (e_info e) → p ∈ HostInfo.peers (e_info e) → PeerInfo.network_id p = e_network e → PeerInfo.peer_id p = id →
  absent (ttl := ttl) (RelayTasks.run (atomic secret) m turns).1 id ∧
  send_sync_route b addr_b q ∈ (RelayTasks.run (atomic secret) m turns).2 ∧
  ∀ send_ok fuel d mm now_b host_b from r,
    simulates (NoeioDaemon.router d) mm → DerperManager.current (NoeioDaemon.derper d) = Some r →
    sock_ip (r_addr r) = sock_ip from → (length (send_sync_route b addr_b q).2 < MAX_BUFFER_SIZE)%nat →
    ∃ d' mm', NoeioDaemon.process_inbound send_ok fuel d now_b host_b (send_sync_route b addr_b q).2 from =
            NoeioDaemon.Handled d' [] ∧
      simulates (NoeioDaemon.router d') mm' ∧
      (∀ ip i, mm' !! ip = Some i ↔ mm !! ip = Some i ∧ PeerInfo.peer_id i ≠ id) ∧
      ((∃ ip i, mm !! ip = Some i ∧ PeerInfo.peer_id i = id) → NoeioDaemon.wake d' = true) ∧
      ∀ ifs rc k fs, ready d' ifs rc k →
        let '(d'', (_, k', _, _)) := NoeioDaemon.reconcile_routes d' ifs rc k fs in
        (∀ rt, managed ((NoeioDaemon.desired_routes_of d' ifs).2 ∪ Reconciler.installed rc) rt → rt ∈ NetRoute.table k' →
           ∃ key i, wanted_key d' mm' ifs key ∧ rt = route_of key i) ∧
        (∀ n x, uses (NoeioDaemon.consumer_policy d ifs) mm' n x ↔
           Routes.accept_routes (NoeioDaemon.consumer_policy d ifs) = true ∧
           prefix_admissible (NoeioDaemon.consumer_policy d ifs) n ∧
           offers mm n x ∧ x ≠ id ∧ ∀ y, offers mm n y → y ≠ id → x ≤ y) ∧
        (∀ n x, (n, x) ∈ Router.subnets (NoeioDaemon.router d'') ↔ uses (NoeioDaemon.consumer_policy d ifs) mm' n x).
Proof.
  intros turns q Hs Hst Hsw Ht Hne Hb Hlive Hwf Hp Hn Hid.
  destruct (silence_buries secret m id e t evs s now b addr_b p Hs Hst Hsw Ht Hne Hlive Hp Hn) as [Ha Hsent].
  split; [exact Ha|]. split; [exact Hsent|].
  intros send_ok fuel d mm now_b host_b from r Hsim Hr Hip Hlen.
  destruct (withdrawal_heard send_ok fuel d mm now_b host_b b addr_b q from r Hsim eq_refl Hb
    (tombstone_wf (grave id e) p Hwf Hp) Hr Hip Hlen) as (d' & Hd & Hsim' & Hpol & Hwake).
  exists d', (announce mm q). change (PeerInfo.peer_id q) with (PeerInfo.peer_id p) in Hwake. rewrite Hid in Hwake.
  split; [done|]. split; [done|]. split.
  { intros ip i. rewrite (withdrawn_members mm q ip i eq_refl). by rewrite <-Hid. }
  split; [done|]. intros ifs rc k fs Hready.
  pose proof (pass_wanted d' _ ifs rc k fs Hsim' Hready) as Hpass.
  destruct (NoeioDaemon.reconcile_routes d' ifs rc k fs) as [d'' [[[rc' k'] fs'] c]].
  destruct Hpass as (-> & _ & Hk). split; [|split].
  - intros rt Hm (key & i & Hw & _ & ->)%Hk; [|done]. by exists key, i.
  - intros n x. unfold uses. rewrite (withdrawn_exit mm q n x eq_refl). by rewrite <-Hid.
  - intros n x. rewrite (elem_refreshed d' _ ifs n x Hsim'). by rewrite Hpol.
Qed.

(** C13. A healthy peer that changes nothing is never taken for a dead one, although
    nobody hears anything about it. As long as it reports within every time to live,
    at the version it has, the relay keeps its entry as it is - address, host and
    network - and queues no tombstone for it, whatever else happens at the relay. And
    a daemon drops no member by itself: whatever its tasks do, without an announcement
    its members stay and, under the same policy, the subnets it uses - so nothing but
    a tombstone that arrives removes a dead peer. *)
Theorem steady_peer_stays secret m id (e : entry) t now (evs : list Event) :
  0 < ttl → t ≤ now →
  (∀ upto, now ≤ upto → upto < t + ttl → PeerManager.get m upto id = Some e) →
  steady (ttl := ttl) secret id (HostInfo.resource_version (e_info e)) t now evs →
  (∀ upto, clock now evs ≤ upto → upto < reported_at secret id t evs + ttl →
     PeerManager.get (RelayTasks.run (atomic secret) m evs).1 upto id = Some e) ∧
  (∀ g, g ∈ PeerManager.gone (RelayTasks.run (atomic secret) m evs).1 → gone_peer_id g = id →
     g ∈ PeerManager.gone m) ∧
  (∀ send_ok d d' mm ifs, simulates (NoeioDaemon.router d) mm → Membership.run send_ok d [] d' →
     simulates (NoeioDaemon.router d') mm ∧
     (NoeioDaemon.consumer_policy d' ifs = NoeioDaemon.consumer_policy d ifs →
        ∀ n x, (n, x) ∈ Router.subnets (NoeioDaemon.router (NoeioDaemon.refresh_subnets d' ifs)) ↔
               (n, x) ∈ Router.subnets (NoeioDaemon.router (NoeioDaemon.refresh_subnets d ifs)))).
Proof.
  intros Httl Hle Hl Hs. destruct (run_steady secret m id e t now evs Httl Hle Hl Hs) as [Hl' Hsp].
  split; [exact Hl'|]. split; [exact Hsp|]. intros send_ok d d' mm ifs Hsim Hrun.
  pose proof (run_simulates send_ok d [] d' mm Hrun Hsim I) as Hsim'. split; [exact Hsim'|].
  intros Hpol n x. rewrite (elem_refreshed d' mm ifs n x Hsim'), (elem_refreshed d mm ifs n x Hsim). by rewrite Hpol.
Qed.
End properties.

(** Peer 11, an exit, dies; peer 43, whose daemon knows 11 and the standby 13, hears of it. *)
Module Scenario.
Import PlainJwt RelayPeers.Example Relay.Scenario Daemon.Example SubnetRoute.Scenario.

Definition net_7 : NetworkId := replicate 16 Byte.x07.
Definition host_11 : HostInfo := HostInfo.MkHostInfo 1 addr_a Other "a" [] [offering 11 ip_11].
Definition entry_11 : entry := (addr_a, host_11, net_7).
Definition table_0 := PeerManager.heartbeat RelayPeers.Example.start 0 11 host_11 addr_a net_7.
Definition table_5 := PeerManager.heartbeat table_0 5 43 (RelayPeers.Example.info_at 1) addr_b net_7.
Definition late : Z := PeerManager.HEARTBEAT_TTL.
Definition sweep_late : list Event := [Beside (SweepTurn late)].
Definition turns : list Event := [Beside (SweepTurn late); Beside (GoneTurn late)].
Definition stone : PeerInfo := tombstone_of (grave 11 entry_11) (offering 11 ip_11).

Lemma offering_wf id ip : is_uint 32 id → is_uint 32 ip → peer_wf (offering id ip).
Proof. intros. split_and!; try done; constructor; [exact lan_network|constructor]. Qed.

Lemma host_11_wf : host_wf host_11.
Proof.
  split; [by apply uint_bool|]. split; [split; by apply uint_bool|]. split; [constructor|].
  apply Forall_singleton, offering_wf; by apply uint_bool.
Qed.

Lemma stone_wf : peer_wf stone.
Proof. apply tombstone_wf; [exact host_11_wf|by left]. Qed.

Lemma queue_late : length (PeerManager.gone (RelayTasks.run (atomic "k") table_5 sweep_late).1) = 1%nat.
Proof. vm_compute. reflexivity. Qed.

Lemma b_live pre at_ post : turns = pre ++ Beside (GoneTurn at_) :: post →
  ∃ hb, PeerManager.get (RelayTasks.run (atomic "k") table_5 pre).1 at_ 43 = Some (addr_b, hb, net_7).
Proof.
  destruct pre as [|ev [|ev' pre]]; cbn; intros [=]; [|by destruct pre]. subst.
  exists (RelayPeers.Example.info_at 1). reflexivity.
Qed.

(** Another peer, with its report. *)
Definition table_42 := PeerManager.heartbeat RelayPeers.Example.start 0 42 intruder_host addr_c net_2.
Definition again : Event := Whole 5 101 report_data addr_c.

Lemma listed_42 : listed "k" 42 again = Some intruder_host.
Proof.
  unfold listed, again, admitted. rewrite (handle_udp_recv_pass _ _ (Header Report 42 0) report_fits) by done.
  cbn [NoeioPacket.packet_type PacketHeader.packet_type]. rewrite decide_True by done.
  rewrite report_parses. cbn [mbind option_bind]. by rewrite decide_True by exact report_listed.
Qed.
End Scenario.
Import PlainJwt RelayPeers.Example Relay.Scenario Daemon.Example SubnetRoute.Scenario Scenario.

Lemma dead_peer_forgotten_witness :
  send_sync_route 43 addr_b stone ∈ (RelayTasks.run (atomic "k") table_5 turns).2 ∧
  ∃ d', NoeioDaemon.process_inbound always 1 both 7 "b" (send_sync_route 43 addr_b stone).2 (r_addr relay) =
          NoeioDaemon.Handled d' [] ∧ NoeioDaemon.wake d' = true ∧
    let '(d'', _) := NoeioDaemon.reconcile_routes d' [] (Reconciler.new None) (∅ : fib) (MkFs ∅ true) in
    (lan, 13) ∈ Router.subnets (NoeioDaemon.router d'').
Proof.
  pose proof (dead_peer_forgotten (ttl := PeerManager.HEARTBEAT_TTL) (K := fib) "k" table_5 11 entry_11 0 sweep_late
    late late 43 addr_b (offering 11 ip_11)) as H. cbv zeta in H. rewrite queue_late in H.
  destruct H as (_ & Hsent & Hd); [by intros ev ->%list_elem_of_singleton|reflexivity|by left|reflexivity|done|
    by apply uint_bool|exact b_live|exact host_11_wf|by left|reflexivity|reflexivity|].
  split; [exact Hsent|].
  destruct (Hd always 1%nat both members 7 "b"%string (r_addr relay) relay both_simulates eq_refl eq_refl)
    as (d' & mm' & Hin & Hsim & Hmm & Hw & Hpass); [apply Nat.ltb_lt; vm_compute; reflexivity|].
  exists d'. split; [exact Hin|]. split.
  - apply Hw. exists (IpV4 ip_11), (offering 11 ip_11). split; [|done]. apply members_lookup. by left.
  - rewrite (sync_heard always 1 both 7 "b" 43 addr_b stone (r_addr relay) relay) in Hin;
      [|by apply uint_bool|exact stone_wf|reflexivity|reflexivity|apply Nat.ltb_lt; vm_compute; reflexivity].
    pose proof (apply_sync_route_nics both stone 43) as Hn.
    destruct (NoeioDaemon.apply_sync_route both stone 43) as [d1 changed]. cbn [fst] in Hn.
    assert (NoeioDaemon.nics d' = NoeioDaemon.nics both) as Hn' by (destruct changed; by injection Hin as <-).
    specialize (Hpass [] (Reconciler.new None) (∅ : fib) (MkFs ∅ true)
      (ready_fresh d' mm' [] 12 _ None (∅ : fib) Hsim (eq_trans Hn' both_nics) eq_refl)).
    destruct (NoeioDaemon.reconcile_routes d' _ _ _ _) as [d'' [[[rc' k'] fs'] c]].
    destruct Hpass as (_ & Hu & Hs). apply Hs, Hu.
    split; [reflexivity|]. split; [exact both_admissible|]. split; [apply both_offer; by right|]. split; [done|].
    intros y [->| ->]%both_offer; [done|lia].
Defined.

(** Peer 42 reports again at 5 and is still there when its first report is too old. *)
Lemma steady_peer_stays_witness :
  PeerManager.get (RelayTasks.run (atomic "k") table_42 [again; Beside (SweepTurn 9)]).1 (late + 3) 42 =
    Some (addr_c, intruder_host, net_2).
Proof.
  apply (steady_peer_stays (ttl := PeerManager.HEARTBEAT_TTL) (S := UdpTunnelSession) "k" table_42 42
    (addr_c, intruder_host, net_2) 0 0).
  - reflexivity.
  - reflexivity.
  - intros upto Hn Hu. unfold table_42. rewrite heartbeat_get, decide_True by done.
    destruct (Z.ltb_spec upto (0 + PeerManager.HEARTBEAT_TTL)); [reflexivity|lia].
  - cbn [steady]. rewrite listed_42. split_and!; try done. by intros h [= <-].
  - unfold late, PeerManager.HEARTBEAT_TTL. cbn. lia.
  - unfold reported_at. cbn [foldl]. rewrite listed_42. unfold late. cbn. lia.
Defined.
