(* ===== verification/Delivery.v ===== *)
(** Packets from nic to nic: two daemons that have been introduced to each other, the
    relay between them, and the WireGuard sessions that [noeio/src/daemon.rs] drives.
    Hearing of each other introduces them ([hearing_introduces]), which is where
    [Discovery] ends.
    The sessions themselves are boringtun's: [TunnLaws] says what is relied on. *)

From Stdlib Require Import ZArith Lia.
From Stdlib Require Import Strings.Byte Strings.String.
From stdpp Require Import base list strings gmap fin_maps.
From S2P Require Import Prelude Text NetTypes CidrModel HostInfo Packet HostCodec CodecModel RoutingTable RelayPeers Token Relay Session Wireguard Peer DerperClient Daemon Network.

Local Open Scope Z_scope.

(** [NIC_MTU] of [interface/virtual_nic.rs]. *)
Definition NIC_MTU : nat := 1411.

(** ** What the sessions are relied on for *)

(** Two ends of a session that began with [mine] wanting to send, by what is on the
    wire between them. *)
Inductive Link : Type :=
  | Fresh
  | Offered (init pkt : list byte)
  | Answered (response pkt : list byte)
  | Confirmed (keepalive pkt : list byte)
  | Flushed (keepalive data pkt : list byte)
  | Due (data pkt : list byte)
  | Up.

(** An IPv4 packet as a nic hands it out: nothing beyond its total length. *)
Definition ip_whole (pkt : list byte) : bool :=
  (20 <=? length pkt)%nat && (be_val (take 1 pkt) / 16 =? 4) &&
  (be_val (take 2 (drop 2 pkt)) =? Z.of_nat (length pkt)).
Definition ip_source (pkt : list byte) : Z := be_val (take 4 (drop 12 pkt)).

(** The documented course of a session between two [Tunn]s that hold each other's keys,
    when nothing is lost and neither is rate limited: an initiation of 148 bytes, a
    response of 92, a keepalive of 32, and data of 32 more than the packet. What was
    queued meanwhile comes out of calls with an empty datagram. *)
Class TunnLaws {KA : KeyApi} {TA : TunnApi} : Type := {
  tunn_link : Link → Tunn → Tunn → Prop;
  link_new sa sb i j : tunn_link Fresh (tunn_new sa (public_from sb) i) (tunn_new sb (public_from sa) j);
  link_offer ta tb pkt : tunn_link Fresh ta tb → ip_whole pkt = true →
    ∃ ta' init, tunn_encapsulate ta pkt = (ta', WriteToNetwork init) ∧ length init = 148%nat ∧
      tunn_link (Offered init pkt) ta' tb;
  link_answer ta tb src init pkt : tunn_link (Offered init pkt) ta tb →
    ∃ tb' response, tunn_decapsulate tb src init = (tb', WriteToNetwork response) ∧
      length response = 92%nat ∧ tunn_link (Answered response pkt) ta tb';
  link_settle ta tb src response pkt : tunn_link (Answered response pkt) ta tb →
    ∃ tb', tunn_decapsulate tb src [] = (tb', Done) ∧ tunn_link (Answered response pkt) ta tb';
  link_confirm ta tb src response pkt : tunn_link (Answered response pkt) ta tb →
    ∃ ta' keepalive, tunn_decapsulate ta src response = (ta', WriteToNetwork keepalive) ∧
      length keepalive = 32%nat ∧ tunn_link (Confirmed keepalive pkt) ta' tb;
  link_flush ta tb src keepalive pkt : tunn_link (Confirmed keepalive pkt) ta tb →
    ∃ ta' data, tunn_decapsulate ta src [] = (ta', WriteToNetwork data) ∧
      length data = (length pkt + 32)%nat ∧ tunn_link (Flushed keepalive data pkt) ta' tb;
  link_flushed ta tb src keepalive data pkt : tunn_link (Flushed keepalive data pkt) ta tb →
    ∃ ta', tunn_decapsulate ta src [] = (ta', Done) ∧ tunn_link (Flushed keepalive data pkt) ta' tb;
  link_keepalive ta tb src keepalive data pkt : tunn_link (Flushed keepalive data pkt) ta tb →
    ∃ tb', tunn_decapsulate tb src keepalive = (tb', Done) ∧ tunn_link (Due data pkt) ta tb';
  link_send ta tb pkt : tunn_link Up ta tb → ip_whole pkt = true →
    ∃ ta' data, tunn_encapsulate ta pkt = (ta', WriteToNetwork data) ∧
      length data = (length pkt + 32)%nat ∧ tunn_link (Due data pkt) ta' tb;
  link_data ta tb src data pkt : tunn_link (Due data pkt) ta tb → ip_whole pkt = true →
    ∃ tb', tunn_decapsulate tb src data = (tb', WriteToTunnelV4 pkt (ip_source pkt)) ∧
      tunn_link Up ta tb';
  link_sym ta tb : tunn_link Up ta tb → tunn_link Up tb ta;
}.

(** ** The wire between two nodes and their relay *)

Section world.
Context {CA : CidrApi} {U : UuidApi} {PA : ProtoApi} {J : JwtApi} {P B : Type}.
Context {PC : CacheApi P PeerId entry} {BC : CacheApi B (SocketAddr * NetworkId) PeerId}.
Context {KA : KeyApi} {TA : TunnApi} {IW : Ipv4Wire} {ST : StunApi}.
Context {S : Type} {TS : TunnelSession S} {SO : SessionOpen S}.
(** Where the relay and the two nodes are reached; what the clocks show meanwhile; how
    many replies a codec may have queued. *)
Context (relay addr_a addr_b : SocketAddr) (now unix clock : Z) (secret host : string) (fuel : nat).
Context (send_ok : SocketAddr → list byte → bool).

Record World : Type := MkWorld {
  node_a : NoeioDaemon S;
  node_b : NoeioDaemon S;
  table : PeerManager P B;
}.

(** One datagram arrives: where it was sent from, where to, and its bytes. *)
Definition hop (w : World) (x : SocketAddr * SocketAddr * list byte) :
    option (World * list (SocketAddr * SocketAddr * list byte)) :=
  let '(from, to, bs) := x in
  if decide (to = relay) then
    let '(m, out) := on_datagram (table w) now unix secret bs from in
    Some (MkWorld (node_a w) (node_b w) m, sent_from relay out)
  else if decide (to = addr_a) then
    match NoeioDaemon.process_inbound send_ok fuel (node_a w) clock host bs from with
    | NoeioDaemon.Handled d out => Some (MkWorld d (node_b w) (table w), sent_from addr_a out)
    | _ => None
    end
  else if decide (to = addr_b) then
    match NoeioDaemon.process_inbound send_ok fuel (node_b w) clock host bs from with
    | NoeioDaemon.Handled d out => Some (MkWorld (node_a w) d (table w), sent_from addr_b out)
    | _ => None
    end
  else Some (w, []).

(** Until nothing is in flight, in at most so many hops. *)
Fixpoint settle (hops : nat) (w : World) (q : list (SocketAddr * SocketAddr * list byte)) : option World :=
  match q, hops with
  | [], _ => Some w
  | _, O => None
  | x :: q, Datatypes.S n => '(w, out) ← hop w x; settle n w (out ++ q)
  end.

(** A packet out of the first node's nic, and whatever comes of it. *)
Definition send (hops : nat) (w : World) (pkt : list byte) : option World :=
  let '(d, out) := NoeioDaemon.process_outbound send_ok (node_a w) pkt in
  settle hops (MkWorld d (node_b w) (table w)) (sent_from addr_a out).
Fixpoint send_all (hops : nat) (w : World) (pkts : list (list byte)) : option World :=
  match pkts with
  | [] => Some w
  | pkt :: pkts => w ← send hops w pkt; send_all hops w pkts
  end.

(** ** Two nodes that have been introduced *)

(** A daemon's entry for the other, whose codec is in the state [t]. *)
Definition with_tunnel (d : NoeioDaemon S) (l : Arc) (p : Peer.Peer S) (c : WireGuardTunnelSession)
    (t : Tunn) : NoeioDaemon S :=
  NoeioDaemon.set_peer d l (Peer.set_codec p (WireGuardTunnelSession.MkCodec
    (WireGuardTunnelSession.secret c) (WireGuardTunnelSession.peer_public c)
    (WireGuardTunnelSession.index c) t)).

(** [d] knows the other as [him] and itself as [me], with the codec it was given when
    they met. *)
Definition introduced (d : NoeioDaemon S) (l : Arc) (p : Peer.Peer S) (c : WireGuardTunnelSession)
    (me him : PeerId) (network : NetworkId) : Prop :=
  is_uint 32 me ∧
  Router.get_by_peer_id (NoeioDaemon.router d) him = Some l ∧ NoeioDaemon.peer_at d l = Some p ∧
  Peer.local_peer_id p = me ∧ PeerInfo.peer_id (Peer.info p) = him ∧
  PeerInfo.network_id (Peer.info p) = network ∧
  Peer.codec p = Some c ∧ Peer.build_codec (Peer.info p) me = Some c.

(** How its datagrams get to the other: on a direct path, or through the relay that
    has an entry for both. *)
Definition path (m : PeerManager P B) (d : NoeioDaemon S) (p : Peer.Peer S) (me him : PeerId)
    (here there : SocketAddr) : Prop :=
  Peer.address p = Some there ∨
  Peer.address p = None ∧
  (∃ r, DerperManager.current (NoeioDaemon.derper d) = Some r ∧ r_addr r = relay) ∧
  ∃ h network, PeerManager.get m now him = Some (there, h, network) ∧
    PeerManager.peer_id_by_addr m now here network = Some me.
End world.

(** ** Facts *)

Section daemon.
Context {CA : CidrApi} {U : UuidApi} {PA : ProtoApi} {KA : KeyApi} {TA : TunnApi} {IW : Ipv4Wire} {ST : StunApi}.
Context {S : Type} {TS : TunnelSession S} {SO : SessionOpen S}.
Context (send_ok : SocketAddr → list byte → bool).
Implicit Types (d : NoeioDaemon S) (p : Peer.Peer S) (c : WireGuardTunnelSession) (t : Tunn).

Definition delivery (id : PeerId) (bs : list byte) : list byte := PacketHeader.to_bytes (Header Delivery id 0) ++ bs.

Lemma peer_at_tunnel d l p c t :
  NoeioDaemon.peer_at (with_tunnel d l p c t) l = Some (Peer.set_codec p (WireGuardTunnelSession.MkCodec
    (WireGuardTunnelSession.secret c) (WireGuardTunnelSession.peer_public c) (WireGuardTunnelSession.index c) t)).
Proof. apply peer_at_set. Qed.

Lemma set_peer_twice d l p p' : NoeioDaemon.set_peer (NoeioDaemon.set_peer d l p) l p' = NoeioDaemon.set_peer d l p'.
Proof.
  unfold NoeioDaemon.set_peer, NoeioDaemon.set_router. cbn. by rewrite insert_insert_eq.
Qed.

Lemma tunnel_twice d l p c t p' : NoeioDaemon.set_peer (with_tunnel d l p c t) l p' = NoeioDaemon.set_peer d l p'.
Proof. apply set_peer_twice. Qed.

(** The entry as it is. *)
Lemma with_tunnel_id d l p c : NoeioDaemon.peer_at d l = Some p → Peer.codec p = Some c →
  with_tunnel d l p c (WireGuardTunnelSession.tunn c) = d.
Proof.
  intros Hp Hc. unfold with_tunnel.
  replace (Peer.set_codec p _) with p by (destruct p; cbn in *; rewrite Hc; by destruct c).
  unfold NoeioDaemon.set_peer, NoeioDaemon.set_router. unfold NoeioDaemon.peer_at in Hp.
  rewrite insert_id by done. by destruct d as [? ? ? []].
Qed.

Lemma outbound_tunnel d l p c t t' pkt dst data :
  ipv4_dst_addr pkt = Some dst → Router.lookup (NoeioDaemon.router d) (IpV4 dst) = Some l →
  tunn_encapsulate t pkt = (t', WriteToNetwork data) →
  NoeioDaemon.process_outbound send_ok (with_tunnel d l p c t) pkt =
    (with_tunnel d l p c t', (NoeioDaemon.send_to_peer send_ok d p data).1).
Proof.
  intros Hd Hl Ht. unfold NoeioDaemon.process_outbound. rewrite Hd.
  change (Router.lookup (NoeioDaemon.router (with_tunnel d l p c t)) (IpV4 dst))
    with (Router.lookup (NoeioDaemon.router d) (IpV4 dst)).
  rewrite Hl, peer_at_tunnel. cbn [mbind option_bind Peer.codec Peer.set_codec].
  unfold WireGuardTunnelSession.encapsulate. cbn [WireGuardTunnelSession.tunn]. rewrite Ht.
  cbn [WireGuardTunnelSession.with_tunn WireGuardTunnelSession.map_result fst snd].
  rewrite tunnel_twice. reflexivity.
Qed.

Lemma loop_step n d l p c t t' i input src r :
  tunn_decapsulate t (Some (sock_ip src)) input = (t', r) →
  NoeioDaemon.delivery_loop send_ok (Datatypes.S n) (with_tunnel d l p c t) l i input src =
    match WireGuardTunnelSession.map_result r with
    | ToNic plaintext inner_src =>
        if NoeioDaemon.blocked i inner_src
        then Some (NoeioDaemon.count_drop (with_tunnel d l p c t') (PeerInfo.peer_id i), [])
        else Some (NoeioDaemon.write_to_nic (with_tunnel d l p c t') (Peer.local_peer_id p) plaintext, [])
    | ToPeer reply =>
        let '(sent, ok) := NoeioDaemon.send_to_peer send_ok d p reply in
        if ok then '(d', more) ← NoeioDaemon.delivery_loop send_ok n (with_tunnel d l p c t') l i [] src;
          Some (d', sent ++ more)
        else Some (with_tunnel d l p c t', sent)
    | Consumed | OutErr _ => Some (with_tunnel d l p c t', [])
    end.
Proof.
  intros Ht. cbn [NoeioDaemon.delivery_loop]. rewrite peer_at_tunnel.
  cbn [mbind option_bind Peer.codec Peer.set_codec].
  unfold WireGuardTunnelSession.decapsulate. cbn [WireGuardTunnelSession.tunn]. rewrite Ht.
  cbn [WireGuardTunnelSession.with_tunn fst snd]. rewrite tunnel_twice. reflexivity.
Qed.

Lemma delivery_header id bs : is_uint 32 id → PacketHeader.from_bytes (delivery id bs) = Some (Header Delivery id 0).
Proof. intros Hid. apply header_from_to_bytes. split; [done|]. by split. Qed.

Lemma inbound_delivery fuel d l p c t him bs clock host from :
  is_uint 32 him → (length bs + 9 < MAX_BUFFER_SIZE)%nat →
  Router.get_by_peer_id (NoeioDaemon.router d) him = Some l →
  NoeioDaemon.process_inbound send_ok fuel (with_tunnel d l p c t) clock host (delivery him bs) from =
    match NoeioDaemon.delivery_loop send_ok fuel (with_tunnel d l p c t) l (Peer.info p) bs from with
    | Some (d', sent) => NoeioDaemon.Handled d' sent
    | None => NoeioDaemon.OutOfFuel
    end.
Proof.
  intros Hid Hlen Hl. pose proof (delivery_header him bs Hid) as Hh.
  rewrite (inbound_parsed _ _ _ _ _ _ _ (Header Delivery him 0)); [|unfold delivery|done].
  2:{ rewrite length_app, length_header_bytes. lia. }
  pose proof (parsed_payload _ _ _ (parsed_header _ _ Hh)) as Hpay.
  unfold NoeioDaemon.inbound_packet. rewrite Hpay. cbn [PacketHeader.packet_type PacketHeader.peer_id].
  change (drop 9 (delivery him bs)) with bs.
  change (Router.get_by_peer_id (NoeioDaemon.router (with_tunnel d l p c t)) him)
    with (Router.get_by_peer_id (NoeioDaemon.router d) him).
  rewrite Hl. unfold NoeioDaemon.handle_delivery. by rewrite peer_at_tunnel.
Qed.
End daemon.

(** ** The course of a session between them *)

Section course.
Context {CA : CidrApi} {U : UuidApi} {PA : ProtoApi} {J : JwtApi} {P B : Type}.
Context {PC : CacheApi P PeerId entry} {BC : CacheApi B (SocketAddr * NetworkId) PeerId}.
Context {KA : KeyApi} {TA : TunnApi} {TL : TunnLaws} {IW : Ipv4Wire} {ST : StunApi}.
Context {S : Type} {TS : TunnelSession S} {SO : SessionOpen S}.
Context (relay addr_a addr_b : SocketAddr) (now unix clock : Z) (secret host : string) (fuel : nat).
Context (send_ok : SocketAddr → list byte → bool) (Hsend : ∀ to bs, send_ok to bs = true).
Context (m : PeerManager P B) (a b : NoeioDaemon S) (la lb : Arc) (pa pb : Peer.Peer S).
Context (ca cb : WireGuardTunnelSession) (id_a id_b : PeerId) (network : NetworkId).
Context (Ha : introduced a la pa ca id_a id_b network) (Hb : introduced b lb pb cb id_b id_a network).
Context (Hab : path relay now m a pa id_a id_b addr_a addr_b) (Hba : path relay now m b pb id_b id_a addr_b addr_a).
Context (Hra : addr_a ≠ relay) (Hrb : addr_b ≠ relay) (Hne : addr_b ≠ addr_a).
Notation settle := (settle relay addr_a addr_b now unix clock secret host fuel send_ok).
Notation hop := (hop relay addr_a addr_b now unix clock secret host fuel send_ok).

(** The world with the two codecs in the states [ta] and [tb], and what the second nic
    has been given. *)
Definition written_to (d : NoeioDaemon S) (pkts : list (list byte)) : NoeioDaemon S :=
  foldl (λ d pkt, NoeioDaemon.write_to_nic d id_b pkt) d pkts.
Definition at_stage (pkts : list (list byte)) (ta tb : Tunn) : World :=
  MkWorld (with_tunnel a la pa ca ta) (with_tunnel (written_to b pkts) lb pb cb tb) m.

Lemma settle_more n k w q w' : settle n w q = Some w' → (n ≤ k)%nat → settle k w q = Some w'.
Proof.
  revert k w q. induction n as [|n IH]; intros k w q Hs Hk; destruct q as [|x q]; cbn in Hs |- *; try done;
    [by destruct k..|]. destruct k as [|k]; [lia|]. cbn.
  destruct (hop w x) as [[w1 out]|]; [|done]. cbn in Hs |- *. apply (IH k); [done|lia].
Qed.

Lemma written_snoc d pkts pkt : written_to d (pkts ++ [pkt]) = NoeioDaemon.write_to_nic (written_to d pkts) id_b pkt.
Proof. unfold written_to. by rewrite foldl_app. Qed.

Lemma written_router d pkts : NoeioDaemon.router (written_to d pkts) = NoeioDaemon.router d.
Proof. induction pkts as [|pkt pkts IH] using rev_ind; [done|]. by rewrite written_snoc. Qed.
Lemma written_derper d pkts : NoeioDaemon.derper (written_to d pkts) = NoeioDaemon.derper d.
Proof. induction pkts as [|pkt pkts IH] using rev_ind; [done|]. by rewrite written_snoc. Qed.

(** The relay passes a [Forward] on as a [Delivery] of the sender's. *)
Lemma relayed me him here there bs h nw :
  is_uint 32 him → (length bs + 9 < MAX_PACKET_LEN)%nat →
  PeerManager.get m now him = Some (there, h, nw) → PeerManager.peer_id_by_addr m now here nw = Some me →
  on_datagram m now unix secret (PacketHeader.to_bytes (Header Forward him 0) ++ bs) here = (m, [(there, delivery me bs)]).
Proof.
  intros Hid Hlen Hg Hs. unfold on_datagram.
  assert (PacketHeader.from_bytes (PacketHeader.to_bytes (Header Forward him 0) ++ bs) = Some (Header Forward him 0)) as Hh.
  { apply header_from_to_bytes. split; [done|]. by split. }
  rewrite (handle_udp_recv_pass _ _ (Header Forward him 0)); [|rewrite length_app, length_header_bytes; lia|done|done].
  unfold packet_recv, recv_forward. cbn [NoeioPacket.packet_type PacketHeader.packet_type].
  unfold NoeioPacket.parse_header. cbn [NoeioPacket.inner]. rewrite Hh. cbn [PacketHeader.peer_id PacketHeader.port].
  rewrite Hg, Hs, set_header_inner. reflexivity.
Qed.

(** What one sends to the other arrives as a [Delivery], within two hops. *)
Lemma carried d l p c me him nw here there :
  introduced d l p c me him nw → is_uint 32 him → path relay now m d p me him here there → ∀ bs,
  (length bs + 9 < MAX_PACKET_LEN)%nat →
  (NoeioDaemon.send_to_peer send_ok d p bs).2 = true ∧
  ∃ k from, (k ≤ 1)%nat ∧ ∀ n w q, table w = m →
    settle (k + n) w (sent_from here (NoeioDaemon.send_to_peer send_ok d p bs).1 ++ q) =
    settle n w ((from, there, delivery me bs) :: q).
Proof.
  intros (Hme & _ & _ & Hl & Hp & _) Hhim Hpath bs Hlen.
  unfold NoeioDaemon.send_to_peer, NoeioDaemon.send_to.
  destruct Hpath as [->|(-> & (r & -> & Hr) & h & network' & Hg & Hs)]; rewrite Hsend; (split; [done|]).
  - exists 0%nat, here. split; [lia|]. intros n w q _. by rewrite Hl.
  - exists 1%nat, relay. split; [lia|]. intros n w q Hw. rewrite Hp, Hr.
    cbn [fst sent_from map app Nat.add]. cbn [Delivery.settle]. unfold Delivery.hop.
    rewrite decide_True by done. change (NoeioPacket.inner (NoeioPacket.new ?h bs)) with (PacketHeader.to_bytes h ++ bs).
    rewrite Hw, (relayed me him here there bs h network') by done. rewrite <-Hw. by destruct w.
Qed.

Lemma heard_a n pkts ta tb from bs q : (length bs + 9 < MAX_BUFFER_SIZE)%nat →
  settle (Datatypes.S n) (at_stage pkts ta tb) ((from, addr_a, delivery id_b bs) :: q) =
    '(d, out) ← NoeioDaemon.delivery_loop send_ok fuel (with_tunnel a la pa ca ta) la (Peer.info pa) bs from;
    settle n (MkWorld d (with_tunnel (written_to b pkts) lb pb cb tb) m) (sent_from addr_a out ++ q).
Proof.
  intros Hlen. cbn [Delivery.settle]. unfold Delivery.hop. rewrite decide_False, decide_True by done.
  cbn [node_a at_stage]. destruct Ha as (_ & Hl & _), Hb as (Hid & _).
  rewrite (inbound_delivery _ _ _ _ _ _ _ _ _ _ _ _ Hid Hlen Hl).
  by destruct (NoeioDaemon.delivery_loop _ _ _ _ _ _ _) as [[d out]|].
Qed.

Lemma heard_b n pkts ta tb from bs q : (length bs + 9 < MAX_BUFFER_SIZE)%nat →
  settle (Datatypes.S n) (at_stage pkts ta tb) ((from, addr_b, delivery id_a bs) :: q) =
    '(d, out) ← NoeioDaemon.delivery_loop send_ok fuel (with_tunnel (written_to b pkts) lb pb cb tb) lb (Peer.info pb) bs from;
    settle n (MkWorld (with_tunnel a la pa ca ta) d m) (sent_from addr_b out ++ q).
Proof.
  intros Hlen. cbn [Delivery.settle]. unfold Delivery.hop. rewrite decide_False, decide_False, decide_True by done.
  cbn [node_b at_stage]. destruct Hb as (_ & Hl & _), Ha as (Hid & _).
  rewrite <-(written_router b pkts) in Hl.
  rewrite (inbound_delivery _ _ _ _ _ _ _ _ _ _ _ _ Hid Hlen Hl).
  by destruct (NoeioDaemon.delivery_loop _ _ _ _ _ _ _) as [[d out]|].
Qed.

Lemma send_b_written pkts bs :
  NoeioDaemon.send_to_peer send_ok (written_to b pkts) pb bs = NoeioDaemon.send_to_peer send_ok b pb bs.
Proof. unfold NoeioDaemon.send_to_peer. by rewrite written_derper. Qed.

(** A data packet that is due reaches the nic of the second node. *)
Lemma data_arrives pkts ta tb from data pkt : (1 ≤ fuel)%nat →
  tunn_link (Due data pkt) ta tb → ip_whole pkt = true → (length data + 9 < MAX_BUFFER_SIZE)%nat →
  Router.allowed_source (Peer.info pb) (IpV4 (ip_source pkt)) = true →
  ∃ tb', tunn_link Up ta tb' ∧
    ∀ n q, settle (Datatypes.S n) (at_stage pkts ta tb) ((from, addr_b, delivery id_a data) :: q) =
    settle n (at_stage (pkts ++ [pkt]) ta tb') q.
Proof.
  intros Hf Hl Hw Hlen Hsrc. destruct (link_data _ _ (Some (sock_ip from)) _ _ Hl Hw) as (tb' & Ht & Hl').
  exists tb'. split; [done|]. intros n q. rewrite heard_b by done. destruct fuel as [|f]; [lia|].
  rewrite (loop_step _ _ _ _ _ _ _ _ _ _ _ _ Ht). cbn [WireGuardTunnelSession.map_result].
  unfold NoeioDaemon.blocked. rewrite Hsrc. cbn [negb mbind option_bind sent_from map app].
  unfold at_stage. rewrite written_snoc. destruct Hb as (_ & _ & _ & -> & _). reflexivity.
Qed.

(** A packet sent over an established session. *)
Lemma established_packet n pkts ta tb pkt dst : (1 ≤ fuel)%nat → (2 ≤ n)%nat →
  tunn_link Up ta tb → ip_whole pkt = true → (length pkt ≤ NIC_MTU)%nat →
  ipv4_dst_addr pkt = Some dst → Router.lookup (NoeioDaemon.router a) (IpV4 dst) = Some la →
  Router.allowed_source (Peer.info pb) (IpV4 (ip_source pkt)) = true →
  ∃ ta' tb', tunn_link Up ta' tb' ∧
    send relay addr_a addr_b now unix clock secret host fuel send_ok n (at_stage pkts ta tb) pkt =
      Some (at_stage (pkts ++ [pkt]) ta' tb').
Proof.
  intros Hf Hn Hl Hw Hmtu Hd Hla Hsrc. destruct (link_send _ _ _ Hl Hw) as (ta' & data & Ht & Hlen & Hdue).
  assert (length data + 9 < MAX_PACKET_LEN)%nat as Hfit by (unfold NIC_MTU, MAX_PACKET_LEN in *; lia).
  destruct (carried _ _ _ _ _ _ _ _ _ Ha (proj1 Hb) Hab data Hfit) as (_ & k & from & Hk & Hc).
  destruct (data_arrives pkts ta' tb from data pkt Hf Hdue Hw Hfit Hsrc) as (tb' & Hup & Hs).
  exists ta', tb'. split; [done|]. unfold send. cbn [node_a at_stage].
  rewrite (outbound_tunnel _ _ _ _ _ _ _ _ _ _ Hd Hla Ht).
  change (MkWorld (with_tunnel a la pa ca ta') (node_b (at_stage pkts ta tb)) (table (at_stage pkts ta tb)))
    with (at_stage pkts ta' tb).
  replace n with (k + Datatypes.S (n - k - 1))%nat by lia.
  rewrite <-(app_nil_r (sent_from _ _)), Hc, Hs by done. by destruct (n - k - 1)%nat.
Qed.

Lemma replies d l p c t t' i src input r n :
  (NoeioDaemon.send_to_peer send_ok d p r).2 = true →
  tunn_decapsulate t (Some (sock_ip src)) input = (t', WriteToNetwork r) →
  NoeioDaemon.delivery_loop send_ok (Datatypes.S n) (with_tunnel d l p c t) l i input src =
    '(d', more) ← NoeioDaemon.delivery_loop send_ok n (with_tunnel d l p c t') l i [] src;
    Some (d', (NoeioDaemon.send_to_peer send_ok d p r).1 ++ more).
Proof.
  intros Hok Ht. rewrite (loop_step _ _ _ _ _ _ _ _ _ _ _ _ Ht). cbn [WireGuardTunnelSession.map_result].
  by destruct (NoeioDaemon.send_to_peer send_ok d p r) as [sent []].
Qed.

Lemma quiet d l p c t t' i src input n :
  tunn_decapsulate t (Some (sock_ip src)) input = (t', Done) →
  NoeioDaemon.delivery_loop send_ok (Datatypes.S n) (with_tunnel d l p c t) l i input src =
    Some (with_tunnel d l p c t', []).
Proof. intros Ht. by rewrite (loop_step _ _ _ _ _ _ _ _ _ _ _ _ Ht). Qed.

Lemma sent_from_app x (o1 o2 : list (SocketAddr * list byte)) : sent_from x (o1 ++ o2) = sent_from x o1 ++ sent_from x o2.
Proof. apply map_app. Qed.

(** The initiation is answered, the answer is confirmed and the packet that waited
    follows, and the confirmation ends the handshake. *)
Lemma b_answers pkts ta tb from init pkt : (2 ≤ fuel)%nat → length init = 148%nat →
  tunn_link (Offered init pkt) ta tb →
  ∃ tb' response, length response = 92%nat ∧ tunn_link (Answered response pkt) ta tb' ∧
    ∀ n q, settle (Datatypes.S n) (at_stage pkts ta tb) ((from, addr_b, delivery id_a init) :: q) =
    settle n (at_stage pkts ta tb') (sent_from addr_b (NoeioDaemon.send_to_peer send_ok b pb response).1 ++ q).
Proof.
  intros Hf Hlen Hl. destruct (link_answer _ _ (Some (sock_ip from)) _ _ Hl) as (tb1 & response & Ht1 & Hr & Hl1).
  destruct (link_settle _ _ (Some (sock_ip from)) _ _ Hl1) as (tb' & Ht2 & Hl').
  exists tb', response. split; [done|]. split; [done|]. intros n q. rewrite heard_b by (unfold MAX_BUFFER_SIZE; lia).
  destruct fuel as [|[|f]]; [lia..|].
  destruct (carried _ _ _ _ _ _ _ _ _ Hb (proj1 Ha) Hba response) as [Hok _]; [unfold MAX_PACKET_LEN; lia|].
  rewrite <-(send_b_written pkts) in Hok.
  rewrite (replies _ _ _ _ _ _ _ _ _ _ _ Hok Ht1), (quiet _ _ _ _ _ _ _ _ _ _ Ht2).
  cbn [mbind option_bind]. by rewrite app_nil_r, send_b_written.
Qed.

Lemma a_confirms pkts ta tb from response pkt : (3 ≤ fuel)%nat → length response = 92%nat →
  (length pkt ≤ NIC_MTU)%nat → tunn_link (Answered response pkt) ta tb →
  ∃ ta' keepalive data, length keepalive = 32%nat ∧ length data = (length pkt + 32)%nat ∧
    tunn_link (Flushed keepalive data pkt) ta' tb ∧
    ∀ n q, settle (Datatypes.S n) (at_stage pkts ta tb) ((from, addr_a, delivery id_b response) :: q) =
    settle n (at_stage pkts ta' tb) (sent_from addr_a (NoeioDaemon.send_to_peer send_ok a pa keepalive).1 ++
      (sent_from addr_a (NoeioDaemon.send_to_peer send_ok a pa data).1 ++ q)).
Proof.
  intros Hf Hlen Hmtu Hl. set (src := Some (sock_ip from)).
  destruct (link_confirm _ _ src _ _ Hl) as (t1 & keepalive & Ht1 & Hk & Hl1).
  destruct (link_flush _ _ src _ _ Hl1) as (t2 & data & Ht2 & Hd & Hl2).
  destruct (link_flushed _ _ src _ _ _ Hl2) as (ta' & Ht3 & Hl3).
  exists ta', keepalive, data. split; [done|]. split; [done|]. split; [done|].
  intros n q. rewrite heard_a by (unfold MAX_BUFFER_SIZE; lia). destruct fuel as [|[|[|f]]]; [lia..|].
  destruct (carried _ _ _ _ _ _ _ _ _ Ha (proj1 Hb) Hab keepalive) as [Hok1 _]; [unfold MAX_PACKET_LEN; lia|].
  destruct (carried _ _ _ _ _ _ _ _ _ Ha (proj1 Hb) Hab data) as [Hok2 _];
    [unfold MAX_PACKET_LEN, NIC_MTU in *; lia|].
  rewrite (replies _ _ _ _ _ _ _ _ _ _ _ Hok1 Ht1), (replies _ _ _ _ _ _ _ _ _ _ _ Hok2 Ht2),
    (quiet _ _ _ _ _ _ _ _ _ _ Ht3).
  cbn [mbind option_bind]. by rewrite app_nil_r, sent_from_app, <-app_assoc.
Qed.

Lemma b_hears_keepalive pkts ta tb from keepalive data pkt : (1 ≤ fuel)%nat → length keepalive = 32%nat →
  tunn_link (Flushed keepalive data pkt) ta tb →
  ∃ tb', tunn_link (Due data pkt) ta tb' ∧
    ∀ n q, settle (Datatypes.S n) (at_stage pkts ta tb) ((from, addr_b, delivery id_a keepalive) :: q) =
    settle n (at_stage pkts ta tb') q.
Proof.
  intros Hf Hlen Hl. destruct (link_keepalive _ _ (Some (sock_ip from)) _ _ _ Hl) as (tb' & Ht & Hl').
  exists tb'. split; [done|]. intros n q. rewrite heard_b by (unfold MAX_BUFFER_SIZE; lia). destruct fuel as [|f]; [lia|].
  by rewrite (quiet _ _ _ _ _ _ _ _ _ _ Ht).
Qed.

(** A packet sent before there is a session. *)
Lemma first_packet n pkts ta tb pkt dst : (3 ≤ fuel)%nat → (8 ≤ n)%nat →
  tunn_link Fresh ta tb → ip_whole pkt = true → (length pkt ≤ NIC_MTU)%nat →
  ipv4_dst_addr pkt = Some dst → Router.lookup (NoeioDaemon.router a) (IpV4 dst) = Some la →
  Router.allowed_source (Peer.info pb) (IpV4 (ip_source pkt)) = true →
  ∃ ta' tb', tunn_link Up ta' tb' ∧
    send relay addr_a addr_b now unix clock secret host fuel send_ok n (at_stage pkts ta tb) pkt =
      Some (at_stage (pkts ++ [pkt]) ta' tb').
Proof.
  intros Hf Hn Hl Hw Hmtu Hd Hla Hsrc. destruct (link_offer _ _ _ Hl Hw) as (t1 & init & Ht & Hi & Hl1).
  destruct (carried _ _ _ _ _ _ _ _ _ Ha (proj1 Hb) Hab init) as (_ & k1 & f1 & Hk1 & Hc1); [unfold MAX_PACKET_LEN; lia|].
  destruct (b_answers pkts t1 tb f1 init pkt) as (tb1 & response & Hr & Hl2 & Hs1); [lia|done|done|].
  destruct (carried _ _ _ _ _ _ _ _ _ Hb (proj1 Ha) Hba response) as (_ & k2 & f2 & Hk2 & Hc2); [unfold MAX_PACKET_LEN; lia|].
  destruct (a_confirms pkts t1 tb1 f2 response pkt) as (ta' & keepalive & data & Hka & Hda & Hl3 & Hs2);
    [lia|done|done|done|].
  destruct (carried _ _ _ _ _ _ _ _ _ Ha (proj1 Hb) Hab keepalive) as (_ & k3 & f3 & Hk3 & Hc3); [unfold MAX_PACKET_LEN; lia|].
  destruct (b_hears_keepalive pkts ta' tb1 f3 keepalive data pkt) as (tb2 & Hl4 & Hs3); [lia|done|done|].
  assert (length data + 9 < MAX_PACKET_LEN)%nat as Hfit by (unfold MAX_PACKET_LEN, NIC_MTU in *; lia).
  destruct (carried _ _ _ _ _ _ _ _ _ Ha (proj1 Hb) Hab data Hfit) as (_ & k4 & f4 & Hk4 & Hc4).
  destruct (data_arrives pkts ta' tb2 f4 data pkt) as (tb' & Hup & Hs4); [lia|done|done|done|done|].
  exists ta', tb'. split; [done|]. unfold send. cbn [node_a at_stage].
  rewrite (outbound_tunnel _ _ _ _ _ _ _ _ _ _ Hd Hla Ht).
  change (MkWorld (with_tunnel a la pa ca t1) (node_b (at_stage pkts ta tb)) (table (at_stage pkts ta tb)))
    with (at_stage pkts t1 tb).
  apply settle_more with (n := (k1 + Datatypes.S (k2 + Datatypes.S (k3 + Datatypes.S (k4 + Datatypes.S O))))%nat); [|lia].
  rewrite <-(app_nil_r (sent_from _ _)), Hc1, Hs1, Hc2, Hs2, Hc3, Hs3, Hc4, Hs4 by done. done.
Qed.

(** A packet the first node has a route for, that the second takes from the first. *)
Definition routed_packet (pkt : list byte) : Prop :=
  ip_whole pkt = true ∧ (length pkt ≤ NIC_MTU)%nat ∧
  (∃ dst, ipv4_dst_addr pkt = Some dst ∧ Router.lookup (NoeioDaemon.router a) (IpV4 dst) = Some la) ∧
  Router.allowed_source (Peer.info pb) (IpV4 (ip_source pkt)) = true.

Lemma later_packets n pkts ta tb sofar : (1 ≤ fuel)%nat → (2 ≤ n)%nat → Forall routed_packet pkts →
  tunn_link Up ta tb → ∃ ta' tb', tunn_link Up ta' tb' ∧
    send_all relay addr_a addr_b now unix clock secret host fuel send_ok n (at_stage sofar ta tb) pkts =
      Some (at_stage (sofar ++ pkts) ta' tb').
Proof.
  intros Hf Hn. revert ta tb sofar. induction pkts as [|pkt pkts IH]; intros ta tb sofar Hp Hup;
    [rewrite app_nil_r; eauto|].
  apply Forall_cons in Hp as [(Hw & Hmtu & (dst & Hd & Hla) & Hsrc) Hp].
  destruct (established_packet n sofar ta tb pkt dst) as (ta1 & tb1 & Hup1 & Hs); [done..|].
  cbn [send_all]. rewrite Hs. destruct (IH ta1 tb1 (sofar ++ [pkt]) Hp Hup1) as (ta' & tb' & Hup' & Hs').
  exists ta', tb'. split; [done|]. cbn [mbind option_bind]. rewrite Hs', <-app_assoc. done.
Qed.

Lemma all_packets n pkts ta tb : (3 ≤ fuel)%nat → (8 ≤ n)%nat → Forall routed_packet pkts →
  tunn_link Fresh ta tb → ∃ ta' tb', (pkts ≠ [] → tunn_link Up ta' tb' ∧ tunn_link Up tb' ta') ∧
    send_all relay addr_a addr_b now unix clock secret host fuel send_ok n (at_stage [] ta tb) pkts =
      Some (at_stage pkts ta' tb').
Proof.
  intros Hf Hn Hp Hl. destruct pkts as [|pkt pkts]; [by exists ta, tb|].
  apply Forall_cons in Hp as [(Hw & Hmtu & (dst & Hd & Hla) & Hsrc) Hp].
  destruct (first_packet n [] ta tb pkt dst) as (ta1 & tb1 & Hup1 & Hs); [done..|].
  destruct (later_packets n pkts ta1 tb1 [pkt]) as (ta' & tb' & Hup' & Hs'); [lia|lia|done|done|].
  exists ta', tb'. split; [intros _; split; [done|by apply link_sym]|].
  cbn [send_all]. rewrite Hs. exact Hs'.
Qed.
End course.

(** ** Property *)

Section property.
Context {CA : CidrApi} {U : UuidApi} {PA : ProtoApi} {J : JwtApi} {P B : Type}.
Context {PC : CacheApi P PeerId entry} {BC : CacheApi B (SocketAddr * NetworkId) PeerId}.
Context {KA : KeyApi} {TA : TunnApi} {TL : TunnLaws} {IW : Ipv4Wire} {ST : StunApi}.
Context {S : Type} {TS : TunnelSession S} {SO : SessionOpen S}.

Lemma introduced_fresh (a b : NoeioDaemon S) la lb pa pb ca cb id_a id_b network :
  introduced a la pa ca id_a id_b network → introduced b lb pb cb id_b id_a network →
  tunn_link Fresh (WireGuardTunnelSession.tunn ca) (WireGuardTunnelSession.tunn cb).
Proof.
  intros (_ & _ & _ & _ & Hia & Hna & _ & Hca) (_ & _ & _ & _ & Hib & Hnb & _ & Hcb).
  unfold Peer.build_codec in Hca, Hcb. rewrite Hia, Hna in Hca. rewrite Hib, Hnb in Hcb.
  destruct (derive_interoperate id_a id_b network) as (sa & sb & Ea & Eb). rewrite Ea in Hca. rewrite Eb in Hcb.
  injection Hca as <-. injection Hcb as <-. apply link_new.
Qed.

Lemma insert_new_id (r : Router.Router (P := Peer.Peer S)) p :
  Router.get_by_peer_id (Router.insert_new r p) (PeerInfo.peer_id (Peer.info p)) = Some (Router.alloc r p).2 ∧
  Router.heap (Router.insert_new r p) !! (Router.alloc r p).2 = Some p.
Proof.
  unfold Router.insert_new. pose proof (alloc_info r p (Router.alloc r p).2) as Hi.
  assert (Router.heap (Router.alloc r p).1 !! (Router.alloc r p).2 = Some p) as Hh by apply lookup_insert_eq.
  destruct (Router.alloc r p) as [r' l]. cbn [fst snd] in *. rewrite decide_True in Hi by done.
  unfold Router.insert. rewrite Hi. unfold Router.get_by_peer_id, Router.get. cbn [Router.by_peer_id Router.peers Router.heap].
  rewrite lookup_insert_eq. cbn [mbind option_bind]. by rewrite lookup_insert_eq.
Qed.

(** Hearing of a stranger introduces it: the daemon then knows it, under the id the
    announcement was addressed to, with the codec for the pair. *)
Lemma hearing_introduces (d : NoeioDaemon S) q me :
  is_uint 32 me → PeerInfo.withdrawn q = false → Router.get (NoeioDaemon.router d) (PeerInfo.noeio_ip q) = None →
  let d' := (NoeioDaemon.apply_sync_route d q me).1 in
  ∃ l c, introduced d' l (Peer.new q me) c me (PeerInfo.peer_id q) (PeerInfo.network_id q) ∧
    Router.lookup (NoeioDaemon.router d') (PeerInfo.noeio_ip q) = Some l ∧ Peer.address (Peer.new (S := S) q me) = None.
Proof.
  intros Hme Hw Hnone. unfold NoeioDaemon.apply_sync_route. rewrite Hw, Hnone. cbv zeta. cbn [fst].
  destruct (insert_new_id (NoeioDaemon.router d) (Peer.new q me)) as [Hid Hheap].
  destruct (build_codec_keys q me) as (c & Hc & _). exists (Router.alloc (NoeioDaemon.router d) (Peer.new q me)).2, c.
  split; [split_and!; try done|split; [|done]].
  unfold Router.lookup, Router.get. cbn [NoeioDaemon.router NoeioDaemon.set_router].
  by rewrite insert_new_lookup, decide_True.
Qed.

Lemma written_nic id (d : NoeioDaemon S) pkts nic : NicManager.get (NoeioDaemon.nics d) id = Some nic →
  NicManager.get (NoeioDaemon.nics (written_to id d pkts)) id =
    Some (MkNic (nic_ip nic) (tun_name nic) (tun_index nic) (written nic ++ pkts)).
Proof.
  intros Hn. induction pkts as [|pkt pkts IH] using rev_ind; [rewrite app_nil_r; by destruct nic|].
  rewrite written_snoc. unfold NoeioDaemon.write_to_nic, NicManager.get. cbn [NoeioDaemon.nics NoeioDaemon.set_nics].
  rewrite lookup_write, decide_True by done. unfold NicManager.get in IH. rewrite IH. cbn. by rewrite app_assoc.
Qed.

(** C3. Packets get through. Two daemons know each other, each under the id the other
    goes by, and have exchanged nothing yet; what either sends goes to the other on a
    direct path or through the relay, which has an entry for both. Then any packets the
    first reads from its nic for addresses it reaches through the second - whole, within
    the nic's MTU, from sources the second accepts of it - all end up on the second's
    nic, unchanged and in order: the first one sets off the handshake, waits inside
    the codec and follows it, and nothing is in flight any more after eight hops for
    each. Nothing but the two codecs has changed, and the session is up both ways. *)
Theorem packets_delivered (relay addr_a addr_b : SocketAddr) (now unix clock : Z) (secret host : string)
    (fuel hops : nat) (send_ok : SocketAddr → list byte → bool) (m : PeerManager P B)
    (a b : NoeioDaemon S) la lb pa pb ca cb id_a id_b network nic pkts :
  (∀ to bs, send_ok to bs = true) → (3 ≤ fuel)%nat → (8 ≤ hops)%nat →
  addr_a ≠ relay → addr_b ≠ relay → addr_b ≠ addr_a →
  introduced a la pa ca id_a id_b network → introduced b lb pb cb id_b id_a network →
  path relay now m a pa id_a id_b addr_a addr_b → path relay now m b pb id_b id_a addr_b addr_a →
  NicManager.get (NoeioDaemon.nics b) id_b = Some nic →
  Forall (routed_packet a la pb) pkts →
  ∃ w, send_all relay addr_a addr_b now unix clock secret host fuel send_ok hops (MkWorld a b m) pkts = Some w ∧
    NicManager.get (NoeioDaemon.nics (node_b w)) id_b =
      Some (MkNic (nic_ip nic) (tun_name nic) (tun_index nic) (written nic ++ pkts)) ∧
    ∃ ta tb, w = MkWorld (with_tunnel a la pa ca ta) (with_tunnel (written_to id_b b pkts) lb pb cb tb) m ∧
      (pkts ≠ [] → tunn_link Up ta tb ∧ tunn_link Up tb ta).
Proof.
  intros Hsend Hf Hn Hra Hrb Hne Ha Hb Hab Hba Hnic Hpkts.
  pose proof (introduced_fresh _ _ _ _ _ _ _ _ _ _ _ Ha Hb) as Hfresh.
  set (ta := WireGuardTunnelSession.tunn ca) in *. set (tb := WireGuardTunnelSession.tunn cb) in *.
  assert (MkWorld a b m = at_stage m a b la lb pa pb ca cb id_b [] ta tb) as Hstart.
  { unfold at_stage, ta, tb. destruct Ha as (_ & _ & Hpa & _ & _ & _ & Hca & _), Hb as (_ & _ & Hpb & _ & _ & _ & Hcb & _).
    change (written_to id_b b []) with b. by rewrite !with_tunnel_id. }
  destruct (all_packets relay addr_a addr_b now unix clock secret host fuel send_ok Hsend m a b la lb pa pb
    ca cb id_a id_b network Ha Hb Hab Hba Hra Hrb Hne hops pkts ta tb Hf Hn Hpkts Hfresh) as (ta' & tb' & Hup & Hs).
  rewrite <-Hstart in Hs.
  eexists. split; [exact Hs|]. split; [by apply written_nic|]. exists ta', tb'. by split.
Qed.
End property.

(** A codec that goes through the course without any cryptography, and two nodes that
    the relay has introduced. *)
Module Scenario.
Import RelayPeers.Example Daemon.Example.

Record Talk : Type := MkTalk { waiting : list (list byte); up : bool }.
Definition filled (b : byte) (n : nat) : list byte := b :: replicate (n - 1) x00.
Definition talk_data (pkt : list byte) : list byte := filled x04 32 ++ pkt.
Definition talk_decapsulate (t : Talk) (dg : list byte) : Talk * TunnResult :=
  match dg with
  | [] => match waiting t with
          | pkt :: q => if up t then (MkTalk q true, WriteToNetwork (talk_data pkt)) else (t, Done)
          | [] => (t, Done)
          end
  | x01 :: _ => (MkTalk (waiting t) true, WriteToNetwork (filled x02 92))
  | x02 :: _ => (MkTalk (waiting t) true, WriteToNetwork (filled x04 32))
  | _ => match drop 32 dg with
         | [] => (t, Done)
         | pkt => (t, WriteToTunnelV4 pkt (ip_source pkt))
         end
  end.
#[export] Instance talk : TunnApi := {|
  Tunn := Talk; tunn_new _ _ _ := MkTalk [] false;
  tunn_decapsulate t src dg := talk_decapsulate t dg;
  tunn_encapsulate t pkt := if up t then (t, WriteToNetwork (talk_data pkt))
                            else (MkTalk (waiting t ++ [pkt]) false, WriteToNetwork (filled x01 148));
  tunn_update_timers t := (t, Done);
  tunn_since_handshake t := if up t then Some 0 else None; tunn_is_expired _ := false |}.
Definition talk_link (l : Link) (ta tb : Talk) : Prop :=
  match l with
  | Fresh => ta = MkTalk [] false ∧ tb = MkTalk [] false
  | Offered init pkt => init = filled x01 148 ∧ ta = MkTalk [pkt] false ∧ tb = MkTalk [] false
  | Answered r pkt => r = filled x02 92 ∧ ta = MkTalk [pkt] false ∧ tb = MkTalk [] true
  | Confirmed k pkt => k = filled x04 32 ∧ ta = MkTalk [pkt] true ∧ tb = MkTalk [] true
  | Flushed k data pkt => k = filled x04 32 ∧ data = talk_data pkt ∧ ta = MkTalk [] true ∧ tb = MkTalk [] true
  | Due data pkt => data = talk_data pkt ∧ ta = MkTalk [] true ∧ tb = MkTalk [] true
  | Up => ta = MkTalk [] true ∧ tb = MkTalk [] true
  end.

Lemma length_talk_data pkt : length (talk_data pkt) = (length pkt + 32)%nat.
Proof. unfold talk_data. rewrite length_app. change (length (filled x04 32)) with 32%nat. lia. Qed.

#[export] Instance talk_laws : TunnLaws (TA := talk).
Proof.
  apply (@Build_TunnLaws _ talk talk_link).
  - done.
  - intros ta tb pkt [-> ->] _. do 2 eexists. by split_and!.
  - intros ta tb src init pkt (-> & -> & ->). do 2 eexists. by split_and!.
  - intros ta tb src r pkt (-> & -> & ->). eexists. by split_and!.
  - intros ta tb src r pkt (-> & -> & ->). do 2 eexists. by split_and!.
  - intros ta tb src k pkt (-> & -> & ->). do 2 eexists. split; [reflexivity|]. by rewrite length_talk_data.
  - intros ta tb src k data pkt (-> & -> & -> & ->). eexists. by split_and!.
  - intros ta tb src k data pkt (-> & -> & -> & ->). eexists. by split_and!.
  - intros ta tb pkt [-> ->] _. do 2 eexists. split; [reflexivity|]. by rewrite length_talk_data.
  - intros ta tb src data pkt (-> & -> & ->) Hw. eexists. split; [|done].
    change (drop 32 (talk_data pkt)) with pkt. destruct pkt; [discriminate Hw|reflexivity].
  - by intros ta tb [-> ->].
Defined.

Definition peer_of (id : PeerId) (ip : Z) : PeerInfo :=
  PeerInfo.MkPeerInfo 1 id (IpV4 ip) net_1 Other None [] [] false.
Definition node (id : PeerId) (ip : Z) : NoeioDaemon UdpTunnelSession :=
  NoeioDaemon.MkDaemon {[ id := MkNic (IpV4 ip) "noeio0" 3 [] ]} manager None Router.new false [] [] [] ∅ true.
Definition ip_a : Z := ipv4 110 20 0 9.
Definition ip_b : Z := ipv4 110 20 0 10.
Definition meets (id : PeerId) (ip : Z) (him : PeerId) (his : Z) : NoeioDaemon UdpTunnelSession :=
  (NoeioDaemon.apply_sync_route (node id ip) (peer_of him his) id).1.
Definition at_relay := PeerManager.heartbeat (PeerManager.heartbeat RelayPeers.Example.start 0 42
  (RelayPeers.Example.info_at 1) addr_a net_1) 0 43 (RelayPeers.Example.info_at 1) addr_b net_1.
(** Reads the header's destination. *)
#[export] Instance header_wire : Ipv4Wire := {|
  ipv4_src_addr bs := Some (be_val (take 4 (drop 12 bs)));
  ipv4_dst_addr bs := Some (be_val (take 4 (drop 16 bs))) |}.
Definition packet (tag : Z) : list byte :=
  be_bytes 2 (69 * 256) ++ be_bytes 2 21 ++ replicate 8 x00 ++ be_bytes 4 ip_a ++ be_bytes 4 ip_b ++ be_bytes 1 tag.
Definition met_as (him : PeerId) (his : Z) (id : PeerId) : Peer.Peer UdpTunnelSession := Peer.new (peer_of him his) id.
End Scenario.
Import PlainJwt RelayPeers.Example Daemon.Example Scenario.

Definition codec_of (him : PeerId) (his : Z) (id : PeerId) : WireGuardTunnelSession :=
  default (WireGuardTunnelSession.new [] [] 0) (Peer.codec (met_as him his id)).

(** Each has heard of the other. *)
Lemma met id ip him his : is_uint 32 id →
  Router.lookup (NoeioDaemon.router (meets id ip him his)) (IpV4 his) = Some 0%nat →
  introduced (meets id ip him his) 0%nat (met_as him his id) (codec_of him his id) id him net_1.
Proof.
  intros Hid H0. destruct (hearing_introduces (node id ip) (peer_of him his) id Hid eq_refl eq_refl) as (l & c & Hi & Hl & _).
  assert (codec_of him his id = c) as ->.
  { unfold codec_of, met_as. by destruct Hi as (_ & _ & _ & _ & _ & _ & -> & _). }
  assert (l = 0%nat) as -> by (apply (inj Some); rewrite <-H0; symmetry; exact Hl). exact Hi.
Qed.

Lemma introduced_a : introduced (meets 42 ip_a 43 ip_b) 0%nat (met_as 43 ip_b 42) (codec_of 43 ip_b 42) 42 43 net_1.
Proof. apply met; [by split|reflexivity]. Qed.
Lemma introduced_b : introduced (meets 43 ip_b 42 ip_a) 0%nat (met_as 42 ip_a 43) (codec_of 42 ip_a 43) 43 42 net_1.
Proof. apply met; [by split|reflexivity]. Qed.

Lemma packet_routed tag : tag = 7 ∨ tag = 8 → routed_packet (meets 42 ip_a 43 ip_b) 0%nat (met_as 42 ip_a 43) (packet tag).
Proof.
  intros [H|H]; rewrite H; (split; [reflexivity|]); (split; [apply Nat.leb_le; reflexivity|]);
    (split; [exists ip_b; split; reflexivity|reflexivity]).
Qed.

(** Two packets from node 42 to node 43, who know each other only through the relay. *)
Lemma packets_delivered_witness :
  ∃ w, send_all (r_addr relay) addr_a addr_b 0 0 0 "k" "host" 3 always 8
         (MkWorld (meets 42 ip_a 43 ip_b) (meets 43 ip_b 42 ip_a) at_relay) [packet 7; packet 8] = Some w ∧
    written <$> NicManager.get (NoeioDaemon.nics (node_b w)) 43 = Some [packet 7; packet 8].
Proof.
  destruct (packets_delivered (r_addr relay) addr_a addr_b 0 0 0 "k" "host" 3 8 always at_relay
    (meets 42 ip_a 43 ip_b) (meets 43 ip_b 42 ip_a) 0%nat 0%nat (met_as 43 ip_b 42) (met_as 42 ip_a 43)
    (codec_of 43 ip_b 42) (codec_of 42 ip_a 43) 42 43 net_1 (MkNic (IpV4 ip_b) "noeio0" 3 []) [packet 7; packet 8])
    as (w & Hs & Hn & _).
  - reflexivity.
  - lia.
  - lia.
  - discriminate.
  - discriminate.
  - discriminate.
  - exact introduced_a.
  - exact introduced_b.
  - right. split; [reflexivity|]. split; [by exists relay|]. exists (RelayPeers.Example.info_at 1), net_1. by split.
  - right. split; [reflexivity|]. split; [by exists relay|]. exists (RelayPeers.Example.info_at 1), net_1. by split.
  - reflexivity.
  - repeat constructor; apply packet_routed; auto.
  - exists w. split; [exact Hs|]. rewrite Hn. reflexivity.
Defined.
