(* ===== verification/RouteService.v ===== *)
(** [noeio/src/rpc/service/route.rs]: the RPCs that advertise, withdraw and list
    routes, with the texts of [daemon/routes.rs] they report. A handler reads the
    advertised set, computes the new one and stores it with [set_advertised]; two
    handlers may run at once, so each is also given as its two halves. *)

From Stdlib Require Import ZArith Lia.
From Stdlib Require Import Strings.String.
From stdpp Require Import base list strings gmap sets.
From S2P Require Import Prelude Text NetTypes CidrModel NetText HostInfo Packet HostCodec CodecModel Routes.
From S2P Require Import RoutingTable Session Wireguard Peer DerperClient Daemon.

Local Open Scope string_scope.
Local Open Scope Z_scope.

(** ** Texts *)

Section texts.
Context {CA : CidrApi}.

Definition show_route_error (e : RouteError) : string :=
  match e with
  | Malformed s => "'" +:+ s +:+ "' is not a valid IPv4 CIDR"
  | TooBroad c => cidr_to_string c +:+ ": prefix shorter than /" +:+ show_uint MIN_PREFIX_LEN
      +:+ " (exit-node routes are not supported)"
  | OverlapsOverlay c ip => cidr_to_string c +:+ " contains this node's overlay address "
      +:+ show_ip ip +:+ "; overlay traffic would loop"
  | CoversControlPlane c ip => cidr_to_string c +:+ " contains control-plane server "
      +:+ show_ip ip +:+ " (derper/STUN); the node would lose its relay"
  | Reserved c => cidr_to_string c +:+ " is loopback or link-local"
  | PlatformConsumerOnly c p => cidr_to_string c
      +:+ ": advertising subnet routes (acting as a subnet router) is not supported on " +:+ p
      +:+ ". This node can still *use* subnet routes advertised by other nodes; advertise "
      +:+ cidr_to_string c +:+ " from a Linux node instead"
  end.
End texts.

Definition show_rejection (r : Rejection) : string :=
  match r with
  | Invalid => "fails route validation"
  | LocalLan => "conflicts with a directly connected local network"
  | SelfAdvertised => "advertised by this node itself"
  | Standby => "standby: another peer is the active exit for this prefix"
  | PolicyOff => "accept_routes is disabled"
  end.

(** [Vec<String>::join]. *)
Fixpoint join (sep : string) (l : list string) : string :=
  match l with
  | [] => ""
  | [s] => s
  | s :: l => s +:+ sep +:+ join sep l
  end.

(** ** Requests and answers *)

Inductive Code : Type := FailedPrecondition | InvalidArgument.
Record Status : Type := MkStatus { status_code : Code; status_message : string }.

(** The enums of the message, with the default a field has when it is not set. *)
Inductive RouteSource : Type := Local | Remote | SourceUnspecified.
Inductive RouteState : Type := Active | StandbyState | RejectedState | StateUnspecified.
Inductive PathKind : Type := Direct | Relay | NoPath | PathUnspecified.

Record RouteEntry : Type := MkEntry {
  entry_cidr : string;
  entry_source : RouteSource;
  entry_peer_id : Z;
  entry_via : string;
  entry_state : RouteState;
  reject_reason : string;
  entry_path : PathKind;
  path_addr : string;
}.

Section service.
Context {CA : CidrApi} {KA : KeyApi} {TA : TunnApi} {S : Type} {TS : TunnelSession S}.
Context (pf : Platform).
Notation NoeioDaemon := (NoeioDaemon.NoeioDaemon S).

Definition protected_of (d : NoeioDaemon) : Protected :=
  {| overlay_ips := NicManager.ips (NoeioDaemon.nics d);
     control_plane := NoeioDaemon.control_plane d |}.

Definition advertised_strings (d : NoeioDaemon) : list string :=
  map cidr_to_string (NoeioDaemon.advertised d).

Definition is_consumer_only (e : RouteError) : bool :=
  match e with PlatformConsumerOnly _ _ => true | _ => false end.

Definition status_for (errors : list RouteError) : Status :=
  MkStatus (if existsb is_consumer_only errors then FailedPrecondition else InvalidArgument)
    (join "; " (map show_route_error errors)).

(** The validation loop: accepted prefixes and errors, in request order. *)
Definition validate_all (protected : Protected) (cidrs : list string) :
    list Cidr * list RouteError :=
  (omap (λ raw, result_ok (validate_advertisement pf raw protected)) cidrs,
   omap (λ raw, match validate_advertisement pf raw protected with
                | Err e => Some e
                | Ok _ => None
                end) cidrs).

Definition push_new (set : list Cidr) (c : Cidr) : list Cidr :=
  if bool_decide (c ∈ set) then set else (set ++ [c])%list.

(** [advertise_route] up to the store: the set to install. *)
Definition advertise_read (d : NoeioDaemon) (cidrs : list string) : result (list Cidr) Status :=
  let '(accepted, errors) := validate_all (protected_of d) cidrs in
  match errors, accepted with
  | _ :: _, _ => Err (status_for errors)
  | [], [] => Err (MkStatus InvalidArgument "no CIDR given")
  | [], _ => Ok (foldl push_new (NoeioDaemon.advertised d) accepted)
  end.

(** The store and the answer, on the daemon as it is then. *)
Definition advertise_write (d : NoeioDaemon) (now : Z) (set : list Cidr) :
    NoeioDaemon * list string :=
  let d := NoeioDaemon.set_advertised d now set in (d, advertised_strings d).

Definition advertise_route (d : NoeioDaemon) (now : Z) (cidrs : list string) :
    NoeioDaemon * result (list string) Status :=
  match advertise_read d cidrs with
  | Err st => (d, Err st)
  | Ok set => let '(d, answer) := advertise_write d now set in (d, Ok answer)
  end.

Definition withdraw_read (d : NoeioDaemon) (cidrs : list string) : result (list Cidr) Status :=
  let? remove := collect (λ raw, match parse_cidr raw with
                                 | Ok c => Ok c
                                 | Err e => Err (MkStatus InvalidArgument (show_route_error e))
                                 end) cidrs in
  Ok (List.filter (λ c, negb (bool_decide (c ∈ remove))) (NoeioDaemon.advertised d)).

Definition withdraw_route (d : NoeioDaemon) (now : Z) (cidrs : list string) :
    NoeioDaemon * result (list string) Status :=
  match withdraw_read d cidrs with
  | Err st => (d, Err st)
  | Ok set => let '(d, answer) := advertise_write d now set in (d, Ok answer)
  end.

Definition local_entry (c : Cidr) : RouteEntry :=
  MkEntry (cidr_to_string c) Local 0 "" Active "" PathUnspecified "".

(** A decision with the exit's current path. *)
Definition remote_entry (d : NoeioDaemon) (dec : Decision) : RouteEntry :=
  let '(via, path, addr) :=
    match l ← Router.get_by_peer_id (NoeioDaemon.router d) (peer_id dec); NoeioDaemon.peer_at d l with
    | Some p =>
        let via := show_ip (PeerInfo.noeio_ip (Peer.info p)) in
        match Peer.address p with
        | Some addr => (via, Direct, show_socket_addr addr)
        | None => (via, Relay, "")
        end
    | None => ("", NoPath, "")
    end in
  let '(state, reason) :=
    match rejected dec with
    | None => (Active, "")
    | Some Standby => (StandbyState, show_rejection Standby)
    | Some why => (RejectedState, show_rejection why)
    end in
  MkEntry (cidr_to_string (cidr dec)) Remote (peer_id dec) via state reason path addr.

Definition list_routes (d : NoeioDaemon) : list RouteEntry :=
  (map local_entry (NoeioDaemon.advertised d) ++ map (remote_entry d) (NoeioDaemon.decisions d))%list.

(** *** Facts *)

Lemma foldl_push_new set l :
  ∃ more, foldl push_new set l = (set ++ more)%list ∧
    ∀ c, c ∈ foldl push_new set l ↔ c ∈ set ∨ c ∈ l.
Proof.
  revert set. induction l as [|c l IH]; intros set; cbn [foldl].
  - exists []. rewrite app_nil_r. set_solver.
  - unfold push_new at 2. destruct (IH (push_new set c)) as (more & E & Hin).
    unfold push_new in *. case_bool_decide.
    + exists more. split; [done|]. intros x. rewrite Hin. set_solver.
    + exists (c :: more). rewrite E, <-app_assoc. split; [done|]. intros x.
      rewrite <-app_assoc in E. rewrite <-E, Hin. set_solver.
Qed.

Lemma validate_all_Ok protected cidrs :
  (validate_all protected cidrs).2 = [] ↔
  ∀ raw, raw ∈ cidrs → ∃ c, validate_advertisement pf raw protected = Ok c.
Proof.
  unfold validate_all. cbn. induction cidrs as [|raw cidrs IH]; cbn; [set_solver|].
  destruct (validate_advertisement pf raw protected) as [c|e] eqn:Hv.
  - rewrite IH. setoid_rewrite elem_of_cons. split; [|naive_solver].
    intros H raw' [->|Hr]; [by exists c|by apply H].
  - split; [done|]. intros H. destruct (H raw ltac:(by left)) as [c Hc]. congruence.
Qed.

Lemma validate_all_elem protected cidrs c :
  c ∈ (validate_all protected cidrs).1 ↔
  ∃ raw, raw ∈ cidrs ∧ validate_advertisement pf raw protected = Ok c.
Proof.
  unfold validate_all. cbn. rewrite list_elem_of_omap. split.
  - intros (raw & Hr & Hv). exists raw. split; [done|].
    destruct (validate_advertisement pf raw protected) as [c'|e']; [|done]; cbn in Hv; congruence.
  - intros (raw & Hr & Hv). exists raw. by rewrite Hv.
Qed.

(** A changed set reaches the next report: every own peer carries it and the version
    grows, which is what makes the relay take the report. *)
Definition reported (d d' : NoeioDaemon) (set : list Cidr) : Prop :=
  NoeioDaemon.wake d' = true ∧
  ∀ h, NoeioDaemon.host_info d = Some h →
    is_uint 64 (HostInfo.resource_version h) → HostInfo.resource_version h ≠ U64_MAX →
    ∃ h', NoeioDaemon.host_info d' = Some h' ∧
      HostInfo.resource_version h < HostInfo.resource_version h' ∧
      (∀ p, p ∈ HostInfo.peers h' → PeerInfo.advertised_routes p = set) ∧
      PeerInfo.peer_id <$> HostInfo.peers h' = PeerInfo.peer_id <$> HostInfo.peers h.

Lemma set_advertised_spec (d : NoeioDaemon) now set :
  let d' := NoeioDaemon.set_advertised d now set in
  NoeioDaemon.advertised d' = set ∧
  (set = NoeioDaemon.advertised d → d' = d) ∧
  (set ≠ NoeioDaemon.advertised d → reported d d' set).
Proof.
  cbv zeta. unfold NoeioDaemon.set_advertised.
  destruct (decide (NoeioDaemon.advertised d = set)) as [<-|Hne]; [by split_and!|].
  cbn. split_and!; [done|by intros ->|]. intros _. split; [done|]. cbn.
  intros h -> Hv Hmax. eexists. split; [reflexivity|]. cbn. split_and!.
  - unfold is_uint, U64_MAX in *. rewrite wrap_small by (unfold is_uint; lia). lia.
  - intros p (q & -> & _)%list_elem_of_fmap. done.
  - rewrite <-list_fmap_compose. done.
Qed.

Lemma advertise_read_Ok d cidrs set :
  advertise_read d cidrs = Ok set →
  cidrs ≠ [] ∧ (∃ more, set = (NoeioDaemon.advertised d ++ more)%list) ∧
  (∀ raw, raw ∈ cidrs → ∃ c, validate_advertisement pf raw (protected_of d) = Ok c) ∧
  (∀ c, c ∈ set ↔ c ∈ NoeioDaemon.advertised d ∨
     ∃ raw, raw ∈ cidrs ∧ validate_advertisement pf raw (protected_of d) = Ok c).
Proof.
  unfold advertise_read. pose proof (validate_all_Ok (protected_of d) cidrs) as HOk.
  pose proof (validate_all_elem (protected_of d) cidrs) as Hel.
  destruct (validate_all _ _) as [acc errs]. cbn in HOk, Hel.
  destruct errs; [|done].
  destruct (foldl_push_new (NoeioDaemon.advertised d) acc) as (more & E & Hin).
  destruct acc as [|a acc]; [done|]. intros [= <-].
  split_and!; [|by exists more|by apply HOk|].
  { intros ->. by destruct (proj1 (Hel a) ltac:(by left)) as (raw & ?%not_elem_of_nil & _). } intros c. rewrite Hin. by rewrite Hel.
Qed.

Lemma validate_all_errors protected cidrs e :
  e ∈ (validate_all protected cidrs).2 ↔
  ∃ raw, raw ∈ cidrs ∧ validate_advertisement pf raw protected = Err e.
Proof.
  unfold validate_all. cbn. rewrite list_elem_of_omap. split.
  - intros (raw & Hr & Hv). exists raw. split; [done|].
    destruct (validate_advertisement pf raw protected) as [c'|e']; [done|congruence].
  - intros (raw & Hr & Hv). exists raw. by rewrite Hv.
Qed.

Lemma advertise_read_refused d cidrs st :
  advertise_read d cidrs = Err st →
  let failed := errors_of (λ raw, validate_advertisement pf raw (protected_of d)) cidrs in
  (cidrs = [] ∧ st = MkStatus InvalidArgument "no CIDR given") ∨
  (failed ≠ [] ∧ status_message st = join "; " (map show_route_error failed)).
Proof.
  unfold advertise_read. change (errors_of _ cidrs) with (validate_all (protected_of d) cidrs).2.
  pose proof (validate_all_elem (protected_of d) cidrs) as Hel.
  pose proof (validate_all_Ok (protected_of d) cidrs) as Hok.
  destruct (validate_all _ _) as [acc errs]. cbn in Hel, Hok |- *. destruct errs as [|e errs].
  - destruct acc as [|a acc]; [|done]. intros [= <-]. left. split; [|done].
    destruct cidrs as [|raw cidrs]; [done|]. destruct (proj1 Hok eq_refl raw ltac:(by left)) as [c Hc].
    exfalso. apply (not_elem_of_nil c), Hel. exists raw. split; [by left|done].
  - intros [= <-]. by right.
Qed.

Lemma advertise_read_Err d cidrs st :
  advertise_read d cidrs = Err st →
  (cidrs = [] ∨ ∃ raw e, raw ∈ cidrs ∧ validate_advertisement pf raw (protected_of d) = Err e) ∧
  (status_code st = FailedPrecondition ↔ ∃ raw c n, raw ∈ cidrs ∧
     validate_advertisement pf raw (protected_of d) = Err (PlatformConsumerOnly c n)).
Proof.
  unfold advertise_read. pose proof (validate_all_errors (protected_of d) cidrs) as Her.
  pose proof (validate_all_elem (protected_of d) cidrs) as Hel.
  destruct (validate_all _ _) as [acc errs]. cbn in Her, Hel. destruct errs as [|e errs].
  - destruct acc as [|a acc]; [|done]. intros [= <-]. split.
    + destruct cidrs as [|raw cidrs]; [by left|right]. exists raw.
      destruct (validate_advertisement pf raw (protected_of d)) as [c|e] eqn:Hv.
      * exfalso. apply (not_elem_of_nil c), Hel. exists raw. split; [by left|done].
      * exists e. split; [by left|done].
    + split; [done|]. intros (raw & c & n & Hr & Hv).
      exfalso. apply (not_elem_of_nil (PlatformConsumerOnly c n)), Her. by exists raw.
  - intros [= <-]. split; [right; destruct (proj1 (Her e) ltac:(by left)) as (raw & Hr); eauto|].
    unfold status_for. destruct (existsb is_consumer_only (e :: errs)) eqn:Hex; cbn [status_code].
    + split; [intros _|done]. apply existsb_exists in Hex as (x & Hx & Hc).
      apply list_elem_of_In, Her in Hx as (raw & Hr & Hv). destruct x; try done. eauto 6.
    + split; [done|]. intros (raw & c & n & Hr & Hv).
      assert (existsb is_consumer_only (e :: errs) = true); [|congruence].
      apply existsb_exists. exists (PlatformConsumerOnly c n). split; [|done].
      apply list_elem_of_In, Her. by exists raw.
Qed.

Lemma collect_elem {A B E} (f : A → result B E) l bs :
  collect f l = Ok bs →
  (∀ a, a ∈ l → ∃ b, f a = Ok b) ∧ ∀ b, b ∈ bs ↔ ∃ a, a ∈ l ∧ f a = Ok b.
Proof.
  revert bs. induction l as [|a l IH]; intros bs; cbn [collect].
  - intros [= <-]. set_solver.
  - destruct (f a) as [b|] eqn:Hf; [|done]. destruct (collect f l) as [bs'|]; [|done].
    intros [= <-]. destruct (IH bs' eq_refl) as [Hall Hin]. setoid_rewrite elem_of_cons. split.
    + intros a' [->|Ha]; [eauto|by apply Hall].
    + intros b'. rewrite Hin. split.
      * intros [->|(a' & Ha & Hb)]; eauto.
      * intros (a' & [->|Ha] & Hb); [left; congruence|eauto].
Qed.

Lemma withdraw_read_Ok d cidrs set :
  withdraw_read d cidrs = Ok set →
  (∀ raw, raw ∈ cidrs → ∃ c, parse_cidr raw = Ok c) ∧
  (∀ c, c ∈ set ↔ c ∈ NoeioDaemon.advertised d ∧ ∀ raw, raw ∈ cidrs → parse_cidr raw ≠ Ok c).
Proof.
  unfold withdraw_read. destruct (collect _ cidrs) as [remove|st] eqn:Hc; [|done]. intros [= <-].
  apply collect_elem in Hc as [Hall Hin]. split.
  - intros raw Hr. destruct (Hall raw Hr) as [c Hp]. destruct (parse_cidr raw) as [c'|e]; [by exists c'|done].
  - intros c. rewrite list_elem_of_In, filter_In, <-list_elem_of_In, negb_true_iff, bool_decide_eq_false, Hin.
    split; (intros [H1 H2]; split; [done|]).
    + intros raw Hr Hp. apply H2. exists raw. by rewrite Hp.
    + intros (raw & Hr & Hp). apply (H2 raw Hr). destruct (parse_cidr raw) as [c'|e]; [congruence|done].
Qed.

Lemma withdraw_read_refused d cidrs st :
  withdraw_read d cidrs = Err st →
  ∃ pre raw post e, cidrs = (pre ++ raw :: post)%list ∧
    (∀ raw', raw' ∈ pre → ∃ c, parse_cidr raw' = Ok c) ∧
    parse_cidr raw = Err e ∧ st = MkStatus InvalidArgument (show_route_error e).
Proof.
  unfold withdraw_read. destruct (collect _ cidrs) as [remove|st'] eqn:Hc; [done|]. intros [= ->].
  apply collect_Err in Hc as (pre & raw & post & -> & Hpre & Hraw). exists pre, raw, post.
  destruct (parse_cidr raw) as [c|e]; [done|]. injection Hraw as <-. exists e. split_and!; try done.
  intros raw' Hr. destruct (Hpre raw' Hr) as [c Hc]. destruct (parse_cidr raw') as [c'|]; [by exists c'|done].
Qed.
End service.

(** C33. The route RPCs. An advertisement is refused exactly when it names nothing or a
    prefix that fails the admission check, with the errors of all that do, in order, and
    FAILED_PRECONDITION exactly when the platform may not advertise one of them; a
    withdrawal is refused exactly when it names a malformed prefix, with the error of
    the first one; and a refusal changes nothing. An accepted advertisement keeps the
    set's prefixes in place and adds exactly those the request names; an accepted
    withdrawal removes exactly the named ones; the answer is the new set; and when the
    set changed, the next report carries it under a higher version. Of two requests that
    overlap - both read before either writes - the first one's effect is lost: a prefix
    that only it advertises is gone although its answer listed it, and one that it
    withdraws is back. *)
Theorem route_rpcs {CA : CidrApi} {KA : KeyApi} {TA : TunnApi} {S} {TS : TunnelSession S}
    pf (d : NoeioDaemon.NoeioDaemon S) now cidrs :
  let old := NoeioDaemon.advertised d in
  match advertise_route pf d now cidrs with
  | (d', Ok answer) =>
      cidrs ≠ [] ∧ answer = advertised_strings d' ∧
      (∃ more, NoeioDaemon.advertised d' = (old ++ more)%list) ∧
      (∀ c, c ∈ NoeioDaemon.advertised d' ↔ c ∈ old ∨
         ∃ raw, raw ∈ cidrs ∧ validate_advertisement pf raw (protected_of d) = Ok c) ∧
      (∀ raw, raw ∈ cidrs → ∃ c, validate_advertisement pf raw (protected_of d) = Ok c) ∧
      (NoeioDaemon.advertised d' ≠ old → reported d d' (NoeioDaemon.advertised d'))
  | (d', Err st) =>
      let failed := errors_of (λ raw, validate_advertisement pf raw (protected_of d)) cidrs in
      d' = d ∧
      ((cidrs = [] ∧ st = MkStatus InvalidArgument "no CIDR given") ∨
       (failed ≠ [] ∧ status_message st = join "; " (map show_route_error failed))) ∧
      (status_code st = FailedPrecondition ↔ ∃ raw c n, raw ∈ cidrs ∧
         validate_advertisement pf raw (protected_of d) = Err (PlatformConsumerOnly c n))
  end ∧
  match withdraw_route d now cidrs with
  | (d', Ok answer) =>
      answer = advertised_strings d' ∧
      (∀ c, c ∈ NoeioDaemon.advertised d' ↔
         c ∈ old ∧ ∀ raw, raw ∈ cidrs → parse_cidr raw ≠ Ok c) ∧
      (∀ raw, raw ∈ cidrs → ∃ c, parse_cidr raw = Ok c) ∧
      (NoeioDaemon.advertised d' ≠ old → reported d d' (NoeioDaemon.advertised d'))
  | (d', Err st) =>
      d' = d ∧ ∃ pre raw post e, cidrs = (pre ++ raw :: post)%list ∧
        (∀ raw', raw' ∈ pre → ∃ c, parse_cidr raw' = Ok c) ∧
        parse_cidr raw = Err e ∧ st = MkStatus InvalidArgument (show_route_error e)
  end ∧
  (∀ later set1 set2 raw c,
     advertise_read pf d cidrs = Ok set1 → raw ∈ cidrs →
     validate_advertisement pf raw (protected_of d) = Ok c → c ∉ old →
     (advertise_read pf d later = Ok set2 ∧
        (∀ raw', raw' ∈ later → validate_advertisement pf raw' (protected_of d) ≠ Ok c) ∨
      withdraw_read d later = Ok set2) →
     let '(d1, answer1) := advertise_write d now set1 in
     let '(d2, _) := advertise_write d1 now set2 in
     cidr_to_string c ∈ answer1 ∧ c ∉ NoeioDaemon.advertised d2) ∧
  (∀ later set1 set2 raw c,
     withdraw_read d cidrs = Ok set1 → raw ∈ cidrs → parse_cidr raw = Ok c → c ∈ old →
     (advertise_read pf d later = Ok set2 ∨
      withdraw_read d later = Ok set2 ∧ (∀ raw', raw' ∈ later → parse_cidr raw' ≠ Ok c)) →
     let '(d1, _) := advertise_write d now set1 in
     let '(d2, _) := advertise_write d1 now set2 in
     c ∉ NoeioDaemon.advertised d1 ∧ c ∈ NoeioDaemon.advertised d2).
Proof.
  cbv zeta. unfold advertise_route, withdraw_route, advertise_write. split_and!.
  - destruct (advertise_read pf d cidrs) as [set|st] eqn:Hr.
    + destruct (set_advertised_spec d now set) as (Ha & _ & Hrep).
      apply advertise_read_Ok in Hr as (Hne & Hmore & Hall & Hin). rewrite Ha. by split_and!.
    + split; [done|]. split; [by apply advertise_read_refused|]. apply advertise_read_Err in Hr. apply Hr.
  - destruct (withdraw_read d cidrs) as [set|st] eqn:Hr; [|split; [done|by eapply withdraw_read_refused]].
    destruct (set_advertised_spec d now set) as (Ha & _ & Hrep).
    apply withdraw_read_Ok in Hr as [Hall Hin]. rewrite Ha. by split_and!.
  - intros later set1 set2 raw c (_ & _ & _ & H1)%advertise_read_Ok Hraw Hv Hold Hlater.
    destruct (set_advertised_spec d now set1) as (Ha1 & _).
    destruct (set_advertised_spec (NoeioDaemon.set_advertised d now set1) now set2) as (Ha2 & _).
    rewrite Ha2. unfold advertised_strings. rewrite Ha1. split; [apply list_elem_of_fmap_2, H1; eauto|].
    destruct Hlater as [[(_ & _ & _ & H2)%advertise_read_Ok Hno]|[_ H2]%withdraw_read_Ok]; rewrite H2; naive_solver.
  - intros later set1 set2 raw c [_ H1]%withdraw_read_Ok Hraw Hp Hold Hlater.
    destruct (set_advertised_spec d now set1) as (Ha1 & _).
    destruct (set_advertised_spec (NoeioDaemon.set_advertised d now set1) now set2) as (Ha2 & _).
    rewrite Ha1, Ha2, H1. split; [naive_solver|].
    destruct Hlater as [(_ & _ & _ & H2)%advertise_read_Ok|[[_ H2]%withdraw_read_Ok Hno]]; rewrite H2; auto.
Qed.
