(* ===== verification/Config.v ===== *)
(** [noeio/src/config.rs]: the node's configuration, the command-line additions to it
    and the validation of the advertised routes. Reading and writing the TOML file is
    left out. *)

From Stdlib Require Import ZArith Lia.
From Stdlib Require Import Strings.String.
From stdpp Require Import base list strings sets.
From S2P Require Import Prelude Text NetTypes CidrModel Routes.

Local Open Scope string_scope.
Local Open Scope Z_scope.

Record RouterConfig : Type := MkRouterConfig {
  advertise_routes : list string;
  cfg_accept_routes : bool;
  auto_nat : bool;
  lan_interface : string;
}.
Definition router_config_default : RouterConfig := MkRouterConfig [] false true "".

Record DerperInfo : Type := MkDerperInfo {
  address : string;
  token : string;
}.

Record Config : Type := MkConfig {
  stun_servers : list string;
  derper_servers : list DerperInfo;
  router : RouterConfig;
}.
Definition config_default : Config := MkConfig [] [] router_config_default.

(** ** Command-line additions *)

(** One iteration of [append_stuns] and of [append_routes]. *)
Definition append_trimmed (l : list string) (raw : string) : list string :=
  let s := trim raw in
  if bool_decide (s = "") then l
  else if existsb (λ x, bool_decide (x = s)) l then l else (l ++ [s])%list.

Definition append_stuns (c : Config) (stun : list string) : Config :=
  MkConfig (foldl append_trimmed (stun_servers c) stun) (derper_servers c) (router c).

(** The first server with that address, its token replaced when the flag has one. *)
Fixpoint update_token (l : list DerperInfo) (addr tok : string) : option (list DerperInfo) :=
  match l with
  | [] => None
  | s :: l =>
      if bool_decide (address s = addr)
      then Some ((if bool_decide (tok = "") then s else MkDerperInfo (address s) tok) :: l)
      else (s ::.) <$> update_token l addr tok
  end.

Definition append_derper (l : list DerperInfo) (flag : string * option string) : list DerperInfo :=
  let addr := trim flag.1 in
  if bool_decide (addr = "") then l
  else
    let tok := match flag.2 with Some t => trim t | None => "" end in
    match update_token l addr tok with
    | Some l => l
    | None => (l ++ [MkDerperInfo addr tok])%list
    end.

(** Tokens pair with servers by position; more tokens than servers is a panic. *)
Definition append_derpers (c : Config) (servers tokens : list string) : option Config :=
  if (length servers <? length tokens)%nat then None
  else
    let flags := imap (λ idx s, (s, tokens !! idx)) servers in
    Some (MkConfig (stun_servers c) (foldl append_derper (derper_servers c) flags) (router c)).

Definition append_routes (c : Config) (advertise : list string) (accept : bool) : Config :=
  let r := router c in
  MkConfig (stun_servers c) (derper_servers c)
    (MkRouterConfig (foldl append_trimmed (advertise_routes r) advertise)
       (if accept then true else cfg_accept_routes r) (auto_nat r) (lan_interface r)).

(** *** Facts *)

Lemma append_trimmed_spec l raws :
  (∃ more, foldl append_trimmed l raws = (l ++ more)%list) ∧
  (NoDup l → NoDup (foldl append_trimmed l raws)) ∧
  ∀ s, s ∈ foldl append_trimmed l raws ↔ s ∈ l ∨ (s ≠ "" ∧ ∃ raw, raw ∈ raws ∧ trim raw = s).
Proof.
  revert l. induction raws as [|raw raws IH]; intros l; cbn [foldl].
  - split_and!; [exists []; by rewrite app_nil_r|done|set_solver].
  - assert (append_trimmed l raw = l ∧ (trim raw = "" ∨ trim raw ∈ l) ∨
            append_trimmed l raw = (l ++ [trim raw])%list ∧ trim raw ≠ "" ∧ trim raw ∉ l) as Hone.
    { unfold append_trimmed. case_bool_decide; [auto|].
      destruct (existsb _ l) eqn:He.
      - left. split; [done|right]. apply existsb_exists in He as (x & Hx & E).
        apply bool_decide_eq_true in E as <-. by apply list_elem_of_In.
      - right. split_and!; [done|done|]. intros Hin. apply not_true_iff_false in He. apply He.
        apply existsb_exists. exists (trim raw). split; [by apply list_elem_of_In|].
        by apply bool_decide_eq_true. }
    destruct (IH (append_trimmed l raw)) as ((more & E) & Hnd & Hin).
    setoid_rewrite elem_of_cons.
    destruct Hone as [[E1 H1]|(E1 & H1 & H2)]; rewrite E1 in *; split_and!.
    + by exists more.
    + done.
    + intros s. rewrite Hin. split; [naive_solver|].
      intros [?|(Hs & raw' & [->|Hr] & <-)]; [auto|destruct H1; naive_solver|eauto 6].
    + exists (trim raw :: more). by rewrite E, <-app_assoc.
    + intros Hl. apply Hnd, NoDup_app. split_and!; [done| |apply NoDup_singleton].
      intros x Hx ->%list_elem_of_singleton. done.
    + intros s. rewrite Hin, elem_of_app, list_elem_of_singleton.
      split; [intros [[?| ->]|(Hs & raw' & Hr & <-)]; eauto 7|].
      intros [?|(Hs & raw' & [->|Hr] & <-)]; eauto 6.
Qed.

(** An entry after some flags: the same address, and a token that was not wiped. *)
Definition keeps_entry (s s' : DerperInfo) : Prop :=
  address s' = address s ∧ (token s' = token s ∨ token s' ≠ "").

#[export] Instance keeps_entry_preorder : PreOrder keeps_entry.
Proof.
  split; [split; auto|]. intros s1 s2 s3 [? H1] [? H2]. split; [congruence|].
  destruct H2 as [->|]; auto.
Qed.

Lemma update_token_spec l addr tok :
  match update_token l addr tok with
  | Some l' => Forall2 keeps_entry l l' ∧ addr ∈ map address l
  | None => addr ∉ map address l
  end.
Proof.
  induction l as [|s l IH]; cbn; [apply not_elem_of_nil|].
  case_bool_decide as Ha; cbn.
  - split; [|rewrite <-Ha; by left]. constructor.
    + case_bool_decide; [reflexivity|]. split; auto.
    + reflexivity.
  - destruct (update_token l addr tok) as [l'|]; cbn.
    + destruct IH as [IH Hin]. split; [constructor; [reflexivity|done]|by right].
    + apply not_elem_of_cons. split; congruence.
Qed.

(** The entries of [l] stay in place, what is new has a fresh address of a flag. *)
Definition extends (l l' : list DerperInfo) : Prop :=
  ∃ k more, l' = (k ++ more)%list ∧ Forall2 keeps_entry l k.

Lemma append_derper_spec l flag :
  extends l (append_derper l flag) ∧
  (NoDup (map address l) → NoDup (map address (append_derper l flag))) ∧
  ∀ a, a ∈ map address (append_derper l flag) ↔
    a ∈ map address l ∨ (a ≠ "" ∧ a = trim flag.1).
Proof.
  unfold append_derper. case_bool_decide as Ha.
  - split_and!; [exists l, []; by rewrite app_nil_r|done|naive_solver].
  - pose proof (update_token_spec l (trim flag.1)
      (match flag.2 with Some t => trim t | None => "" end)) as Hu.
    destruct (update_token _ _ _) as [l'|].
    + destruct Hu as [Hl Hin].
      assert (map address l' = map address l) as ->
        by (clear -Hl; induction Hl as [|? ? ? ? [E _] _ IH]; cbn; congruence).
      split_and!; [exists l', []; by rewrite app_nil_r|done|naive_solver].
    + rewrite map_app. cbn. split_and!; [by exists l, [MkDerperInfo (trim flag.1)
        (match flag.2 with Some t => trim t | None => "" end)]| |].
      * intros Hnd. apply NoDup_app. split_and!; [done| |apply NoDup_singleton].
        intros x Hx ->%list_elem_of_singleton. done.
      * intros a. rewrite elem_of_app, list_elem_of_singleton. naive_solver.
Qed.

Lemma extends_trans l1 l2 l3 : extends l1 l2 → extends l2 l3 → extends l1 l3.
Proof.
  intros (k1 & m1 & -> & H1) (k2 & m2 & -> & H2).
  apply Forall2_app_inv_l in H2 as (k & m & Hk & Hm & ->).
  exists k, (m ++ m2)%list. rewrite app_assoc. split; [done|].
  by transitivity k1.
Qed.

Lemma append_derper_fold l flags :
  extends l (foldl append_derper l flags) ∧
  (NoDup (map address l) → NoDup (map address (foldl append_derper l flags))) ∧
  ∀ a, a ∈ map address (foldl append_derper l flags) ↔
    a ∈ map address l ∨ (a ≠ "" ∧ ∃ flag, flag ∈ flags ∧ a = trim flag.1).
Proof.
  revert l. induction flags as [|flag flags IH]; intros l; cbn [foldl].
  - split_and!; [|done|set_solver]. exists l, []. rewrite app_nil_r. split; [done|].
    reflexivity.
  - destruct (append_derper_spec l flag) as (He & Hn & Hi), (IH (append_derper l flag)) as (He' & Hn' & Hi').
    split_and!; [by eapply extends_trans|auto|]. intros a. rewrite Hi', Hi. setoid_rewrite elem_of_cons.
    naive_solver.
Qed.

(** Command-line flags only add to the file's configuration: configured servers
    and prefixes keep their place, exactly the trimmed non-blank flags are added and
    nothing twice; a configured relay keeps its address and its token is replaced by
    a non-empty one or not at all; [accept_routes] can be switched on and not off.
    More tokens than relays is refused. *)
Theorem flags_only_add c stun servers tokens advertise accept :
  let c1 := append_stuns c stun in
  let c2 := append_routes c advertise accept in
  ((∃ more, stun_servers c1 = (stun_servers c ++ more)%list) ∧
   (NoDup (stun_servers c) → NoDup (stun_servers c1)) ∧
   ∀ s, s ∈ stun_servers c1 ↔
     s ∈ stun_servers c ∨ (s ≠ "" ∧ ∃ raw, raw ∈ stun ∧ trim raw = s)) ∧
  ((∃ more, advertise_routes (router c2) = (advertise_routes (router c) ++ more)%list) ∧
   (∀ s, s ∈ advertise_routes (router c2) ↔
     s ∈ advertise_routes (router c) ∨ (s ≠ "" ∧ ∃ raw, raw ∈ advertise ∧ trim raw = s)) ∧
   cfg_accept_routes (router c2) = cfg_accept_routes (router c) || accept) ∧
  (append_derpers c servers tokens = None ↔ (length servers < length tokens)%nat) ∧
  (∀ c3, append_derpers c servers tokens = Some c3 →
     extends (derper_servers c) (derper_servers c3) ∧
     (NoDup (map address (derper_servers c)) → NoDup (map address (derper_servers c3))) ∧
     ∀ a, a ∈ map address (derper_servers c3) ↔
       a ∈ map address (derper_servers c) ∨ (a ≠ "" ∧ ∃ s, s ∈ servers ∧ a = trim s)).
Proof.
  cbv zeta. destruct (append_trimmed_spec (advertise_routes (router c)) advertise) as (H1 & _ & H2).
  split; [apply append_trimmed_spec|]. split.
  { split_and!; [done|done|]. cbn. by destruct accept, (cfg_accept_routes (router c)). }
  unfold append_derpers. destruct (Nat.ltb_spec (length servers) (length tokens)).
  { split; [done|]. intros c3 [=]. }
  split; [split; [done|lia]|]. intros c3 [= <-]. cbn.
  destruct (append_derper_fold (derper_servers c) (imap (λ idx s, (s, tokens !! idx)) servers))
    as (He & Hn & Hi). split_and!; [done|done|]. intros a. rewrite Hi.
  split; (intros [?|[Ha Hx]]; [by left|right; split; [done|]]).
  - destruct Hx as (flag & Hf & ->). apply list_elem_of_lookup in Hf as [i Hl].
    rewrite list_lookup_imap in Hl. destruct (servers !! i) as [s|] eqn:Hs; [|done].
    injection Hl as <-. exists s. split; [by eapply list_elem_of_lookup_2|done].
  - destruct Hx as (s & Hs & ->). apply list_elem_of_lookup in Hs as [i Hl].
    exists (s, tokens !! i). split; [|done]. apply list_elem_of_lookup. exists i.
    by rewrite list_lookup_imap, Hl.
Qed.

(** ** [validate_routes] *)

Section validate.
Context {CA : CidrApi} (pf : Platform).

Definition validate_one (protected : Protected) (acc : list Cidr * list RouteError) (raw : string) :
    list Cidr * list RouteError :=
  let '(ok, errors) := acc in
  match validate_advertisement pf raw protected with
  | Ok cidr => (if bool_decide (cidr ∈ ok) then ok else (ok ++ [cidr])%list, errors)
  | Err err => (ok, (errors ++ [err])%list)
  end.

Definition validate_routes (c : Config) (protected : Protected) :
    Config * result (list Cidr) (list RouteError) :=
  let r := router c in
  let '(ok, errors) := foldl (validate_one protected) ([], []) (advertise_routes r) in
  match errors with
  | _ :: _ => (c, Err errors)
  | [] =>
      (MkConfig (stun_servers c) (derper_servers c)
         (MkRouterConfig (map cidr_to_string ok) (cfg_accept_routes r) (auto_nat r)
            (lan_interface r)), Ok ok)
  end.

(** What [NoeioDaemon::new] makes of the list: entries that parse. *)
Definition initial_advertised (c : Config) : list Cidr :=
  omap cidr_parse (advertise_routes (router c)).

(** *** Facts *)

Lemma validate_fold protected raws ok errors :
  let '(ok', errors') := foldl (validate_one protected) (ok, errors) raws in
  (∃ more, errors' = (errors ++ more)%list ∧
     (more = [] ↔ ∀ raw, raw ∈ raws → is_err (validate_advertisement pf raw protected) = false)) ∧
  (NoDup ok → NoDup ok') ∧
  (∀ c, c ∈ ok' ↔ c ∈ ok ∨ ∃ raw, raw ∈ raws ∧ validate_advertisement pf raw protected = Ok c).
Proof.
  revert ok errors. induction raws as [|raw raws IH]; intros ok errors; cbn [foldl].
  - split_and!; [exists []; rewrite app_nil_r; set_solver|done|set_solver].
  - unfold validate_one at 2.
    destruct (validate_advertisement pf raw protected) as [c|e] eqn:Hv.
    + specialize (IH (if bool_decide (c ∈ ok) then ok else (ok ++ [c])%list) errors).
      destruct (foldl _ _ raws) as [ok' errors']. destruct IH as ((more & -> & Hm) & Hnd & Hin).
      split_and!.
      * exists more. split; [done|]. rewrite Hm. split; intros H raw' Hr; [|apply H; by right].
        apply elem_of_cons in Hr as [->|Hr]; [by rewrite Hv|by apply H].
      * intros Hok. apply Hnd. case_bool_decide; [done|]. apply NoDup_app. split_and!; [done| |].
        -- intros x Hx ->%list_elem_of_singleton. done.
        -- apply NoDup_singleton.
      * intros d. rewrite Hin. setoid_rewrite elem_of_cons.
        assert (d ∈ (if bool_decide (c ∈ ok) then ok else (ok ++ [c])%list) ↔ d ∈ ok ∨ d = c) as ->
          by (case_bool_decide; set_solver).
        naive_solver congruence.
    + specialize (IH ok (errors ++ [e])%list).
      destruct (foldl _ _ raws) as [ok' errors']. destruct IH as ((more & -> & Hm) & Hnd & Hin).
      split_and!.
      * exists (e :: more). rewrite <-app_assoc. split; [done|]. split; [done|].
        intros H. specialize (H raw ltac:(by left)). by rewrite Hv in H.
      * done.
      * intros d. rewrite Hin. setoid_rewrite elem_of_cons. naive_solver congruence.
Qed.
(** The errors are those of the check, in the order of the list. *)
Lemma validate_fold_errors protected raws ok errors :
  (foldl (validate_one protected) (ok, errors) raws).2 =
    (errors ++ errors_of (λ raw, validate_advertisement pf raw protected) raws)%list.
Proof.
  revert ok errors. induction raws as [|raw raws IH]; intros ok errors; [by rewrite app_nil_r|].
  cbn [foldl]. unfold validate_one at 2, errors_of. cbn [omap list_omap].
  destruct (validate_advertisement pf raw protected) as [c|e]; rewrite IH; [done|]. by rewrite <-app_assoc.
Qed.

Lemma validate_routes_Err c protected errors :
  (validate_routes c protected).2 = Err errors ↔
  errors ≠ [] ∧ errors = errors_of (λ raw, validate_advertisement pf raw protected) (advertise_routes (router c)).
Proof.
  unfold validate_routes. pose proof (validate_fold_errors protected (advertise_routes (router c)) [] []) as He.
  destruct (foldl _ _ _) as [ok errs]. cbn in He. subst errs.
  destruct (errors_of _ _) as [|e es]; cbn; [naive_solver|]. split; [by intros [= <-]|by intros [_ ->]].
Qed.

End validate.

Lemma parse_map_to_string {CA : CidrApi} {CL : CidrLaws} l : omap cidr_parse (map cidr_to_string l) = l.
Proof. induction l as [|c l IH]; [done|]. cbn. by rewrite cidr_parse_to_string, IH. Qed.

(** Start-up validation either reports every rejected entry and changes nothing,
    or yields the configured prefixes in network form without duplicates, rewrites
    the list so, and the daemon that starts from it parses back exactly that set:
    no configured prefix is lost and none that was not checked is advertised. *)
Theorem validated_routes_start {CA : CidrApi} {CL : CidrLaws} pf c protected :
  match validate_routes pf c protected with
  | (c', Ok ok) =>
      initial_advertised c' = ok ∧ NoDup ok ∧
      (∀ cidr, cidr ∈ ok ↔
         ∃ raw, raw ∈ advertise_routes (router c) ∧ validate_advertisement pf raw protected = Ok cidr) ∧
      (∀ raw, raw ∈ advertise_routes (router c) →
         ∃ cidr, validate_advertisement pf raw protected = Ok cidr ∧ cidr ∈ ok) ∧
      stun_servers c' = stun_servers c ∧ derper_servers c' = derper_servers c
  | (c', Err errors) =>
      c' = c ∧ ∃ raw e, raw ∈ advertise_routes (router c) ∧
        validate_advertisement pf raw protected = Err e
  end.
Proof.
  unfold validate_routes, initial_advertised.
  pose proof (validate_fold pf protected (advertise_routes (router c)) [] []) as H.
  destruct (foldl _ _ _) as [ok errors]. destruct H as ((more & Hmore & Hm) & Hnd & Hin).
  cbn in Hmore. subst more. destruct errors as [|e errors].
  - cbn. assert (∀ raw, raw ∈ advertise_routes (router c) →
      ∃ cidr, validate_advertisement pf raw protected = Ok cidr) as Hall.
    { intros raw Hr. pose proof (proj1 Hm eq_refl raw Hr) as Hv.
      destruct (validate_advertisement pf raw protected); [eauto|done]. }
    split_and!; [apply parse_map_to_string|apply Hnd; constructor|set_solver| |done|done].
    intros raw Hr. destruct (Hall raw Hr) as [cidr Hv]. exists cidr. split; [done|].
    apply Hin. right. eauto.
  - split; [done|]. 
    destruct (decide (Forall (λ raw, is_err (validate_advertisement pf raw protected) = false)
      (advertise_routes (router c)))) as [Hf|Hf].
    + rewrite Forall_forall in Hf. by apply Hm in Hf.
    + apply not_Forall_Exists, Exists_exists in Hf as (raw & Hr & He); [|apply _]. cbn in He.
      destruct (validate_advertisement pf raw protected) as [|e'] eqn:Hv; [by destruct He|]. eauto.
Qed.

Definition ex_config : Config :=
  MkConfig ["stun.example:3478"] []
    (MkRouterConfig ["192.168.10.7/24"; " 192.168.10.0/24"] true true "").

(** Two spellings of one prefix start one advertisement. *)
Lemma validated_routes_start_witness :
  initial_advertised (validate_routes linux ex_config example_protected).1 = [lan24].
Proof.
  pose proof (validated_routes_start linux ex_config example_protected) as H.
  assert (validate_routes linux ex_config example_protected =
    (MkConfig ["stun.example:3478"] [] (MkRouterConfig ["192.168.10.0/24"] true true ""), Ok [lan24])) as E
    by reflexivity.
  rewrite E in H |- *. exact (proj1 H).
Defined.
