(* ===== verification/Syscalls.v ===== *)
(** What [noeio-net-route/src/forwarding.rs], [nftables.rs] and
    [noeio/src/daemon/nat.rs] ask of the operating system: a program of system
    calls. [std::fs] is written out; netfilter's side of the netlink socket is the
    class [NetlinkKernel]. A run takes a plan of faults, one outcome per call, and
    can be cut after any number of calls, which is a process that dies there. *)

From Stdlib Require Import ZArith Lia.
From Stdlib Require Import Strings.String.
From stdpp Require Import base list strings gmap.
From S2P Require Import Prelude Text NetTypes HostInfo.

Local Open Scope string_scope.
Local Open Scope Z_scope.

(** ** The messages of [netlink-packet-netfilter] and [netlink-packet-core]

    The constructors the program builds or matches. *)

Inductive NetfilterProtoFamily : Type := Unspec | ProtoIPv4.
Inductive InetHookNumber : Type := PostRouting | ForwardHook.
Inductive MetaKey : Type := Iifname | Oifname | L4Proto.
Inductive Operator : Type := Equal | NotEqual.
Inductive Register : Type := RegVerdict | Reg1.

Inductive Verdict : Type := OtherVerdict (code : Z).
Inductive DataAttribute : Type := Value (bytes : list byte) | VerdictData (code : list Verdict).
Inductive Meta : Type := MetaKeyIs (k : MetaKey) | MetaDreg (r : Register).
Inductive Cmp : Type := CmpSreg (r : Register) | CmpOp (o : Operator) | CmpData (d : DataAttribute).
Inductive Payload : Type :=
  PayloadDreg (r : Register) | PayloadBase (b : Z) | PayloadOffset (o : Z) | PayloadLen (l : Z).
Inductive Bitwise : Type :=
  | BitSreg (r : Register) | BitDreg (r : Register) | BitLength (l : Z)
  | BitMask (d : DataAttribute) | BitXor (d : DataAttribute).
Inductive Immediate : Type := ImmDreg (r : Register) | ImmData (d : DataAttribute).

(** [DefaultNla]: an attribute number and its bytes. *)
Record DefaultNla : Type := Nla { nla_kind : Z; nla_value : list byte }.

Inductive Expr : Type :=
  | EMeta (a : list Meta)
  | ECmp (a : list Cmp)
  | EPayload (a : list Payload)
  | EBitwise (a : list Bitwise)
  | EImmediate (a : list Immediate)
  | EOther (expression_type : string) (attributes : list DefaultNla).

Inductive Hook : Type := HookNumber (n : InetHookNumber) | HookPriority (p : Z).
Inductive TableAttribute : Type := TableName (n : string).
Inductive ChainAttribute : Type :=
  | ChainTable (n : string) | ChainName (n : string) | ChainPolicy (p : Z)
  | ChainType (t : string) | ChainHook (h : list Hook).
Inductive RuleAttribute : Type :=
  | RuleTable (n : string) | RuleChain (n : string) | RuleExpressions (es : list Expr).

Inductive NfTablesMessage : Type :=
  | NewTable (a : list TableAttribute)
  | DeleteTable (a : list TableAttribute)
  | GetTable (a : list TableAttribute)
  | NewChain (a : list ChainAttribute)
  | NewRule (a : list RuleAttribute)
  | GetChain (a : list ChainAttribute)
  | GetRule (a : list RuleAttribute).
Inductive ControlMessage : Type := BatchBegin | BatchEnd.

Inductive NlPayload : Type :=
  | NfInner (family : NetfilterProtoFamily) (res_id : Z) (m : NfTablesMessage)
  | NfControl (family : NetfilterProtoFamily) (res_id : Z) (c : ControlMessage)
  | NlDone
  | NlError (code : Z).  (** [code.is_some()] when it is not 0; 0 is an acknowledgement *)

Record NfMsg : Type := MkNfMsg {
  nl_flags : Z;
  nl_seq : Z;
  nl_payload : NlPayload;
}.

(** A received buffer: the messages it deserialises to, up to the first that does
    not. *)
Definition Datagram : Type := list (option NfMsg).

(** ** The kernel's side of the socket *)

Class NetlinkKernel (K : Type) : Type := {
  nl_open : K → K;  (** a new socket replaces the old one *)
  nl_send : K → list NfMsg → K;
  nl_recv : K → option (K * Datagram);  (** [None]: nothing queued, the call blocks *)
}.

(** ** Programs *)

Inductive Sys : Type → Type :=
  | FsRead (path : string) : Sys (result string IoError)
  | FsExists (path : string) : Sys bool
  | FsCreateDirAll (path : string) : Sys (result unit IoError)
  | FsWrite (path body : string) : Sys (result unit IoError)
  | FsRemove (path : string) : Sys (result unit IoError)
  | NlOpen : Sys (result unit IoError)
  | NlSend (msgs : list NfMsg) : Sys (result unit IoError)
  | NlRecv : Sys (result Datagram IoError).

(** [Hang] is a loop that ran out of its bound. *)
Inductive prog (A : Type) : Type :=
  | Ret (a : A)
  | Call {R : Type} (c : Sys R) (k : R → prog A)
  | Hang.
Arguments Ret {A} a.
Arguments Call {A R} c k.
Arguments Hang {A}.

Fixpoint bind {A B} (p : prog A) (f : A → prog B) : prog B :=
  match p with
  | Ret a => f a
  | Call c k => Call c (λ r, bind (k r) f)
  | Hang => Hang
  end.
Definition call {R} (c : Sys R) : prog R := Call c Ret.

(** [?] in a function that makes system calls. *)
Notation "'let!' x ':=' e 'in' k" :=
  (bind e (λ r, match r with Ok x => k | Err err => Ret (Err err) end))
  (at level 10, x pattern, e at level 100, k at level 200) : rust_scope.
Notation "'let*' x ':=' e 'in' k" := (bind e (λ x, k))
  (at level 10, x pattern, e at level 100, k at level 200) : rust_scope.

(** [r.map_err(f)] on the result of a program. *)
Definition map_err {A E F} (f : E → F) (r : result A E) : result A F :=
  match r with Ok a => Ok a | Err e => Err (f e) end.

(** ** Running them *)

(** What one call does: its job; nothing but report an error; for a write, leave the
    first [n] bytes and report an error; for [Path::exists], which reports no
    errors, answer [false] because the file cannot be examined. *)
Inductive Outcome : Type :=
  | Works
  | Fails (e : IoError)
  | Torn (n : nat) (e : IoError)
  | Unseen.

Record Host (K : Type) : Type := MkHost {
  files : gmap string string;
  kernel : K;
  plan : list Outcome;
}.
Arguments MkHost {K} files kernel plan.
Arguments files {K} h : rename.
Arguments kernel {K} h : rename.
Arguments plan {K} h : rename.

(** The errors of [std::io] for the OS codes the program looks at. *)
Definition EPERM : Z := 1.
Definition ENOENT : Z := 2.
Definition EACCES : Z := 13.
Definition EPROTONOSUPPORT : Z := 93.
Definition EOPNOTSUPP : Z := 95.
Definition EAFNOSUPPORT : Z := 97.

(** [io::Error::from_raw_os_error]. *)
Definition from_raw_os_error (code : Z) : IoError :=
  MkIoError (Some code)
    (if (code =? EPERM) || (code =? EACCES) then PermissionDenied
     else if code =? ENOENT then NotFound
     else if code =? EOPNOTSUPP then Unsupported
     else Other_kind) "".

Section run.
Context {K : Type} {NK : NetlinkKernel K}.

Definition fault (o : Outcome) : option IoError :=
  match o with Works | Unseen => None | Fails e | Torn _ e => Some e end.

(** One system call; [None] when it never returns. *)
Definition handle {R} (c : Sys R) (h : Host K) : Host K * option R :=
  let o := hd Works (plan h) in
  let h := MkHost (files h) (kernel h) (tl (plan h)) in
  match c with
  | FsRead p => (h, Some (match fault o with
                          | Some e => Err e
                          | None => ok_or (from_raw_os_error ENOENT) (files h !! p)
                          end))
  | FsExists p => (h, Some (match o with
                            | Unseen => false
                            | _ => bool_decide (is_Some (files h !! p))
                            end))
  | FsCreateDirAll _ => (h, Some (match fault o with Some e => Err e | None => Ok tt end))
  | FsWrite p body =>
      match o with
      | Works | Unseen => (MkHost (<[p := body]> (files h)) (kernel h) (plan h), Some (Ok tt))
      | Fails e => (h, Some (Err e))
      | Torn n e => (MkHost (<[p := String.substring 0 n body]> (files h)) (kernel h) (plan h),
                     Some (Err e))
      end
  | FsRemove p =>
      match fault o, files h !! p with
      | Some e, _ => (h, Some (Err e))
      | None, None => (h, Some (Err (from_raw_os_error ENOENT)))
      | None, Some _ => (MkHost (delete p (files h)) (kernel h) (plan h), Some (Ok tt))
      end
  | NlOpen =>
      match fault o with
      | Some e => (h, Some (Err e))
      | None => (MkHost (files h) (nl_open (kernel h)) (plan h), Some (Ok tt))
      end
  | NlSend msgs =>
      match fault o with
      | Some e => (h, Some (Err e))
      | None => (MkHost (files h) (nl_send (kernel h) msgs) (plan h), Some (Ok tt))
      end
  | NlRecv =>
      match fault o with
      | Some e => (h, Some (Err e))
      | None =>
          match nl_recv (kernel h) with
          | Some (k, d) => (MkHost (files h) k (plan h), Some (Ok d))
          | None => (h, None)
          end
      end
  end.

(** To the end; no result when a call blocks or a loop hangs. *)
Fixpoint run {A} (p : prog A) (h : Host K) : Host K * option A :=
  match p with
  | Ret a => (h, Some a)
  | Call c k =>
      match handle c h with
      | (h, Some r) => run (k r) h
      | (h, None) => (h, None)
      end
  | Hang => (h, None)
  end.

(** The process dies after [n] calls. *)
Fixpoint exec {A} (n : nat) (p : prog A) (h : Host K) : Host K * option A :=
  match p, n with
  | Ret a, _ => (h, Some a)
  | Call c k, S n =>
      match handle c h with
      | (h, Some r) => exec n (k r) h
      | (h, None) => (h, None)
      end
  | _, _ => (h, None)
  end.

(** [P] holds now and after every call of the program, and [Q] of what it returns. *)
Fixpoint always {A} (P : Host K → Prop) (Q : A → Host K → Prop) (p : prog A) (h : Host K) : Prop :=
  P h ∧
  match p with
  | Ret a => Q a h
  | Call c k =>
      match handle c h with
      | (h, Some r) => always P Q (k r) h
      | (h, None) => P h
      end
  | Hang => True
  end.

Lemma always_now {A} P Q (p : prog A) h : always P Q p h → P h.
Proof. destruct p; cbn; tauto. Qed.

Lemma always_exec {A} P Q (p : prog A) h n : always P Q p h → P (exec n p h).1.
Proof.
  revert h n. induction p as [a|R c k IH|]; intros h n H; [by destruct n, H| |by destruct n, H].
  destruct H as [HP H], n as [|n]; [done|]. cbn.
  destruct (handle c h) as [h' [r|]]; [by apply IH|done].
Qed.

Lemma always_run {A} P Q (p : prog A) h :
  always P Q p h → P (run p h).1 ∧ ∀ a, (run p h).2 = Some a → Q a (run p h).1.
Proof.
  revert h. induction p as [a|R c k IH|]; intros h [HP H]; cbn; [by split; [|intros ? [= <-]]| |done].
  destruct (handle c h) as [h' [r|]]; [by apply IH|done].
Qed.

Lemma always_bind {A B} P (Q : B → Host K → Prop) (p : prog A) (f : A → prog B) h :
  always P (λ a, always P Q (f a)) p h → always P Q (bind p f) h.
Proof.
  revert h. induction p as [a|R c k IH|]; intros h [HP H]; cbn; [done| |done].
  split; [done|]. destruct (handle c h) as [h' [r|]]; [by apply IH|done].
Qed.

Lemma always_mono {A} P (Q Q' : A → Host K → Prop) (p : prog A) h :
  (∀ a h, P h → Q a h → Q' a h) → always P Q p h → always P Q' p h.
Proof.
  intros HQ. revert h. induction p as [a|R c k IH|]; intros h [HP H]; cbn; [by split; auto| |done].
  split; [done|]. destruct (handle c h) as [h' [r|]]; [by apply IH|done].
Qed.

Lemma always_weaken {A} (P P' : Host K → Prop) (Q : A → Host K → Prop) (p : prog A) h :
  (∀ h, P h → P' h) → always P Q p h → always P' Q p h.
Proof.
  intros HP. revert h. induction p as [a|R c k IH|]; intros h [H1 H]; cbn; (split; [by apply HP|]); [done| |done].
  destruct (handle c h) as [h' [r|]]; [by apply IH|by apply HP].
Qed.

Lemma run_bind {A B} (p : prog A) (f : A → prog B) h :
  run (bind p f) h =
    match run p h with (h', Some a) => run (f a) h' | (h', None) => (h', None) end.
Proof.
  revert h. induction p as [a|R c k IH|]; intros h; cbn; [done| |done].
  destruct (handle c h) as [h' [r|]]; [by apply IH|done].
Qed.

Lemma always_and {A} P Q P' Q' (p : prog A) h :
  always P Q p h → always P' Q' p h →
  always (λ h, P h ∧ P' h) (λ a h, Q a h ∧ Q' a h) p h.
Proof.
  revert h. induction p as [a|R c k IH|]; intros h [H1 H2] [H1' H2']; cbn; [done| |done].
  split; [done|]. destruct (handle c h) as [h' [r|]]; [by apply IH|done].
Qed.

Lemma always_both {A} P P' (p : prog A) h :
  always P (λ _ _, True) p h → always P' (λ _ _, True) p h →
  always (λ h, P h ∧ P' h) (λ _ _, True) p h.
Proof. intros H H'. eapply always_mono; [|exact (always_and _ _ _ _ _ _ H H')]. done. Qed.

(** *** Programs that keep to the socket, or to the files *)

Definition is_net {R} (c : Sys R) : bool :=
  match c with NlOpen | NlSend _ | NlRecv => true | _ => false end.

Fixpoint only_net (b : bool) {A} (p : prog A) : Prop :=
  match p with
  | Call c k => is_net c = b ∧ ∀ r, only_net b (k r)
  | Ret _ | Hang => True
  end.

Lemma only_net_bind b {A B} (p : prog A) (f : A → prog B) :
  only_net b p → (∀ a, only_net b (f a)) → only_net b (bind p f).
Proof.
  intros Hp Hf. induction p as [a|R c k IH|]; cbn in *; [done| |done].
  destruct Hp as [Hc Hk]. split; [done|]. intros r. by apply IH.
Qed.

Lemma handle_net {R} (c : Sys R) h :
  is_net c = true → files (handle c h).1 = files h ∧ plan (handle c h).1 = tl (plan h).
Proof.
  destruct c; cbn; try done; intros _.
  - by destruct (fault _).
  - by destruct (fault _).
  - destruct (fault _); [done|]. by destruct (nl_recv _) as [[k d]|].
Qed.

Lemma handle_fs {R} (c : Sys R) h : is_net c = false → kernel (handle c h).1 = kernel h.
Proof.
  destruct c; cbn; try done; intros _.
  - by destruct (hd Works (plan h)).
  - by destruct (fault _), (files h !! path).
Qed.

Lemma always_net {A} (p : prog A) h (P : Host K → Prop) :
  only_net true p → P h → (∀ h1 h2, files h2 = files h1 → plan h2 = tl (plan h1) → P h1 → P h2) →
  always P (λ _ _, True) p h.
Proof.
  intros Hp HP Hstep. revert h HP Hp.
  induction p as [a|R c k IH|]; intros h HP Hp; cbn; [done| |done]. split; [done|].
  destruct Hp as [Hc Hk]. pose proof (handle_net c h Hc) as [Hf Hpl].
  destruct (handle c h) as [h' [r|]]; cbn in Hf, Hpl.
  - apply IH; [by eapply Hstep|done].
  - by eapply Hstep.
Qed.

Lemma always_fs {A} (p : prog A) h :
  only_net false p → always (λ h', kernel h' = kernel h) (λ _ _, True) p h.
Proof.
  assert (∀ h0, kernel h0 = kernel h → only_net false p →
    always (λ h', kernel h' = kernel h) (λ _ _, True) p h0) as Hall; [|by apply Hall].
  induction p as [a|R c k IH|]; intros h0 Hk Hp; cbn; [done| |done]. split; [done|].
  destruct Hp as [Hc Hk']. pose proof (handle_fs c h0 Hc) as Hf.
  destruct (handle c h0) as [h' [r|]]; cbn in Hf; [apply IH; [by rewrite Hf|apply Hk']|by rewrite Hf].
Qed.
End run.

(** A host on which nothing fails. *)
Definition healthy {K} (h : Host K) : Prop := plan h = [].
