(* ===== verification/Macos.v ===== *)
(** [noeio-net-route/src/macos.rs]: routes on macOS, one message on a routing socket per
    change. The socket and the layout of [rt_msghdr] belong to the system; what the
    code writes after the header, and what it makes of the answer, are here. *)

From Stdlib Require Import ZArith Lia.
From Stdlib Require Import Strings.Byte Strings.String.
From stdpp Require Import base list strings.
From S2P Require Import Prelude Text NetTypes NetText HostInfo NetRoute Syscalls.

Local Open Scope string_scope.
Local Open Scope Z_scope.

Definition RTM_VERSION : Z := 5.
Definition RTM_ADD : Z := 1.
Definition RTM_DELETE : Z := 2.
Definition RTF_UP : Z := 1.
Definition RTF_STATIC : Z := 2048.
Definition RTA_DST : Z := 1.
Definition RTA_GATEWAY : Z := 2.
Definition RTA_NETMASK : Z := 4.
Definition RTV_HOPCOUNT : Z := 2.
Definition AF_INET : Z := 2.
Definition AF_LINK : Z := 18.

(** The fields of [rt_msghdr] the code sets or reads; the others are zero. *)
Record RtMsghdr : Type := MkHeader {
  rtm_msglen : Z;
  rtm_version : Z;
  rtm_type : Z;
  rtm_flags : Z;
  rtm_addrs : Z;
  rtm_pid : Z;
  rtm_seq : Z;
  rtm_errno : Z;
  rtm_inits : Z;
  rmx_hopcount : Z;
}.

Record RouteMessage : Type := MkMessage { header : RtMsghdr; attrs : list byte }.

(** The layout of the header, and a process's view of the kernel's routing sockets:
    opening one, writing a whole message and reading at most so many bytes. *)
Class RouteSocket (K : Type) : Type := {
  hdr_len : nat;
  hdr_bytes : RtMsghdr → list byte;
  hdr_read : list byte → RtMsghdr;
  getpid : Z;
  rt_open : K → K * result unit IoError;
  rt_write : K → list byte → K * result unit IoError;
  rt_read : K → nat → K * result (list byte) IoError;
}.

Definition hdr_wf (h : RtMsghdr) : Prop :=
  is_uint 16 (rtm_msglen h) ∧ is_uint 8 (rtm_version h) ∧ is_uint 8 (rtm_type h) ∧
  Forall (is_uint 32) [rtm_flags h; rtm_addrs h; rtm_pid h; rtm_seq h; rtm_errno h; rtm_inits h; rmx_hopcount h].

Class RouteSocketLaws (K : Type) {RS : RouteSocket K} : Prop := {
  hdr_len_small : Z.of_nat hdr_len + 128 < 65536;
  hdr_bytes_len : ∀ h, length (hdr_bytes h) = hdr_len;
  hdr_read_bytes : ∀ h rest, hdr_wf h → hdr_read (hdr_bytes h ++ rest) = h;
  getpid_u32 : is_uint 32 getpid;
}.

(** ** Addresses *)

Definition ipv4_target (target : IpAddr) : result Z IoError :=
  match target with
  | IpV4 a => Ok a
  | IpV6 _ => Err (io_error InvalidInput "macOS route helper currently supports IPv4 targets only")
  end.

Definition ifindex_u16 (ifindex : Z) : result Z IoError :=
  if ifindex <? 65536 then Ok ifindex
  else Err (io_error InvalidInput ("interface index is too large for macOS: " +:+ show_uint ifindex)).

(** Native byte order is little-endian on every macOS. *)
Definition ne_bytes (n : nat) (z : Z) : list byte := rev (be_bytes n z).

(** [sockaddr_in] and [sockaddr_dl], field by field. *)
Definition ipv4_sockaddr (addr : Z) : list byte :=
  ([byte_of_Z 16; byte_of_Z AF_INET] ++ ne_bytes 2 0 ++ be_bytes 4 addr ++ replicate 8 Byte.x00)%list.
Definition interface_sockaddr (ifindex : Z) : list byte :=
  ([byte_of_Z 20; byte_of_Z AF_LINK] ++ ne_bytes 2 ifindex
   ++ [Byte.x00; Byte.x00; Byte.x00; Byte.x00] ++ replicate 12 Byte.x00)%list.

(** [None] is the overflow of [32 - prefix]. *)
Definition prefix_to_mask (prefix : Z) : option Z :=
  if prefix =? 0 then Some 0
  else if prefix =? 32 then Some U32_MAX
  else if prefix <? 32 then Some (wrap 32 (Z.shiftl U32_MAX (32 - prefix))) else None.

(** [attrs[offset..offset + len].copy_from_slice(bytes)], which panics past the end. *)
Definition append_attr (s : list byte * nat) (attr : list byte) : option (list byte * nat) :=
  let '(attrs, offset) := s in
  if (offset + length attr <=? length attrs)%nat
  then Some (copy_at offset attr attrs, (offset + length attr)%nat) else None.

(** ** Messages *)

Section macos.
Context {K : Type} {RS : RouteSocket K}.

(** [None] is a panic. *)
Definition new_message (rtm_type target prefix : Z) (ifindex : option Z) :
    option (result RouteMessage IoError) :=
  s ← append_attr (replicate 128 Byte.x00, 0%nat) (ipv4_sockaddr target);
  '(s, addrs) ← (match ifindex with
    | Some i => s ← append_attr s (interface_sockaddr i); Some (s, Z.lor (Z.lor RTA_DST RTA_NETMASK) RTA_GATEWAY)
    | None => Some (s, Z.lor RTA_DST RTA_NETMASK)
    end : option (list byte * nat * Z));
  mask ← prefix_to_mask prefix;
  '(attrs, offset) ← append_attr s (ipv4_sockaddr mask);
  let message_len := Z.of_nat (hdr_len + offset) in
  Some (if message_len <? 65536
        then Ok (MkMessage (MkHeader message_len RTM_VERSION rtm_type (Z.lor RTF_UP RTF_STATIC) addrs
                              getpid 1 0 0 0) attrs)
        else Err (io_error InvalidInput "macOS route message is too large")).

Definition message_bytes (m : RouteMessage) : list byte := (hdr_bytes (header m) ++ attrs m)%list.

Definition short_response : IoError :=
  io_error UnexpectedEof "macOS route socket returned a short response".

Definition send (k : K) (m : RouteMessage) : K * result unit IoError :=
  let message_len := Z.to_nat (rtm_msglen (header m)) in
  match rt_open k with
  | (k, Err e) => (k, Err e)
  | (k, Ok _) =>
      match rt_write k (take message_len (message_bytes m)) with
      | (k, Err e) => (k, Err e)
      | (k, Ok _) =>
          match rt_read k (hdr_len + 128) with
          | (k, Err e) => (k, Err e)
          | (k, Ok reply) =>
              if (length reply <? hdr_len)%nat then (k, Err short_response)
              else let errno := rtm_errno (hdr_read reply) in
                   if negb (errno =? 0) then (k, Err (from_raw_os_error errno)) else (k, Ok tt)
          end
      end
  end.

Definition with_metric (metric : Z) (m : RouteMessage) : RouteMessage :=
  let h := header m in
  MkMessage (MkHeader (rtm_msglen h) (rtm_version h) (rtm_type h) (rtm_flags h) (rtm_addrs h)
    (rtm_pid h) (rtm_seq h) (rtm_errno h) RTV_HOPCOUNT metric) (attrs m).

(** [macos::add_route] and [macos::del_route]; [None] is a panic. *)
Definition macos_add_route (k : K) (target : IpAddr) (prefix ifindex metric : Z) :
    option (K * result unit IoError) :=
  match ipv4_target target, ifindex_u16 ifindex with
  | Err e, _ | _, Err e => Some (k, Err e)
  | Ok a, Ok i =>
      r ← new_message RTM_ADD a prefix (Some i);
      Some (match r with Ok m => send k (with_metric metric m) | Err e => (k, Err e) end)
  end.
Definition macos_del_route (k : K) (target : IpAddr) (prefix : Z) (ifindex : option Z) :
    option (K * result unit IoError) :=
  match ipv4_target target with
  | Err e => Some (k, Err e)
  | Ok a =>
      match (match ifindex with
             | None => Ok None
             | Some i => match ifindex_u16 i with Ok i => Ok (Some i) | Err e => Err e end
             end) with
      | Err e => Some (k, Err e)
      | Ok i =>
          r ← new_message RTM_DELETE a prefix i;
          Some (match r with Ok m => send k m | Err e => (k, Err e) end)
      end
  end.

(** [lib.rs]'s [add_route] and [del_route] on macOS. *)
Definition add_route (k : K) (target : IpAddr) (prefix ifindex metric : Z) :
    option (K * result unit IoError) :=
  match check_prefix target prefix with
  | Err e => Some (k, Err e)
  | Ok _ => macos_add_route k target prefix ifindex metric
  end.
Definition del_route (k : K) (target : IpAddr) (prefix : Z) (ifindex : option Z) :
    option (K * result unit IoError) :=
  match check_prefix target prefix with
  | Err e => Some (k, Err e)
  | Ok _ => macos_del_route k target prefix ifindex
  end.
End macos.

(** ** What the kernel reads *)

(** The kernel takes the addresses in the order of their bits; each starts with its
    length, and the next begins at the following multiple of four. *)
Definition sa_take (bs : list byte) : option (list byte * list byte) :=
  b ← head bs;
  let n := Z.to_nat (Z_of_byte b) in
  let step := if (n =? 0)%nat then 4%nat else (4 * ((n + 3) / 4))%nat in
  if (step <=? length bs)%nat then Some (take n bs, drop step bs) else None.
Definition next_addr (bit addrs : Z) (bs : list byte) : option (option (list byte) * list byte) :=
  if Z.land addrs bit =? 0 then Some (None, bs)
  else '(sa, bs) ← sa_take bs; Some (Some sa, bs).

Definition in_addr (sa : list byte) : option Z :=
  f ← slice 1 2 sa; a ← slice 4 8 sa; if be_val f =? AF_INET then Some (be_val a) else None.
Definition dl_index (sa : list byte) : option Z :=
  f ← slice 1 2 sa; i ← slice 2 4 sa; if be_val f =? AF_LINK then Some (be_val (rev i)) else None.

Record Request : Type := MkRequest { req_dst : Z; req_ifindex : option Z; req_mask : Z }.

(** The addresses of a message whose header says which there are, and what is left. *)
Definition read_request (addrs : Z) (bs : list byte) : option (Request * list byte) :=
  '(dst, bs) ← next_addr RTA_DST addrs bs;
  '(gateway, bs) ← next_addr RTA_GATEWAY addrs bs;
  '(mask, bs) ← next_addr RTA_NETMASK addrs bs;
  dst ← dst ≫= in_addr;
  mask ← mask ≫= in_addr;
  gateway ← (match gateway with
             | None => Some None
             | Some sa => i ← dl_index sa; Some (Some i)
             end : option (option Z));
  Some (MkRequest dst gateway mask, bs).

Lemma length_native n z : length (ne_bytes n z) = n.
Proof. unfold ne_bytes. by rewrite length_rev, length_be_bytes. Qed.
Lemma length_ipv4_sockaddr a : length (ipv4_sockaddr a) = 16%nat.
Proof. unfold ipv4_sockaddr. by rewrite !length_app, length_native, length_be_bytes. Qed.
Lemma length_interface_sockaddr i : length (interface_sockaddr i) = 20%nat.
Proof. unfold interface_sockaddr. by rewrite !length_app, length_native. Qed.

Lemma sa_take_app b sa rest q :
  head sa = Some b → length sa = Z.to_nat (Z_of_byte b) → length sa = (4 * S q)%nat →
  sa_take (sa ++ rest) = Some (sa, rest).
Proof.
  intros Hb Hl Hq. unfold sa_take. destruct sa as [|x sa]; [done|]. injection Hb as ->.
  cbn [app head mbind option_bind]. rewrite <-Hl, Hq.
  replace (4 * ((4 * S q + 3) / 4))%nat with (4 * S q)%nat
    by (symmetry; f_equal; rewrite Nat.mul_comm, Nat.div_add_l by done; by rewrite Nat.add_0_r).
  rewrite (proj2 (Nat.eqb_neq _ _)) by lia.
  change (b :: sa ++ rest)%list with ((b :: sa) ++ rest)%list.
  rewrite (proj2 (Nat.leb_le _ _)) by (rewrite length_app; lia).
  by rewrite <-Hq, take_app_length, drop_app_length.
Qed.

Lemma sa_take_ipv4 a rest : sa_take (ipv4_sockaddr a ++ rest) = Some (ipv4_sockaddr a, rest).
Proof. by apply (sa_take_app (byte_of_Z 16) _ _ 3); rewrite ?length_ipv4_sockaddr. Qed.
Lemma sa_take_interface i rest : sa_take (interface_sockaddr i ++ rest) = Some (interface_sockaddr i, rest).
Proof. by apply (sa_take_app (byte_of_Z 20) _ _ 4); rewrite ?length_interface_sockaddr. Qed.

Lemma slice_at {A} lo hi (l1 l2 l3 : list A) :
  length l1 = lo → (lo + length l2 = hi)%nat → slice lo hi (l1 ++ l2 ++ l3) = Some l2.
Proof. intros <- <-. apply slice_app_exact. Qed.

Lemma in_addr_ipv4 a : is_uint 32 a → in_addr (ipv4_sockaddr a) = Some a.
Proof.
  intros Ha. unfold in_addr.
  assert (slice 1 2 (ipv4_sockaddr a) = Some [byte_of_Z AF_INET]) as ->
    by exact (slice_at 1 2 [byte_of_Z 16] [byte_of_Z AF_INET] _ eq_refl eq_refl).
  assert (slice 4 8 (ipv4_sockaddr a) = Some (be_bytes 4 a)) as ->.
  { apply (slice_at 4 8 ([byte_of_Z 16; byte_of_Z AF_INET] ++ ne_bytes 2 0)%list (be_bytes 4 a) (replicate 8 Byte.x00));
      by rewrite ?length_app, ?length_native, ?length_be_bytes. }
  cbn [mbind option_bind]. rewrite be_val_be_bytes_small by exact Ha. done.
Qed.

Lemma dl_index_interface i : is_uint 16 i → dl_index (interface_sockaddr i) = Some i.
Proof.
  intros Hi. unfold dl_index.
  assert (slice 1 2 (interface_sockaddr i) = Some [byte_of_Z AF_LINK]) as ->
    by exact (slice_at 1 2 [byte_of_Z 20] [byte_of_Z AF_LINK] _ eq_refl eq_refl).
  assert (slice 2 4 (interface_sockaddr i) = Some (ne_bytes 2 i)) as ->.
  { apply (slice_at 2 4 [byte_of_Z 20; byte_of_Z AF_LINK] (ne_bytes 2 i)); by rewrite ?length_native. }
  cbn [mbind option_bind]. unfold ne_bytes. rewrite rev_involutive, be_val_be_bytes_small by exact Hi. done.
Qed.

(** The buffer holds what was appended so far, then zeros. *)
Lemma append_attr_zeros done_ n attr :
  (length attr ≤ n)%nat →
  append_attr ((done_ ++ replicate n Byte.x00)%list, length done_) attr =
    Some (((done_ ++ attr) ++ replicate (n - length attr) Byte.x00)%list, length (done_ ++ attr)).
Proof.
  intros Hn. unfold append_attr. rewrite !length_app, length_replicate.
  rewrite (proj2 (Nat.leb_le _ _)) by lia. unfold copy_at.
  rewrite take_app_length, drop_app_add, drop_replicate, <-app_assoc. done.
Qed.

Lemma mask_bits p : 0 ≤ p ≤ 32 →
  ∃ m, prefix_to_mask p = Some m ∧ is_uint 32 m ∧ ∀ i, 0 ≤ i < 32 → Z.testbit m i = (32 - p <=? i).
Proof.
  intros Hp. unfold prefix_to_mask.
  destruct (Z.eqb_spec p 0) as [->|H0].
  { eexists. split; [reflexivity|]. split; [done|]. intros i Hi. rewrite Z.bits_0. lia. }
  destruct (Z.eqb_spec p 32) as [->|H32].
  { eexists. split; [reflexivity|]. split; [done|]. intros i Hi. change U32_MAX with (Z.ones 32).
    rewrite Z.ones_spec_low by lia. lia. }
  rewrite (proj2 (Z.ltb_lt _ _)) by lia. eexists. split; [reflexivity|]. split; [by apply wrap_uint|].
  intros i Hi. unfold wrap. rewrite Z.mod_pow2_bits_low, Z.shiftl_spec by lia.
  destruct (Z.leb_spec (32 - p) i).
  - change U32_MAX with (Z.ones 32). apply Z.ones_spec_low. lia.
  - apply Z.testbit_neg_r. lia.
Qed.

Section facts.
Context {K : Type} {RS : RouteSocket K} {RSL : RouteSocketLaws K}.

Definition gateway_bytes (ifx : option Z) : list byte := from_option interface_sockaddr [] ifx.
Definition addr_bits (ifx : option Z) : Z :=
  match ifx with Some _ => 7 | None => 5 end.

(** What a message is made of. *)
Lemma new_message_spec ty a p ifx : 0 ≤ p ≤ 32 →
  ∃ mask n, prefix_to_mask p = Some mask ∧
    let sas := (ipv4_sockaddr a ++ gateway_bytes ifx ++ ipv4_sockaddr mask)%list in
    new_message (K := K) ty a p ifx =
      Some (Ok (MkMessage (MkHeader (Z.of_nat (hdr_len + length sas)) RTM_VERSION ty (Z.lor RTF_UP RTF_STATIC)
        (addr_bits ifx) getpid 1 0 0 0) (sas ++ replicate n Byte.x00)%list)).
Proof.
  intros Hp. destruct (mask_bits p Hp) as (mask & Hm & _). exists mask, (128 - 32 - length (gateway_bytes ifx))%nat.
  split; [done|]. cbv zeta. unfold new_message. rewrite Hm.
  rewrite (append_attr_zeros [] 128) by (rewrite length_ipv4_sockaddr; lia). cbn [mbind option_bind].
  rewrite length_ipv4_sockaddr, app_nil_l.
  pose proof (hdr_len_small (K := K)) as Hh.
  destruct ifx as [i|]; cbn [gateway_bytes from_option mbind option_bind].
  all: rewrite ?app_nil_l.
  - rewrite append_attr_zeros by (rewrite ?length_interface_sockaddr, ?length_ipv4_sockaddr; lia). cbn [mbind option_bind].
    rewrite append_attr_zeros by (rewrite ?length_interface_sockaddr, ?length_ipv4_sockaddr; lia).
    cbn [mbind option_bind]. rewrite !length_app, !length_ipv4_sockaddr, length_interface_sockaddr.
    destruct (Z.ltb_spec (Z.of_nat (hdr_len (K := K) + (16 + 20 + 16))) 65536); [|lia]. by rewrite <-!app_assoc.
  - rewrite append_attr_zeros by (rewrite ?length_interface_sockaddr, ?length_ipv4_sockaddr; lia).
    cbn [mbind option_bind]. rewrite !length_app, !length_ipv4_sockaddr.
    destruct (Z.ltb_spec (Z.of_nat (hdr_len (K := K) + (16 + 16))) 65536); [|lia]. by rewrite <-!app_assoc.
Qed.

Lemma read_request_sas a mask ifx :
  is_uint 32 a → is_uint 32 mask → (∀ i, ifx = Some i → is_uint 16 i) →
  read_request (addr_bits ifx) (ipv4_sockaddr a ++ gateway_bytes ifx ++ ipv4_sockaddr mask) =
    Some (MkRequest a ifx mask, []).
Proof.
  intros Ha Hm Hi. unfold read_request, next_addr.
  assert (Hlast : sa_take (ipv4_sockaddr mask) = Some (ipv4_sockaddr mask, []))
    by (rewrite <-(app_nil_r (ipv4_sockaddr mask)) at 1; apply sa_take_ipv4).
  destruct ifx as [i|]; cbn [addr_bits gateway_bytes from_option].
  - change (Z.land 7 RTA_DST =? 0) with false. change (Z.land 7 RTA_GATEWAY =? 0) with false.
    change (Z.land 7 RTA_NETMASK =? 0) with false. cbv iota.
    rewrite sa_take_ipv4. cbn [mbind option_bind]. rewrite sa_take_interface. cbn [mbind option_bind].
    rewrite Hlast. cbn [mbind option_bind]. rewrite !in_addr_ipv4 by done. cbn [mbind option_bind].
    by rewrite dl_index_interface by auto.
  - change (Z.land 5 RTA_DST =? 0) with false. change (Z.land 5 RTA_GATEWAY =? 0) with true.
    change (Z.land 5 RTA_NETMASK =? 0) with false. cbv iota.
    rewrite sa_take_ipv4. cbn [mbind option_bind app]. rewrite Hlast. cbn [mbind option_bind].
    by rewrite !in_addr_ipv4 by done.
Qed.

Lemma send_result k m k1 k2 k3 h rest :
  rt_open k = (k1, Ok tt) →
  rt_write k1 (take (Z.to_nat (rtm_msglen (header m))) (message_bytes m)) = (k2, Ok tt) →
  hdr_wf h → rt_read k2 (hdr_len + 128) = (k3, Ok (hdr_bytes h ++ rest)%list) →
  send k m = (k3, if rtm_errno h =? 0 then Ok tt else Err (from_raw_os_error (rtm_errno h))).
Proof.
  intros Ho Hw Hh Hr. unfold send. rewrite Ho, Hw, Hr.
  rewrite (proj2 (Nat.ltb_ge _ _)) by (rewrite length_app, hdr_bytes_len; lia).
  rewrite hdr_read_bytes by done. by destruct (rtm_errno h =? 0).
Qed.
End facts.

(** A route message says what was asked. For every IPv4 prefix, with or without an
    interface, building it neither runs past the buffer nor truncates its length, and a
    kernel that walks the addresses in the order of their bits reads back exactly the
    destination, the interface when one is given, and the mask whose leading [prefix]
    bits are set, with nothing left over. *)
Theorem route_message_readable {K} {RS : RouteSocket K} {RSL : RouteSocketLaws K} ty a p ifx
    (Ht : is_uint 8 ty) (Ha : is_uint 32 a) (Hp : 0 ≤ p ≤ 32) (Hi : ∀ i, ifx = Some i → is_uint 16 i) :
  ∃ m mask, new_message (K := K) ty a p ifx = Some (Ok m) ∧
    let bytes := take (Z.to_nat (rtm_msglen (header m))) (message_bytes m) in
    rtm_msglen (header m) = Z.of_nat (length bytes) ∧
    hdr_read bytes = header m ∧ rtm_type (header m) = ty ∧
    read_request (rtm_addrs (header m)) (drop hdr_len bytes) = Some (MkRequest a ifx mask, []) ∧
    ∀ i, 0 ≤ i < 32 → Z.testbit mask i = (32 - p <=? i).
Proof.
  destruct (new_message_spec (K := K) ty a p ifx Hp) as (mask & n & Hmask & Hnew).
  destruct (mask_bits p Hp) as (mask' & Hmask' & Hu & Hbits).
  rewrite Hmask in Hmask'. injection Hmask' as <-.
  eexists _, mask. split; [exact Hnew|]. cbn [header rtm_msglen rtm_type rtm_addrs].
  unfold message_bytes. cbn [header attrs]. rewrite Nat2Z.id.
  set (sas := (ipv4_sockaddr a ++ gateway_bytes ifx ++ ipv4_sockaddr mask)%list).
  set (h := MkHeader _ _ _ _ _ _ _ _ _ _).
  rewrite app_assoc, take_app_length' by (by rewrite length_app, hdr_bytes_len). split_and!.
  - by rewrite length_app, hdr_bytes_len.
  - apply hdr_read_bytes. pose proof (hdr_len_small (K := K)). subst h. unfold hdr_wf.
    cbn [rtm_msglen rtm_version rtm_type rtm_flags rtm_addrs rtm_pid rtm_seq rtm_errno rtm_inits rmx_hopcount].
    split_and!; [|done|done|].
    + unfold sas, is_uint. rewrite !length_app, !length_ipv4_sockaddr. destruct ifx; cbn [gateway_bytes from_option];
        rewrite ?length_interface_sockaddr; cbn [length]; lia.
    + rewrite !Forall_cons. split_and!; try done; [by destruct ifx|apply getpid_u32].
  - done.
  - rewrite drop_app_length' by (by rewrite hdr_bytes_len). by apply read_request_sas.
  - exact Hbits.
Qed.

(** Both calls came back with an error that names a bad argument. *)
Ltac refused :=
  refine (ex_intro _ _ (ex_intro _ _ (conj _ (conj _ (conj eq_refl eq_refl))))); reflexivity.

(** C38. The route calls on macOS, on every input a [u8] prefix, a [u32] interface and an
    address can be. They never panic: what the checks let through cannot overflow the
    mask or the buffer. A prefix too long, an IPv6 target and an interface above 65535
    are refused before any system call. Everything else is one exchange on a fresh
    socket, whose result is decided by the first message read from it: its errno,
    whatever the process, the sequence number and the kind of change it names, although
    every routing socket of the host is sent the messages about everybody's changes. *)
Theorem mac_route_calls {K} {RS : RouteSocket K} {RSL : RouteSocketLaws K} k target p i metric
    (Ha : ip_wf target) (Hp : is_uint 8 p) (Hi : is_uint 32 i) :
  if bool_decide (p ≤ 32 ∧ i < 65536) && is_ipv4 target
  then ∃ m d,
    add_route k target p i metric = Some (send k m) ∧ del_route k target p (Some i) = Some (send k d) ∧
    ∀ x, x = m ∨ x = d → ∀ k1 k2 k3 h rest,
      rt_open k = (k1, Ok tt) →
      rt_write k1 (take (Z.to_nat (rtm_msglen (header x))) (message_bytes x)) = (k2, Ok tt) →
      hdr_wf h → rt_read k2 (hdr_len + 128) = (k3, Ok (hdr_bytes h ++ rest)%list) →
      (send k x).2 = if rtm_errno h =? 0 then Ok tt else Err (from_raw_os_error (rtm_errno h))
  else ∃ e e', io_kind e = InvalidInput ∧ io_kind e' = InvalidInput ∧
    add_route k target p i metric = Some (k, Err e) ∧ del_route k target p (Some i) = Some (k, Err e').
Proof.
  unfold add_route, del_route, macos_add_route, macos_del_route, check_prefix, ifindex_u16.
  unfold is_uint in *. destruct target as [a|a]; cbn [is_ipv4 ipv4_target]; rewrite ?andb_true_r, ?andb_false_r.
  - case_bool_decide as Hr.
    + destruct (Z.ltb_spec 32 p), (Z.ltb_spec i 65536); try lia.
      destruct (new_message_spec (K := K) RTM_ADD a p (Some i)) as (? & ? & _ & ->); [lia|].
      destruct (new_message_spec (K := K) RTM_DELETE a p (Some i)) as (? & ? & _ & ->); [lia|].
      cbn [mbind option_bind]. eexists _, _. split; [reflexivity|]. split; [reflexivity|].
      intros y _ k1 k2 k3 h rest H1 H2 Hh H3. by rewrite (send_result k y k1 k2 k3 h rest).
    + destruct (Z.ltb_spec 32 p); [refused|].
      destruct (Z.ltb_spec i 65536); [lia|refused].
  - destruct (Z.ltb_spec 128 p); refused.
Qed.

(** ** A concrete kernel *)

(** The header as Darwin lays it out, and a kernel whose sockets hold the messages that
    wait to be read. *)
Module Darwin.
Definition le_at (lo hi : nat) (bs : list byte) : Z := be_val (rev (take (hi - lo) (drop lo bs))).

Definition to_bytes (h : RtMsghdr) : list byte :=
  (ne_bytes 2 (rtm_msglen h) ++ ne_bytes 1 (rtm_version h) ++ ne_bytes 1 (rtm_type h) ++ ne_bytes 4 0
   ++ ne_bytes 4 (rtm_flags h) ++ ne_bytes 4 (rtm_addrs h) ++ ne_bytes 4 (rtm_pid h) ++ ne_bytes 4 (rtm_seq h)
   ++ ne_bytes 4 (rtm_errno h) ++ ne_bytes 4 0 ++ ne_bytes 4 (rtm_inits h) ++ ne_bytes 8 0
   ++ ne_bytes 4 (rmx_hopcount h) ++ replicate 44 Byte.x00)%list.
Definition of_bytes (bs : list byte) : RtMsghdr :=
  MkHeader (le_at 0 2 bs) (le_at 2 3 bs) (le_at 3 4 bs) (le_at 8 12 bs) (le_at 12 16 bs) (le_at 16 20 bs)
    (le_at 20 24 bs) (le_at 24 28 bs) (le_at 32 36 bs) (le_at 44 48 bs).

#[export] Instance socket : RouteSocket (list (list byte)) := {|
  hdr_len := 92;
  hdr_bytes := to_bytes;
  hdr_read := of_bytes;
  getpid := 501;
  rt_open k := (k, Ok tt);
  rt_write k bs := (k, Ok tt);
  rt_read k n := match k with
                 | m :: k => (k, Ok (take n m))
                 | [] => ([], Err (io_error TimedOut "no message"))
                 end;
|}.

Lemma ne_bytes_val n z : 0 ≤ z < 256 ^ Z.of_nat n → be_val (rev (ne_bytes n z)) = z.
Proof. intros Hz. unfold ne_bytes. rewrite rev_involutive. by apply be_val_be_bytes_small. Qed.

Lemma le_at_skip n z lo hi rest :
  (n ≤ lo)%nat → le_at lo hi (ne_bytes n z ++ rest) = le_at (lo - n) (hi - n) rest.
Proof.
  intros Hn. unfold le_at. rewrite drop_app_ge by (by rewrite length_native).
  rewrite length_native. do 3 f_equal. lia.
Qed.
Lemma le_at_head n hi z rest : hi = n → 0 ≤ z < 256 ^ Z.of_nat n → le_at 0 hi (ne_bytes n z ++ rest) = z.
Proof.
  intros -> Hz. unfold le_at. rewrite drop_0, Nat.sub_0_r.
  rewrite take_app_length' by (by rewrite length_native). by apply ne_bytes_val.
Qed.

Ltac read_field :=
  rewrite <-?app_assoc; repeat (rewrite le_at_skip by (cbn; lia); cbn [Nat.sub]);
  apply le_at_head; [reflexivity|assumption].

#[export] Instance laws : RouteSocketLaws (list (list byte)).
Proof.
  split; [done| | |done].
  - intros h. cbn [hdr_bytes socket hdr_len]. unfold to_bytes.
    by rewrite !length_app, !length_native.
  - intros h rest (H1 & H2 & H3 & H). rewrite !Forall_cons in H. destruct H as (H4 & H5 & H6 & H7 & H8 & H9 & H10 & _).
    cbn [hdr_bytes hdr_read socket]. unfold to_bytes, of_bytes.
    destruct h. cbn [rtm_msglen rtm_version rtm_type rtm_flags rtm_addrs rtm_pid rtm_seq rtm_errno
      rtm_inits rmx_hopcount] in *. f_equal; read_field.
Qed.
End Darwin.
Import Darwin.

Lemma route_message_readable_witness :
  ∃ m mask, new_message (K := list (list byte)) RTM_ADD (ipv4 10 1 0 0) 20 (Some 7) = Some (Ok m) ∧
    read_request (rtm_addrs (header m))
      (drop 92 (take (Z.to_nat (rtm_msglen (header m))) (message_bytes m))) =
      Some (MkRequest (ipv4 10 1 0 0) (Some 7) mask, []) ∧
    mask = ipv4 255 255 240 0.
Proof.
  destruct (route_message_readable (K := list (list byte)) RTM_ADD (ipv4 10 1 0 0) 20 (Some 7))
    as (m & mask & Hm & _ & _ & _ & Hreq & _); [done|done|lia|by intros i [= <-]|].
  exists m, mask. split; [exact Hm|]. split; [exact Hreq|].
  assert (E : new_message (K := list (list byte)) RTM_ADD (ipv4 10 1 0 0) 20 (Some 7) = Some (Ok m)) by exact Hm.
  clear Hm. vm_compute in E. injection E as <-. vm_compute in Hreq. by injection Hreq.
Defined.

(** Somebody else's failure is the first message read: the answer is its errno. *)
Definition foreign : RtMsghdr := MkHeader 92 RTM_VERSION RTM_DELETE 0 0 999 7 17 0 0.
Lemma mac_route_calls_witness :
  ∃ m d, add_route [Darwin.to_bytes foreign] (IpV4 (ipv4 10 1 0 0)) 20 7 ROUTE_METRIC =
      Some (send [Darwin.to_bytes foreign] m) ∧
    del_route [Darwin.to_bytes foreign] (IpV4 (ipv4 10 1 0 0)) 20 (Some 7) =
      Some (send [Darwin.to_bytes foreign] d) ∧
    (send [Darwin.to_bytes foreign] m).2 = Err (from_raw_os_error 17).
Proof.
  destruct (mac_route_calls [Darwin.to_bytes foreign] (IpV4 (ipv4 10 1 0 0)) 20 7 ROUTE_METRIC)
    as (m & d & Hm & Hd & Hr); [done|done|done|].
  exists m, d. split; [exact Hm|]. split; [exact Hd|].
  rewrite (Hr m (or_introl eq_refl) [Darwin.to_bytes foreign] [Darwin.to_bytes foreign] [] foreign []);
    [done|done|done| |reflexivity].
  split_and!; try done. repeat constructor; done.
Defined.
