(* ===== verification/ConfigFiles.v ===== *)
(** The configuration files: [Config::load] of [noeio/src/config.rs] and of
    [noeio-derp/src/config.rs] with its [persist], as programs of system calls. The
    TOML reader and writer that [serde] derives are third-party: the class
    [TomlFormat]. A panic is a program that returns nothing. *)

From Stdlib Require Import ZArith Lia.
From Stdlib Require Import Strings.Byte Strings.Ascii Strings.String.
From stdpp Require Import base list strings gmap.
From S2P Require Import Prelude Text NetTypes CidrModel HostInfo HostCodec CodecModel Routes Token Config Syscalls.

Local Open Scope string_scope.
Local Open Scope Z_scope.
Local Open Scope rust_scope.

(** [toml::from_str] and [toml::to_string_pretty] at one type. *)
Class TomlFormat (C : Type) : Type := {
  toml_from_str : string → result C string;
  toml_to_string_pretty : C → result string string;
}.

(** The types here are tables of strings, booleans and lists, every field but the
    address of a relay has a default: what is written reads back, and the empty
    document is the default value. *)
Class TomlLaws (C : Type) {TF : TomlFormat C} (initial : C) : Prop := {
  toml_roundtrip : ∀ c, ∃ s, toml_to_string_pretty c = Ok s ∧ toml_from_str s = Ok c;
  toml_empty : toml_from_str "" = Ok initial;
}.

(** ** [std::path::Path] *)

Definition SLASH : ascii := "/".
Definition ends_with_slash (s : string) : bool :=
  match String.get (String.length s - 1) s with Some c => bool_decide (c = SLASH) | None => false end.

(** [a.join(b)] for a relative [b]. *)
Definition path_join (a b : string) : string :=
  if bool_decide (a = "") || ends_with_slash a then a +:+ b else a +:+ String SLASH b.

(** Empty and [.] components at the end do not count. *)
Fixpoint skip_blank (l : list string) : list string :=
  match l with
  | [] => []
  | c :: l' => if bool_decide (c = "" ∨ c = ".") then skip_blank l' else l
  end.
Definition trim_components (l : list string) : list string := rev (skip_blank (rev l)).

(** [p.parent()] *)
Definition path_parent (p : string) : option string :=
  match split_char SLASH p with
  | [] => None
  | first :: rest =>
      match rev (trim_components rest) with
      | [] => if bool_decide (first = "") then None else Some ""
      | _ :: front =>
          let front := trim_components (rev front) in
          Some (if bool_decide (first = "") && bool_decide (front = []) then "/"
                else join SLASH (first :: front))
      end
  end.

Example parents : map path_parent ["/a/b"; "/a"; "a"; "/"; ""; "a/b/"; "a/./b"; "./a"; "//x//y/."] =
  [Some "/a"; Some "/"; Some ""; None; None; Some "a"; Some "a"; Some "."; Some "//x"].
Proof. reflexivity. Qed.

(** ** The node *)

(** Reading and parsing; both failures panic. *)
Definition read_config {C} {TF : TomlFormat C} (p : string) : prog (option C) :=
  let* content := call (FsRead p) in
  Ret (match content with
       | Ok content => result_ok (toml_from_str content)
       | Err _ => None
       end).

Definition user_config (home : string) : string := path_join (path_join home ".noeio") "config.toml".

(** [Config::load]; [home] is [std::env::home_dir()]. *)
Definition load {TF : TomlFormat Config} (home path : option string) : prog (option Config) :=
  match path with
  | Some p => read_config p
  | None =>
      match home with
      | None => Ret None
      | Some home =>
          let config_path := user_config home in
          let* found := call (FsExists config_path) in
          if found then read_config config_path
          else
            let* made := call (FsCreateDirAll (path_join home ".noeio")) in
            match made, toml_to_string_pretty config_default with
            | Ok _, Ok default_config =>
                let* written := call (FsWrite config_path default_config) in
                Ret (match written with Ok _ => Some config_default | Err _ => None end)
            | _, _ => Ret None
            end
      end
  end.

(** ** The relay *)

Record DerpConfig : Type := MkDerpConfig { auth : Auth }.
Definition derp_config_default : DerpConfig := MkDerpConfig auth_default.

Section derper.
Context {TF : TomlFormat DerpConfig}.

(** [persist]: whether it returned. *)
Definition persist (c : DerpConfig) (p : string) : prog bool :=
  let* made := match path_parent p with
               | Some dir => call (FsCreateDirAll dir)
               | None => Ret (Ok tt)
               end in
  match made, toml_to_string_pretty c with
  | Ok _, Ok content =>
      let* written := call (FsWrite p content) in
      Ret (match written with Ok _ => true | Err _ => false end)
  | _, _ => Ret false
  end.

Definition derp_config_path (home path : option string) : option string :=
  match path with
  | Some p => Some p
  | None => home ← home; Some (path_join (path_join home ".noeio") "derper.toml")
  end.

(** [Config::load]; [random] are the bytes a new secret is made of. *)
Definition derp_load (home path : option string) (random : list byte) : prog (option DerpConfig) :=
  match derp_config_path home path with
  | None => Ret None
  | Some p =>
      let* found := call (FsExists p) in
      let* config := (if found then read_config p else Ret (Some derp_config_default)) in
      match config with
      | None => Ret None
      | Some c =>
          let '(a, generated) := config_load (Some (auth c)) random in
          let c := MkDerpConfig a in
          if generated then
            let* saved := persist c p in
            Ret (if saved then Some c else None)
          else Ret (Some c)
      end
  end.
End derper.

(** ** Facts *)

Section facts.
Context {K : Type} {NK : NetlinkKernel K}.
Implicit Types (h : Host K).

(** Programs that write no file. *)
Definition is_look {R} (c : Sys R) : bool :=
  match c with FsRead _ | FsExists _ | FsCreateDirAll _ => true | _ => false end.
Fixpoint looks {A} (p : prog A) : Prop :=
  match p with Call c k => is_look c = true ∧ ∀ r, looks (k r) | Ret _ | Hang => True end.

Lemma handle_look {R} (c : Sys R) h : is_look c = true → files (handle c h).1 = files h.
Proof. by destruct c. Qed.

Lemma looks_exec {A} (p : prog A) h n : looks p → files (exec n p h).1 = files h.
Proof.
  revert h n. induction p as [a|R c k IH|]; intros h [|n] Hp; try done. destruct Hp as [Hc Hk]. cbn.
  pose proof (handle_look c h Hc) as Hf. destruct (handle c h) as [h' [r|]]; [|done].
  cbn in Hf. by rewrite IH, Hf.
Qed.

Lemma looks_run {A} (p : prog A) h : looks p → files (run p h).1 = files h.
Proof.
  revert h. induction p as [a|R c k IH|]; intros h Hp; try done. destruct Hp as [Hc Hk]. cbn.
  pose proof (handle_look c h Hc) as Hf. destruct (handle c h) as [h' [r|]]; [|done].
  cbn in Hf. by rewrite IH, Hf.
Qed.

Lemma looks_read {C} {TF : TomlFormat C} p : looks (read_config p : prog (option C)).
Proof. by split. Qed.

(** What a reading returns, if it returns something. *)
Lemma run_read_config {C} {TF : TomlFormat C} p h (c : C) :
  (run (read_config p) h).2 = Some (Some c) →
  ∃ s, files h !! p = Some s ∧ toml_from_str s = Ok c.
Proof.
  unfold read_config. cbn. destruct (fault (hd Works (plan h))); [done|]. cbn.
  destruct (files h !! p) as [s|]; [|done]. cbn. exists s. split; [done|].
  by destruct (toml_from_str s) as [d|]; simplify_eq/=.
Qed.

Lemma run_read_healthy {C} {TF : TomlFormat C} p h s :
  healthy h → files h !! p = Some s → (run (read_config p : prog (option C)) h).2 = Some (result_ok (toml_from_str s)).
Proof. unfold healthy, read_config. intros Hp Hs. cbn. rewrite Hp. cbn. by rewrite Hs. Qed.

(** [Path::exists] of a file that can be examined. *)
Definition seen h : Prop := hd Works (plan h) ≠ Unseen.

Lemma exists_seen p h : seen h → (handle (FsExists p) h).2 = Some (bool_decide (is_Some (files h !! p))).
Proof. unfold seen. cbn. by destruct (hd Works (plan h)). Qed.

(** ** The relay's file *)

Section derper.
Context {TF : TomlFormat DerpConfig} {TL : TomlLaws DerpConfig derp_config_default}.

(** The file at [p] says [c]; a relay that issues tokens has a secret. *)
Definition stored (p : string) (c : DerpConfig) h : Prop :=
  ∃ s, files h !! p = Some s ∧ toml_from_str s = Ok c.
Definition settled (c : DerpConfig) : Prop :=
  auth_local (auth c) = true → auth_secret (auth c) ≠ "".

Lemma config_load_settled c random :
  settled c → config_load (Some (auth c)) random = (auth c, false).
Proof.
  unfold config_load, settled. cbn. intros Hs. destruct (auth_local (auth c)); [|done].
  by rewrite bool_decide_eq_false_2 by auto.
Qed.

Lemma config_load_makes_settled a random a' g :
  random ≠ [] → config_load (Some a) random = (a', g) → settled (MkDerpConfig a').
Proof.
  intros Hr. unfold config_load, settled. cbn. destruct (auth_local a) eqn:Hl; cbn.
  - case_bool_decide; intros [= <- <-]; cbn; [|done]. by destruct random.
  - by intros [= <- <-]; cbn; rewrite Hl.
Qed.

Lemma run_persist c p h :
  (run (persist c p) h).2 = Some true → stored p c (run (persist c p) h).1.
Proof.
  unfold persist. rewrite !run_bind.
  destruct (run (match path_parent p with Some dir => call (FsCreateDirAll dir) | None => Ret (Ok tt) end) h)
    as [h1 [made|]]; [|done]. destruct made as [[]|]; [|done].
  destruct (toml_roundtrip c) as (s & -> & Hs). rewrite run_bind. cbn.
  destruct (hd Works (plan h1)); cbn; try done; intros _; exists s; (split; [apply lookup_insert_eq|done]).
Qed.

(** Whatever the file system did, a configuration that was returned is on disk. *)
Lemma derp_load_stored home path random p h c :
  derp_config_path home path = Some p → random ≠ [] →
  (run (derp_load home path random) h).2 = Some (Some c) →
  settled c ∧ stored p c (run (derp_load home path random) h).1.
Proof.
  intros Hp Hr. unfold derp_load. rewrite Hp, run_bind.
  destruct (run (call (FsExists p)) h) as [h1 [found|]]; [|done]. rewrite run_bind.
  set (reading := if found then read_config p else Ret (Some derp_config_default)).
  assert (files (run reading h1).1 = files h1) as Hf.
  { apply looks_run. by destruct found; [apply looks_read|]. }
  assert (∀ d, found = true → (run reading h1).2 = Some (Some d) → stored p d h1) as Hread.
  { intros d -> Hd. by apply run_read_config. }
  assert (found = false → (run reading h1).2 = Some (Some derp_config_default)) as Hdef by by intros ->.
  destruct (run reading h1) as [h2 [[d|]|]]; [|done..]. cbn [fst snd] in *.
  destruct (config_load (Some (auth d)) random) as [a g] eqn:Hl.
  pose proof (config_load_makes_settled _ _ _ _ Hr Hl) as Hset. destruct g.
  - rewrite run_bind. pose proof (run_persist (MkDerpConfig a) p h2) as Hper.
    destruct (run (persist (MkDerpConfig a) p) h2) as [h3 [[]|]]; [|done..].
    cbn. intros [= <-]. split; [done|]. by apply Hper.
  - cbn. intros [= <-]. split; [done|]. unfold config_load in Hl. cbn in Hl.
    destruct (auth_local (auth d) && bool_decide (auth_secret (auth d) = "")) eqn:Hc; [done|].
    injection Hl as <-. destruct found.
    + destruct (Hread d eq_refl eq_refl) as (s & Hs & Ht). exists s. rewrite Hf. by destruct d.
    + specialize (Hdef eq_refl). injection Hdef as ->. done.
Qed.

(** With its file settled a relay only reads. *)
Lemma derp_load_after_seen home path random p h c n :
  derp_config_path home path = Some p → stored p c h → settled c → seen h →
  files (exec n (derp_load home path random) h).1 = files h ∧
  (∀ c', (exec n (derp_load home path random) h).2 = Some (Some c') → c' = c).
Proof.
  intros Hp (s & Hs & Ht) Hset Hseen. unfold derp_load. rewrite Hp. destruct n as [|n]; [done|].
  change (bind (call (FsExists p)) ?k) with (Call (FsExists p) k). cbn [exec bind].
  pose proof (exists_seen p h Hseen) as He. pose proof (handle_look (FsExists p) h eq_refl) as Hf.
  destruct (handle (FsExists p) h) as [h1 r1]. cbn in He, Hf. subst r1.
  rewrite bool_decide_eq_true_2 by eauto. cbn [bind].
  unfold read_config. change (bind (bind (call (FsRead p)) ?k) ?k') with (Call (FsRead p) (λ r, bind (k r) k')).
  destruct n as [|n]; cbn [exec]; [cbn; by rewrite Hf|].
  assert (∀ e, handle (FsRead p) h1 = e → files e.1 = files h1 ∧
    ∃ r, e.2 = Some r ∧ (r = Ok s ∨ ∃ err, r = Err err)) as Hread.
  { intros e <-. cbn. split; [done|]. rewrite Hf, Hs.
    destruct (fault (hd Works (plan h1))) as [err|]; (eexists; split; [reflexivity|]); [right; by exists err|by left]. }
  destruct (handle (FsRead p) h1) as [h2 r2]. destruct (Hread _ eq_refl) as (Hf2 & r & Hr & Hcase).
  cbn in Hf2, Hr. subst r2. destruct Hcase as [->|[err ->]]; cbn [bind exec];
    [|by destruct n; cbn; rewrite Hf2, Hf].
  rewrite Ht. cbn [result_ok]. rewrite config_load_settled by done.
  destruct n; cbn; rewrite Hf2, Hf; (split; [done|]); intros c' [= <-]; by destruct c.
Qed.

Lemma derp_load_reads home path random p h c :
  derp_config_path home path = Some p → stored p c h → settled c → healthy h →
  (run (derp_load home path random) h).2 = Some (Some c).
Proof.
  intros Hp (s & Hs & Ht) Hset Hh. unfold derp_load. rewrite Hp. unfold healthy in Hh. cbn. rewrite Hh.
  cbn. rewrite bool_decide_eq_true_2 by eauto. cbn. rewrite Hs. cbn. rewrite Ht. cbn.
  rewrite config_load_settled by done. cbn. by destruct c.
Qed.

Lemma exec_run {A} (p : prog A) h n a : (exec n p h).2 = Some a → run p h = exec n p h.
Proof.
  revert h n. induction p as [b|R c k IH|]; intros h n; [by destruct n| |by destruct n].
  destruct n as [|n]; cbn; [done|]. destruct (handle c h) as [h' [r|]]; [apply IH|done].
Qed.

(** *** One start after the other *)

(** Every start meets its own faults, may die after any number of calls, and adds the
    configuration it came up with, if it did. *)
Definition with_faults (faults : list Outcome) h : Host K := MkHost (files h) (kernel h) faults.
Definition came_up (r : option (option DerpConfig)) : list DerpConfig :=
  match r with Some (Some c) => [c] | _ => [] end.

Inductive derp_life (home path : option string) (h0 : Host K) : list DerpConfig → Host K → Prop :=
  | derp_unborn : derp_life home path h0 [] h0
  | derp_start cs h faults random n :
      derp_life home path h0 cs h → random ≠ [] → seen (with_faults faults h) →
      derp_life home path h0
        (cs ++ came_up (exec n (derp_load home path random) (with_faults faults h)).2)
        (exec n (derp_load home path random) (with_faults faults h)).1.

Lemma derp_life_stored home path p h0 cs h :
  derp_config_path home path = Some p → derp_life home path h0 cs h →
  (∀ c, c ∈ cs → settled c ∧ stored p c h).
Proof.
  intros Hp Hlife. induction Hlife as [|cs h faults random n Hlife IH Hr Hseen]; [by intros c ?%not_elem_of_nil|].
  intros c [Hc|Hc]%elem_of_app.
  - destruct (IH c Hc) as [Hset Hst]. split; [done|].
    destruct (derp_load_after_seen home path random p (with_faults faults h) c n Hp Hst Hset Hseen) as [Hf _].
    destruct Hst as (s & Hs & Ht). exists s. split; [by rewrite Hf|done].
  - destruct (exec n _ _).2 as [[d|]|] eqn:He; cbn in Hc; try by apply not_elem_of_nil in Hc.
    apply list_elem_of_singleton in Hc as ->. pose proof (exec_run _ _ _ _ He) as Hrun.
    rewrite <-Hrun in He |- *. by apply derp_load_stored.
Qed.

Lemma stored_unique p c1 c2 h : stored p c1 h → stored p c2 h → c1 = c2.
Proof. intros (s1 & H1 & H2) (s2 & H3 & H4). congruence. Qed.
End derper.
End facts.

(** ** A concrete document format *)

(** Fields one after the other; the empty document is the default. *)
Module PlainToml.
Definition document {C} (e : C → list byte) (c : C) : result string string :=
  Ok (string_of_list_byte (e c)).
Definition undocument {C} (p : parser C) (initial : C) (s : string) : result C string :=
  match s with
  | EmptyString => Ok initial
  | _ => ok_or "syntax" (whole p (list_byte_of_string s))
  end.

Lemma document_back {C} (p : parser C) (e : C → list byte) initial c :
  reads p e c → e c ≠ [] → undocument p initial (string_of_list_byte (e c)) = Ok c.
Proof.
  intros Hr He. unfold undocument. destruct (string_of_list_byte (e c)) as [|a t] eqn:Hs.
  - destruct He. apply (f_equal list_byte_of_string) in Hs.
    by rewrite list_byte_of_string_of_list_byte in Hs.
  - rewrite <-Hs, list_byte_of_string_of_list_byte. by rewrite (whole_reads p e).
Qed.

Definition e_derp (c : DerpConfig) : list byte :=
  (e_bool (auth_local (auth c)) ++ e_string (auth_secret (auth c)))%list.
Definition p_derp : parser DerpConfig := λ bs,
  '(l, bs) ← p_bool bs; '(s, bs) ← p_string bs; Some (MkDerpConfig (MkAuth l s), bs).

#[export] Instance derp_format : TomlFormat DerpConfig := {|
  toml_from_str := undocument p_derp derp_config_default;
  toml_to_string_pretty := document e_derp |}.
#[export] Instance derp_laws : TomlLaws DerpConfig derp_config_default.
Proof.
  split; [|done]. intros c. eexists. split; [reflexivity|]. apply document_back.
  - intros rest. unfold p_derp, e_derp. rewrite <-app_assoc. rewrite reads_bool. cbn [mbind option_bind].
    rewrite reads_string. cbn. by destruct c as [[l s]].
  - by destruct c as [[[] s]].
Qed.

Definition e_server (s : DerperInfo) : list byte := (e_string (address s) ++ e_string (Config.token s))%list.
Definition p_server : parser DerperInfo := λ bs,
  '(a, bs) ← p_string bs; '(t, bs) ← p_string bs; Some (MkDerperInfo a t, bs).
Lemma reads_server s : reads p_server e_server s.
Proof.
  intros rest. unfold p_server, e_server. rewrite <-app_assoc, reads_string. cbn [mbind option_bind].
  rewrite reads_string. by destruct s.
Qed.

Definition e_config (c : Config) : list byte :=
  (e_list e_string (stun_servers c) ++ e_list e_server (derper_servers c) ++
   e_list e_string (advertise_routes (router c)) ++ e_bool (cfg_accept_routes (router c)) ++
   e_bool (auto_nat (router c)) ++ e_string (lan_interface (router c)))%list.
Definition p_config : parser Config := λ bs,
  '(a, bs) ← p_list p_string bs; '(b, bs) ← p_list p_server bs; '(c, bs) ← p_list p_string bs;
  '(d, bs) ← p_bool bs; '(e, bs) ← p_bool bs; '(f, bs) ← p_string bs;
  Some (MkConfig a b (MkRouterConfig c d e f), bs).

#[export] Instance config_format : TomlFormat Config := {|
  toml_from_str := undocument p_config config_default;
  toml_to_string_pretty := document e_config |}.
#[export] Instance config_laws : TomlLaws Config config_default.
Proof.
  split; [|done]. intros c. eexists. split; [reflexivity|]. apply document_back.
  - intros rest. unfold p_config, e_config. rewrite <-!app_assoc.
    read_field reads_strings. rewrite reads_list by (apply Forall_true, reads_server). cbn [mbind option_bind].
    read_field reads_strings. read_field reads_bool. read_field reads_bool. read_field reads_string.
    by destruct c as [? ? []].
  - unfold e_config. by destruct (stun_servers c).
Qed.
End PlainToml.

(** ** Properties *)

#[local] Arguments generate_secret : simpl never.

(** C27. The relay signs with a secret only once it is on disk, and then keeps it: over any
    sequence of starts - each with its own file system faults, each possibly killed
    between two system calls - every start that comes up does so with the same
    configuration, which has a secret if the relay issues tokens and is what the file
    holds, and any later start on a healthy host comes up with it again, so no token
    is invalidated by a restart. The one way to lose it: a start that is told the file
    does not exist, as [Path::exists] answers when the file cannot be examined, writes
    a new secret over it. *)
Theorem relay_secret_survives {K} {NK : NetlinkKernel K} {TF : TomlFormat DerpConfig}
    {TL : TomlLaws DerpConfig derp_config_default} home path p (h0 h : Host K) cs :
  derp_config_path home path = Some p → derp_life home path h0 cs h →
  (∀ c, c ∈ cs → settled c ∧ stored p c h) ∧
  (∀ c1 c2, c1 ∈ cs → c2 ∈ cs → c1 = c2) ∧
  (∀ c random, c ∈ cs → (run (derp_load home path random) (with_faults [] h)).2 = Some (Some c)) ∧
  (∀ random, random ≠ [] →
     let c := MkDerpConfig (MkAuth true (generate_secret random)) in
     let h' := (run (derp_load home path random) (with_faults [Unseen] h)).1 in
     (run (derp_load home path random) (with_faults [Unseen] h)).2 = Some (Some c) ∧ stored p c h').
Proof.
  intros Hp Hlife. pose proof (derp_life_stored home path p h0 cs h Hp Hlife) as Hall. split_and!.
  - done.
  - intros c1 c2 [_ H1]%Hall [_ H2]%Hall. by eapply stored_unique.
  - intros c random [Hset (s & Hs & Ht)]%Hall. eapply derp_load_reads; [done|by exists s|done|done].
  - intros random Hr. cbv zeta.
    assert ((run (derp_load home path random) (with_faults [Unseen] h)).2 =
      Some (Some (MkDerpConfig (MkAuth true (generate_secret random))))) as Hc.
    { unfold derp_load. rewrite Hp. cbn. unfold persist.
      change (config_load (Some auth_default) random) with (MkAuth true (generate_secret random), true). cbn [fst snd].
      destruct (toml_roundtrip (MkDerpConfig (MkAuth true (generate_secret random)))) as (s & -> & _).
      by destruct (path_parent p). }
    split; [exact Hc|]. by apply derp_load_stored.
Qed.

(** The node's file: a path given on the command line is read and never written,
    and one that cannot be read or parsed stops the start; the default file is read
    when it is there and left as it is, whatever fails and wherever the start dies;
    when it is missing, the first start writes the default configuration and comes up
    with it, and the next one reads the same back. Without a home directory the start
    stops. *)
Theorem node_config_file {K} {NK : NetlinkKernel K} {TF : TomlFormat Config}
    {TL : TomlLaws Config config_default} home (h : Host K) :
  (∀ p n, files (exec n (load home (Some p)) h).1 = files h) ∧
  (∀ p c, (run (load home (Some p)) h).2 = Some (Some c) →
     ∃ s, files h !! p = Some s ∧ toml_from_str s = Ok c) ∧
  load None None = Ret None ∧
  (∀ home', home = Some home' → seen h → is_Some (files h !! user_config home') →
     (∀ n, files (exec n (load home None) h).1 = files h) ∧
     ∀ c, (run (load home None) h).2 = Some (Some c) →
       ∃ s, files h !! user_config home' = Some s ∧ toml_from_str s = Ok c) ∧
  (∀ home', home = Some home' → healthy h → files h !! user_config home' = None →
     (run (load home None) h).2 = Some (Some config_default) ∧
     (run (load home None) (run (load home None) h).1).2 = Some (Some config_default)).
Proof.
  split_and!.
  - intros p n. apply looks_exec, looks_read.
  - intros p c. apply run_read_config.
  - done.
  - intros home' -> Hseen Hex. unfold load. pose proof (exists_seen (user_config home') h Hseen) as He.
    pose proof (handle_look (FsExists (user_config home')) h eq_refl) as Hf.
    rewrite bool_decide_eq_true_2 in He by done. split.
    + intros [|n]; [done|]. cbn [exec bind call]. destruct (handle (FsExists _) h) as [h1 r1].
      cbn in He, Hf. subst r1. cbn [bind]. rewrite looks_exec; [done|]. apply looks_read.
    + intros c. cbn [run bind call]. destruct (handle (FsExists _) h) as [h1 r1].
      cbn in He, Hf. subst r1. cbn [bind]. intros (s & Hs & Ht)%run_read_config. exists s. by rewrite <-Hf.
  - intros home' -> Hh Hn. unfold healthy in Hh. destruct (toml_roundtrip config_default) as (s & Hs & Ht).
    assert (run (load (Some home') None) h =
      (MkHost (<[user_config home' := s]> (files h)) (kernel h) [], Some (Some config_default))) as ->.
    { unfold load. cbn. rewrite Hh. cbn. rewrite Hn. cbn. by rewrite Hs. }
    split; [done|]. unfold load. cbn. rewrite bool_decide_eq_true_2 by (rewrite lookup_insert_eq; by eexists).
    cbn. rewrite lookup_insert_eq. cbn. by rewrite Ht.
Qed.

Import PlainToml.

#[local] Instance no_netlink : NetlinkKernel unit := {|
  nl_open k := k; nl_send k _ := k; nl_recv _ := None |}.
Definition bare_host : Host unit := MkHost ∅ tt [].
(** A first start whose write is torn, a second one that succeeds, a third whose read
    fails, a fourth that dies before it reads. *)
Definition after_torn := (exec 9 (derp_load (Some "/root") None [Byte.x01]) (with_faults [Works; Works; Torn 0 (from_raw_os_error 5)] bare_host)).1.
Definition after_first := (exec 9 (derp_load (Some "/root") None [Byte.x02]) (with_faults [] after_torn)).1.
Definition after_failed := (exec 9 (derp_load (Some "/root") None [Byte.x03]) (with_faults [Works; Fails (from_raw_os_error 5)] after_first)).1.
Definition after_killed := (exec 1 (derp_load (Some "/root") None [Byte.x04]) (with_faults [] after_failed)).1.

Lemma relay_secret_survives_witness :
  (run (derp_load (Some "/root") None [Byte.x05]) (with_faults [] after_killed)).2 =
    Some (Some (MkDerpConfig (MkAuth true "02"))).
Proof.
  refine (proj1 (proj2 (proj2 (relay_secret_survives (Some "/root") None "/root/.noeio/derper.toml" bare_host after_killed
    [MkDerpConfig (MkAuth true "02")] eq_refl _))) (MkDerpConfig (MkAuth true "02")) [Byte.x05] _); [|by left].
  apply (derp_start (Some "/root") None bare_host [MkDerpConfig (MkAuth true "02")] after_failed [] [Byte.x04] 1); [|done|done].
  apply (derp_start (Some "/root") None bare_host [MkDerpConfig (MkAuth true "02")] after_first [Works; Fails (from_raw_os_error 5)] [Byte.x03] 9); [|done|done].
  assert ([] ++ came_up (exec 9 (derp_load (Some "/root") None [Byte.x02]) (with_faults [] after_torn)).2 =
    [MkDerpConfig (MkAuth true "02")])%list as <- by (vm_compute; reflexivity).
  apply (derp_start (Some "/root") None bare_host [] after_torn [] [Byte.x02] 9); [|done|done].
  assert ([] ++ came_up (exec 9 (derp_load (Some "/root") None [Byte.x01])
    (with_faults [Works; Works; Torn 0 (from_raw_os_error 5)] bare_host)).2 = [])%list as E by (vm_compute; reflexivity).
  refine (eq_ind _ (λ l, derp_life (Some "/root") None bare_host l after_torn) _ _ E).
  apply (derp_start (Some "/root") None bare_host [] bare_host
    [Works; Works; Torn 0 (from_raw_os_error 5)] [Byte.x01] 9); [|done|done].
  apply derp_unborn.
Defined.

Lemma node_config_file_witness :
  (run (load (Some "/home/u/") None) bare_host).2 = Some (Some config_default) ∧
  files (run (load (Some "/home/u/") None) bare_host).1 !! "/home/u/.noeio/config.toml" ≠ None.
Proof.
  split; [|vm_compute; discriminate].
  exact (proj1 (proj2 (proj2 (proj2 (proj2 (node_config_file (Some "/home/u/") bare_host))))
    "/home/u/" eq_refl eq_refl eq_refl)).
Defined.
