(* ===== verification/Endpoints.v ===== *)
(** Where the RPC servers listen: the unix sockets of [noeio/src/rpc.rs] and
    [noeio-derp/src/rpc.rs], whose file mode is all that protects them, and the Windows
    pipe of [noeio-common/src/named_pipe.rs]. Other processes of the host act between
    any two system calls. *)

From Stdlib Require Import ZArith Lia.
From Stdlib Require Import Strings.String.
From stdpp Require Import base list strings relations.
From S2P Require Import Prelude Text NetTypes HostInfo Syscalls.

Local Open Scope string_scope.
Local Open Scope Z_scope.

(** ** Unix sockets *)

Module UnixSocket.
(** The file at [SOCK_PATH]: its permission bits, the socket it leads to, if anybody
    listens there, and the users that have connected and wait to be accepted. *)
Record Sock : Type := MkSock {
  mode : Z;
  listening : bool;
  backlog : list Z;
}.

(** The user the server runs as and its umask; nobody else may write to the
    directory. *)
Record Server : Type := MkServer { owner : Z; umask : Z }.

Definition OTHERS_WRITE : Z := 18.  (** 0o022: group and others *)
Definition PRIVATE : Z := 384.  (** 0o600 *)
Definition BIND_MODE : Z := 511.  (** 0o777 *)

(** [connect(2)] wants write permission on the file; root has it always. The group
    bit counts for everybody but the owner, an upper bound. *)
Definition may_connect (s : Server) (uid : Z) (f : Sock) : bool :=
  (uid =? 0) || (if uid =? owner s then Z.testbit (mode f) 7
                 else Z.testbit (mode f) 4 || Z.testbit (mode f) 1).
Definition connect (s : Server) (uid : Z) (f : option Sock) : option Sock :=
  match f with
  | Some f => Some (if listening f && may_connect s uid f
                    then MkSock (mode f) true (backlog f ++ [uid]) else f)
  | None => None
  end.

(** A system call of the server, with whether it fails. *)
Inductive Call : Type := Unlink | Bind | Chmod (mode : Z) | Stat.

Definition perform (s : Server) (c : Call) (fails : option IoError) (f : option Sock) :
    option Sock * result Z IoError :=
  match fails with
  | Some e => (f, Err e)
  | None =>
      match c, f with
      | Unlink, Some _ => (None, Ok 0)
      | Unlink, None => (f, Err (from_raw_os_error ENOENT))
      | Bind, None => (Some (MkSock (Z.ldiff BIND_MODE (umask s)) true []), Ok 0)
      | Bind, Some _ => (f, Err (from_raw_os_error 98))
      | Chmod m, Some g => (Some (MkSock m (listening g) (backlog g)), Ok 0)
      | Stat, Some g => (f, Ok (Z.land (mode g) BIND_MODE))
      | (Chmod _ | Stat), None => (f, Err (from_raw_os_error ENOENT))
      end
  end.

(** The server's calls: what comes next and what it makes of the result. *)
Inductive prog : Type :=
  | Do (c : Call) (k : result Z IoError → prog)
  | Serve
  | Refuse (m : string).

Definition try_ (c : Call) (k : Z → prog) : prog :=
  Do c (λ r, match r with Ok v => k v | Err e => Refuse (io_message e) end).

Definition SOCK_PATH : string := "/var/run/noeio.sock".

(** [{mode:o}] of nine permission bits. *)
Definition show_octal (m : Z) : string :=
  if m <? 8 then show_uint m
  else if m <? 64 then show_uint (m / 8) ++ show_uint (m mod 8)
  else show_uint (m / 64) ++ show_uint (m / 8 mod 8) ++ show_uint (m mod 8).

(** [noeio]'s [incoming], by what remains to be done. *)
Definition checked (m : Z) : prog :=
  if negb (m =? PRIVATE)
  then Refuse ("refusing to serve RPC: " ++ SOCK_PATH ++ " has mode " ++ show_octal m
               ++ ", expected 600 (the socket is unauthenticated)")
  else Serve.
Definition to_check : prog := try_ Stat checked.
Definition to_close : prog := try_ (Chmod PRIVATE) (λ _, to_check).
Definition to_bind : prog := try_ Bind (λ _, to_close).
Definition incoming : prog := Do Unlink (λ _, to_bind).

(** [noeio-derp]'s. *)
Definition derp_incoming : prog := Do Unlink (λ _, try_ Bind (λ _, Serve)).

(** Server and others by turns: a call of the server with or without a fault, or a
    connection attempt by any user. Refusing drops the listener. *)
Inductive step (s : Server) : prog * option Sock → prog * option Sock → Prop :=
  | step_call c k fails f :
      step s (Do c k, f) (k (perform s c fails f).2, (perform s c fails f).1)
  | step_connect p uid f : step s (p, f) (p, connect s uid f)
  | step_drop m f : step s (Refuse m, Some f) (Refuse m, Some (MkSock (mode f) false [])).

(** *** Who gets through *)

Definition trusted (s : Server) (uid : Z) : Prop := uid = 0 ∨ uid = owner s.

(** A umask under which a new socket is writable by its owner only. *)
Definition tight (s : Server) : Prop := Z.testbit (umask s) 4 = true ∧ Z.testbit (umask s) 1 = true.

Definition admitted_ok (s : Server) (g : Sock) : Prop := tight s → Forall (trusted s) (backlog g).

(** A socket as [bind] leaves it, and as [chmod] does. *)
Definition bound (s : Server) (g : Sock) : Prop :=
  mode g = Z.ldiff BIND_MODE (umask s) ∧ listening g = true ∧ admitted_ok s g.
Definition closed (s : Server) (g : Sock) : Prop :=
  mode g = PRIVATE ∧ listening g = true ∧ admitted_ok s g.

Lemma private_refuses s uid g : mode g = PRIVATE → ¬ trusted s uid → may_connect s uid g = false.
Proof.
  intros Hm Hu. unfold may_connect, trusted in *. rewrite Hm.
  destruct (Z.eqb_spec uid 0); [tauto|]. destruct (Z.eqb_spec uid (owner s)); [tauto|]. reflexivity.
Qed.

Lemma tight_refuses s uid g :
  mode g = Z.ldiff BIND_MODE (umask s) → tight s → ¬ trusted s uid → may_connect s uid g = false.
Proof.
  intros Hm [H4 H1] Hu. unfold may_connect, trusted in *. rewrite Hm, !Z.ldiff_spec, H4, H1.
  destruct (Z.eqb_spec uid 0); [tauto|]. destruct (Z.eqb_spec uid (owner s)); [tauto|].
  by rewrite !andb_false_r.
Qed.

Lemma trusted_dec s uid : trusted s uid ∨ ¬ trusted s uid.
Proof. unfold trusted. lia. Qed.

(** A connection attempt keeps either kind of socket. *)
Lemma connect_keeps s uid g (P : Sock → Prop) :
  (P = bound s ∨ P = closed s) → P g → ∃ g', connect s uid (Some g) = Some g' ∧ P g'.
Proof.
  intros HP Hg. cbn. eexists; split; [reflexivity|].
  assert (Hr : tight s → ¬ trusted s uid → may_connect s uid g = false)
    by (destruct HP; subst; destruct Hg as (? & _); eauto using tight_refuses, private_refuses).
  destruct (listening g && may_connect s uid g) eqn:E; [|done].
  assert (Ha : admitted_ok s g → admitted_ok s (MkSock (mode g) true (backlog g ++ [uid])%list)).
  { intros Hg' Ht. apply Forall_app; split; [by apply Hg'|]. apply Forall_cons; split; [|done].
    destruct (trusted_dec s uid) as [|Hn]; [done|]. rewrite (Hr Ht Hn), andb_false_r in E. done. }
  destruct HP; subst; destruct Hg as (? & ? & ?); repeat split; auto.
Qed.

(** What the file looks like at each point of [incoming]. *)
Inductive serving (s : Server) : prog * option Sock → Prop :=
  | at_start f : serving s (incoming, f)
  | at_bind f : serving s (to_bind, f)
  | at_close g : bound s g → serving s (to_close, Some g)
  | at_check g : closed s g → serving s (to_check, Some g)
  | at_serve g : closed s g → serving s (Serve, Some g)
  | at_refuse m f : serving s (Refuse m, f).
#[local] Hint Constructors serving : core.

Lemma serving_call s c k fails f :
  serving s (Do c k, f) → serving s (k (perform s c fails f).2, (perform s c fails f).1).
Proof.
  intros Hx. remember (Do c k, f) as x eqn:E.
  destruct Hx as [h|h|g Hb|g Hb|g Hb|m h]; try discriminate;
    injection E as <- <- <-; destruct fails as [e|]; cbn; auto.
  - destruct h; cbn; auto. apply at_close. repeat split. intros _. constructor.
  - apply at_check. destruct Hb as (_ & ? & ?). by repeat split.
  - unfold checked. destruct (negb _); auto.
Qed.

Lemma serving_connect s p uid f : serving s (p, f) → serving s (p, connect s uid f).
Proof.
  intros Hx. remember (p, f) as x eqn:E.
  destruct Hx as [? |? |g Hb|g Hb|g Hb|m ?]; injection E as <- <-; auto.
  - destruct (connect_keeps s uid g (bound s)) as (g' & -> & ?); auto.
  - destruct (connect_keeps s uid g (closed s)) as (g' & -> & ?); auto.
  - destruct (connect_keeps s uid g (closed s)) as (g' & -> & ?); auto.
Qed.

Lemma serving_run s x y : rtc (step s) x y → serving s x → serving s y.
Proof.
  induction 1 as [|x y z Hs _ IH]; [done|]. intros Hx. apply IH.
  destruct Hs; auto using serving_call, serving_connect.
Qed.

(** Nobody else's call is needed for the daemon to get there, and a connection made
    before the mode is set is still waiting when it is served. *)
Lemma window s uid :
  may_connect s uid (MkSock (Z.ldiff BIND_MODE (umask s)) true []) = true →
  rtc (step s) (incoming, None) (Serve, Some (MkSock PRIVATE true [uid])).
Proof.
  intros Hm.
  eapply rtc_l; [apply (step_call s _ _ None)|]. eapply rtc_l; [apply (step_call s _ _ None)|].
  cbn [perform fst snd]. eapply rtc_l; [apply (step_connect s _ uid)|].
  cbn [connect listening andb backlog mode]. rewrite Hm.
  eapply rtc_l; [apply (step_call s _ _ None)|]. eapply rtc_l; [apply (step_call s _ _ None)|].
  apply rtc_refl.
Qed.

(** C31. Once the daemon serves its RPCs nobody but its own user and root can connect any
    more, whatever the file was before, whoever tried to connect meanwhile and whichever
    of its calls failed: any failure but that of removing the old file refuses. Under a
    umask that masks the write bits of group and others, nobody else has connected
    either. Under one that leaves others the bit, the socket is open to anybody from
    [bind] to [set_permissions], and whoever used the gap is served. *)
Theorem rpc_socket_private (s : Server) f p f'
    (Hrun : rtc (step s) (incoming, f) (p, f')) :
  (p = Serve → ∃ g, f' = Some g ∧ listening g = true ∧ mode g = PRIVATE ∧
     (∀ uid, uid ≠ 0 → uid ≠ owner s → connect s uid f' = f') ∧
     (tight s → Forall (λ uid, uid = 0 ∨ uid = owner s) (backlog g))) ∧
  (Z.testbit (umask s) 1 = false → ∀ uid, uid ≠ owner s →
     rtc (step s) (incoming, None) (Serve, Some (MkSock PRIVATE true [uid]))).
Proof.
  split.
  - intros ->. assert (Hs : serving s (Serve, f')) by eauto using serving_run.
    inversion Hs as [| | | |g (Hm & Hl & Ha)|]; subst. exists g. repeat split; auto.
    intros uid H0 Ho. cbn. rewrite (private_refuses s uid g), andb_false_r; [done|done|].
    unfold trusted. tauto.
  - intros Hu uid Ho. apply window. unfold may_connect. cbn [mode].
    rewrite !Z.ldiff_spec, Hu. destruct (Z.eqb_spec uid 0); [done|].
    destruct (Z.eqb_spec uid (owner s)); [done|]. cbn. by rewrite orb_true_r.
Qed.

Lemma rpc_socket_private_witness :
  ∃ g, Some (MkSock PRIVATE true [1000]) = Some g ∧ listening g = true ∧ mode g = PRIVATE ∧
     (∀ uid, uid ≠ 0 → uid ≠ owner (MkServer 0 0) →
        connect (MkServer 0 0) uid (Some (MkSock PRIVATE true [1000])) = Some (MkSock PRIVATE true [1000])) ∧
     (tight (MkServer 0 0) → Forall (λ uid, uid = 0 ∨ uid = owner (MkServer 0 0)) (backlog g)).
Proof.
  apply (rpc_socket_private (MkServer 0 0) None Serve (Some (MkSock PRIVATE true [1000]))); [|reflexivity].
  eapply rtc_l; [apply (step_call _ _ _ None)|]. eapply rtc_l; [apply (step_call _ _ _ None)|].
  eapply rtc_l; [apply (step_connect _ _ 1000)|].
  eapply rtc_l; [apply (step_call _ _ _ None)|]. eapply rtc_l; [apply (step_call _ _ _ None)|].
  apply rtc_refl.
Defined.
End UnixSocket.

(** ** Windows pipes *)

Module NamedPipe.
(** A server end of the pipe, by number. [connecting] is the future that waits on one;
    once it has returned it must not be polled again. *)
Inductive Connecting : Type := Waiting (server : nat) | Finished.

Record Stream : Type := MkStream {
  connecting : Connecting;
  next_id : nat;
}.

(** [ServerOptions::create] gives a new instance, or an error. *)
Definition bind (create : option IoError) : result Stream IoError :=
  match create with
  | None => Ok (MkStream (Waiting 0) 1)
  | Some e => Err e
  end.

Inductive Poll : Type :=
  | Pending
  | Item (r : result nat IoError)
  | Panic.

(** [poll_next]: what waiting on the instance gives ([None]: nobody has connected),
    and what creating the next one gives. *)
Definition poll_next (connected : option (result unit IoError)) (create : option IoError) (s : Stream) :
    Stream * Poll :=
  match connecting s with
  | Finished => (s, Panic)
  | Waiting server =>
      match connected with
      | None => (s, Pending)
      | Some (Ok _) =>
          match create with
          | None => (MkStream (Waiting (next_id s)) (S (next_id s)), Item (Ok server))
          | Some e => (MkStream Finished (next_id s), Item (Err e))
          end
      | Some (Err e) => (MkStream (Waiting server) (next_id s), Item (Err e))
      end
  end.

Fixpoint polls (l : list (option (result unit IoError) * option IoError)) (s : Stream) : Stream * list Poll :=
  match l with
  | [] => (s, [])
  | (connected, create) :: l =>
      let '(s, r) := poll_next connected create s in
      let '(s, rs) := polls l s in (s, r :: rs)
  end.

(** *** Every connection once, and somebody always waiting *)

(** The ends handed out, in order; the polls at which somebody has connected, and
    those at which no instance can be made for the next. *)
Definition handed (rs : list Poll) : list nat :=
  omap (λ r, match r with Item (Ok n) => Some n | _ => None end) rs.
Definition joined (p : option (result unit IoError) * option IoError) : bool :=
  match p.1 with Some (Ok _) => true | _ => false end.
Definition exhausted (p : option (result unit IoError) * option IoError) : bool :=
  joined p && bool_decide (p.2 ≠ None).

(** The stream before the [n]-th connection. *)
Definition at_ (n : nat) : Stream := MkStream (Waiting n) (S n).

Lemma polls_app l1 l2 s :
  polls (l1 ++ l2) s = ((polls l2 (polls l1 s).1).1, (polls l1 s).2 ++ (polls l2 (polls l1 s).1).2)%list.
Proof.
  revert s. induction l1 as [|[c e] l1 IH]; intros s; cbn; [by destruct (polls l2 s)|].
  destruct (poll_next c e s) as [s1 r]. rewrite IH. by destruct (polls l1 s1).
Qed.

Lemma finished_polls l i : polls l (MkStream Finished i) = (MkStream Finished i, map (λ _, Panic) l).
Proof. induction l as [|[c e] l IH]; [done|]. cbn in *. by rewrite IH. Qed.

Lemma polls_at l n :
  Forall (λ p, exhausted p = false) l →
  (polls l (at_ n)).1 = at_ (n + length (List.filter joined l)) ∧
  handed (polls l (at_ n)).2 = seq n (length (List.filter joined l)) ∧ Panic ∉ (polls l (at_ n)).2.
Proof.
  revert n. induction l as [|[c e] l IH]; intros n Hl.
  - rewrite Nat.add_0_r. split_and!; [done|done|apply not_elem_of_nil].
  - apply Forall_cons in Hl as [He Hl]. unfold exhausted, joined in He. cbn in *.
    destruct c as [[[]|x]|]; unfold joined at 1 3; cbn -[at_].
    + destruct e; [done|]. change (MkStream (Waiting (S n)) (S (S n))) with (at_ (S n)).
      destruct (IH (S n) Hl) as (E1 & E2 & E3). destruct (polls l (at_ (S n))) as [s rs].
      cbn [fst snd] in *. rewrite E1, Nat.add_succ_r.
      split_and!; [reflexivity|cbn; f_equal; exact E2|]. rewrite not_elem_of_cons. by split.
    + change (MkStream (Waiting n) (S n)) with (at_ n). destruct (IH n Hl) as (E1 & E2 & E3).
      destruct (polls l (at_ n)) as [s rs]. split_and!; [exact E1|exact E2|].
      cbn. rewrite not_elem_of_cons. by split.
    + destruct (IH n Hl) as (E1 & E2 & E3). destruct (polls l (at_ n)) as [s rs].
      split_and!; [exact E1|exact E2|]. cbn. rewrite not_elem_of_cons. by split.
Qed.

(** The pipe's stream hands out one end per client that connects, in order and none
    twice, and never before the next end exists, so that the next client finds one,
    while waits that fail are reported and retried on the same end. It holds until the
    first client for whose successor no end can be made: that client is dropped, the
    error is reported, and polling the stream once more panics, every time. *)
Theorem pipe_stream s l1 e l2 (Hb : bind None = Ok s)
    (Hl1 : Forall (λ p, exhausted p = false) l1) :
  let k := length (List.filter joined l1) in
  (polls l1 s).1 = MkStream (Waiting k) (S k) ∧ handed (polls l1 s).2 = seq 0 k ∧
  Panic ∉ (polls l1 s).2 ∧
  (polls (l1 ++ (Some (Ok tt), Some e) :: l2) s).2 =
    ((polls l1 s).2 ++ Item (Err e) :: map (λ _, Panic) l2)%list.
Proof.
  injection Hb as <-. intros k. change (MkStream (Waiting 0) 1) with (at_ 0).
  destruct (polls_at l1 0 Hl1) as (E1 & E2 & E3). split_and!; [exact E1|exact E2|exact E3|].
  rewrite polls_app, E1. cbn. by rewrite finished_polls.
Qed.

Lemma pipe_stream_witness :
  (polls [(None, None); (Some (Ok tt), None); (Some (Ok tt), Some (from_raw_os_error 5)); (None, None)]
     (MkStream (Waiting 0) 1)).2 =
  [Pending; Item (Ok 0%nat); Item (Err (from_raw_os_error 5)); Panic].
Proof.
  destruct (pipe_stream (MkStream (Waiting 0) 1) [(None, None); (Some (Ok tt), None)]
    (from_raw_os_error 5) [(None, None)]) as (_ & _ & _ & E);
    [reflexivity|repeat constructor|exact E].
Defined.
End NamedPipe.
