(* ===== verification/Forwarding.v ===== *)
(** [noeio-net-route/src/forwarding.rs]: [net.ipv4.ip_forward] with a saved
    original. The value the sysctl had before noeio touched it is kept in a file
    under the run directory while forwarding is on. *)

From Stdlib Require Import ZArith Lia.
From Stdlib Require Import Strings.Ascii Strings.String.
From stdpp Require Import base list strings gmap.
From S2P Require Import Prelude Text HostInfo Syscalls.

Local Open Scope string_scope.
Local Open Scope Z_scope.

Definition IP_FORWARD : string := "/proc/sys/net/ipv4/ip_forward".

(** A newline, as [b"1\n"] ends. *)
Definition line (s : string) : string := s +:+ String LF "".

(** How the program reads the file: it is on when the trimmed content is [1]. *)
Definition is_one (s : string) : bool := bool_decide (trim s = "1").

Definition read : prog (result bool IoError) :=
  let! s := call (FsRead IP_FORWARD) in Ret (Ok (is_one s)).

Definition write (enabled : bool) : prog (result unit IoError) :=
  let* r := call (FsWrite IP_FORWARD (line (if enabled then "1" else "0"))) in
  Ret (map_err (λ e,
    if bool_decide (io_kind e = PermissionDenied)
    then io_error (io_kind e)
      ("cannot write " +:+ IP_FORWARD +:+ ": " +:+ io_message e +:+ ". noeio needs CAP_NET_ADMIN (and a writable /proc/sys) to act as a subnet router")
    else e) r).

(** [run_dir.join("ip_forward.orig")] *)
Definition saved_path (run_dir : string) : string := run_dir +:+ "/ip_forward.orig".

Definition enable (run_dir : string) : prog (result bool IoError) :=
  let path := saved_path run_dir in
  let! current := read in
  let* there := call (FsExists path) in
  let! _ := (if negb there then
               let! _ := call (FsCreateDirAll run_dir) in
               call (FsWrite path (if current then "1" else "0"))
             else Ret (Ok tt)) in
  if current then Ret (Ok false) else
  let! _ := write true in
  Ret (Ok true).

Definition restore (run_dir : string) : prog (result bool IoError) :=
  let path := saved_path run_dir in
  let* r := call (FsRead path) in
  match r with
  | Err e => if bool_decide (io_kind e = NotFound) then Ret (Ok false) else Ret (Err e)
  | Ok s =>
      let original := is_one s in
      let! now := read in
      let! _ := (if negb (Bool.eqb now original) then write original else Ret (Ok tt)) in
      let! _ := call (FsRemove path) in
      Ret (Ok true)
  end.

Section forwarding.
Context {K : Type} {NK : NetlinkKernel K}.

(** The sysctl's value and the saved one. *)
Definition forwards (h : Host K) : option bool := is_one <$> files h !! IP_FORWARD.
Definition saved (run_dir : string) (h : Host K) : option bool :=
  is_one <$> files h !! saved_path run_dir.

(** The value the host had before noeio: the saved one if there is one, the current
    one otherwise. *)
Definition original (run_dir : string) (h : Host K) : option bool :=
  match saved run_dir h with Some v => Some v | None => forwards h end.

(** No write of the plan is torn and no existing file overlooked. *)
Definition steady (h : Host K) : Prop :=
  ∀ o, o ∈ plan h → match o with Torn _ _ | Unseen => False | _ => True end.

(** What every step keeps: the sysctl exists, the original value is [v]. *)
Definition keeps (run_dir : string) (v : bool) (h : Host K) : Prop :=
  steady h ∧ is_Some (files h !! IP_FORWARD) ∧ original run_dir h = Some v.

Lemma saved_path_ne run_dir : saved_path run_dir ≠ IP_FORWARD.
Proof.
  intros H. apply (f_equal string_rev) in H. unfold saved_path in H.
  rewrite string_rev_app in H. cbn in H. discriminate H.
Qed.

Lemma steady_hd h : steady h → hd Works (plan h) = Works ∨ ∃ e, hd Works (plan h) = Fails e.
Proof.
  intros H. destruct (plan h) as [|o l] eqn:Hp; [by left|]. cbn.
  specialize (H o). rewrite Hp in H. specialize (H ltac:(by left)).
  destruct o; eauto; done.
Qed.

Lemma steady_tl h fs k : steady h → steady (MkHost fs k (tl (plan h))).
Proof. intros H o Ho. apply H. destruct (plan h); [by apply not_elem_of_nil in Ho|by right]. Qed.

Lemma keeps_tl rd v h :
  keeps rd v h → keeps rd v (MkHost (files h) (kernel h) (tl (plan h))).
Proof. intros (Hs & H & Ho). split; [by apply steady_tl|done]. Qed.

Lemma is_one_line (b : bool) : is_one (line (if b then "1" else "0")) = b.
Proof. by destruct b. Qed.

Section steps.
Context (rd : string) (v : bool).

Lemma keeps_files (h : Host K) fs k :
  keeps rd v h → is_Some (fs !! IP_FORWARD) → original rd (MkHost fs (kernel h) k) = Some v →
  k = tl (plan h) → keeps rd v (MkHost fs (kernel h) k).
Proof. intros (Hs & _ & _) H Ho ->. split_and!; [by apply steady_tl|done|done]. Qed.

(** Calls that only look. *)
Lemma always_read h Q :
  keeps rd v h →
  (∀ h' r, keeps rd v h' → files h' = files h →
     (∀ b, r = Ok b → forwards h = Some b) → Q r h') →
  always (keeps rd v) Q read h.
Proof.
  intros Hk HQ. split; [done|]. cbn. pose proof (keeps_tl _ _ _ Hk) as Hk'.
  destruct (steady_hd h (proj1 Hk)) as [->|[e ->]]; cbn.
  - destruct (files h !! IP_FORWARD) as [s|] eqn:Hf; cbn; (split; [done|]); apply HQ; try done.
    intros b [= <-]. unfold forwards. by rewrite Hf.
  - split; [done|]. by apply HQ.
Qed.

Lemma always_look (R : Type) (c : Sys R) h Q :
  match c with FsRead _ | FsExists _ | FsCreateDirAll _ => True | _ => False end →
  keeps rd v h →
  (∀ h' r, keeps rd v h' → handle c h = (h', Some r) → files h' = files h → Q r h') →
  always (keeps rd v) Q (call c) h.
Proof.
  intros Hc Hk HQ. split; [done|]. pose proof (keeps_tl _ _ _ Hk) as Hk'.
  destruct (handle c h) as [h' o] eqn:Hh.
  assert (h' = MkHost (files h) (kernel h) (tl (plan h)) ∧ is_Some o) as [-> [r ->]]
    by (destruct c; try done; injection Hh as <- <-; eauto).
  cbn. split; [done|]. by apply HQ.
Qed.

(** A write that leaves the original value what it was. *)
Lemma always_write (path body : string) h Q :
  keeps rd v h →
  original rd (MkHost (<[path := body]> (files h)) (kernel h) (tl (plan h))) = Some v →
  (∀ h' r, keeps rd v h' →
     (r = Ok tt ∧ files h' = <[path := body]> (files h)) ∨ (is_err r = true ∧ files h' = files h) →
     Q r h') →
  always (keeps rd v) Q (call (FsWrite path body)) h.
Proof.
  intros Hk Ho HQ. split; [done|]. pose proof (keeps_tl _ _ _ Hk) as Hk'.
  assert (keeps rd v (MkHost (<[path := body]> (files h)) (kernel h) (tl (plan h)))) as Hw.
  { eapply keeps_files; [done| |done|done].
    destruct (decide (path = IP_FORWARD)) as [->|]; [by rewrite lookup_insert_eq|].
    rewrite lookup_insert_ne by done. apply Hk. }
  cbn. destruct (steady_hd h (proj1 Hk)) as [->|[e ->]]; cbn; (split; [done|]); apply HQ; auto.
Qed.

Lemma always_write_fwd w h Q :
  keeps rd v h → saved rd h = Some v ∨ w = v →
  (∀ h' r, keeps rd v h' → (r = Ok tt → forwards h' = Some w) →
     saved rd h' = saved rd h → Q r h') →
  always (keeps rd v) Q (write w) h.
Proof.
  intros Hk Hw HQ. unfold write. apply always_bind, always_write; [done| |].
  - unfold original, saved, forwards. cbn.
    rewrite lookup_insert_ne by (intros H; by apply (saved_path_ne rd)).
    rewrite lookup_insert_eq. cbn. rewrite is_one_line.
    destruct Hk as (_ & _ & Ho). unfold original, saved in *.
    destruct (is_one <$> _); destruct Hw as [Hw|Hw]; congruence.
  - intros h' r Hk' Hr. split; [done|]. apply HQ; [done| |].
    + destruct Hr as [[-> Hf]|[He Hf]]; [|by destruct r].
      intros _. unfold forwards. by rewrite Hf, lookup_insert_eq; cbn; rewrite is_one_line.
    + unfold saved. destruct Hr as [[-> Hf]|[He Hf]]; rewrite Hf; [|done].
      by rewrite lookup_insert_ne by (intros H; by apply (saved_path_ne rd)).
Qed.

Lemma always_enable h :
  keeps rd v h → always (keeps rd v) (λ _ _, True) (enable rd) h.
Proof.
  intros Hk. unfold enable. apply always_bind, always_read; [done|].
  intros h1 [current|e] Hk1 Hf1 Hcur; [|by split].
  specialize (Hcur current eq_refl).
  apply always_bind, (always_look bool (FsExists _)); [done|done|].
  intros h2 there Hk2 Hh Hf2.
  assert (there = bool_decide (is_Some (files h !! saved_path rd))) as Hthere.
  { cbn in Hh. rewrite Hf1 in Hh. destruct (steady_hd h1 (proj1 Hk1)) as [E|[? E]];
      rewrite E in Hh; by injection Hh. }
  apply always_bind.
  set (K1 := λ (r : result unit IoError) h3, keeps rd v h3 ∧ (r = Ok tt → saved rd h3 = Some v)).
  apply (always_mono _ K1).
  - intros r h3 _ [Hk3 Hs]. destruct r as [[]|e]; [|by split].
    destruct current; [by split|]. apply always_bind, always_write_fwd; [done|by left; apply Hs|].
    intros h4 r Hk4 _ _. by destruct r.
  - rewrite Hf1 in Hf2. destruct there; cbn [negb].
    + split; [done|]. split; [done|]. intros _. symmetry in Hthere.
      apply bool_decide_eq_true in Hthere as [s Hs].
      destruct Hk2 as (_ & _ & Ho). unfold original, saved in *.
      rewrite Hf2, Hs in *. done.
    + apply always_bind, (always_look _ (FsCreateDirAll _)); [done|done|].
      intros h3 [[]|e] Hk3 _ Hf3; [|by split].
      symmetry in Hthere. apply bool_decide_eq_false in Hthere.
      rewrite Hf2 in Hf3. apply eq_None_not_Some in Hthere.
      assert (current = v) as ->.
      { destruct Hk as (_ & _ & Ho). unfold original, saved in Ho. rewrite Hthere in Ho. change (forwards h = Some v) in Ho. congruence. }
      apply always_write; [done| |].
      * unfold original, saved. cbn. rewrite lookup_insert_eq. by destruct v.
      * intros h4 r Hk4 Hr. split; [done|]. intros ->.
        destruct Hr as [[_ Hf]|[? _]]; [|done].
        unfold saved. rewrite Hf, lookup_insert_eq. by destruct v.
Qed.

Lemma always_restore h :
  keeps rd v h → always (keeps rd v) (λ _ _, True) (restore rd) h.
Proof.
  intros Hk. unfold restore.
  apply always_bind, (always_look _ (FsRead _)); [done|done|].
  intros h1 [s|e] Hk1 Hh Hf1; [|by destruct (bool_decide _); split].
  assert (files h !! saved_path rd = Some s) as Hs.
  { apply (f_equal snd) in Hh. cbn in Hh.
    destruct (steady_hd h (proj1 Hk)) as [E|[? E]]; rewrite E in Hh; [|done].
    destruct (files h !! saved_path rd); [|done]. cbn in Hh. congruence. }
  assert (is_one s = v) as Hv.
  { destruct Hk as (_ & _ & Ho). unfold original, saved in Ho. rewrite Hs in Ho. by injection Ho. }
  rewrite Hv. apply always_bind, always_read; [done|].
  intros h2 [now|e] Hk2 Hf2 Hnow; [|by split]. specialize (Hnow now eq_refl).
  apply always_bind.
  apply (always_mono _ (λ r h3, keeps rd v h3 ∧ (r = Ok tt → forwards h3 = Some v))).
  - intros [[]|e] h3 _ [Hk3 Hfw]; [|by split]. apply always_bind. split; [done|].
    specialize (Hfw eq_refl). cbn. pose proof (keeps_tl _ _ _ Hk3) as Hk3'.
    assert (keeps rd v (MkHost (delete (saved_path rd) (files h3)) (kernel h3) (tl (plan h3)))).
    { apply keeps_files; [done| | |done].
      - rewrite lookup_delete_ne by apply saved_path_ne. apply Hk3.
      - unfold original, saved, forwards. cbn. rewrite lookup_delete_eq. cbn.
        rewrite lookup_delete_ne by apply saved_path_ne. done. }
    destruct (steady_hd h3 (proj1 Hk3)) as [->|[e ->]]; cbn;
      [destruct (files h3 !! saved_path rd); cbn|]; tauto.
  - destruct (Bool.eqb now v) eqn:Heq; cbn [negb].
    + apply eqb_prop in Heq as ->. split; [done|]. split; [done|]. intros _.
      unfold forwards in *. congruence.
    + apply always_write_fwd; [done|by right|]. by intros h3 r Hk3 Hw _.
Qed.
End steps.

(** With nothing failing: what each returns and leaves behind. *)
Lemma run_read h :
  healthy h → run read h = (h, Some (ok_or (from_raw_os_error ENOENT) (forwards h))).
Proof.
  unfold healthy. destruct h as [fs k p]. cbn. intros ->. cbn. unfold forwards. cbn.
  by destruct (fs !! IP_FORWARD).
Qed.

Lemma run_write w h :
  healthy h → run (write w) h =
    (MkHost (<[IP_FORWARD := line (if w then "1" else "0")]> (files h)) (kernel h) [], Some (Ok tt)).
Proof. unfold healthy. destruct h as [fs k p]. cbn. by intros ->. Qed.

(** [enable] on a healthy host: forwarding is on, the original is saved. *)
Lemma run_enable rd b (h : Host K) :
  healthy h → forwards h = Some b →
  ∃ fs, run (enable rd) h = (MkHost fs (kernel h) [], Some (Ok (negb b))) ∧
    is_one <$> fs !! IP_FORWARD = Some true ∧ is_one <$> fs !! saved_path rd = original rd h ∧
    ∀ p, p ≠ IP_FORWARD → p ≠ saved_path rd → fs !! p = files h !! p.
Proof.
  unfold healthy, forwards, original, saved, enable. destruct h as [fs k p]. cbn [files plan kernel].
  intros -> Hb. pose proof (saved_path_ne rd) as Hne.
  rewrite run_bind, run_read by done. unfold forwards. cbn [files]. rewrite Hb. cbn.
  destruct (fs !! saved_path rd) as [s|] eqn:Hs; cbn.
  - destruct b; cbn.
    + exists fs. by rewrite Hb, Hs.
    + eexists. split; [reflexivity|]. rewrite lookup_insert_eq, lookup_insert_ne, Hs by done.
      split_and!; [done|done|]. intros q ? ?. by rewrite lookup_insert_ne.
  - destruct b; cbn.
    + eexists. split; [reflexivity|].
      rewrite lookup_insert_ne, lookup_insert_eq, Hb by done. split_and!; [done|done|].
      intros q ? ?. by rewrite lookup_insert_ne.
    + eexists. split; [reflexivity|].
      rewrite lookup_insert_eq, lookup_insert_ne, lookup_insert_eq by done.
      split_and!; [done|done|]. intros q ? ?. by rewrite !lookup_insert_ne.
Qed.

(** [restore] on a healthy host: the sysctl is the original, nothing is saved. *)
Lemma run_restore rd v (h : Host K) :
  healthy h → is_Some (files h !! IP_FORWARD) → original rd h = Some v →
  ∃ fs, run (restore rd) h =
      (MkHost fs (kernel h) [], Some (Ok (bool_decide (is_Some (saved rd h))))) ∧
    is_one <$> fs !! IP_FORWARD = Some v ∧ fs !! saved_path rd = None ∧
    ∀ p, p ≠ IP_FORWARD → p ≠ saved_path rd → fs !! p = files h !! p.
Proof.
  unfold healthy, original, saved, restore. destruct h as [fs k p]. cbn [files plan kernel].
  intros -> [w Hw]. pose proof (saved_path_ne rd) as Hne. cbn.
  destruct (fs !! saved_path rd) as [s|] eqn:Hs; cbn.
  - rewrite Hw. cbn. intros [= <-].
    destruct (Bool.eqb (is_one w) (is_one s)) eqn:He; cbn.
    + apply eqb_prop in He. rewrite Hs. cbn. eexists. split; [reflexivity|].
      rewrite lookup_delete_eq, lookup_delete_ne, Hw by done. cbn. rewrite He.
      split_and!; [done|done|]. intros q ? ?. by rewrite lookup_delete_ne.
    + rewrite lookup_insert_ne, Hs by done. cbn. eexists. split; [reflexivity|].
      rewrite lookup_delete_eq, lookup_delete_ne, lookup_insert_eq by done. cbn.
      rewrite is_one_line. split_and!; [done|done|].
      intros q ? ?. by rewrite lookup_delete_ne, lookup_insert_ne.
  - intros Hf. exists fs. by rewrite Hs.
Qed.
End forwarding.

(** ** Runs, failures and crashes *)

Section lives.
Context {K : Type} {NK : NetlinkKernel K}.

(** The same machine with a plan for the next calls. *)
Definition with_plan (p : list Outcome) (h : Host K) : Host K := MkHost (files h) (kernel h) p.

(** A process calls [enable] or [restore] once, with any failures, and may die after
    any number of system calls. *)
Inductive life (rd : string) : Host K → Host K → Prop :=
  | life_enable h p n :
      steady (with_plan p h) → life rd h (exec n (enable rd) (with_plan p h)).1
  | life_restore h p n :
      steady (with_plan p h) → life rd h (exec n (restore rd) (with_plan p h)).1.

Lemma life_keeps rd v h h' :
  is_Some (files h !! IP_FORWARD) ∧ original rd h = Some v → life rd h h' →
  is_Some (files h' !! IP_FORWARD) ∧ original rd h' = Some v.
Proof.
  intros [Hf Ho] Hl. enough (keeps rd v h') as (_ & ?) by done.
  destruct Hl as [h p n Hs|h p n Hs];
    [eapply always_exec, (always_enable rd v)|eapply always_exec, (always_restore rd v)]; done.
Qed.

(** A save file torn at length 0 reads as "was off". *)
Lemma torn_save rd e (h : Host K) :
  forwards h = Some true → saved rd h = None →
  original rd (run (enable rd) (with_plan [Works; Works; Works; Torn 0 e] h)).1 = Some false.
Proof.
  unfold forwards, saved, original. destruct h as [fs k p]. cbn [files]. intros Hf Hs.
  apply fmap_Some in Hf as (w & Hw & Hone). apply fmap_None in Hs.
  unfold enable. rewrite run_bind. cbn. rewrite Hw. cbn. rewrite Hs, <-Hone. cbn.
  unfold saved. cbn. by rewrite lookup_insert_eq.
Qed.
End lives.

(** C22. The host's own setting is never lost: after any number of lives of the
    program, each failing at any call and dying after any call - provided no write
    is torn and [exists] sees what is there - one undisturbed [restore] leaves the
    sysctl as it was before the first and removes the saved copy; an undisturbed
    [enable] leaves forwarding on with the same original saved. A torn write of the
    save file does lose it: a host that forwarded is then restored to off. *)
Theorem forwarding_survives {K} {NK : NetlinkKernel K} rd v (h h' : Host K) :
  forwards h = Some v → saved rd h = None → rtc (life rd) h h' →
  (∃ fs b, run (restore rd) (with_plan [] h') = (MkHost fs (kernel h') [], Some (Ok b)) ∧
     is_one <$> fs !! IP_FORWARD = Some v ∧ fs !! saved_path rd = None) ∧
  (∃ fs b, run (enable rd) (with_plan [] h') = (MkHost fs (kernel h') [], Some (Ok b)) ∧
     is_one <$> fs !! IP_FORWARD = Some true ∧ is_one <$> fs !! saved_path rd = Some v) ∧
  (∀ e, v = true →
     original rd (run (enable rd) (with_plan [Works; Works; Works; Torn 0 e] h)).1 = Some false).
Proof.
  intros Hf Hs Hl.
  assert (is_Some (files h' !! IP_FORWARD) ∧ original rd h' = Some v) as [Hf' Ho'].
  { eapply (rtc_invariant _ (λ h, is_Some (files h !! IP_FORWARD) ∧ original rd h = Some v));
      [intros ? ?; apply life_keeps|exact Hl|].
    unfold original. rewrite Hs. split; [|done]. unfold forwards in Hf.
    apply fmap_Some in Hf as (? & -> & _). eauto. }
  split_and!.
  - destruct (run_restore rd v (with_plan [] h') eq_refl Hf' Ho') as (fs & Hr & H1 & H2 & _). eauto 6.
  - destruct Hf' as [w Hw].
    destruct (run_enable rd (is_one w) (with_plan [] h') eq_refl) as (fs & Hr & H1 & H2 & _).
    { unfold forwards. cbn. by rewrite Hw. }
    change (original rd (with_plan [] h')) with (original rd h') in H2. rewrite Ho' in H2. eauto 6.
  - intros e ->. by apply torn_save.
Qed.

(** A host that forwards; the first life dies right after saving the value, the
    second cannot write the sysctl, the third switches it on and dies. *)
#[export] Instance mute_kernel : NetlinkKernel unit := {|
  nl_open k := k;
  nl_send k _ := k;
  nl_recv _ := None |}.
Definition ex_host : Host unit := MkHost {[ IP_FORWARD := line "0" ]} tt [].
Definition ex_lives : Host unit :=
  (exec 9 (enable "/run/noeio") (with_plan []
    (exec 9 (enable "/run/noeio") (with_plan [Works; Works; Fails (from_raw_os_error EACCES)]
      (exec 4 (enable "/run/noeio") (with_plan [] ex_host)).1)).1)).1.

Lemma forwarding_survives_witness :
  forwards ex_lives = Some true ∧ saved "/run/noeio" ex_lives = Some false ∧
  ∃ fs b, run (restore "/run/noeio") (with_plan [] ex_lives) = (MkHost fs tt [], Some (Ok b)) ∧
    is_one <$> fs !! IP_FORWARD = Some false ∧ fs !! saved_path "/run/noeio" = None.
Proof.
  split_and!; [reflexivity|reflexivity|].
  apply (forwarding_survives "/run/noeio" false ex_host ex_lives); [reflexivity|reflexivity|].
  assert (∀ h : Host unit, steady (with_plan [] h)) as Hq
    by (intros h o Ho; by apply not_elem_of_nil in Ho).
  eapply rtc_l; [apply (life_enable _ _ [] 4); apply Hq|].
  eapply rtc_l; [apply (life_enable _ _ [Works; Works; Fails (from_raw_os_error EACCES)] 9)|].
  { intros o Ho%list_elem_of_In. by destruct Ho as [<-|[<-|[<-|[]]]]. }
  eapply rtc_l; [apply (life_enable _ _ [] 9); apply Hq|apply rtc_refl].
Defined.
