(* ===== verification/Nftables.v ===== *)
(** [noeio-net-route/src/nftables.rs]: the one netfilter table a subnet router
    installs, the netlink batches that replace and delete it, and what their errors
    mean. The message types belong to [netlink-packet-netfilter] (file [Syscalls]);
    what the kernel does with a batch is [NfLaws], and what an expression means is
    [NftVm] / [VmLaws]. *)

From Stdlib Require Import ZArith Lia.
From Stdlib Require Import Strings.Byte Strings.Ascii Strings.String.
From stdpp Require Import base list strings gmap.
From S2P Require Import Prelude Text NetTypes HostInfo Syscalls.

Local Open Scope string_scope.
Local Open Scope Z_scope.

Definition TABLE : string := "noeio".
Definition CHAIN_POSTROUTING : string := "postrouting".
Definition CHAIN_FORWARD : string := "forward".
Definition CHAIN_MSSCLAMP : string := "mssclamp".
Definition PRIO_SRCNAT : Z := 100.
Definition PRIO_FILTER : Z := 0.
Definition PRIO_MANGLE : Z := -150.
Definition IFNAMSIZ_MAX : nat := 15.
Definition NFNL_SUBSYS_NFTABLES : Z := 10.
Definition NF_ACCEPT : Z := 1.
Definition REG1_BE : list byte := be_bytes 4 1.
Definition NFTA_MASQ_FLAGS : Z := 1.
Definition NFTA_CT_DREG : Z := 1.
Definition NFTA_CT_KEY : Z := 2.
Definition NFT_CT_STATE : Z := 0.
Definition NFTA_RT_DREG : Z := 1.
Definition NFTA_RT_KEY : Z := 2.
Definition NFT_RT_TCPMSS : Z := 3.
Definition NFTA_BYTEORDER_SREG : Z := 1.
Definition NFTA_BYTEORDER_DREG : Z := 2.
Definition NFTA_BYTEORDER_OP : Z := 3.
Definition NFTA_BYTEORDER_LEN : Z := 4.
Definition NFTA_BYTEORDER_SIZE : Z := 5.
Definition NFT_BYTEORDER_HTON : Z := 1.
Definition NFTA_EXTHDR_TYPE : Z := 2.
Definition NFTA_EXTHDR_OFFSET : Z := 3.
Definition NFTA_EXTHDR_LEN : Z := 4.
Definition NFTA_EXTHDR_OP : Z := 6.
Definition NFTA_EXTHDR_SREG : Z := 7.
Definition NFT_EXTHDR_OP_TCPOPT : Z := 1.
Definition TCPOPT_MAXSEG : Z := 2.
Definition CT_STATE_ESTABLISHED_RELATED : Z := 6.
Definition PAYLOAD_BASE_NETWORK : Z := 1.
Definition PAYLOAD_BASE_TRANSPORT : Z := 2.
Definition IPPROTO_TCP : Z := 6.
Definition TCP_FLAG_SYN : Z := 2.

(** The flags of [netlink-packet-core]. *)
Definition NLM_F_REQUEST : Z := 1.
Definition NLM_F_ACK : Z := 4.
Definition NLM_F_CREATE : Z := 1024.
Definition NLM_F_APPEND : Z := 2048.
Definition NLM_F_DUMP : Z := 768.

(** ** [Ruleset] *)

Definition ascii_alphanumeric (c : ascii) : bool :=
  is_digit c || ((65 <=? code c) && (code c <=? 90)) || ((97 <=? code c) && (code c <=? 122)).

Definition ifname_char (c : ascii) : bool :=
  ascii_alphanumeric c || bool_decide (c = "-"%char) || bool_decide (c = "_"%char)
  || bool_decide (c = "."%char).

Definition check_ifname (name : string) : result unit IoError :=
  if bool_decide (name = "") || (IFNAMSIZ_MAX <? String.length name)%nat
     || negb (string_all ifname_char name)
  then Err (io_error InvalidInput ("'" +:+ name +:+ "' is not a valid interface name"))
  else Ok tt.

Module Ruleset.

Record Ruleset : Type := MkRuleset {
  overlay : Z * Z;
  lan_if : string;
  tun_if : string;
  mss_clamp : bool;
}.

Definition new (overlay : Z * Z) (lan_if tun_if : string) (mss_clamp : bool) :
    result Ruleset IoError :=
  let? _ := check_ifname lan_if in
  let? _ := check_ifname tun_if in
  if 32 <? overlay.2
  then Err (io_error InvalidInput ("prefix /" +:+ show_uint overlay.2 +:+ " is out of range"))
  else Ok (MkRuleset overlay lan_if tun_if mss_clamp).

End Ruleset.
Import Ruleset.

(** ** [NfError] *)

Inductive NfError : Type :=
  | Permission (e : IoError)
  | NatUnsupported (e : IoError)
  | NfUnsupported (e : IoError)
  | NfOther (e : IoError).

Definition show_nf_error (e : NfError) : string :=
  match e with
  | Permission e => "netfilter: permission denied (" +:+ io_message e +:+
      "). noeio needs CAP_NET_ADMIN in its own network namespace to act as a subnet router"
  | NatUnsupported e => "netfilter: NAT chain rejected (" +:+ io_message e +:+
      "). The kernel could not load nf_tables NAT support; run `modprobe nft_masq nf_nat nft_ct` on the host (a container cannot load modules itself)"
  | NfUnsupported e => "netfilter: nf_tables unavailable (" +:+ io_message e +:+
      "). Linux >= 4.18 with NF_TABLES, NF_TABLES_IPV4, NF_TABLES_NAT, NFT_MASQ and NFT_CT is required to act as a subnet router"
  | NfOther e => "netfilter: " +:+ io_message e
  end.

(** The kind of [io::Error::from(e)], and the whole error. *)
Definition nf_error_kind (e : NfError) : ErrorKind :=
  match e with
  | Permission _ => PermissionDenied
  | NatUnsupported _ | NfUnsupported _ => Unsupported
  | NfOther inner => io_kind inner
  end.
Definition io_from_nf (e : NfError) : IoError := MkIoError None (nf_error_kind e) (show_nf_error e).

Definition classify_open (e : IoError) : NfError :=
  match raw_os_error e with
  | Some c =>
      if (c =? EPERM) || (c =? EACCES) then Permission e
      else if (c =? EPROTONOSUPPORT) || (c =? EAFNOSUPPORT) then NfUnsupported e
      else NfOther e
  | None => NfOther e
  end.

Definition classify_apply (e : IoError) : NfError :=
  match raw_os_error e with
  | Some c =>
      if (c =? EPERM) || (c =? EACCES) then Permission e
      else if c =? ENOENT then NatUnsupported e
      else if (c =? EOPNOTSUPP) || (c =? EPROTONOSUPPORT) || (c =? EAFNOSUPPORT)
           then NfUnsupported e
      else NfOther e
  | None => NfOther e
  end.

(** ** Message builders *)

Definition nf (family : NetfilterProtoFamily) (inner : NfTablesMessage) (flags : Z) : NfMsg :=
  MkNfMsg (Z.lor NLM_F_REQUEST flags) 0 (NfInner family 0 inner).

Definition batch_control (kind : ControlMessage) : NfMsg :=
  MkNfMsg NLM_F_REQUEST 0 (NfControl Unspec NFNL_SUBSYS_NFTABLES kind).

Definition new_table : NfMsg :=
  nf ProtoIPv4 (NewTable [TableName TABLE]) (Z.lor NLM_F_CREATE NLM_F_ACK).
Definition del_table : NfMsg := nf ProtoIPv4 (DeleteTable [TableName TABLE]) NLM_F_ACK.
Definition get_table : NfMsg := nf ProtoIPv4 (GetTable [TableName TABLE]) NLM_F_ACK.

Definition dump_chains : NfMsg := nf ProtoIPv4 (GetChain [ChainTable TABLE]) NLM_F_DUMP.
Definition dump_rules : NfMsg := nf ProtoIPv4 (GetRule [RuleTable TABLE]) NLM_F_DUMP.

(** [priority as u32] *)
Definition new_base_chain (name chain_type : string) (hook : InetHookNumber) (priority : Z) :
    NfMsg :=
  nf ProtoIPv4
    (NewChain [ChainTable TABLE; ChainName name; ChainPolicy NF_ACCEPT; ChainType chain_type;
               ChainHook [HookNumber hook; HookPriority (wrap 32 priority)]])
    (Z.lor NLM_F_CREATE NLM_F_ACK).

Definition new_rule (chain : string) (exprs : list Expr) : NfMsg :=
  nf ProtoIPv4 (NewRule [RuleTable TABLE; RuleChain chain; RuleExpressions exprs])
    (Z.lor (Z.lor NLM_F_CREATE NLM_F_APPEND) NLM_F_ACK).

(** ** Expressions *)

Definition ifname_bytes (name : string) : list byte :=
  resize 16 Byte.x00 (list_byte_of_string name).

Definition match_ifname (key : MetaKey) (name : string) : list Expr :=
  [EMeta [MetaKeyIs key; MetaDreg Reg1];
   ECmp [CmpSreg Reg1; CmpOp Equal; CmpData (Value (ifname_bytes name))]].

(** [u32::MAX << (32 - prefix)], and 0 for a prefix of 0. *)
Definition saddr_mask (prefix : Z) : Z :=
  if prefix =? 0 then 0 else wrap 32 (Z.shiftl U32_MAX (32 - prefix)).

Definition match_saddr (net prefix : Z) : list Expr :=
  let mask := saddr_mask prefix in
  let net := Z.land net mask in
  [EPayload [PayloadDreg Reg1; PayloadBase PAYLOAD_BASE_NETWORK; PayloadOffset 12; PayloadLen 4];
   EBitwise [BitSreg Reg1; BitDreg Reg1; BitLength 4; BitMask (Value (be_bytes 4 mask));
             BitXor (Value (replicate 4 Byte.x00))];
   ECmp [CmpSreg Reg1; CmpOp Equal; CmpData (Value (be_bytes 4 net))]].

Definition accept : Expr :=
  EImmediate [ImmDreg RegVerdict; ImmData (VerdictData [OtherVerdict NF_ACCEPT])].

Definition masquerade : Expr := EOther "masq" [Nla NFTA_MASQ_FLAGS (be_bytes 4 0)].

Section endian.
(** [u32::to_ne_bytes] of the build's target. *)
Context (big_endian : bool).

Definition ne_bytes (n : nat) (z : Z) : list byte :=
  if big_endian then be_bytes n z else rev (be_bytes n z).

Definition match_ct_established_related : list Expr :=
  [EOther "ct" [Nla NFTA_CT_DREG REG1_BE; Nla NFTA_CT_KEY (be_bytes 4 NFT_CT_STATE)];
   EBitwise [BitSreg Reg1; BitDreg Reg1; BitLength 4;
             BitMask (Value (ne_bytes 4 CT_STATE_ESTABLISHED_RELATED));
             BitXor (Value (replicate 4 Byte.x00))];
   ECmp [CmpSreg Reg1; CmpOp NotEqual; CmpData (Value (replicate 4 Byte.x00))]].

Definition tcp_syn_mss_clamp : list Expr :=
  [EMeta [MetaKeyIs L4Proto; MetaDreg Reg1];
   ECmp [CmpSreg Reg1; CmpOp Equal; CmpData (Value [byte_of_Z IPPROTO_TCP])];
   EPayload [PayloadDreg Reg1; PayloadBase PAYLOAD_BASE_TRANSPORT; PayloadOffset 13; PayloadLen 1];
   EBitwise [BitSreg Reg1; BitDreg Reg1; BitLength 1; BitMask (Value [byte_of_Z TCP_FLAG_SYN]);
             BitXor (Value [Byte.x00])];
   ECmp [CmpSreg Reg1; CmpOp NotEqual; CmpData (Value [Byte.x00])];
   EOther "rt" [Nla NFTA_RT_DREG REG1_BE; Nla NFTA_RT_KEY (be_bytes 4 NFT_RT_TCPMSS)];
   EOther "byteorder"
     [Nla NFTA_BYTEORDER_SREG REG1_BE; Nla NFTA_BYTEORDER_DREG REG1_BE;
      Nla NFTA_BYTEORDER_OP (be_bytes 4 NFT_BYTEORDER_HTON);
      Nla NFTA_BYTEORDER_LEN (be_bytes 4 2); Nla NFTA_BYTEORDER_SIZE (be_bytes 4 2)];
   EOther "exthdr"
     [Nla NFTA_EXTHDR_SREG REG1_BE; Nla NFTA_EXTHDR_TYPE [byte_of_Z (wrap 8 TCPOPT_MAXSEG)];
      Nla NFTA_EXTHDR_OFFSET (be_bytes 4 2); Nla NFTA_EXTHDR_LEN (be_bytes 4 2);
      Nla NFTA_EXTHDR_OP (be_bytes 4 NFT_EXTHDR_OP_TCPOPT)]].

(** ** Batches *)

(** The messages between the batch markers. *)
Definition build_batch (rules : Ruleset) : list NfMsg :=
  let '(net, prefix) := overlay rules in
  let masq := (match_saddr net prefix ++ match_ifname Oifname (lan_if rules) ++ [masquerade])%list in
  let out := (match_ifname Iifname (tun_if rules) ++ match_ifname Oifname (lan_if rules)
              ++ [accept])%list in
  let back := (match_ifname Iifname (lan_if rules) ++ match_ifname Oifname (tun_if rules)
               ++ match_ct_established_related ++ [accept])%list in
  ([batch_control BatchBegin;
    del_table;
    new_table;
    new_base_chain CHAIN_POSTROUTING "nat" PostRouting PRIO_SRCNAT;
    new_base_chain CHAIN_FORWARD "filter" ForwardHook PRIO_FILTER;
    new_rule CHAIN_POSTROUTING masq;
    new_rule CHAIN_FORWARD out;
    new_rule CHAIN_FORWARD back] ++
   (if mss_clamp rules then
      new_base_chain CHAIN_MSSCLAMP "filter" ForwardHook PRIO_MANGLE ::
      map (λ key, new_rule CHAIN_MSSCLAMP
                    (match_ifname key (tun_if rules) ++ tcp_syn_mss_clamp)%list)
        [Iifname; Oifname]
    else []) ++
   [batch_control BatchEnd])%list.

Definition delete_batch : list NfMsg :=
  [batch_control BatchBegin; del_table; batch_control BatchEnd].

End endian.

(** ** Reading the table back *)

Record ChainView : Type := MkChainView {
  chain_name : string;
  chain_type : string;
  chain_hook : option Z;
  chain_priority : option Z;
}.
Record RuleView : Type := MkRuleView { rule_chain : string; rule_expressions : list string }.
Record TableView : Type := MkTableView { view_chains : list ChainView; view_rules : list RuleView }.

(** [u32::from(n)] of a hook, [p as i32] of a priority, and the name nf_tables gives an
    expression. *)
Definition hook_number (h : InetHookNumber) : Z :=
  match h with PostRouting => 4 | ForwardHook => 2 end.
Definition as_i32 (p : Z) : Z := if p <? 2 ^ 31 then p else p - 2 ^ 32.
Definition expr_name (e : Expr) : string :=
  match e with
  | EMeta _ => "meta" | ECmp _ => "cmp" | EPayload _ => "payload" | EBitwise _ => "bitwise"
  | EImmediate _ => "immediate" | EOther name _ => name
  end.

Definition read_hook (c : ChainView) (h : Hook) : ChainView :=
  match h with
  | HookNumber n => MkChainView (chain_name c) (chain_type c) (Some (hook_number n)) (chain_priority c)
  | HookPriority p => MkChainView (chain_name c) (chain_type c) (chain_hook c) (Some (as_i32 p))
  end.
Definition read_chain_attribute (c : ChainView) (a : ChainAttribute) : ChainView :=
  match a with
  | ChainName n => MkChainView n (chain_type c) (chain_hook c) (chain_priority c)
  | ChainType t => MkChainView (chain_name c) t (chain_hook c) (chain_priority c)
  | ChainHook hooks => foldl read_hook c hooks
  | _ => c
  end.
Definition chain_view (attributes : list ChainAttribute) : ChainView :=
  foldl read_chain_attribute (MkChainView "" "" None None) attributes.

Definition read_rule_attribute (r : RuleView) (a : RuleAttribute) : RuleView :=
  match a with
  | RuleChain c => MkRuleView c (rule_expressions r)
  | RuleExpressions es => MkRuleView (rule_chain r) (rule_expressions r ++ map expr_name es)
  | _ => r
  end.
Definition rule_view (attributes : list RuleAttribute) : RuleView :=
  foldl read_rule_attribute (MkRuleView "" []) attributes.

(** ** [NfSocket] *)

(** [err.to_io()]. *)
Definition to_io (code : Z) : IoError := from_raw_os_error (Z.abs code).

Definition has_ack (m : NfMsg) : bool := negb (Z.land (nl_flags m) NLM_F_ACK =? 0).

Module NfSocket.

Record NfSocket : Type := MkSocket { seq : Z }.

(** [Socket::new] and [bind_auto] as one call. *)
Definition open : prog (result NfSocket NfError) :=
  let* r := call NlOpen in
  Ret (match r with Ok _ => Ok (MkSocket 1) | Err e => Err (classify_open e) end).

Fixpoint stamp (seq : Z) (msgs : list NfMsg) : list NfMsg :=
  match msgs with
  | [] => []
  | m :: msgs => MkNfMsg (nl_flags m) seq (nl_payload m) :: stamp (wrap 32 (seq + 1)) msgs
  end.

Definition send_all (s : NfSocket) (msgs : list NfMsg) : prog (NfSocket * result Z IoError) :=
  let first_seq := seq s in
  let* r := call (NlSend (stamp first_seq msgs)) in
  Ret (MkSocket (wrap 32 (first_seq + Z.of_nat (length msgs))),
       match r with Ok _ => Ok first_seq | Err e => Err e end).

(** The inner loop of [collect_acks] over one buffer. *)
Fixpoint count_acks (d : Datagram) (seen : nat) : result nat IoError :=
  match d with
  | [] => Ok seen
  | None :: _ => Err (invalid_data "")
  | Some m :: d =>
      match nl_payload m with
      | NlError c => if negb (c =? 0) then Err (to_io c) else count_acks d (S seen)
      | _ => count_acks d seen
      end
  end.

(** [fuel] bounds the buffers read. *)
Fixpoint collect_acks (fuel expected_acks seen : nat) : prog (result unit IoError) :=
  if (expected_acks <=? seen)%nat then Ret (Ok tt) else
  match fuel with
  | O => Hang
  | S fuel =>
      let! bytes := call NlRecv in
      match count_acks bytes seen with
      | Err e => Ret (Err e)
      | Ok seen => collect_acks fuel expected_acks seen
      end
  end.

Section socket.
(** The target's byte order, and the bound on the buffers one call reads. *)
Context (big_endian : bool) (fuel : nat).

Definition batch (s : NfSocket) (msgs : list NfMsg) : prog (NfSocket * result unit IoError) :=
  let acks := length (List.filter has_ack msgs) in
  let* (s, r) := send_all s msgs in
  match r with
  | Err e => Ret (s, Err e)
  | Ok _ => let* r := collect_acks fuel acks 0 in Ret (s, r)
  end.

Definition apply (s : NfSocket) (rules : Ruleset) : prog (NfSocket * result unit NfError) :=
  let* (s, r) := batch s [batch_control BatchBegin; new_table; batch_control BatchEnd] in
  match r with
  | Err e => Ret (s, Err (classify_apply e))
  | Ok _ => let* (s, r) := batch s (build_batch big_endian rules) in Ret (s, map_err classify_apply r)
  end.

Definition clear (s : NfSocket) : prog (NfSocket * result unit NfError) :=
  let* (s, r) := batch s delete_batch in
  match r with
  | Ok _ => Ret (s, Ok tt)
  | Err e => if bool_decide (raw_os_error e = Some ENOENT) then Ret (s, Ok tt)
             else Ret (s, Err (classify_apply e))
  end.

Definition table_exists (s : NfSocket) : prog (NfSocket * result bool NfError) :=
  let req := MkNfMsg NLM_F_REQUEST (nl_seq get_table) (nl_payload get_table) in
  let* (s, r) := send_all s [req] in
  match r with
  | Err e => Ret (s, Err (NfOther e))
  | Ok _ =>
      let* r := call NlRecv in
      Ret (s, match r with
              | Err e => Err (NfOther e)
              | Ok (Some m :: _) =>
                  match nl_payload m with
                  | NlError c =>
                      if c =? - ENOENT then Ok false
                      else if negb (c =? 0) then Err (classify_apply (to_io c))
                      else Ok true
                  | _ => Ok true
                  end
              | Ok _ => Err (NfOther (invalid_data ""))
              end)
  end.

(** The inner loop of [dump] over one buffer; the flag says that the dump is done. *)
Fixpoint dump_items (d : Datagram) (out : list NfTablesMessage) :
    result (bool * list NfTablesMessage) IoError :=
  match d with
  | [] => Ok (false, out)
  | None :: _ => Err (invalid_data "")
  | Some m :: d =>
      match nl_payload m with
      | NlDone => Ok (true, out)
      | NlError c => if negb (c =? 0) then Err (to_io c) else dump_items d out
      | NfInner _ _ m => dump_items d (out ++ [m])
      | NfControl _ _ _ => dump_items d out
      end
  end.

Fixpoint dump_loop (fuel : nat) (out : list NfTablesMessage) : prog (result (list NfTablesMessage) IoError) :=
  match fuel with
  | O => Hang
  | S fuel =>
      let! bytes := call NlRecv in
      match dump_items bytes out with
      | Err e => Ret (Err e)
      | Ok (true, out) => Ret (Ok out)
      | Ok (false, out) => dump_loop fuel out
      end
  end.

Definition dump (s : NfSocket) (req : NfMsg) : prog (NfSocket * result (list NfTablesMessage) IoError) :=
  let* (s, r) := send_all s [req] in
  match r with
  | Err e => Ret (s, Err e)
  | Ok _ => let* r := dump_loop fuel [] in Ret (s, r)
  end.

Definition read_back (s : NfSocket) : prog (NfSocket * result TableView NfError) :=
  let* (s, r) := dump s dump_chains in
  match r with
  | Err e => Ret (s, Err (NfOther e))
  | Ok ms =>
      let chains := omap (λ m, match m with NewChain a => Some (chain_view a) | _ => None end) ms in
      let* (s, r) := dump s dump_rules in
      match r with
      | Err e => Ret (s, Err (NfOther e))
      | Ok ms =>
          let rules := omap (λ m, match m with NewRule a => Some (rule_view a) | _ => None end) ms in
          Ret (s, Ok (MkTableView chains rules))
      end
  end.
End socket.
End NfSocket.
