(* ===== verification/NftRules.v ===== *)
(** What the table built by [Nftables.build_batch] does to packets. Netfilter
    evaluates a rule's expressions from left to right over a register; [VmLaws] is
    what the nf_tables documentation says of the expressions the program emits. *)

From Stdlib Require Import ZArith Lia.
From Stdlib Require Import Strings.Byte Strings.Ascii Strings.String.
From stdpp Require Import base list strings.
From S2P Require Import Prelude Text NetTypes HostInfo Syscalls Nftables.
Import Nftables.Ruleset.

Local Open Scope string_scope.
Local Open Scope Z_scope.

(** ** Packets and verdicts *)

(** A forwarded packet as netfilter sees it: interface names, the packet from its
    network and from its transport header, the transport protocol, the connection
    tracking state bits and the segment size the route allows. *)
Record Pkt : Type := MkPkt {
  p_iif : string;
  p_oif : string;
  p_net : list byte;
  p_trans : list byte;
  p_l4proto : byte;
  p_ct : Z;
  p_mss : Z;
}.

Inductive Action : Type :=
  | Accept
  | Masquerade
  | SetTcpOption (kind offset : Z) (bytes : list byte).

#[export] Instance Action_eq_dec : EqDecision Action.
Proof. solve_decision. Defined.

Definition byte_and (a b : byte) : byte := byte_of_Z (Z.land (Z_of_byte a) (Z_of_byte b)).
Definition byte_xor (a b : byte) : byte := byte_of_Z (Z.lxor (Z_of_byte a) (Z_of_byte b)).

(** ** The evaluator

    [nft_eval p r es]: what expressions [es] do to packet [p] when the register holds
    [r]; [None] when the rule does not apply. *)
Class NftVm : Type := { nft_eval : Pkt → list byte → list Expr → option (list Action) }.

Class VmLaws {VM : NftVm} (big_endian : bool) : Prop := {
  vm_nil : ∀ p r, nft_eval p r [] = Some [];
  vm_meta : ∀ p r k es, nft_eval p r (EMeta [MetaKeyIs k; MetaDreg Reg1] :: es) =
    nft_eval p (match k with
                | Iifname => ifname_bytes (p_iif p)
                | Oifname => ifname_bytes (p_oif p)
                | L4Proto => [p_l4proto p]
                end) es;
  vm_payload : ∀ p r b o l es, 0 ≤ o → 0 ≤ l →
    nft_eval p r (EPayload [PayloadDreg Reg1; PayloadBase b; PayloadOffset o; PayloadLen l] :: es) =
    match slice (Z.to_nat o) (Z.to_nat o + Z.to_nat l)
            (if b =? PAYLOAD_BASE_NETWORK then p_net p else p_trans p) with
    | Some bs => nft_eval p bs es
    | None => None
    end;
  vm_bitwise : ∀ p r m x es, length m = length r → length x = length r →
    nft_eval p r (EBitwise [BitSreg Reg1; BitDreg Reg1; BitLength (Z.of_nat (length r));
                            BitMask (Value m); BitXor (Value x)] :: es) =
    nft_eval p (zip_with byte_xor (zip_with byte_and r m) x) es;
  vm_cmp : ∀ p r o d es, length d = length r →
    nft_eval p r (ECmp [CmpSreg Reg1; CmpOp o; CmpData (Value d)] :: es) =
    if match o with
       | Equal => bool_decide (r = d)
       | NotEqual => negb (bool_decide (r = d))
       end
    then nft_eval p r es else None;
  vm_accept : ∀ p r es,
    nft_eval p r (EImmediate [ImmDreg RegVerdict; ImmData (VerdictData [OtherVerdict 1])] :: es) =
    Some [Accept];
  vm_masq : ∀ p r es,
    nft_eval p r (EOther "masq" [Nla 1 (be_bytes 4 0)] :: es) = Some [Masquerade];
  vm_ct_state : ∀ p r es,
    nft_eval p r (EOther "ct" [Nla 1 (be_bytes 4 1); Nla 2 (be_bytes 4 0)] :: es) =
    nft_eval p (ne_bytes big_endian 4 (p_ct p)) es;
  vm_rt_tcpmss : ∀ p r es,
    nft_eval p r (EOther "rt" [Nla 1 (be_bytes 4 1); Nla 2 (be_bytes 4 3)] :: es) =
    nft_eval p (ne_bytes big_endian 2 (p_mss p)) es;
  vm_hton16 : ∀ p z es,
    nft_eval p (ne_bytes big_endian 2 z)
      (EOther "byteorder" [Nla 1 (be_bytes 4 1); Nla 2 (be_bytes 4 1); Nla 3 (be_bytes 4 1);
                           Nla 4 (be_bytes 4 2); Nla 5 (be_bytes 4 2)] :: es) =
    nft_eval p (be_bytes 2 z) es;
  vm_tcpopt : ∀ p r k off es, 0 ≤ off < 2 ^ 32 → length r = 2%nat →
    nft_eval p r
      (EOther "exthdr" [Nla 7 (be_bytes 4 1); Nla 2 [byte_of_Z k]; Nla 3 (be_bytes 4 off);
                        Nla 4 (be_bytes 4 2); Nla 6 (be_bytes 4 1)] :: es) =
    (λ acts, SetTcpOption (k mod 256) off r :: acts) <$> nft_eval p r es;
}.

(** ** The specification *)

Definition src_addr (p : Pkt) : option Z := be_val <$> slice 12 16 (p_net p).

(** [ip saddr net/prefix]. *)
Definition from_overlay (overlay : Z * Z) (p : Pkt) : bool :=
  match src_addr p with
  | Some a => prefix_bits overlay.2 a =? prefix_bits overlay.2 overlay.1
  | None => false
  end.

(** [tcp flags syn]. *)
Definition tcp_syn (p : Pkt) : bool :=
  (Z_of_byte (p_l4proto p) =? IPPROTO_TCP) &&
  match p_trans p !! 13%nat with
  | Some f => Z.testbit (Z_of_byte f) 1
  | None => false
  end.

(** [ct state established,related]: bits 1 and 2. *)
Definition established_related (p : Pkt) : bool := Z.testbit (p_ct p) 1 || Z.testbit (p_ct p) 2.

Definition iif (name : string) (p : Pkt) : bool := bool_decide (p_iif p = name).
Definition oif (name : string) (p : Pkt) : bool := bool_decide (p_oif p = name).
Definition on (b : bool) (a : Action) : option (list Action) := if b then Some [a] else None.

(** The rules a batch appends to a chain of the table, in order. *)
Definition rules_in (chain : string) (msgs : list NfMsg) : list (list Expr) :=
  omap (λ m, match nl_payload m with
             | NfInner _ _ (NewRule [RuleTable t; RuleChain c; RuleExpressions es]) =>
                 if bool_decide (t = TABLE ∧ c = chain) then Some es else None
             | _ => None
             end) msgs.

(** A name of the kernel: at most 15 bytes, none of them NUL. *)
Definition kernel_ifname (s : string) : Prop :=
  (String.length s ≤ IFNAMSIZ_MAX)%nat ∧ Byte.x00 ∉ list_byte_of_string s.

(** ** Bytes *)

Lemma be_bytes_S n z : be_bytes (S n) z = byte_of_Z (z / 256 ^ Z.of_nat n) :: be_bytes n z.
Proof. reflexivity. Qed.

Lemma zip_and_be_bytes n a b :
  zip_with byte_and (be_bytes n a) (be_bytes n b) = be_bytes n (Z.land a b).
Proof.
  induction n as [|n IH]; [done|]. rewrite !be_bytes_S. cbn. rewrite IH. f_equal.
  apply Z_of_byte_inj. unfold byte_and. rewrite !Z_of_byte_of_Z.
  assert (∀ x, x mod 256 = Z.land x (Z.ones 8)) as E by (intros x; by rewrite Z.land_ones).
  replace (256 ^ Z.of_nat n) with (2 ^ (8 * Z.of_nat n)) by (rewrite Z.pow_mul_r by lia; done).
  rewrite <-!Z.shiftr_div_pow2 by lia. rewrite Z.shiftr_land, !E.
  apply Z.bits_inj'. intros i _. rewrite !Z.land_spec.
  destruct (Z.testbit (Z.shiftr a _) i), (Z.testbit (Z.shiftr b _) i), (Z.testbit (Z.ones 8) i); done.
Qed.

Lemma zip_xor_zero l : zip_with byte_xor l (replicate (length l) Byte.x00) = l.
Proof.
  induction l as [|b l IH]; [done|]. cbn. rewrite IH. f_equal.
  unfold byte_xor. change (Z_of_byte Byte.x00) with 0. by rewrite Z.lxor_0_r, byte_of_Z_of_byte.
Qed.

Lemma length_bytes_of_string s : length (list_byte_of_string s) = String.length s.
Proof. unfold list_byte_of_string. rewrite length_map. induction s; cbn; congruence. Qed.

Lemma ifname_bytes_inj a b :
  kernel_ifname a → kernel_ifname b → ifname_bytes a = ifname_bytes b → a = b.
Proof.
  assert (∀ s, kernel_ifname s → ∃ n, ifname_bytes s =
    (list_byte_of_string s ++ replicate n Byte.x00)%list) as E.
  { intros s [Hl _]. unfold ifname_bytes, resize. eexists. rewrite take_ge; [done|].
    rewrite length_bytes_of_string. unfold IFNAMSIZ_MAX in Hl. lia. }
  intros Ha Hb H. destruct (E a Ha) as [n Ea], (E b Hb) as [m Eb]. rewrite Ea, Eb in H.
  rewrite <-(string_of_list_byte_of_string a), <-(string_of_list_byte_of_string b). f_equal.
  destruct Ha as [_ Ha], Hb as [_ Hb]. revert Ha Hb H.
  generalize (list_byte_of_string a) as la, (list_byte_of_string b) as lb.
  induction la as [|x la IH]; intros [|y lb] Ha Hb H; [done| | |].
  - destruct n; [done|]. injection H as <- _. by destruct Hb; left.
  - destruct m; [done|]. injection H as -> _. by destruct Ha; left.
  - injection H as -> H. f_equal. rewrite not_elem_of_cons in Ha, Hb. apply IH; tauto.
Qed.

(** ** The address mask *)

Lemma saddr_mask_ones q : 0 ≤ q ≤ 32 → saddr_mask q = Z.shiftl (Z.ones q) (32 - q).
Proof.
  intros Hq. rewrite <-(Z2Nat.id q) by lia.
  assert (Z.to_nat q ∈ seq 0 33) as Hin by (apply elem_of_seq; lia).
  revert Hin. generalize (Z.to_nat q) as n. clear. intros n Hin.
  apply Z.eqb_eq. revert n Hin. apply Forall_forall.
  repeat (apply Forall_cons; split; [by vm_compute|]). by apply Forall_nil.
Qed.

Lemma land_shiftl a m k : 0 ≤ k → Z.land a (Z.shiftl m k) = Z.shiftl (Z.land (Z.shiftr a k) m) k.
Proof.
  intros Hk. apply Z.bits_inj'. intros i Hi.
  rewrite Z.land_spec, !Z.shiftl_spec, Z.land_spec by done.
  destruct (decide (k ≤ i)).
  - rewrite Z.shiftr_spec by lia. do 2 f_equal. lia.
  - rewrite (Z.testbit_neg_r m), (Z.testbit_neg_r (Z.shiftr a k)) by lia. apply andb_false_r.
Qed.

Lemma land_mask a q : is_uint 32 a → 0 ≤ q ≤ 32 →
  Z.land a (saddr_mask q) = prefix_bits q a * 2 ^ (32 - q).
Proof.
  intros Ha Hq. rewrite saddr_mask_ones, land_shiftl, Z.shiftl_mul_pow2, Z.land_ones by lia.
  f_equal. rewrite Z.shiftr_div_pow2 by lia. unfold prefix_bits. apply Z.mod_small.
  unfold is_uint in Ha. pose proof (Z.pow_pos_nonneg 2 (32 - q) ltac:(lia) ltac:(lia)).
  split; [apply Z.div_pos; lia|]. apply Z.div_lt_upper_bound; [lia|].
  rewrite <-Z.pow_add_r by lia. replace (32 - q + q) with 32 by lia. lia.
Qed.

Lemma land_mask_eq a b q : is_uint 32 a → is_uint 32 b → 0 ≤ q ≤ 32 →
  Z.land a (saddr_mask q) = Z.land b (saddr_mask q) ↔ prefix_bits q a = prefix_bits q b.
Proof.
  intros Ha Hb Hq. rewrite !land_mask by done.
  pose proof (Z.pow_pos_nonneg 2 (32 - q) ltac:(lia) ltac:(lia)). split; [nia|by intros ->].
Qed.

(** ** Expressions *)

Section rules.
Context {VM : NftVm} (be : bool) {VL : VmLaws be}.

(** The name a [MetaKey] loads. *)
Definition iface (key : MetaKey) (p : Pkt) : option string :=
  match key with Iifname => Some (p_iif p) | Oifname => Some (p_oif p) | L4Proto => None end.

Lemma eval_ifname key name s p r es :
  iface key p = Some s → kernel_ifname s → kernel_ifname name →
  nft_eval p r (match_ifname key name ++ es)%list =
  if bool_decide (s = name) then nft_eval p (ifname_bytes s) es else None.
Proof.
  intros Hs Hk Hn. unfold match_ifname. cbn [app]. rewrite (vm_meta (big_endian := be)).
  transitivity (nft_eval p (ifname_bytes s)
    (ECmp [CmpSreg Reg1; CmpOp Equal; CmpData (Value (ifname_bytes name))] :: es)).
  { by destruct key; simplify_eq/=. }
  rewrite (vm_cmp (big_endian := be)) by (unfold ifname_bytes; by rewrite !length_resize).
  case_bool_decide as H.
  - apply ifname_bytes_inj in H; [|done|done]. by rewrite bool_decide_eq_true_2.
  - rewrite bool_decide_eq_false_2; [done|]. congruence.
Qed.

(** Loaded bytes, masked and compared with a constant. *)
Lemma eval_masked a m d o n p es :
  nft_eval p (be_bytes n a)
    (EBitwise [BitSreg Reg1; BitDreg Reg1; BitLength (Z.of_nat n);
               BitMask (Value (be_bytes n m)); BitXor (Value (replicate n Byte.x00))] ::
     ECmp [CmpSreg Reg1; CmpOp o; CmpData (Value (be_bytes n d))] :: es) =
  if match o with
     | Equal => bool_decide (be_bytes n (Z.land a m) = be_bytes n d)
     | NotEqual => negb (bool_decide (be_bytes n (Z.land a m) = be_bytes n d))
     end
  then nft_eval p (be_bytes n (Z.land a m)) es else None.
Proof.
  pose proof (vm_bitwise (big_endian := be) p (be_bytes n a) (be_bytes n m)
    (replicate n Byte.x00) (ECmp [CmpSreg Reg1; CmpOp o; CmpData (Value (be_bytes n d))] :: es)) as H.
  rewrite !length_be_bytes in H. rewrite H by (by rewrite ?length_replicate, ?length_be_bytes).
  rewrite zip_and_be_bytes.
  pose proof (zip_xor_zero (be_bytes n (Z.land a m))) as Hx. rewrite length_be_bytes in Hx.
  rewrite Hx, (vm_cmp (big_endian := be)) by (by rewrite !length_be_bytes). done.
Qed.

Lemma be_bytes_inj n a b :
  0 ≤ a < 256 ^ Z.of_nat n → 0 ≤ b < 256 ^ Z.of_nat n → be_bytes n a = be_bytes n b → a = b.
Proof. intros Ha Hb H. rewrite <-(be_val_be_bytes_small n a), H by done. by apply be_val_be_bytes_small. Qed.

Lemma land_u32 a m : is_uint 32 a → 0 ≤ Z.land a m < 2 ^ 32.
Proof.
  intros Ha. unfold is_uint in Ha. split; [apply Z.land_nonneg; lia|].
  replace a with (Z.land a (Z.ones 32)) by (rewrite Z.land_ones; [apply Z.mod_small|]; lia).
  rewrite <-Z.land_assoc, (Z.land_comm (Z.ones 32)), Z.land_assoc, Z.land_ones by lia.
  apply Z.mod_pos_bound. lia.
Qed.

Lemma eval_saddr net q p r es :
  is_uint 32 net → 0 ≤ q ≤ 32 →
  ∃ r', nft_eval p r (match_saddr net q ++ es)%list =
    if from_overlay (net, q) p then nft_eval p r' es else None.
Proof.
  intros Hnet Hq. unfold match_saddr, from_overlay, src_addr. cbn [app fst snd].
  rewrite (vm_payload (big_endian := be)) by lia. rewrite Z.eqb_refl.
  change (Z.to_nat 12 + Z.to_nat 4)%nat with 16%nat. change (Z.to_nat 12) with 12%nat.
  destruct (slice 12 16 (p_net p)) as [bs|] eqn:Hs; [|by exists []].
  apply slice_Some in Hs as (Hlen & ->).
  set (bs := take _ _). assert (length bs = 4%nat) as H4
    by (unfold bs; rewrite length_take, length_drop; lia).
  cbn [fmap option_fmap option_map]. set (a := be_val bs).
  assert (is_uint 32 a) as Ha.
  { unfold is_uint, a. pose proof (be_val_bound bs) as Hb. rewrite H4 in Hb. exact Hb. }
  rewrite <-(be_bytes_be_val bs), H4. fold a. change 4 with (Z.of_nat 4).
  rewrite eval_masked. eexists.
  destruct (Z.eqb_spec (prefix_bits q a) (prefix_bits q net)) as [E|E].
  - rewrite bool_decide_eq_true_2; [reflexivity|]. f_equal. by apply land_mask_eq.
  - rewrite bool_decide_eq_false_2; [done|]. intros H. apply E.
    apply land_mask_eq; [done..|]. by apply be_bytes_inj in H; [|apply land_u32..].
Qed.

Lemma zip_with_rev {A B C} (f : A → B → C) l k :
  length l = length k → zip_with f (rev l) (rev k) = rev (zip_with f l k).
Proof.
  revert k. induction l as [|x l IH]; intros [|y k] [=]; [done|].
  cbn. rewrite zip_with_app by (by rewrite !length_rev). by rewrite IH.
Qed.

Lemma length_ne_bytes n z : length (ne_bytes be n z) = n.
Proof. unfold ne_bytes. destruct be; by rewrite ?length_rev, length_be_bytes. Qed.

Lemma zip_and_ne_bytes n a b :
  zip_with byte_and (ne_bytes be n a) (ne_bytes be n b) = ne_bytes be n (Z.land a b).
Proof.
  unfold ne_bytes. destruct be; [apply zip_and_be_bytes|].
  rewrite zip_with_rev by (by rewrite !length_be_bytes). by rewrite zip_and_be_bytes.
Qed.

Lemma be_bytes_zero n : be_bytes n 0 = replicate n Byte.x00.
Proof.
  induction n as [|n IH]; [done|]. rewrite be_bytes_S, IH.
  by rewrite Z.div_0_l by (apply Z.pow_nonzero; lia).
Qed.

Lemma rev_replicate {A} n (x : A) : rev (replicate n x) = replicate n x.
Proof. rewrite rev_alt. apply reverse_replicate. Qed.

Lemma ne_bytes_zero n z : 0 ≤ z < 256 ^ Z.of_nat n →
  ne_bytes be n z = replicate n Byte.x00 ↔ z = 0.
Proof.
  intros Hz. rewrite <-be_bytes_zero. unfold ne_bytes. split.
  - intros H. apply (be_bytes_inj n); [done|pose proof (pow256_pos n); lia|].
    destruct be; [done|].
    by rewrite <-(rev_involutive (be_bytes n z)), H, be_bytes_zero, rev_replicate.
  - intros ->. destruct be; [done|]. by rewrite be_bytes_zero, rev_replicate.
Qed.

Lemma land_6 z : Z.land z 6 = 0 ↔ Z.testbit z 1 || Z.testbit z 2 = false.
Proof.
  rewrite orb_false_iff. split.
  - intros H. split; [apply (f_equal (λ x, Z.testbit x 1)) in H|apply (f_equal (λ x, Z.testbit x 2)) in H];
      rewrite Z.land_spec in H; cbn in H; by rewrite andb_true_r in H.
  - intros [H1 H2]. apply Z.bits_inj'. intros i Hi. rewrite Z.land_spec, Z.bits_0.
    destruct (decide (i = 1)) as [->|]; [by rewrite H1|].
    destruct (decide (i = 2)) as [->|]; [by rewrite H2|].
    destruct (decide (i = 0)) as [->|]; [apply andb_false_r|].
    rewrite (Z.bits_above_log2 6); [apply andb_false_r|lia|]. change (Z.log2 6) with 2. lia.
Qed.

Lemma eval_ct p r es :
  ∃ r', nft_eval p r (match_ct_established_related be ++ es)%list =
    if established_related p then nft_eval p r' es else None.
Proof.
  unfold match_ct_established_related, established_related. cbn [app].
  change (NFTA_CT_DREG) with 1. change NFTA_CT_KEY with 2.
  rewrite (vm_ct_state (big_endian := be)). set (m := ne_bytes be 4 CT_STATE_ESTABLISHED_RELATED).
  pose proof (vm_bitwise (big_endian := be) p (ne_bytes be 4 (p_ct p)) m (replicate 4 Byte.x00)
    (ECmp [CmpSreg Reg1; CmpOp NotEqual; CmpData (Value (replicate 4 Byte.x00))] :: es)) as H.
  unfold m in *. rewrite !length_ne_bytes in H. change (BitLength 4) with (BitLength (Z.of_nat 4)).
  rewrite H by done. rewrite zip_and_ne_bytes.
  pose proof (zip_xor_zero (ne_bytes be 4 (Z.land (p_ct p) CT_STATE_ESTABLISHED_RELATED))) as Hx.
  rewrite length_ne_bytes in Hx. rewrite Hx, (vm_cmp (big_endian := be)) by (by rewrite length_ne_bytes).
  eexists. assert (0 ≤ Z.land (p_ct p) 6 < 256 ^ Z.of_nat 4) as Hb
    by (rewrite Z.land_comm; apply (land_u32 6 (p_ct p)); unfold is_uint; lia).
  destruct (_ || _) eqn:E.
  - rewrite bool_decide_eq_false_2; [reflexivity|]. rewrite ne_bytes_zero by done.
    unfold CT_STATE_ESTABLISHED_RELATED. rewrite land_6. congruence.
  - rewrite bool_decide_eq_true_2; [done|]. apply ne_bytes_zero; [done|]. by apply land_6.
Qed.

Lemma be_bytes_1 f : be_bytes 1 (Z_of_byte f) = [f].
Proof.
  rewrite be_bytes_S. change (256 ^ Z.of_nat 0) with 1.
  by rewrite Z.div_1_r, byte_of_Z_of_byte.
Qed.

Lemma slice_one {A} i (l : list A) :
  slice i (i + 1) l = match l !! i with Some x => Some [x] | None => None end.
Proof.
  unfold slice. destruct (l !! i) as [x|] eqn:H.
  - rewrite decide_True by (apply lookup_lt_Some in H; lia). f_equal.
    replace (i + 1 - i)%nat with 1%nat by lia. apply take_drop_middle in H as E.
    rewrite (drop_S _ _ _ H). cbn. by rewrite take_0.
  - apply lookup_ge_None in H. rewrite decide_False; [done|lia].
Qed.

Lemma land_2 z : Z.land z 2 = 0 ↔ Z.testbit z 1 = false.
Proof.
  split.
  - intros H. apply (f_equal (λ x, Z.testbit x 1)) in H. rewrite Z.land_spec in H. cbn in H.
    by rewrite andb_true_r in H.
  - intros H1. apply Z.bits_inj'. intros i Hi. rewrite Z.land_spec, Z.bits_0.
    destruct (decide (i = 1)) as [->|]; [by rewrite H1|].
    destruct (decide (i = 0)) as [->|]; [apply andb_false_r|].
    rewrite (Z.bits_above_log2 2); [apply andb_false_r|lia|]. change (Z.log2 2) with 1. lia.
Qed.

Lemma eval_syn_mss p r :
  nft_eval p r tcp_syn_mss_clamp =
  on (tcp_syn p) (SetTcpOption 2 2 (be_bytes 2 (p_mss p))).
Proof.
  unfold tcp_syn_mss_clamp, tcp_syn. rewrite (vm_meta (big_endian := be)), (vm_cmp (big_endian := be)) by done.
  case_bool_decide as Hp.
  2: { destruct (Z.eqb_spec (Z_of_byte (p_l4proto p)) IPPROTO_TCP) as [E|E]; [|done].
       destruct Hp. rewrite <-E, byte_of_Z_of_byte. done. }
  injection Hp as Hp. rewrite Hp. change (Z_of_byte (byte_of_Z IPPROTO_TCP) =? IPPROTO_TCP) with true.
  cbn [andb]. rewrite (vm_payload (big_endian := be)) by lia.
  change (PAYLOAD_BASE_TRANSPORT =? PAYLOAD_BASE_NETWORK) with false. cbn [fst snd].
  change (Z.to_nat 13 + Z.to_nat 1)%nat with (13 + 1)%nat. change (Z.to_nat 13) with 13%nat.
  rewrite slice_one. destruct (p_trans p !! 13%nat) as [f|]; [|done].
  rewrite <-(be_bytes_1 f). change [byte_of_Z TCP_FLAG_SYN] with (be_bytes 1 TCP_FLAG_SYN).
  change [Byte.x00] with (be_bytes 1 0) at 2. change [Byte.x00] with (replicate 1 Byte.x00).
  change (BitLength 1) with (BitLength (Z.of_nat 1)). rewrite eval_masked.
  assert (0 ≤ Z.land (Z_of_byte f) TCP_FLAG_SYN < 256 ^ Z.of_nat 1) as Hb.
  { rewrite Z.land_comm. pose proof (Z_of_byte_bound f).
    destruct (decide (Z.land TCP_FLAG_SYN (Z_of_byte f) = 0)) as [->|]; [lia|].
    split; [apply Z.land_nonneg; lia|].
    apply (Z.log2_lt_pow2 _ 8); [|].
    - assert (0 ≤ Z.land TCP_FLAG_SYN (Z_of_byte f)) by (apply Z.land_nonneg; lia). lia.
    - eapply Z.le_lt_trans; [apply Z.log2_land; unfold TCP_FLAG_SYN; lia|].
      change (Z.log2 TCP_FLAG_SYN) with 1. lia. }
  destruct (Z.testbit (Z_of_byte f) 1) eqn:Hf.
  - rewrite bool_decide_eq_false_2.
    2: { intros H. apply be_bytes_inj in H; [|done|lia]. apply land_2 in H. congruence. }
    cbn [negb]. change NFTA_RT_DREG with 1. rewrite (vm_rt_tcpmss (big_endian := be)).
    rewrite (vm_hton16 (big_endian := be)). change (wrap 8 TCPOPT_MAXSEG) with 2.
    rewrite (vm_tcpopt (big_endian := be)) by (done || by rewrite length_be_bytes).
    by rewrite (vm_nil (big_endian := be)).
  - apply land_2 in Hf. unfold TCP_FLAG_SYN in *. by rewrite Hf, bool_decide_eq_true_2.
Qed.

(** ** Rules *)

Lemma check_ifname_kernel s : check_ifname s = Ok tt → kernel_ifname s.
Proof.
  unfold check_ifname, kernel_ifname.
  destruct (bool_decide (s = "")), (Nat.ltb_spec IFNAMSIZ_MAX (String.length s)); try done.
  destruct (string_all ifname_char s) eqn:Hall; [|done]. intros _. split; [done|]. clear -Hall.
  induction s as [|c s IH]; [apply not_elem_of_nil|].
  cbn in Hall. apply andb_true_iff in Hall as [Hc Hall].
  change (list_byte_of_string (String c s)) with (byte_of_ascii c :: list_byte_of_string s).
  apply not_elem_of_cons. split; [|by apply IH]. intros H.
  apply (f_equal ascii_of_byte) in H. rewrite ascii_of_byte_of_ascii in H. by subst c.
Qed.

Lemma new_Ok overlay lan tun mss rules :
  Ruleset.new overlay lan tun mss = Ok rules →
  rules = MkRuleset overlay lan tun mss ∧ kernel_ifname lan ∧ kernel_ifname tun ∧ overlay.2 ≤ 32.
Proof.
  unfold Ruleset.new.
  destruct (check_ifname lan) as [[]|] eqn:H1, (check_ifname tun) as [[]|] eqn:H2; try done.
  destruct (Z.ltb_spec 32 overlay.2); [done|]. intros [= <-].
  split_and!; [done|by apply check_ifname_kernel..|done].
Qed.

(** The rules of each chain, and the evaluation of the three kinds. *)
Lemma rules_postrouting net q lan tun mss :
  rules_in CHAIN_POSTROUTING (build_batch be (MkRuleset (net, q) lan tun mss)) =
  [(match_saddr net q ++ match_ifname Oifname lan ++ [masquerade])%list].
Proof. by destruct mss. Qed.
Lemma rules_forward overlay lan tun mss :
  rules_in CHAIN_FORWARD (build_batch be (MkRuleset overlay lan tun mss)) =
  [(match_ifname Iifname tun ++ match_ifname Oifname lan ++ [accept])%list;
   (match_ifname Iifname lan ++ match_ifname Oifname tun
    ++ match_ct_established_related be ++ [accept])%list].
Proof. destruct overlay. by destruct mss. Qed.
Lemma rules_mssclamp overlay lan tun mss :
  rules_in CHAIN_MSSCLAMP (build_batch be (MkRuleset overlay lan tun mss)) =
  if mss then [(match_ifname Iifname tun ++ tcp_syn_mss_clamp)%list;
               (match_ifname Oifname tun ++ tcp_syn_mss_clamp)%list] else [].
Proof. destruct overlay. by destruct mss. Qed.

Lemma eval_masq_rule net q lan p r :
  is_uint 32 net → 0 ≤ q ≤ 32 → kernel_ifname (p_oif p) → kernel_ifname lan →
  nft_eval p r (match_saddr net q ++ match_ifname Oifname lan ++ [masquerade])%list =
  on (from_overlay (net, q) p && oif lan p) Masquerade.
Proof.
  intros Hnet Hq Ho Hlan. unfold oif.
  destruct (eval_saddr net q p r (match_ifname Oifname lan ++ [masquerade])%list Hnet Hq) as [r' ->].
  destruct (from_overlay _ p); [|done]. rewrite (eval_ifname _ _ (p_oif p)) by done.
  case_bool_decide; [|done]. apply (vm_masq (big_endian := be)).
Qed.

Lemma eval_out_rule tun lan p r :
  kernel_ifname (p_iif p) → kernel_ifname (p_oif p) → kernel_ifname tun → kernel_ifname lan →
  nft_eval p r (match_ifname Iifname tun ++ match_ifname Oifname lan ++ [accept])%list =
  on (iif tun p && oif lan p) Accept.
Proof.
  intros Hi Ho Ht Hl. unfold iif, oif. rewrite (eval_ifname _ _ (p_iif p)) by done.
  case_bool_decide; [|done]. rewrite (eval_ifname _ _ (p_oif p)) by done.
  case_bool_decide; [|done]. apply (vm_accept (big_endian := be)).
Qed.

Lemma eval_back_rule tun lan p r :
  kernel_ifname (p_iif p) → kernel_ifname (p_oif p) → kernel_ifname tun → kernel_ifname lan →
  nft_eval p r (match_ifname Iifname lan ++ match_ifname Oifname tun
                ++ match_ct_established_related be ++ [accept])%list =
  on (iif lan p && oif tun p && established_related p) Accept.
Proof.
  intros Hi Ho Ht Hl. unfold iif, oif. rewrite (eval_ifname _ _ (p_iif p)) by done.
  case_bool_decide; [|done]. rewrite (eval_ifname _ _ (p_oif p)) by done.
  case_bool_decide; [|done]. cbn [andb].
  destruct (eval_ct p (ifname_bytes (p_oif p)) [accept]) as [r' ->].
  destruct (established_related p); [|done]. apply (vm_accept (big_endian := be)).
Qed.

Lemma eval_clamp_rule key s tun p r :
  iface key p = Some s → kernel_ifname s → kernel_ifname tun →
  nft_eval p r (match_ifname key tun ++ tcp_syn_mss_clamp)%list =
  on (bool_decide (s = tun) && tcp_syn p) (SetTcpOption 2 2 (be_bytes 2 (p_mss p))).
Proof.
  intros Hs Hk Ht. rewrite (eval_ifname _ _ s) by done.
  case_bool_decide; [|done]. apply eval_syn_mss.
Qed.
End rules.

(** C17. The installed rules mean what the module comment says, for every packet and
    whatever the register held: the postrouting rule masquerades exactly the packets
    from the overlay prefix that leave by the LAN interface; the two forward rules
    accept exactly TUN to LAN, and LAN to TUN of established or related connections;
    the MSS rules, present when asked for, set the segment size option of exactly the
    TCP SYNs that enter or leave by the TUN, to the route's value in network order -
    on either byte order of the host. *)
Theorem ruleset_semantics {VM : NftVm} be {VL : VmLaws be} overlay lan tun mss rules p r :
  Ruleset.new overlay lan tun mss = Ok rules → is_uint 32 overlay.1 → 0 ≤ overlay.2 →
  kernel_ifname (p_iif p) → kernel_ifname (p_oif p) →
  let rules_of chain := nft_eval p r <$> rules_in chain (build_batch be rules) in
  let clamp := SetTcpOption 2 2 (be_bytes 2 (p_mss p)) in
  rules_of CHAIN_POSTROUTING = [on (from_overlay overlay p && oif lan p) Masquerade] ∧
  rules_of CHAIN_FORWARD =
    [on (iif tun p && oif lan p) Accept;
     on (iif lan p && oif tun p && established_related p) Accept] ∧
  rules_of CHAIN_MSSCLAMP =
    (if mss then [on (iif tun p && tcp_syn p) clamp; on (oif tun p && tcp_syn p) clamp] else []).
Proof.
  intros (-> & Hlan & Htun & Hq)%new_Ok Hnet Hq0 Hi Ho rules_of clamp.
  destruct overlay as [net q]. cbn [fst snd] in *. unfold rules_of.
  rewrite rules_postrouting, rules_forward, rules_mssclamp. split_and!.
  - cbn [fmap list_fmap]. by rewrite (eval_masq_rule be) by (done || lia).
  - cbn [fmap list_fmap]. by rewrite (eval_out_rule be), (eval_back_rule be).
  - destruct mss; [|done]. cbn [fmap list_fmap].
    by rewrite (eval_clamp_rule be Iifname (p_iif p)), (eval_clamp_rule be Oifname (p_oif p)).
Qed.

(** ** An evaluator that satisfies the laws *)

#[export] Instance DefaultNla_eq_dec : EqDecision DefaultNla.
Proof. solve_decision. Defined.

Section evaluator.
Context (be : bool).

(** What an expression without a type of its own loads or does. *)
Definition eval_other (p : Pkt) (r : list byte) (name : string) (a : list DefaultNla)
    (rest : list byte → option (list Action)) : option (list Action) :=
  if bool_decide (name = "masq") then Some [Masquerade]
  else if bool_decide (name = "ct") then rest (ne_bytes be 4 (p_ct p))
  else if bool_decide (name = "rt") then rest (ne_bytes be 2 (p_mss p))
  else if bool_decide (name = "byteorder") then rest (if be then r else rev r)
  else match a with
       | [_; Nla 2 [k]; Nla 3 off; _; _] =>
           (λ acts, SetTcpOption (Z_of_byte k) (be_val off) r :: acts) <$> rest r
       | _ => None
       end.

Fixpoint evaluate (p : Pkt) (r : list byte) (es : list Expr) : option (list Action) :=
  match es with
  | [] => Some []
  | EMeta [MetaKeyIs k; MetaDreg Reg1] :: es =>
      evaluate p (match k with
                  | Iifname => ifname_bytes (p_iif p)
                  | Oifname => ifname_bytes (p_oif p)
                  | L4Proto => [p_l4proto p]
                  end) es
  | EPayload [PayloadDreg Reg1; PayloadBase b; PayloadOffset o; PayloadLen l] :: es =>
      match slice (Z.to_nat o) (Z.to_nat o + Z.to_nat l)
              (if b =? PAYLOAD_BASE_NETWORK then p_net p else p_trans p) with
      | Some bs => evaluate p bs es
      | None => None
      end
  | EBitwise [BitSreg Reg1; BitDreg Reg1; BitLength _; BitMask (Value m); BitXor (Value x)] :: es =>
      evaluate p (zip_with byte_xor (zip_with byte_and r m) x) es
  | ECmp [CmpSreg Reg1; CmpOp o; CmpData (Value d)] :: es =>
      if match o with
         | Equal => bool_decide (r = d)
         | NotEqual => negb (bool_decide (r = d))
         end
      then evaluate p r es else None
  | EImmediate [ImmDreg RegVerdict; ImmData (VerdictData [OtherVerdict 1])] :: _ => Some [Accept]
  | EOther name a :: es => eval_other p r name a (λ r, evaluate p r es)
  | _ => None
  end.

#[local] Instance evaluator : NftVm := {| nft_eval := evaluate |}.

Lemma evaluator_laws : VmLaws be.
Proof.
  split; try done.
  - intros p z es. change (evaluate p (if be then ne_bytes be 2 z else rev (ne_bytes be 2 z)) es
      = evaluate p (be_bytes 2 z) es). unfold ne_bytes. destruct be; [done|].
    by rewrite rev_involutive.
  - intros p r k off es Hoff _.
    change ((λ acts, SetTcpOption (Z_of_byte (byte_of_Z k)) (be_val (be_bytes 4 off)) r :: acts)
      <$> evaluate p r es = (λ acts, SetTcpOption (k mod 256) off r :: acts) <$> evaluate p r es).
    by rewrite Z_of_byte_of_Z, be_val_be_bytes_small.
Qed.
End evaluator.

Definition le_vm : NftVm := evaluator false.
Definition le_laws : @VmLaws le_vm false := evaluator_laws false.

(** A SYN from 110.20.0.7 that goes from the TUN into the LAN. *)
Definition ex_syn : Pkt :=
  MkPkt "noeio0" "eth1"
    (replicate 12 Byte.x00 ++ be_bytes 4 (ipv4 110 20 0 7) ++ replicate 4 Byte.x00)%list
    (replicate 13 Byte.x00 ++ [Byte.x02])%list (byte_of_Z 6) 8 1360.

Lemma ruleset_semantics_witness :
  ∃ rules, Ruleset.new (ipv4 110 20 0 0, 28) "eth1" "noeio0" true = Ok rules ∧
    nft_eval (NftVm := le_vm) ex_syn [] <$> rules_in CHAIN_POSTROUTING (build_batch false rules)
      = [Some [Masquerade]] ∧
    nft_eval (NftVm := le_vm) ex_syn [] <$> rules_in CHAIN_MSSCLAMP (build_batch false rules)
      = [Some [SetTcpOption 2 2 [byte_of_Z 5; byte_of_Z 80]]; None].
Proof.
  eexists. split; [reflexivity|].
  destruct (ruleset_semantics (VM := le_vm) false (VL := le_laws) (ipv4 110 20 0 0, 28) "eth1" "noeio0"
    true _ ex_syn [] eq_refl) as (H1 & _ & H3);
    [by vm_compute|done|by apply check_ifname_kernel|by apply check_ifname_kernel|].
  split; [exact H1|exact H3].
Defined.
