(* ===== verification/NftKernel.v ===== *)
(** What applying and clearing the table does to the kernel: [NfSocket.apply] and
    [NfSocket.clear] of [Nftables] against [NfLaws], the documented behaviour of an
    nf_tables batch - all of it or none of it. *)

From Stdlib Require Import ZArith Lia.
From Stdlib Require Import Strings.String.
From stdpp Require Import base list strings gmap.
From S2P Require Import Prelude Text NetTypes HostInfo Syscalls Nftables.
Import Nftables.Ruleset.

Local Open Scope string_scope.
Local Open Scope Z_scope.

(** ** Batches *)

(** The tables of the kernel by name; what a table holds is the chains and rules that
    were put there, in order. *)
Notation Tables := (gmap string (list NfTablesMessage)).

Definition has_flag (f : Z) (m : NfMsg) : bool := negb (Z.land (nl_flags m) f =? 0).
Definition EINVAL : Z := 22.

Definition names_chain (c : string) (m : NfTablesMessage) : bool :=
  match m with
  | NewChain (ChainTable _ :: ChainName n :: _) => bool_decide (n = c)
  | _ => false
  end.

(** The effect of one message of a batch. Creating a table that exists is nothing new
    unless asked to be exclusive; a rule goes to the end with [NLM_F_APPEND]. *)
Definition apply_one (ts : Tables) (m : NfMsg) : result Tables Z :=
  match nl_payload m with
  | NfInner ProtoIPv4 _ (NewTable [TableName n]) =>
      match ts !! n with
      | Some _ => Ok ts
      | None => if has_flag NLM_F_CREATE m then Ok (<[n := []]> ts) else Err ENOENT
      end
  | NfInner ProtoIPv4 _ (DeleteTable [TableName n]) =>
      match ts !! n with Some _ => Ok (delete n ts) | None => Err ENOENT end
  | NfInner ProtoIPv4 _ (NewChain (ChainTable n :: a)) =>
      match ts !! n with
      | Some t => if has_flag NLM_F_CREATE m
                  then Ok (<[n := (t ++ [NewChain (ChainTable n :: a)])%list]> ts) else Err ENOENT
      | None => Err ENOENT
      end
  | NfInner ProtoIPv4 _ (NewRule (RuleTable n :: RuleChain c :: a)) =>
      match ts !! n with
      | Some t =>
          if existsb (names_chain c) t then
            let r := NewRule (RuleTable n :: RuleChain c :: a) in
            Ok (<[n := (if has_flag NLM_F_APPEND m then t ++ [r] else r :: t)%list]> ts)
          else Err ENOENT
      | None => Err ENOENT
      end
  | _ => Err EINVAL
  end.

Fixpoint apply_all (ts : Tables) (ms : list NfMsg) : result Tables Z :=
  match ms with
  | [] => Ok ts
  | m :: ms => let? ts := apply_one ts m in apply_all ts ms
  end.

Definition is_control (c : ControlMessage) (m : NfMsg) : bool :=
  match nl_payload m, c with
  | NfControl Unspec r BatchBegin, BatchBegin | NfControl Unspec r BatchEnd, BatchEnd =>
      r =? NFNL_SUBSYS_NFTABLES
  | _, _ => false
  end.

(** The messages between the markers of a batch for the nf_tables subsystem. *)
Fixpoint upto_end (ms : list NfMsg) : option (list NfMsg) :=
  match ms with
  | [] => None
  | m :: ms => if is_control BatchEnd m then Some [] else (m ::.) <$> upto_end ms
  end.
Definition parse_batch (sent : list NfMsg) : option (list NfMsg) :=
  match sent with
  | m :: ms => if is_control BatchBegin m then upto_end ms else None
  | [] => None
  end.

(** A buffer with one reply: 0 acknowledges, a negative code reports an error. *)
Definition is_reply (code : Z) (d : Datagram) : Prop :=
  ∃ f s, d = [Some (MkNfMsg f s (NlError code))].

(** ** The kernel *)

Class NfLaws (K : Type) {NK : NetlinkKernel K} : Type := {
  nf_tables : K → Tables;
  nf_queue : K → list Datagram;
  (** why this kernel would not run a well-formed batch: no permission, no module *)
  nf_refuse : K → list NfMsg → option Z;
  nf_open_spec : ∀ k, nf_tables (nl_open k) = nf_tables k ∧ nf_queue (nl_open k) = [];
  nf_recv_spec : ∀ k,
    match nf_queue k with
    | [] => nl_recv k = None
    | d :: q => ∃ k', nl_recv k = Some (k', d) ∧ nf_queue k' = q ∧ nf_tables k' = nf_tables k
    end;
  nf_batch_spec : ∀ k sent ms, parse_batch sent = Some ms → forallb has_ack ms = true →
    let k' := nl_send k sent in
    match match nf_refuse k ms with Some e => Err e | None => apply_all (nf_tables k) ms end with
    | Ok ts => nf_tables k' = ts ∧
        ∃ ds, nf_queue k' = (nf_queue k ++ ds)%list ∧ Forall2 is_reply (replicate (length ms) 0) ds
    | Err e => nf_tables k' = nf_tables k ∧
        ∃ i ds more, (i < length ms)%nat ∧ nf_queue k' = (nf_queue k ++ ds ++ more)%list ∧
          Forall2 is_reply (replicate i 0 ++ [- e]) ds
    end;
  nf_refuse_pos : ∀ k ms e, nf_refuse k ms = Some e → 0 < e;
  nf_get_spec : ∀ k m a, nl_payload m = NfInner ProtoIPv4 0 (GetTable [TableName a]) →
    has_ack m = false →
    let k' := nl_send k [m] in
    nf_tables k' = nf_tables k ∧
    ∃ d, nf_queue k' = (nf_queue k ++ [d])%list ∧
      match nf_tables k !! a with
      | Some _ => ∃ f s, d = [Some (MkNfMsg f s (NfInner ProtoIPv4 0 (NewTable [TableName a])))]
      | None => is_reply (- ENOENT) d
      end;
}.

(** What a table built from [rules] holds. *)
Definition contents (be : bool) (rules : Ruleset) : list NfTablesMessage :=
  omap (λ m, match nl_payload m with
             | NfInner _ _ (NewChain a) => Some (NewChain a)
             | NfInner _ _ (NewRule a) => Some (NewRule a)
             | _ => None
             end) (build_batch be rules).

(** *** Stamped sequence numbers do not matter *)

Lemma is_control_stamp c s m :
  is_control c (MkNfMsg (nl_flags m) s (nl_payload m)) = is_control c m.
Proof. done. Qed.

Lemma parse_stamp s ms e :
  forallb (λ m, negb (is_control BatchEnd m)) ms = true → is_control BatchEnd e = true →
  upto_end (NfSocket.stamp s (ms ++ [e])) = Some (NfSocket.stamp s ms).
Proof.
  revert s. induction ms as [|m ms IH]; intros s Hms He; cbn [NfSocket.stamp app upto_end].
  - by rewrite is_control_stamp, He.
  - cbn in Hms. apply andb_true_iff in Hms as [Hm Hms]. apply negb_true_iff in Hm.
    by rewrite is_control_stamp, Hm, IH.
Qed.

Lemma apply_stamp s ts ms : apply_all ts (NfSocket.stamp s ms) = apply_all ts ms.
Proof.
  revert s ts. induction ms as [|m ms IH]; intros s ts; [done|]. cbn [NfSocket.stamp apply_all].
  change (apply_one ts (MkNfMsg (nl_flags m) s (nl_payload m))) with (apply_one ts m).
  destruct (apply_one ts m); [apply IH|done].
Qed.

Lemma stamp_ack s ms : forallb has_ack (NfSocket.stamp s ms) = forallb has_ack ms.
Proof. revert s. induction ms as [|m ms IH]; intros s; [done|]. cbn. by rewrite IH. Qed.
Lemma length_stamp s ms : length (NfSocket.stamp s ms) = length ms.
Proof. revert s. induction ms as [|m ms IH]; intros s; [done|]. cbn. by rewrite IH. Qed.

(** A batch: the messages [ms] between the markers, each asking for an
    acknowledgement. *)
Definition framed (ms : list NfMsg) : list NfMsg :=
  batch_control BatchBegin :: (ms ++ [batch_control BatchEnd])%list.
Definition well_formed (ms : list NfMsg) : bool :=
  forallb (λ m, negb (is_control BatchEnd m) && has_ack m) ms.

Lemma well_formed_spec ms : well_formed ms = true →
  forallb (λ m, negb (is_control BatchEnd m)) ms = true ∧ forallb has_ack ms = true.
Proof.
  unfold well_formed. rewrite !forallb_forall. intros H.
  split; intros m Hm; apply H in Hm; by apply andb_true_iff in Hm as [? ?].
Qed.

Lemma framed_parse s ms :
  well_formed ms = true →
  ∃ s', parse_batch (NfSocket.stamp s (framed ms)) = Some (NfSocket.stamp s' ms).
Proof.
  intros [Hend _]%well_formed_spec. eexists. cbn [framed NfSocket.stamp parse_batch].
  rewrite is_control_stamp. change (is_control BatchBegin (batch_control BatchBegin)) with true.
  by apply parse_stamp.
Qed.

Lemma framed_acks ms : well_formed ms = true → length (List.filter has_ack (framed ms)) = length ms.
Proof.
  intros [_ Hack]%well_formed_spec. unfold framed. cbn [List.filter].
  change (has_ack (batch_control BatchBegin)) with false. cbn iota.
  rewrite List.filter_app, length_app. change (length (List.filter has_ack [batch_control BatchEnd])) with 0%nat.
  rewrite Nat.add_0_r. induction ms as [|m ms IH]; [done|]. cbn in *.
  apply andb_true_iff in Hack as [-> Hack]. cbn. by rewrite IH.
Qed.

(** *** The program's three batches *)

Definition build_messages (be : bool) (rules : Ruleset) : list NfMsg :=
  omap (λ m, match nl_payload m with NfInner _ _ _ => Some m | _ => None end) (build_batch be rules).

Section batches.
Context (be : bool) (rules : Ruleset).

Lemma build_framed :
  build_batch be rules = framed (build_messages be rules) ∧
  well_formed (build_messages be rules) = true ∧ (length (build_messages be rules) ≤ 10)%nat.
Proof. destruct rules as [[net q] lan tun []]; split_and!; reflexivity || (cbn; lia). Qed.

Lemma apply_chain ts t name ty hook prio :
  apply_one (<[TABLE := t]> ts) (new_base_chain name ty hook prio) =
  Ok (<[TABLE := (t ++ [NewChain [ChainTable TABLE; ChainName name; ChainPolicy NF_ACCEPT;
       ChainType ty; ChainHook [HookNumber hook; HookPriority (wrap 32 prio)]]])%list]> ts).
Proof.
  unfold apply_one, new_base_chain. cbn [nl_payload nf].
  rewrite lookup_insert_eq.
  by rewrite insert_insert_eq.
Qed.

Lemma apply_rule ts t c es :
  existsb (names_chain c) t = true →
  apply_one (<[TABLE := t]> ts) (new_rule c es) =
  Ok (<[TABLE := (t ++ [NewRule [RuleTable TABLE; RuleChain c; RuleExpressions es]])%list]> ts).
Proof.
  intros H. unfold apply_one, new_rule. cbn [nl_payload nf]. rewrite lookup_insert_eq, H.
  by rewrite insert_insert_eq.
Qed.

Lemma apply_del_new ts : is_Some (ts !! TABLE) →
  apply_all ts [del_table; new_table] = Ok (<[TABLE := []]> ts).
Proof.
  intros [t Ht]. unfold apply_all, apply_one, del_table, new_table. cbn [nl_payload nf].
  rewrite Ht, lookup_delete_eq. cbn. by rewrite insert_delete_eq.
Qed.

Lemma apply_all_app ts l k :
  apply_all ts (l ++ k)%list = (let? ts := apply_all ts l in apply_all ts k).
Proof.
  revert ts. induction l as [|m l IH]; intros ts; [done|]. cbn. by destruct (apply_one ts m).
Qed.

(** The chains come before their rules. *)
Lemma build_shape :
  ∃ masq out back clamp1 clamp2,
    build_messages be rules =
      ([del_table; new_table;
        new_base_chain CHAIN_POSTROUTING "nat" PostRouting PRIO_SRCNAT;
        new_base_chain CHAIN_FORWARD "filter" ForwardHook PRIO_FILTER;
        new_rule CHAIN_POSTROUTING masq; new_rule CHAIN_FORWARD out; new_rule CHAIN_FORWARD back] ++
       if mss_clamp rules then
         [new_base_chain CHAIN_MSSCLAMP "filter" ForwardHook PRIO_MANGLE;
          new_rule CHAIN_MSSCLAMP clamp1; new_rule CHAIN_MSSCLAMP clamp2]
       else [])%list.
Proof.
  destruct rules as [[net q] lan tun []]; [by do 5 eexists|]. do 3 eexists. by exists [], [].
Qed.

Lemma contents_messages :
  contents be rules =
  omap (λ m, match nl_payload m with
             | NfInner _ _ (NewChain a) => Some (NewChain a)
             | NfInner _ _ (NewRule a) => Some (NewRule a)
             | _ => None
             end) (build_messages be rules).
Proof. by destruct rules as [[net q] lan tun []]. Qed.

Lemma build_applies ts : is_Some (ts !! TABLE) →
  apply_all ts (build_messages be rules) = Ok (<[TABLE := contents be rules]> ts).
Proof.
  intros Ht. rewrite contents_messages.
  destruct build_shape as (masq & out & back & c1 & c2 & ->).
  match goal with |- apply_all _ ((?a :: ?b :: ?l) ++ ?k)%list = _ =>
    change ((a :: b :: l) ++ k)%list with ([a; b] ++ (l ++ k))%list end.
  rewrite apply_all_app, apply_del_new by done.
  destruct (mss_clamp rules); cbn [app apply_all];
    repeat first [rewrite apply_chain | rewrite apply_rule by reflexivity]; reflexivity.
Qed.
End batches.

(** ** Talking to the kernel *)

Section socket.
Context {K : Type} {NK : NetlinkKernel K} {NL : NfLaws K}.
Implicit Types h : Host K.

Definition tables (h : Host K) : Tables := nf_tables (kernel h).
Definition queue (h : Host K) : list Datagram := nf_queue (kernel h).

(** One receive: a fault, or the head of the queue. *)
Lemma handle_recv h :
  (∃ e, handle NlRecv h = (MkHost (files h) (kernel h) (tl (plan h)), Some (Err e)) ∧ plan h ≠ []) ∨
  match queue h with
  | [] => handle NlRecv h = (MkHost (files h) (kernel h) (tl (plan h)), None)
  | d :: q => ∃ h', handle NlRecv h = (h', Some (Ok d)) ∧ queue h' = q ∧ tables h' = tables h ∧
      files h' = files h ∧ plan h' = tl (plan h)
  end.
Proof.
  unfold queue, tables. cbn. destruct (fault (hd Works (plan h))) as [e|] eqn:Hf.
  - left. exists e. split; [done|]. intros Hp. by rewrite Hp in Hf.
  - right. pose proof (nf_recv_spec (kernel h)) as Hr.
    destruct (nf_queue (kernel h)) as [|d q]; [by rewrite Hr|].
    destruct Hr as (k' & -> & Hq & Ht). eexists. split; [reflexivity|]. done.
Qed.

Lemma count_acks_reply c d seen :
  is_reply c d →
  NfSocket.count_acks d seen = if negb (c =? 0) then Err (to_io c) else Ok (S seen).
Proof. intros (f & s & ->). cbn. by destruct (c =? 0). Qed.

Lemma Forall2_replicate_S n c d q :
  Forall2 is_reply (replicate (S n) c) (d :: q) → is_reply c d ∧ Forall2 is_reply (replicate n c) q.
Proof. cbn. intros H. by apply Forall2_cons_1 in H. Qed.

(** Receiving never changes the tables. *)
Lemma always_collect_tables fuel n seen h T :
  tables h = T →
  always (λ h, tables h = T) (λ _ _, True) (NfSocket.collect_acks fuel n seen) h.
Proof.
  revert seen h. induction fuel as [|fuel IH]; intros seen h HT; cbn [NfSocket.collect_acks];
    (destruct (n <=? seen)%nat; [by cbn|]); [by cbn|].
  apply always_bind. split; [done|].
  destruct (handle_recv h) as [(e & -> & _)|Hr]; [by repeat split|].
  destruct (queue h) as [|d q]; [by rewrite Hr|].
  destruct Hr as (h' & -> & _ & HT' & _). split; [congruence|].
  destruct (NfSocket.count_acks d seen); [apply IH; congruence|split; [congruence|done]].
Qed.

(** What the replies to a batch of [m] messages can be: [m] acknowledgements, or fewer
    and then an error [e]. *)
Definition answers (e : Z) (m : nat) (q : list Datagram) : Prop :=
  if e =? 0 then Forall2 is_reply (replicate m 0) q
  else ∃ i ds more, (i < m)%nat ∧ q = (ds ++ more)%list ∧
         Forall2 is_reply (replicate i 0 ++ [- e]) ds.

Lemma answers_cons e m d q :
  answers e m (d :: q) →
  (is_reply 0 d ∧ ∃ m', m = S m' ∧ answers e m' q) ∨ (e ≠ 0 ∧ is_reply (- e) d).
Proof.
  unfold answers. destruct (Z.eqb_spec e 0) as [->|He].
  - intros H. destruct m as [|m]; [by apply Forall2_nil_cons_inv in H|].
    apply Forall2_replicate_S in H as [Hd H]. left. eauto.
  - intros (i & ds & more & Hi & Hq & H). destruct i as [|i]; cbn in H.
    + right. split; [done|]. destruct ds as [|d' ds]; [by apply Forall2_cons_nil_inv in H|].
      injection Hq as <- _. by apply Forall2_cons_1 in H as [? _].
    + left. destruct ds as [|d' ds]; [by apply Forall2_cons_nil_inv in H|].
      injection Hq as <- ->. apply Forall2_cons_1 in H as [Hd H]. split; [done|].
      destruct m as [|m]; [lia|]. exists m. split; [done|]. exists i, ds, more. split; [lia|done].
Qed.


(** With nothing failing, the replies decide the result. *)
Lemma run_collect e fuel n seen h :
  healthy h → answers e (n - seen) (queue h) → (n - seen ≤ fuel)%nat →
  ∃ h' r, run (NfSocket.collect_acks fuel n seen) h = (h', Some r) ∧ healthy h' ∧
    files h' = files h ∧ tables h' = tables h ∧
    r = if e =? 0 then Ok tt else Err (to_io (- e)).
Proof.
  revert seen h. induction fuel as [|fuel IH]; intros seen h Hh Hq Hf; cbn [NfSocket.collect_acks].
  - destruct (Nat.leb_spec n seen); [|lia]. exists h, (Ok tt). split_and!; try done.
    unfold answers in Hq. destruct (e =? 0); [done|]. destruct Hq as (i & _ & _ & Hi & _). lia.
  - destruct (Nat.leb_spec n seen) as [Hn|Hn].
    + exists h, (Ok tt). split_and!; try done.
      unfold answers in Hq. destruct (e =? 0); [done|]. destruct Hq as (i & _ & _ & Hi & _). lia.
    + rewrite run_bind. cbn [run call].
      destruct (handle_recv h) as [(? & _ & Hp)|Hr]; [by destruct Hp|].
      destruct (queue h) as [|d q].
      * exfalso. unfold answers in Hq. destruct (e =? 0).
        -- destruct (n - seen)%nat eqn:E; [lia|]. by apply Forall2_cons_nil_inv in Hq.
        -- destruct Hq as (i & ds & more & _ & Hq & H). destruct ds; [|done].
           by destruct i; apply Forall2_cons_nil_inv in H.
      * destruct Hr as (h1 & -> & Hq1 & Ht1 & Hf1 & Hp1). cbn.
        assert (healthy h1) as Hh1 by (unfold healthy in *; by rewrite Hp1, Hh).
        destruct (answers_cons _ _ _ _ Hq) as [(Hd & m & Hm & Hq')|(He & Hd)];
          rewrite (count_acks_reply _ _ _ Hd).
        -- rewrite Z.eqb_refl. cbn [negb].
           destruct (IH (S seen) h1 Hh1) as (h2 & r & Hrun & Hh2 & Hf2 & Ht2 & ->);
             [rewrite Hq1; by replace (n - S seen)%nat with m by lia|lia|].
           exists h2, (if e =? 0 then Ok tt else Err (to_io (- e))). by rewrite Hf2, Ht2.
        -- destruct (Z.eqb_spec (- e) 0); [lia|]. destruct (Z.eqb_spec e 0); [lia|]. by exists h1, (Err (to_io (- e))).
Qed.
(** Whatever fails: [Ok] means the batch was accepted, and leaves the socket idle. *)
Lemma run_collect_Ok e fuel n seen h h' :
  answers e (n - seen) (queue h) →
  run (NfSocket.collect_acks fuel n seen) h = (h', Some (Ok tt)) → e = 0 ∧ queue h' = [].
Proof.
  assert (∀ q, answers e 0 q → e = 0 ∧ q = []) as H0.
  { unfold answers. intros q. destruct (Z.eqb_spec e 0).
    - intros H. apply Forall2_nil_inv_l in H. done.
    - intros (i & _ & _ & Hi & _). lia. }
  revert seen h. induction fuel as [|fuel IH]; intros seen h Hq; cbn [NfSocket.collect_acks];
    (destruct (Nat.leb_spec n seen) as [Hn|Hn];
      [replace (n - seen)%nat with 0%nat in Hq by lia; intros [= <-]; by apply H0|]); [done|].
  rewrite run_bind. cbn [run call].
  destruct (handle_recv h) as [(e' & -> & _)|Hr]; [done|].
  destruct (queue h) as [|d q]; [by rewrite Hr|].
  destruct Hr as (h1 & -> & Hq1 & _). cbn.
  destruct (answers_cons _ _ _ _ Hq) as [(Hd & m & Hm' & Hq')|(He & Hd)];
    rewrite (count_acks_reply _ _ _ Hd).
  - apply IH. rewrite Hq1. by replace (n - S seen)%nat with m by lia.
  - by destruct (Z.eqb_spec (- e) 0); [lia|].
Qed.

(** ** One batch *)

(** What the kernel makes of a batch: an error code, or 0 and the new tables. *)
Definition verdict (k : K) (ms : list NfMsg) : Z * Tables :=
  match nf_refuse k ms with
  | Some e => (e, nf_tables k)
  | None => match apply_all (nf_tables k) ms with Ok ts => (0, ts) | Err e => (e, nf_tables k) end
  end.

Lemma apply_one_err ts m e : apply_one ts m = Err e → 0 < e.
Proof.
  unfold apply_one. intros H.
  assert (e = ENOENT ∨ e = EINVAL) as [-> | ->]; [|by unfold ENOENT|by unfold EINVAL].
  revert H. repeat step_match; intros [=]; auto.
Qed.

Lemma apply_all_err ts ms e : apply_all ts ms = Err e → 0 < e.
Proof.
  revert ts. induction ms as [|m ms IH]; intros ts Ha; [done|]. cbn in Ha.
  destruct (apply_one ts m) as [ts'|e'] eqn:H1; [by eapply IH|].
  injection Ha as <-. by eapply apply_one_err.
Qed.

Lemma send_batch k s ms :
  well_formed ms = true →
  ∃ ms', (∀ ts, apply_all ts ms' = apply_all ts ms) ∧
    let k' := nl_send k (NfSocket.stamp s (framed ms)) in
    nf_tables k' = (verdict k ms').2 ∧
    (nf_queue k = [] → answers (verdict k ms').1 (length ms) (nf_queue k')).
Proof.
  intros Hwf. destruct (framed_parse s ms Hwf) as [s' Hp].
  exists (NfSocket.stamp s' ms). split; [intros; apply apply_stamp|].
  apply well_formed_spec in Hwf as [_ Hack].
  pose proof (nf_batch_spec k _ _ Hp ltac:(by rewrite stamp_ack)) as Hb. cbv zeta in Hb |- *.
  revert Hb. unfold verdict. rewrite length_stamp.
  assert (∀ e : Z, 0 < e → ∀ q,
    (∃ i ds more, (i < length ms)%nat ∧ q = (nf_queue k ++ ds ++ more)%list ∧
       Forall2 is_reply (replicate i 0 ++ [- e]) ds) → nf_queue k = [] → answers e (length ms) q) as Herr.
  { intros e He q (i & ds & more & Hi & -> & H) Hk. unfold answers.
    destruct (Z.eqb_spec e 0); [lia|]. exists i, ds, more. by rewrite Hk. }
  destruct (nf_refuse k _) as [e|] eqn:Hr;
    [|destruct (apply_all _ _) as [ts|e] eqn:Ha]; cbn [fst snd].
  - intros [Ht Hq]. split; [done|]. apply Herr; [by eapply nf_refuse_pos|done].
  - intros (Ht & ds & Hq & H). split; [done|]. intros Hk. unfold answers. by rewrite Z.eqb_refl, Hq, Hk.
  - intros [Ht Hq]. split; [done|]. apply Herr; [by eapply apply_all_err|done].
Qed.

(** [NfSocket.batch] under any plan: the tables are the old ones or what the kernel
    made of the batch, at every point; [Ok] on an idle socket means it was accepted;
    and with nothing failing the verdict is the result. *)
Lemma batch_spec fuel s ms h :
  well_formed ms = true →
  ∃ ms', (∀ ts, apply_all ts ms' = apply_all ts ms) ∧
    let v := verdict (kernel h) ms' in
    always (λ h', tables h' = tables h ∨ tables h' = v.2) (λ _ _, True)
      (NfSocket.batch fuel s (framed ms)) h ∧
    (∀ h' s', queue h = [] → run (NfSocket.batch fuel s (framed ms)) h = (h', Some (s', Ok tt)) →
       v.1 = 0 ∧ tables h' = v.2 ∧ queue h' = []) ∧
    (healthy h → queue h = [] → (length ms ≤ fuel)%nat →
     ∃ h' s', run (NfSocket.batch fuel s (framed ms)) h =
         (h', Some (s', if v.1 =? 0 then Ok tt else Err (to_io (- v.1)))) ∧
       healthy h' ∧ files h' = files h ∧ tables h' = v.2).
Proof.
  intros Hwf. destruct (send_batch (kernel h) (NfSocket.seq s) ms Hwf) as (ms' & Hms & Ht & Hq).
  exists ms'. split; [done|]. cbv zeta. unfold NfSocket.batch, NfSocket.send_all.
  rewrite (framed_acks ms Hwf).
  set (k' := nl_send _ _) in *. split_and!.
  - cbn [bind call always handle]. split; [by left|].
    destruct (fault (hd Works (plan h))) as [e|]; [by split; [left|]|].
    apply always_bind. apply (always_mono _ (λ _ _, True)); [intros r h1 Hp _; by split|].
    set (h1 := MkHost _ _ _). eapply always_weaken; [|by apply (always_collect_tables _ _ _ h1 _ eq_refl)].
    intros h2 ->. by right.
  - intros h' s' Hidle. cbn [bind call run handle].
    destruct (fault (hd Works (plan h))) as [e|]; [intros [=]|].
    rewrite run_bind. set (h1 := MkHost _ _ _). intros Hrun.
    pose proof (run_collect_Ok (verdict (kernel h) ms').1 fuel (length ms) 0 h1) as HOk.
    rewrite Nat.sub_0_r in HOk. specialize (λ h2, HOk h2 (Hq Hidle)).
    pose proof (always_run _ _ _ _ (always_collect_tables fuel (length ms) 0 h1 _ eq_refl)) as [HT _].
    destruct (run (NfSocket.collect_acks fuel (length ms) 0) h1) as [h2 [r|]]; [|done].
    cbn in Hrun. injection Hrun as <- _ ->. cbn [fst] in HT.
    destruct (HOk h2 eq_refl) as [H1 H2]. split_and!; [done|by rewrite HT|done].
  - intros Hh Hidle Hf. cbn [bind call run handle]. rewrite Hh. cbn [hd fault].
    rewrite run_bind. set (h1 := MkHost _ _ _).
    destruct (run_collect (verdict (kernel h) ms').1 fuel (length ms) 0 h1) as
      (h2 & r & -> & Hh2 & Hf2 & Ht2 & ->); [done|rewrite Nat.sub_0_r; by apply Hq|lia|].
    cbn. do 2 eexists. split; [reflexivity|]. rewrite Ht2, Hf2. by repeat split.
Qed.

(** The first batch of [apply]. *)
Definition ensured (T : Tables) : Tables :=
  match T !! TABLE with Some _ => T | None => <[TABLE := []]> T end.

Lemma verdict_create k ms : (∀ ts, apply_all ts ms = apply_all ts [new_table]) →
  (verdict k ms).2 = nf_tables k ∨ (verdict k ms).2 = ensured (nf_tables k).
Proof.
  intros Hms. unfold verdict, ensured. destruct (nf_refuse k ms); [by left|]. rewrite Hms. cbn.
  destruct (nf_tables k !! TABLE); by right.
Qed.

Lemma verdict_create_Ok k ms : (∀ ts, apply_all ts ms = apply_all ts [new_table]) →
  ((verdict k ms).1 = 0 → (verdict k ms).2 = ensured (nf_tables k)) ∧
  (nf_refuse k ms = None → (verdict k ms).1 = 0).
Proof.
  intros Hms. unfold verdict, ensured.
  destruct (nf_refuse k ms) as [e|] eqn:Hr; [apply nf_refuse_pos in Hr; split; [cbn; lia|done]|].
  rewrite Hms. cbn. destruct (nf_tables k !! TABLE); by split.
Qed.

Lemma ensured_Some T : is_Some (ensured T !! TABLE).
Proof. unfold ensured. destruct (T !! TABLE) eqn:E; rewrite ?E, ?lookup_insert_eq; eauto. Qed.

Lemma insert_ensured T c : <[TABLE := c]> (ensured T) = <[TABLE := c]> T.
Proof. unfold ensured. destruct (T !! TABLE); [done|]. apply insert_insert_eq. Qed.

Lemma verdict_build be rules k ms :
  (∀ ts, apply_all ts ms = apply_all ts (build_messages be rules)) →
  ((verdict k ms).2 = nf_tables k ∨
   is_Some (nf_tables k !! TABLE) ∧ (verdict k ms).2 = <[TABLE := contents be rules]> (nf_tables k)) ∧
  (is_Some (nf_tables k !! TABLE) →
   ((verdict k ms).1 = 0 → (verdict k ms).2 = <[TABLE := contents be rules]> (nf_tables k)) ∧
   (nf_refuse k ms = None → (verdict k ms).1 = 0)).
Proof.
  intros Hms. unfold verdict.
  destruct (nf_refuse k ms) as [e|] eqn:Hr;
    [apply nf_refuse_pos in Hr; split; [by left|]; intros _; split; [cbn; lia|done]|].
  rewrite Hms. destruct (nf_tables k !! TABLE) as [t|] eqn:Ht.
  - rewrite build_applies by eauto. split; [right; eauto|done].
  - split; [|by intros []].
    destruct (apply_all (nf_tables k) (build_messages be rules)) as [ts|e] eqn:E; [|by left].
    destruct (build_shape be rules) as (? & ? & ? & ? & ? & Hb). rewrite Hb in E. cbn in E.
    by rewrite Ht in E.
Qed.
(** *** [apply] *)

Section apply.
Context (be : bool) (fuel : nat) (s : NfSocket.NfSocket) (rules : Ruleset) (h : Host K).

(** The states a replacement passes through. *)
Definition replacing (h1 : Host K) : Prop :=
  tables h1 = tables h ∨
  (tables h !! TABLE = None ∧ tables h1 = <[TABLE := []]> (tables h)) ∨
  tables h1 = <[TABLE := contents be rules]> (tables h).

Lemma always_apply : always replacing (λ _ _, True) (NfSocket.apply be fuel s rules) h.
Proof.
  unfold NfSocket.apply. destruct (build_framed be rules) as (-> & Hwf & Hlen).
  change [batch_control BatchBegin; new_table; batch_control BatchEnd] with (framed [new_table]).
  destruct (batch_spec fuel s [new_table] h eq_refl) as (m1 & Hm1 & Hal1 & HOk1 & Hrun1).
  destruct (verdict_create_Ok (kernel h) _ Hm1) as [HvOk1 HvN1].
  set (P := replacing).
  assert (∀ h1, tables h1 = tables h ∨ tables h1 = ensured (tables h) → P h1) as HP.
  { intros h1 [E|E]; unfold P, replacing; rewrite E; [by left|]. unfold ensured.
    destruct (tables h !! TABLE); [by left|right; by left]. }
  apply always_bind.
  apply (always_mono P (λ _ h1, tables h1 = tables h ∨ tables h1 = ensured (tables h))).
  2: { apply (always_weaken (λ h1, tables h1 = tables h ∨ tables h1 = ensured (tables h))); [exact HP|].
       apply (always_mono _ (λ _ _, True)); [by auto|]. eapply always_weaken; [|exact Hal1].
       intros h1 [?|E]; [by left|]. rewrite E. apply (verdict_create (kernel h) _ Hm1). }
  intros [s1 [[]|e]] h1 _ H1; [|split; [by apply HP|done]]. apply always_bind.
  destruct (batch_spec fuel s1 (build_messages be rules) h1 Hwf) as (m2 & Hm2 & Hal2 & _).
  apply (always_mono P (λ _ _, True)); [intros [s2 r] h2 Hp _; by split|].
  eapply always_weaken; [|exact Hal2]. intros h2 [E|E]; [apply HP; by rewrite E|].
  destruct (verdict_build be rules (kernel h1) _ Hm2) as [[Hv|[_ Hv]] _]; rewrite Hv in E;
    [apply HP; by rewrite E|]. unfold P, replacing. rewrite E. do 2 right.
  change (nf_tables (kernel h1)) with (tables h1). destruct H1 as [->| ->]; [done|].
  apply insert_ensured.
Qed.

Lemma apply_Ok h' s' :
  queue h = [] → run (NfSocket.apply be fuel s rules) h = (h', Some (s', Ok tt)) →
  tables h' = <[TABLE := contents be rules]> (tables h) ∧ queue h' = [].
Proof.
  unfold NfSocket.apply. destruct (build_framed be rules) as (-> & Hwf & Hlen).
  change [batch_control BatchBegin; new_table; batch_control BatchEnd] with (framed [new_table]).
  destruct (batch_spec fuel s [new_table] h eq_refl) as (m1 & Hm1 & Hal1 & HOk1 & Hrun1).
  destruct (verdict_create_Ok (kernel h) _ Hm1) as [HvOk1 HvN1].
  intros Hidle. rewrite run_bind.
  destruct (run (NfSocket.batch fuel s (framed [new_table])) h) as [h1 [[s1 [[]|e]]|]] eqn:Hr1; [|done|done].
  destruct (HOk1 h1 s1 Hidle eq_refl) as (Hv1 & Ht1 & Hq1). rewrite run_bind.
  destruct (batch_spec fuel s1 (build_messages be rules) h1 Hwf) as (m2 & Hm2 & _ & HOk2 & _).
  destruct (run (NfSocket.batch fuel s1 _) h1) as [h2 [[s2 [[]|e]]|]] eqn:Hr2; [|done|done].
  cbn. intros [= <- <-]. destruct (HOk2 h2 s2 Hq1 eq_refl) as (Hv2 & Ht2 & Hq2).
  split; [|done]. rewrite (HvOk1 Hv1) in Ht1.
  destruct (verdict_build be rules (kernel h1) _ Hm2) as [_ Hb].
  rewrite Ht2, (proj1 (Hb ltac:(change (nf_tables (kernel h1)) with (tables h1); rewrite Ht1; apply ensured_Some)) Hv2).
  change (nf_tables (kernel h1)) with (tables h1). rewrite Ht1. apply insert_ensured.
Qed.

Lemma apply_completes :
  healthy h → queue h = [] → (10 ≤ fuel)%nat →
  ∃ h' s' r, run (NfSocket.apply be fuel s rules) h = (h', Some (s', r)) ∧ healthy h' ∧
    files h' = files h ∧ ((∀ k ms, nf_refuse k ms = None) → r = Ok tt).
Proof.
  unfold NfSocket.apply. destruct (build_framed be rules) as (-> & Hwf & Hlen).
  change [batch_control BatchBegin; new_table; batch_control BatchEnd] with (framed [new_table]).
  destruct (batch_spec fuel s [new_table] h eq_refl) as (m1 & Hm1 & Hal1 & HOk1 & Hrun1).
  destruct (verdict_create_Ok (kernel h) _ Hm1) as [HvOk1 HvN1].
  intros Hh Hidle Hf. rewrite run_bind.
  destruct (Hrun1 Hh Hidle ltac:(cbn; lia)) as (h1 & s1 & Hr1 & Hh1 & Hf1 & _). rewrite Hr1.
  destruct (Z.eqb_spec (verdict (kernel h) m1).1 0) as [Hv1|Hv1].
  2: { do 3 eexists. split_and!; [reflexivity|done|done|]. intros Hnr. by rewrite HvN1 in Hv1. }
  destruct (HOk1 h1 s1 Hidle) as (_ & Ht1 & Hq1); [by rewrite Hr1|]. rewrite (HvOk1 Hv1) in Ht1.
  destruct (batch_spec fuel s1 (build_messages be rules) h1 Hwf) as (m2 & Hm2 & _ & _ & Hrun2).
  destruct (Hrun2 Hh1 Hq1 ltac:(lia)) as (h2 & s2 & Hr2 & Hh2 & Hf2 & _).
  rewrite run_bind, Hr2. cbn. do 3 eexists. split_and!; [reflexivity|done|by rewrite Hf2|].
  intros Hnr. destruct (verdict_build be rules (kernel h1) _ Hm2) as [_ Hb].
  rewrite (proj2 (Hb ltac:(change (nf_tables (kernel h1)) with (tables h1); rewrite Ht1; apply ensured_Some)) (Hnr _ _)).
  done.
Qed.
End apply.

(** *** [clear] and [table_exists] *)

Lemma verdict_delete k ms : (∀ ts, apply_all ts ms = apply_all ts [del_table]) →
  ((verdict k ms).2 = nf_tables k ∨ (verdict k ms).2 = delete TABLE (nf_tables k)) ∧
  (nf_refuse k ms = None →
   (verdict k ms).2 = delete TABLE (nf_tables k) ∧
   ((verdict k ms).1 = 0 ∨ (verdict k ms).1 = ENOENT)).
Proof.
  intros Hms. unfold verdict. destruct (nf_refuse k ms) as [e|]; [split; [by left|done]|].
  rewrite Hms. cbn. destruct (nf_tables k !! TABLE) as [t|] eqn:Ht; cbn.
  - split; [by right|auto].
  - split; [by left|]. intros _. split; [by rewrite delete_id|by right].
Qed.

Section clear.
Context (fuel : nat) (s : NfSocket.NfSocket) (h : Host K).

Definition clearing (h1 : Host K) : Prop :=
  tables h1 = tables h ∨ tables h1 = delete TABLE (tables h).

Lemma always_clear : always clearing (λ _ _, True) (NfSocket.clear fuel s) h.
Proof.
  unfold NfSocket.clear. change delete_batch with (framed [del_table]).
  destruct (batch_spec fuel s [del_table] h eq_refl) as (ms & Hms & Hal & _).
  apply always_bind. apply (always_mono _ (λ _ _, True)).
  - intros [s1 [[]|e]] h1 Hp _; [by split|]. by destruct (bool_decide _); split.
  - eapply always_weaken; [|exact Hal]. intros h1 [E|E]; [by left|]. unfold clearing. rewrite E.
    apply (verdict_delete (kernel h) _ Hms).
Qed.

(** A missing table is success. *)
Lemma clear_completes :
  healthy h → queue h = [] → (1 ≤ fuel)%nat →
  ∃ h' s' r, run (NfSocket.clear fuel s) h = (h', Some (s', r)) ∧ healthy h' ∧
    files h' = files h ∧
    ((∀ k ms, nf_refuse k ms = None) → r = Ok tt ∧ tables h' = delete TABLE (tables h)).
Proof.
  intros Hh Hidle Hf. unfold NfSocket.clear. change delete_batch with (framed [del_table]).
  destruct (batch_spec fuel s [del_table] h eq_refl) as (ms & Hms & _ & _ & Hrun).
  destruct (Hrun Hh Hidle ltac:(cbn; lia)) as (h1 & s1 & Hr1 & Hh1 & Hf1 & Ht1).
  rewrite run_bind, Hr1. destruct (verdict_delete (kernel h) _ Hms) as [_ Hv].
  destruct (Z.eqb_spec (verdict (kernel h) ms).1 0) as [H0|H0]; cbn.
  - do 3 eexists. split_and!; [reflexivity|done|done|]. intros Hnr. split; [done|].
    rewrite Ht1. by apply Hv.
  - destruct (Z.eq_dec (Z.abs (- (verdict (kernel h) ms).1)) ENOENT) as [He|He].
    + rewrite He, bool_decide_eq_true_2 by done. cbn. do 3 eexists. split_and!; [reflexivity|done|done|].
      intros Hnr. split; [done|]. rewrite Ht1. by apply Hv.
    + rewrite bool_decide_eq_false_2 by congruence. cbn. do 3 eexists.
      split_and!; [reflexivity|done|done|]. intros Hnr. exfalso.
      destruct (Hv (Hnr _ _)) as [_ [E|E]]; rewrite E in *; by cbn in *.
Qed.
End clear.

Lemma always_exists_tables s h T :
  tables h = T → always (λ h, tables h = T) (λ _ _, True) (NfSocket.table_exists s) h.
Proof.
  intros HT. unfold NfSocket.table_exists, NfSocket.send_all. cbn [bind call always handle].
  split; [done|]. destruct (fault (hd Works (plan h))) as [e|]; [by split|].
  pose proof (nf_get_spec (kernel h) (MkNfMsg NLM_F_REQUEST (NfSocket.seq s) (nl_payload get_table))
    TABLE eq_refl eq_refl) as [Ht _].
  set (h1 := MkHost _ _ _). assert (tables h1 = T) as HT1 by (subst T; exact Ht).
  split; [done|].
  destruct (handle_recv h1) as [(e & Hr & _)|Hr]; [rewrite Hr; by split|].
  destruct (queue h1) as [|d q]; [by rewrite Hr|].
  destruct Hr as (h2 & -> & _ & HT2 & _). split; [congruence|done].
Qed.

Lemma handle_send ms h :
  healthy h → handle (NlSend ms) h = (MkHost (files h) (nl_send (kernel h) ms) [], Some (Ok tt)).
Proof. unfold healthy. destruct h as [fs k p]. cbn. by intros ->. Qed.

Lemma exists_completes s h :
  healthy h → queue h = [] →
  ∃ h' s', run (NfSocket.table_exists s) h =
      (h', Some (s', Ok (bool_decide (is_Some (tables h !! TABLE))))) ∧
    healthy h' ∧ files h' = files h ∧ tables h' = tables h ∧ queue h' = [].
Proof.
  intros Hh Hidle. unfold NfSocket.table_exists, NfSocket.send_all. cbn [bind call run].
  rewrite handle_send by done.
  destruct (nf_get_spec (kernel h) (MkNfMsg NLM_F_REQUEST (NfSocket.seq s) (nl_payload get_table))
    TABLE eq_refl eq_refl) as (Ht & d & Hq & Hd).
  set (h1 := MkHost _ _ _). change (queue h1 = nf_queue (kernel h) ++ [d])%list in Hq.
  change (queue h = []) with (nf_queue (kernel h) = []) in Hidle. rewrite Hidle in Hq. cbn in Hq.
  destruct (handle_recv h1) as [(e & _ & Hp)|Hr]; [done|]. rewrite Hq in Hr.
  cbn [bind call run]. destruct Hr as (h2 & -> & Hq2 & Ht2 & Hf2 & Hp2). change (tables h1 = tables h) in Ht.
  exists h2. eexists. split_and!; [|done|done|congruence|done].
  do 3 f_equal. unfold tables. destruct (nf_tables (kernel h) !! TABLE) as [t|].
  - destruct Hd as (f & sq & ->). done.
  - destruct Hd as (f & sq & ->). done.
Qed.
End socket.

(** C26. Replacing the table is atomic. Whatever the kernel refuses, whichever system
    call fails and wherever the process dies, the kernel has the previous tables, or
    those with an empty [noeio] where there was none, or the complete new one - never
    part of a table, and no other table is touched. [Ok] is returned only when the new
    table is in place; and when nothing fails the call ends, with [Ok] unless the
    kernel refuses. *)
Theorem apply_atomic {K} {NK : NetlinkKernel K} {NL : NfLaws K} be fuel s rules (h : Host K) :
  let p := NfSocket.apply be fuel s rules in
  let new := <[TABLE := contents be rules]> (tables h) in
  (∀ n, let T := tables (exec n p h).1 in
     T = tables h ∨ (tables h !! TABLE = None ∧ T = <[TABLE := []]> (tables h)) ∨ T = new) ∧
  (∀ h' s', queue h = [] → run p h = (h', Some (s', Ok tt)) → tables h' = new ∧ queue h' = []) ∧
  (healthy h → queue h = [] → (10 ≤ fuel)%nat →
   ∃ h' s' r, run p h = (h', Some (s', r)) ∧ healthy h' ∧ files h' = files h ∧
     ((∀ k ms, nf_refuse k ms = None) → r = Ok tt)).
Proof.
  cbv zeta. split_and!.
  - intros n. apply (always_exec _ _ _ _ n (always_apply be fuel s rules h)).
  - intros h' s'. apply apply_Ok.
  - apply apply_completes.
Qed.

(** ** A kernel that satisfies the laws *)

Record NfModel : Type := MkNf {
  m_tables : Tables;
  m_queue : list Datagram;
}.

Definition reply (code : Z) : Datagram := [Some (MkNfMsg 0 0 (NlError code))].

(** A dump, a message per buffer and the end mark in the last. *)
Definition is_chain (m : NfTablesMessage) : bool := match m with NewChain _ => true | _ => false end.
Definition is_rule (m : NfTablesMessage) : bool := match m with NewRule _ => true | _ => false end.
Definition model_dump (f : NfTablesMessage → bool) (t : list NfTablesMessage) : list Datagram :=
  (map (λ m, [Some (MkNfMsg 2 0 (NfInner ProtoIPv4 0 m))]) (List.filter f t)
   ++ [[Some (MkNfMsg 2 0 NlDone)]])%list.

Definition model_send (k : NfModel) (sent : list NfMsg) : NfModel :=
  match parse_batch sent with
  | Some ms =>
      match apply_all (m_tables k) ms with
      | Ok ts => MkNf ts (m_queue k ++ replicate (length ms) (reply 0))
      | Err e => MkNf (m_tables k) (m_queue k ++ [reply (- e)])
      end
  | None =>
      match nl_payload <$> sent with
      | [NfInner _ _ (GetTable [TableName a])] =>
          MkNf (m_tables k) (m_queue k ++
            [match m_tables k !! a with
             | Some _ => [Some (MkNfMsg 0 0 (NfInner ProtoIPv4 0 (NewTable [TableName a])))]
             | None => reply (- ENOENT)
             end])
      | [NfInner _ _ (GetChain _)] =>
          MkNf (m_tables k) (m_queue k ++ model_dump is_chain (default [] (m_tables k !! TABLE)))
      | [NfInner _ _ (GetRule _)] =>
          MkNf (m_tables k) (m_queue k ++ model_dump is_rule (default [] (m_tables k !! TABLE)))
      | _ => k
      end
  end.

#[export] Instance model_kernel : NetlinkKernel NfModel := {|
  nl_open k := MkNf (m_tables k) [];
  nl_send := model_send;
  nl_recv k := match m_queue k with
               | [] => None
               | d :: q => Some (MkNf (m_tables k) q, d)
               end |}.

#[export, refine] Instance model_laws : NfLaws NfModel := {|
  nf_tables := m_tables;
  nf_queue := m_queue;
  nf_refuse _ _ := None |}.
Proof.
  - done.
  - intros [ts q]. cbn. destruct q; [done|]. eauto.
  - intros k sent ms Hp _. cbn. unfold model_send. rewrite Hp.
    destruct (apply_all (m_tables k) ms) as [ts|e] eqn:Ha; cbn; (split; [done|]).
    + eexists. split; [reflexivity|]. apply Forall2_replicate. by exists 0, 0.
    + exists 0%nat, [reply (- e)], []. split; [destruct ms; [done|cbn; lia]|].
      split; [done|]. cbn. constructor; [by exists 0, 0|constructor].
  - done.
  - intros k m a Hm _. cbn. unfold model_send. cbn. unfold is_control. rewrite Hm. cbn.
    split; [done|]. eexists. split; [reflexivity|].
    destruct (m_tables k !! a); [by exists 0, 0|by exists 0, 0].
Defined.
