(* ===== verification/NftDump.v ===== *)
(** Reading the table back: [NfSocket.read_back] of [Nftables] after [NfSocket.apply],
    against the kernel of [NftKernel] and what it documents about dumps. *)

From Stdlib Require Import ZArith Lia.
From Stdlib Require Import Strings.String.
From stdpp Require Import base list strings gmap.
From S2P Require Import Prelude Text NetTypes HostInfo Syscalls Nftables NftKernel.
Import Nftables.Ruleset.

Local Open Scope string_scope.
Local Open Scope Z_scope.

(** ** Dumps *)

(** A dump of [items]: a message each, in any number of buffers, the end mark last. What
    the kernel sends back for a chain or a rule need not be what it was given, but says
    the same of what [read_back] looks at. *)
Definition shows (item m : NfTablesMessage) : Prop :=
  match item, m with
  | NewChain a, NewChain b => chain_view b = chain_view a
  | NewRule a, NewRule b => rule_view b = rule_view a
  | _, _ => False
  end.
Definition is_dump (items : list NfTablesMessage) (ds : list Datagram) : Prop :=
  ∃ ms, Forall2 shows items ms ∧ Forall (λ d, d ≠ []) ds ∧
    ∃ heads f, Forall2 (λ m x, nl_payload x = NfInner ProtoIPv4 0 m) ms heads ∧
      nl_payload f = NlDone ∧ concat ds = (map Some heads ++ [Some f])%list.

(** The answer to a dump request of a kernel whose only IPv4 table is ours. *)
Class NfDumpLaws (K : Type) {NK : NetlinkKernel K} {NL : NfLaws K} : Prop := {
  nf_dump_chains : ∀ (k : K) s t, nf_tables k = {[ TABLE := t ]} →
    let k' := nl_send k (NfSocket.stamp s [dump_chains]) in
    nf_tables k' = nf_tables k ∧
    ∃ ds, nf_queue k' = (nf_queue k ++ ds)%list ∧ is_dump (List.filter is_chain t) ds;
  nf_dump_rules : ∀ (k : K) s t, nf_tables k = {[ TABLE := t ]} →
    let k' := nl_send k (NfSocket.stamp s [dump_rules]) in
    nf_tables k' = nf_tables k ∧
    ∃ ds, nf_queue k' = (nf_queue k ++ ds)%list ∧ is_dump (List.filter is_rule t) ds;
}.

(** ** The loop *)

Lemma dump_items_heads ms heads rest out :
  Forall2 (λ m x, nl_payload x = NfInner ProtoIPv4 0 m) ms heads →
  NfSocket.dump_items (map Some heads ++ rest)%list out = NfSocket.dump_items rest (out ++ ms)%list.
Proof.
  intros H. revert out. induction H as [|m h ms heads Hm _ IH]; intros out; [by rewrite app_nil_r|].
  cbn [map app NfSocket.dump_items]. by rewrite Hm, IH, <-app_assoc.
Qed.

(** The first buffer of a dump is all of it, or a part of its messages. *)
Lemma first_buffer (heads : list NfMsg) f d ds :
  Forall (λ d : Datagram, d ≠ []) ds → concat (d :: ds) = (map Some heads ++ [Some f])%list →
  (ds = [] ∧ d = (map Some heads ++ [Some f])%list) ∨
  (∃ h1 h2, heads = (h1 ++ h2)%list ∧ d = map Some h1 ∧ concat ds = (map Some h2 ++ [Some f])%list).
Proof.
  intros Hne. cbn [concat]. destruct ds as [|d2 ds]; [rewrite app_nil_r; by left|].
  intros [(k & Hd & Hf)|(k & Hm & Hc)]%app_eq_inv; right.
  - exists heads, []. rewrite app_nil_r. apply Forall_cons in Hne as [Hd2 _].
    destruct k as [|x k]; [rewrite app_nil_r in Hd; by split_and!|].
    injection Hf as <- Hk. destruct d2; [done|]. by destruct k.
  - apply map_eq_app in Hm as (h1 & h2 & -> & <- & <-). by exists h1, h2.
Qed.

Section run.
Context {K : Type} {NK : NetlinkKernel K} {NL : NfLaws K}.
Implicit Types h : Host K.

Lemma run_dump_loop fuel ds ms heads f out h :
  healthy h → queue h = ds → (length ds ≤ fuel)%nat → Forall (λ d, d ≠ []) ds →
  Forall2 (λ m x, nl_payload x = NfInner ProtoIPv4 0 m) ms heads → nl_payload f = NlDone →
  concat ds = (map Some heads ++ [Some f])%list →
  ∃ h', run (NfSocket.dump_loop fuel out) h = (h', Some (Ok (out ++ ms)%list)) ∧
    healthy h' ∧ queue h' = [] ∧ tables h' = tables h ∧ files h' = files h.
Proof.
  revert fuel ms heads out h. induction ds as [|d ds IH]; intros fuel ms heads out h Hh Hq Hf Hne Hms Hdone Hc.
  { by destruct heads. }
  destruct fuel as [|fuel]; [cbn in Hf; lia|]. cbn [NfSocket.dump_loop bind call run].
  destruct (handle_recv h) as [(e & _ & Hp)|Hr]; [done|]. rewrite Hq in Hr.
  destruct Hr as (h1 & -> & Hq1 & Ht1 & Hf1 & Hp1).
  assert (Hh1 : healthy h1) by (unfold healthy in *; by rewrite Hp1, Hh).
  apply Forall_cons in Hne as [_ Hne].
  destruct (first_buffer heads f d ds Hne Hc) as [[-> ->]|(a & b & -> & -> & Hc')].
  - rewrite (dump_items_heads ms) by done. cbn [NfSocket.dump_items]. rewrite Hdone. cbn [run].
    exists h1. by split_and!.
  - apply Forall2_app_inv_r in Hms as (m1 & m2 & H1 & H2 & ->).
    rewrite <-(app_nil_r (map Some a)), (dump_items_heads m1) by done. cbn [NfSocket.dump_items].
    destruct (IH fuel m2 b (out ++ m1)%list h1) as (h2 & Hrun & Hh2 & Hq2 & Ht2 & Hf2); try done.
    { cbn in Hf. lia. }
    exists h2. rewrite Hrun, <-app_assoc. split_and!; [done|done|done|congruence|congruence].
Qed.

(** A dump of [n] items with that many buffers to read. *)
Lemma run_dump fuel s req items h :
  healthy h → queue h = [] → (length items < fuel)%nat →
  (let k' := nl_send (kernel h) (NfSocket.stamp (NfSocket.seq s) [req]) in
   nf_tables k' = nf_tables (kernel h) ∧
   ∃ ds, nf_queue k' = (nf_queue (kernel h) ++ ds)%list ∧ is_dump items ds) →
  ∃ h' s' ms, run (NfSocket.dump fuel s req) h = (h', Some (s', Ok ms)) ∧ Forall2 shows items ms ∧
    healthy h' ∧ queue h' = [] ∧ tables h' = tables h ∧ files h' = files h.
Proof.
  intros Hh Hq Hfuel (Ht & ds & Hds & ms & Hshow & Hne & heads & f & Hheads & Hdone & Hc).
  unfold NfSocket.dump, NfSocket.send_all. cbn [bind call run]. rewrite handle_send by done.
  cbn [bind call run]. change (nf_queue (kernel h)) with (queue h) in Hds. rewrite Hq in Hds. cbn in Hds.
  rewrite run_bind.
  destruct (run_dump_loop fuel ds ms heads f [] (MkHost (files h) (nl_send (kernel h)
    (NfSocket.stamp (NfSocket.seq s) [req])) [])) as (h' & Hrun & Hh' & Hq' & Ht' & Hf'); try done.
  { assert (length ds ≤ length (concat ds))%nat as Hle.
    { clear -Hne. induction Hne as [|d ds Hd _ IH]; [done|]. cbn. rewrite length_app. destruct d; [done|]. cbn. lia. }
    rewrite Hc, length_app, length_map in Hle. cbn in Hle.
    rewrite <-(Forall2_length _ _ _ Hheads), <-(Forall2_length _ _ _ Hshow) in Hle. lia. }
  rewrite Hrun. eexists _, _, _. split; [reflexivity|]. split_and!; [done|done|done| |done].
  rewrite Ht'. exact Ht.
Qed.
End run.

(** ** What is read back *)

(** The rules as the program means them: hooks, priorities and the order of the
    expressions. *)
Definition intended (rules : Ruleset) : TableView :=
  let clamp := ["meta"; "cmp"; "meta"; "cmp"; "payload"; "bitwise"; "cmp"; "rt"; "byteorder"; "exthdr"] in
  MkTableView
    ([MkChainView CHAIN_POSTROUTING "nat" (Some 4) (Some PRIO_SRCNAT);
      MkChainView CHAIN_FORWARD "filter" (Some 2) (Some PRIO_FILTER)] ++
     if mss_clamp rules then [MkChainView CHAIN_MSSCLAMP "filter" (Some 2) (Some PRIO_MANGLE)] else [])%list
    ([MkRuleView CHAIN_POSTROUTING ["payload"; "bitwise"; "cmp"; "meta"; "cmp"; "masq"];
      MkRuleView CHAIN_FORWARD ["meta"; "cmp"; "meta"; "cmp"; "immediate"];
      MkRuleView CHAIN_FORWARD ["meta"; "cmp"; "meta"; "cmp"; "ct"; "bitwise"; "cmp"; "immediate"]] ++
     if mss_clamp rules then [MkRuleView CHAIN_MSSCLAMP clamp; MkRuleView CHAIN_MSSCLAMP clamp] else [])%list.

Definition chain_views (ms : list NfTablesMessage) : list ChainView :=
  omap (λ m, match m with NewChain a => Some (chain_view a) | _ => None end) ms.
Definition rule_views (ms : list NfTablesMessage) : list RuleView :=
  omap (λ m, match m with NewRule a => Some (rule_view a) | _ => None end) ms.

Lemma shown_chains items ms : Forall2 shows items ms → chain_views ms = chain_views items.
Proof.
  induction 1 as [|i m items ms Hs _ IH]; [done|]. unfold chain_views in *.
  destruct i, m; try done; cbn [shows] in Hs; cbn [omap list_omap]; by rewrite ?Hs, IH.
Qed.
Lemma shown_rules items ms : Forall2 shows items ms → rule_views ms = rule_views items.
Proof.
  induction 1 as [|i m items ms Hs _ IH]; [done|]. unfold rule_views in *.
  destruct i, m; try done; cbn [shows] in Hs; cbn [omap list_omap]; by rewrite ?Hs, IH.
Qed.

Lemma contents_views be rules :
  chain_views (List.filter is_chain (contents be rules)) = view_chains (intended rules) ∧
  rule_views (List.filter is_rule (contents be rules)) = view_rules (intended rules) ∧
  (length (List.filter is_chain (contents be rules)) ≤ 3)%nat ∧
  (length (List.filter is_rule (contents be rules)) ≤ 5)%nat.
Proof. destruct rules as [[net q] lan tun []]; split_and!; reflexivity || (cbn; lia). Qed.

(** What was applied is what is read back. After [apply] has returned [Ok] on a
    kernel with no other IPv4 table, [read_back] ends, changes nothing and reports the
    chains with their types, hooks and priorities - the mangle priority comes back
    negative through the unsigned field - and the rules of each in order with the
    expressions they were built of, in however many buffers the kernel sends its
    dumps and whatever else it adds to the messages. *)
Theorem read_back_intended {K} {NK : NetlinkKernel K} {NL : NfLaws K} {ND : NfDumpLaws K}
    be fuel s rules (h h1 : Host K) s1
    (Hh : healthy h) (Hq : queue h = []) (Hfuel : (10 ≤ fuel)%nat)
    (Hours : ∀ n, is_Some (tables h !! n) → n = TABLE)
    (Happly : run (NfSocket.apply be fuel s rules) h = (h1, Some (s1, Ok tt))) :
  ∃ h2 s2, run (NfSocket.read_back fuel s1) h1 = (h2, Some (s2, Ok (intended rules))) ∧
    tables h2 = tables h1 ∧ queue h2 = [] ∧ files h2 = files h1.
Proof.
  destruct (apply_completes be fuel s rules h Hh Hq Hfuel) as (h' & s' & r & Hrun & Hh1 & _ & _).
  rewrite Happly in Hrun. injection Hrun as <- <- <-.
  destruct (apply_Ok be fuel s rules h h1 s1 Hq Happly) as [Ht Hq1].
  assert (Hone : nf_tables (kernel h1) = {[ TABLE := contents be rules ]}).
  { change (tables h1 = {[ TABLE := contents be rules ]}). rewrite Ht. apply map_eq. intros n.
    destruct (decide (n = TABLE)) as [->|Hn]; [by rewrite lookup_insert_eq, lookup_singleton_eq|].
    rewrite lookup_insert_ne, lookup_singleton_ne by done. destruct (tables h !! n) eqn:E; [|done].
    destruct Hn. apply Hours. by rewrite E. }
  destruct (contents_views be rules) as (Hc & Hr & Hlc & Hlr).
  destruct (run_dump fuel s1 dump_chains (List.filter is_chain (contents be rules)) h1 Hh1 Hq1 ltac:(lia) (nf_dump_chains (kernel h1) _ _ Hone))
    as (h2 & s2 & ms & Hrun & Hshow & Hh2 & Hq2 & Ht2 & Hf2).
  assert (Hone2 : nf_tables (kernel h2) = {[ TABLE := contents be rules ]})
    by (change (tables h2 = {[ TABLE := contents be rules ]}); by rewrite Ht2).
  destruct (run_dump fuel s2 dump_rules (List.filter is_rule (contents be rules)) h2 Hh2 Hq2 ltac:(lia) (nf_dump_rules (kernel h2) _ _ Hone2))
    as (h3 & s3 & ms3 & Hrun3 & Hshow3 & Hh3 & Hq3 & Ht3 & Hf3).
  exists h3, s3. unfold NfSocket.read_back. rewrite run_bind, Hrun, run_bind, Hrun3. cbn [run].
  split; [|by split_and!; congruence]. do 4 f_equal.
  change (MkTableView (chain_views ms) (rule_views ms3) = intended rules).
  rewrite (shown_chains _ _ Hshow), (shown_rules _ _ Hshow3), Hc, Hr. by destruct (intended rules).
Qed.

(** ** The concrete kernel *)

Lemma model_dump_is f t : (∀ m, f m = true → shows m m) → is_dump (List.filter f t) (model_dump f t).
Proof.
  intros Hf. exists (List.filter f t). split_and!.
  - induction t as [|m t IH]; [constructor|]. cbn. destruct (f m) eqn:E; [|done]. constructor; auto.
  - unfold model_dump. apply Forall_app. split; [|by repeat constructor]. apply Forall_map.
    by apply Forall_forall.
  - exists (map (λ m, MkNfMsg 2 0 (NfInner ProtoIPv4 0 m)) (List.filter f t)), (MkNfMsg 2 0 NlDone).
    split_and!; [| done |].
    + induction (List.filter f t) as [|m l IH]; by constructor.
    + unfold model_dump. rewrite concat_app. f_equal.
      induction (List.filter f t) as [|m l IH]; [done|]. cbn. by rewrite IH.
Qed.

#[export] Instance model_dump_laws : NfDumpLaws NfModel.
Proof.
  split; intros k s t Ht; (assert (Hl : m_tables k !! TABLE = Some t)
      by (change (nf_tables k !! TABLE = Some t); rewrite Ht; apply lookup_singleton_eq));
    (split; [reflexivity|]); eexists; (split; [cbn -[lookup model_dump default]; rewrite Hl; reflexivity|]);
    apply model_dump_is; by intros [].
Qed.

Lemma read_back_intended_witness :
  let rules := MkRuleset (ipv4 110 20 0 0, 16) "eth0" "noeio0" true in
  ∃ h1 s1 h2 s2,
    run (NfSocket.apply false 10 (NfSocket.MkSocket 1) rules) (MkHost ∅ (MkNf ∅ []) []) = (h1, Some (s1, Ok tt)) ∧
    run (NfSocket.read_back 10 s1) h1 = (h2, Some (s2, Ok (intended rules))).
Proof.
  cbv zeta. set (rules := MkRuleset (ipv4 110 20 0 0, 16) "eth0" "noeio0" true).
  assert (is_Some (run (NfSocket.apply false 10 (NfSocket.MkSocket 1) rules)
    (MkHost ∅ (MkNf ∅ []) [])).2) as [[s1 r] Er] by (vm_compute; by eexists).
  assert (r = Ok tt) as -> by (vm_compute in Er; by injection Er).
  destruct (run (NfSocket.apply false 10 (NfSocket.MkSocket 1) rules) (MkHost ∅ (MkNf ∅ []) [])) as [h1 o] eqn:E.
  cbn [snd] in Er. subst o.
  destruct (read_back_intended (K := NfModel) false 10 (NfSocket.MkSocket 1) rules (MkHost ∅ (MkNf ∅ []) []) h1 s1)
    as (h2 & s2 & Hr & _); [reflexivity|reflexivity|lia| |exact E|].
  { intros n [t H]. discriminate H. }
  exists h1, s1, h2, s2. by split.
Defined.
