(* ===== verification/SubnetNat.v ===== *)
(** [noeio/src/daemon/nat.rs]: what a subnet router asks of netfilter and of the
    forwarding sysctl, from what the daemon advertises. Both outlive the process, so
    a run starts with a sweep and ends with a convergence to nothing. *)

From Stdlib Require Import ZArith Lia.
From Stdlib Require Import Strings.String.
From stdpp Require Import base list strings gmap sorting.
From S2P Require Import Prelude Text NetTypes CidrModel HostInfo RoutingTable Daemon Config.
From S2P Require Import Syscalls Forwarding Nftables NftRules NftKernel.

Local Open Scope string_scope.
Local Open Scope Z_scope.

Record AppliedNat : Type := MkApplied {
  nat_overlay : Z * Z;
  nat_lan_if : string;
  nat_tun_if : string;
}.

#[export] Instance AppliedNat_eq_dec : EqDecision AppliedNat.
Proof. solve_decision. Defined.

(** ** [covering_prefix] *)

(** [u32::leading_zeros]. *)
Definition leading_zeros (x : Z) : Z := if x =? 0 then 32 else 31 - Z.log2 x.

Definition covering_prefix (ips : list Z) : option (Z * Z) :=
  first ← head ips;
  last ← last ips;
  let differing := leading_zeros (Z.lxor first last) in
  let prefix := Z.min differing 32 in
  Some (Z.land first (saddr_mask prefix), prefix).

(** ** [nat_target] *)

Inductive NatTargetError : Type := NoNic | NoOverlay | NoLanInterface (subnets : string).

Fixpoint show_list (l : list string) : string :=
  match l with
  | [] => ""
  | [s] => s
  | s :: l => s +:+ ", " +:+ show_list l
  end.

Section target.
Context {CA : CidrApi}.

(** The interface whose address is in the first advertised subnet that has one. *)
Definition default_lan_interface (interfaces : list NetworkInterface) (advertised : list Cidr)
    (tun_if : string) : result string NatTargetError :=
  match head (omap (λ cidr, List.find (λ iface,
            negb (bool_decide (if_name iface = tun_if) || if_is_loopback iface) &&
            existsb (λ net, match net.1 with
                            | IpV4 v4 => cidr_contains_addr cidr v4
                            | IpV6 _ => false
                            end) (if_ips iface)) interfaces) advertised) with
  | Some iface => Ok (if_name iface)
  | None => Err (NoLanInterface (show_list (map cidr_to_string advertised)))
  end.

(** [nics] are the daemon's own, [known] the virtual addresses of its peers. *)
Definition nat_target (interfaces : list NetworkInterface) (nics : NicManager) (known : list IpAddr)
    (advertised : list Cidr) (lan_interface : string) : result AppliedNat NatTargetError :=
  match head (NicManager.interfaces nics) with
  | None => Err NoNic
  | Some (_, tun_if) =>
      let ips := omap (λ ip, match ip with IpV4 v4 => Some v4 | IpV6 _ => None end)
                   (NicManager.ips nics ++ known)%list in
      let ips := dedup (merge_sort Z.le ips) in
      let? overlay := ok_or NoOverlay (covering_prefix ips) in
      let? lan_if := (if bool_decide (lan_interface = "")
                      then default_lan_interface interfaces advertised tun_if
                      else Ok lan_interface) in
      Ok (MkApplied overlay lan_if tun_if)
  end.

(** The first half of [converge]: an error counts as nothing wanted. *)
Definition wanted (interfaces : list NetworkInterface) (nics : NicManager) (known : list IpAddr)
    (advertised : list Cidr) (config : RouterConfig) : option AppliedNat :=
  if bool_decide (advertised = []) || negb (auto_nat config) then None
  else result_ok (nat_target interfaces nics known advertised (lan_interface config)).
End target.

(** ** [converge] and [sweep_leftovers] *)

(** The errors as they are logged. *)
Inductive NatError : Type := NatNf (e : NfError) | NatIo (e : IoError).

Section converge.
Context (big_endian : bool) (fuel : nat) (run_dir : string).

(** The blocking part. *)
Definition converge_system (want : option AppliedNat) : prog (result unit NatError) :=
  let* s := NfSocket.open in
  match s with
  | Err e => Ret (Err (NatNf e))
  | Ok s =>
      match want with
      | Some t =>
          match Ruleset.new (nat_overlay t) (nat_lan_if t) (nat_tun_if t) true with
          | Err e => Ret (Err (NatIo e))
          | Ok rules =>
              let* (_, r) := NfSocket.apply big_endian fuel s rules in
              match r with
              | Err e => Ret (Err (NatNf e))
              | Ok _ =>
                  let* r := enable run_dir in
                  Ret (match r with Ok _ => Ok tt | Err e => Err (NatIo e) end)
              end
          end
      | None =>
          let* (_, r) := NfSocket.clear fuel s in
          match r with
          | Err e => Ret (Err (NatNf e))
          | Ok _ =>
              let* r := restore run_dir in
              Ret (match r with Ok _ => Ok tt | Err e => Err (NatIo e) end)
          end
      end
  end.

(** [converge], from the state last applied to the new one. *)
Definition converge (want current : option AppliedNat) : prog (option AppliedNat) :=
  if decide (current = want) then Ret current
  else
    let* r := converge_system want in
    Ret (match r with Ok _ => want | Err _ => current end).

Definition sweep_leftovers : prog (result (bool * bool) NatError) :=
  let* restored := restore run_dir in
  match restored with
  | Err e => Ret (Err (NatIo e))
  | Ok restored =>
      let* s := NfSocket.open in
      match s with
      | Err e => Ret (Err (NatNf e))
      | Ok s =>
          let* (s, had_table) := NfSocket.table_exists s in
          match had_table with
          | Err e => Ret (Err (NatNf e))
          | Ok true =>
              let* (_, r) := NfSocket.clear fuel s in
              Ret (match r with Ok _ => Ok (restored, true) | Err e => Err (NatNf e) end)
          | Ok false => Ret (Ok (restored, false))
          end
      end
  end.
End converge.

(** ** The covering prefix *)

Lemma leading_zeros_spec x q : 0 ≤ x < 2 ^ 32 → 0 ≤ q ≤ 32 →
  q ≤ leading_zeros x ↔ x < 2 ^ (32 - q).
Proof.
  intros Hx Hq. unfold leading_zeros. destruct (Z.eqb_spec x 0) as [->|Hne].
  - split; [intros _; apply Z.pow_pos_nonneg; lia|lia].
  - rewrite (Z.log2_lt_pow2 x (32 - q)) by lia. lia.
Qed.

Lemma lxor_prefix a b q : 0 ≤ q ≤ 32 →
  prefix_bits q a = prefix_bits q b ↔ Z.shiftr (Z.lxor a b) (32 - q) = 0.
Proof.
  intros Hq. unfold prefix_bits. rewrite <-!Z.shiftr_div_pow2, Z.shiftr_lxor by lia.
  by rewrite Z.lxor_eq_0_iff.
Qed.

Lemma lxor_u32 a b : is_uint 32 a → is_uint 32 b → 0 ≤ Z.lxor a b < 2 ^ 32.
Proof.
  unfold is_uint. intros Ha Hb. split; [apply Z.lxor_nonneg; lia|].
  destruct (decide (Z.lxor a b = 0)) as [->|Hne]; [lia|].
  assert (0 ≤ Z.lxor a b) by (apply Z.lxor_nonneg; lia).
  apply Z.log2_lt_pow2; [lia|]. eapply Z.le_lt_trans; [apply Z.log2_lxor; lia|].
  destruct (decide (a = 0)) as [->|]; destruct (decide (b = 0)) as [->|]; cbn [Z.log2];
    rewrite ?Z.max_lub_lt_iff; rewrite <-?Z.log2_lt_pow2 by lia; lia.
Qed.

Lemma covers_iff a b q : is_uint 32 a → is_uint 32 b → 0 ≤ q ≤ 32 →
  q ≤ leading_zeros (Z.lxor a b) ↔ prefix_bits q a = prefix_bits q b.
Proof.
  intros Ha Hb Hq. pose proof (lxor_u32 a b Ha Hb). rewrite leading_zeros_spec, lxor_prefix by done.
  rewrite Z.shiftr_div_pow2 by lia.
  pose proof (Z.pow_pos_nonneg 2 (32 - q) ltac:(lia) ltac:(lia)).
  split; intros Hd; [apply Z.div_small; lia|].
  apply Z.div_small_iff in Hd; lia.
Qed.

Lemma StronglySorted_bounds (l : list Z) a b :
  StronglySorted Z.le l → head l = Some a → last l = Some b → ∀ x, x ∈ l → a ≤ x ≤ b.
Proof.
  intros Hs. revert a. induction Hs as [|y l Hs IH Hy]; intros a; [done|].
  intros [= ->] Hlast x Hx. rewrite Forall_forall in Hy.
  assert (b ∈ a :: l) as Hb by (apply last_Some in Hlast as [l' ->]; set_solver).
  destruct l as [|z l].
  - apply list_elem_of_singleton in Hx as ->. injection Hlast as ->. lia.
  - assert (a ≤ z ≤ b) as Hz.
    { split; [apply Hy; by left|]. apply (IH z eq_refl Hlast). by left. }
    apply elem_of_cons in Hx as [->|Hx]; [lia|]. pose proof (IH z eq_refl Hlast x Hx). lia.
Qed.

Lemma prefix_bits_mono q a b : 0 ≤ q ≤ 32 → a ≤ b → prefix_bits q a ≤ prefix_bits q b.
Proof. intros Hq H. unfold prefix_bits. apply Z.div_le_mono; [apply Z.pow_pos_nonneg; lia|done]. Qed.

(** The prefix found for a sorted list: it covers it, its host bits are zero, and no
    longer prefix covers it. *)
Lemma covering_prefix_spec ips :
  StronglySorted Z.le ips → Forall (is_uint 32) ips → ips ≠ [] →
  ∃ net p, covering_prefix ips = Some (net, p) ∧ 0 ≤ p ≤ 32 ∧ is_uint 32 net ∧
    (∀ x, x ∈ ips → prefix_bits p x = prefix_bits p net) ∧
    net = prefix_bits p net * 2 ^ (32 - p) ∧
    (∀ q net', 0 ≤ q ≤ 32 → (∀ x, x ∈ ips → prefix_bits q x = prefix_bits q net') → q ≤ p).
Proof.
  intros Hs Hu Hne. unfold covering_prefix.
  destruct ips as [|a l]; [done|]. destruct (last (a :: l)) as [b|] eqn:Hlast;
    [|by apply last_None in Hlast].
  cbn [head mbind option_bind]. pose proof (StronglySorted_bounds _ a b Hs eq_refl Hlast) as Hab.
  rewrite Forall_forall in Hu.
  assert (a ∈ a :: l) as Ha by by left.
  assert (b ∈ a :: l) as Hb by (apply last_Some in Hlast as [l' ->]; set_solver).
  pose proof (Hu a Ha) as Hua. pose proof (Hu b Hb) as Hub.
  set (p := Z.min _ 32).
  assert (0 ≤ p ≤ 32) as Hp.
  { unfold p. split; [|lia]. apply Z.min_glb; [|lia].
    apply (leading_zeros_spec _ 0); [by apply lxor_u32|lia|]. apply lxor_u32; done. }
  assert (prefix_bits p a = prefix_bits p b) as Hpab by (apply covers_iff; [done..|]; unfold p; lia).
  pose proof (land_mask a p Hua Hp) as Hnet.
  pose proof (land_u32 a (saddr_mask p) Hua) as Hnu.
  pose proof (Z.pow_pos_nonneg 2 (32 - p) ltac:(lia) ltac:(lia)).
  assert (prefix_bits p (Z.land a (saddr_mask p)) = prefix_bits p a) as Hpn
    by (rewrite Hnet; unfold prefix_bits at 1; by rewrite Z.div_mul by lia).
  eexists _, p. split; [reflexivity|]. split_and!; [lia|lia|exact Hnu| | |].
  - intros x Hx. rewrite Hpn. pose proof (Hab x Hx) as [H1 H2].
    pose proof (prefix_bits_mono p a x Hp H1). pose proof (prefix_bits_mono p x b Hp H2). lia.
  - by rewrite Hpn.
  - intros q net' Hq Hall. unfold p. apply Z.min_glb; [|lia].
    apply covers_iff; [done..|]. rewrite (Hall a Ha). symmetry. by apply Hall.
Qed.

(** C36. The masqueraded prefix: when a target is found, it is the longest prefix that
    contains every IPv4 overlay address the daemon knows - its own and its peers' -
    with its host bits clear, so that the masquerade rule applies to a source address
    exactly if it has that prefix; and a target exists once a nic with an IPv4
    address is registered and the LAN interface is configured. *)
Theorem nat_target_overlay {CA : CidrApi} interfaces nics known advertised lan_interface :
  let knows x := IpV4 x ∈ NicManager.ips nics ∨ IpV4 x ∈ known in
  (∀ x, knows x → is_uint 32 x) →
  (∀ t, nat_target interfaces nics known advertised lan_interface = Ok t →
     let '(net, p) := nat_overlay t in
     0 ≤ p ≤ 32 ∧ is_uint 32 net ∧ net = prefix_bits p net * 2 ^ (32 - p) ∧
     (∀ x, knows x → prefix_bits p x = prefix_bits p net) ∧
     (∀ q net', 0 ≤ q ≤ 32 → (∀ x, knows x → prefix_bits q x = prefix_bits q net') → q ≤ p)) ∧
  ((∃ x, IpV4 x ∈ NicManager.ips nics) → lan_interface ≠ "" →
   ∃ t, nat_target interfaces nics known advertised lan_interface = Ok t ∧
     nat_lan_if t = lan_interface).
Proof.
  intros knows Hu. unfold nat_target.
  set (v4 := omap _ (_ ++ known)%list). set (ips := dedup (merge_sort Z.le v4)).
  assert (∀ x, x ∈ ips ↔ knows x) as Hin.
  { intros x. unfold ips, v4, knows. rewrite elem_of_dedup_merge_sort, list_elem_of_omap.
    setoid_rewrite elem_of_app. split.
    - intros ([y|y] & Hy & [= ->]). done.
    - intros Hx. by exists (IpV4 x). }
  assert (StronglySorted Z.le ips) as Hs by (apply dedup_sorted, StronglySorted_merge_sort; apply _).
  assert (Forall (is_uint 32) ips) as Hf by (apply Forall_forall; intros x; rewrite Hin; apply Hu).
  pose proof (covering_prefix_spec ips Hs Hf) as Hspec.
  assert (covering_prefix [] = None) as Hnil by done.
  split.
  - intros t. destruct (head (NicManager.interfaces nics)) as [[id tun]|]; [|done].
    destruct (decide (ips = [])) as [E|Hne]; [by rewrite E|].
    destruct (Hspec Hne) as (net & p & -> & Hp & Hn & Hall & Hz & Hmax). cbn [ok_or].
    intros Ht. assert (nat_overlay t = (net, p)) as ->.
    { destruct (if bool_decide _ then _ else _) as [lan|]; [|done]. by injection Ht as <-. }
    split_and!; [lia|lia|exact Hn|exact Hz| |].
    + intros x Hx. by apply Hall, Hin.
    + intros q net' Hq Hx. apply (Hmax q net' Hq). intros x Hx'. by apply Hx, Hin.
  - intros [x Hx] Hlan. rewrite (bool_decide_eq_false_2 (lan_interface = "")) by done.
    assert (ips ≠ []) as Hne.
    { intros E. apply (not_elem_of_nil x). rewrite <-E. apply Hin. by left. }
    destruct (Hspec Hne) as (net & p & -> & _). unfold NicManager.interfaces.
    unfold NicManager.ips in Hx. destruct (map_to_list nics) as [|[id n] l]; [by apply not_elem_of_nil in Hx|].
    cbn. eauto.
Qed.

(** The daemon at .9 with peers at .1 and .20: the masquerade covers a /27. *)
Definition ex_nics : NicManager := {[ 12 := MkNic (IpV4 (ipv4 110 20 0 9)) "noeio0" 3 [] ]}.
Definition ex_known : list IpAddr := [IpV4 (ipv4 110 20 0 1); IpV6 1; IpV4 (ipv4 110 20 0 20)].

Lemma ex_nics_ips : NicManager.ips ex_nics = [IpV4 (ipv4 110 20 0 9)].
Proof. apply (bool_decide_unpack _). vm_compute. exact I. Qed.

Lemma nat_target_overlay_witness :
  ∃ t, nat_target [] ex_nics ex_known [] "eth1" = Ok t ∧ nat_lan_if t = "eth1" ∧
    nat_overlay t = (ipv4 110 20 0 0, 27) ∧
    prefix_bits 27 (ipv4 110 20 0 20) = prefix_bits 27 (ipv4 110 20 0 0).
Proof.
  destruct (nat_target_overlay [] ex_nics ex_known [] "eth1") as [Hcover Hfound].
  { rewrite ex_nics_ips. unfold ex_known. intros x. rewrite !elem_of_cons.
    intros [[[= ->]|[]%not_elem_of_nil]|[[= ->]|[[=]|[[= ->]|[]%not_elem_of_nil]]]]; by vm_compute. }
  destruct Hfound as (t & Ht & Hlan); [|done|].
  { exists (ipv4 110 20 0 9). rewrite ex_nics_ips. by left. }
  exists t. split; [exact Ht|]. split; [exact Hlan|].
  assert (nat_overlay t = (ipv4 110 20 0 0, 27)) as Hov.
  { assert (result_ok (nat_target [] ex_nics ex_known [] "eth1") =
      Some (MkApplied (ipv4 110 20 0 0, 27) "eth1" "noeio0")) as He
      by (apply (bool_decide_unpack _); vm_compute; exact I).
    rewrite Ht in He. by injection He as ->. }
  split; [exact Hov|]. specialize (Hcover t Ht). rewrite Hov in Hcover.
  destruct Hcover as (_ & _ & _ & Hall & _). apply Hall. right. unfold ex_known.
  do 2 right. left.
Defined.

(** ** The system across runs *)

Section system.
Context {K : Type} {NK : NetlinkKernel K} {NL : NfLaws K} (be : bool) (fuel : nat) (rd : string).
Implicit Types h : Host K.

(** What every step keeps: the host's own forwarding value can be restored, and every
    table but ours is what it was. *)
Definition recoverable (v : bool) (T : Tables) (h : Host K) : Prop :=
  keeps rd v h ∧ delete TABLE (tables h) = T.

Lemma net_collect n m seen : only_net true (NfSocket.collect_acks n m seen).
Proof.
  revert seen. induction n as [|n IH]; intros seen; cbn; destruct (m <=? seen)%nat; try done.
  split; [done|]. intros [d|e]; [|done]. by destruct (NfSocket.count_acks d seen).
Qed.
Lemma net_batch s ms : only_net true (NfSocket.batch fuel s ms).
Proof.
  unfold NfSocket.batch, NfSocket.send_all. cbn. split; [done|].
  intros [r|e]; [|done]. apply only_net_bind; [apply net_collect|done].
Qed.
Lemma net_apply s rules : only_net true (NfSocket.apply be fuel s rules).
Proof.
  apply only_net_bind; [apply net_batch|]. intros [s1 [[]|e]]; [|done].
  apply only_net_bind; [apply net_batch|]. by intros [].
Qed.
Lemma net_clear s : only_net true (NfSocket.clear fuel s).
Proof.
  apply only_net_bind; [apply net_batch|]. intros [s1 [[]|e]]; [done|]. by destruct (bool_decide _).
Qed.
Lemma net_exists s : only_net true (NfSocket.table_exists s).
Proof. cbn. split; [done|]. intros [r|e]; [|done]. cbn. split; [done|]. done. Qed.

Lemma fs_read_only : only_net false read.
Proof. split; [done|]. by intros [s|e]. Qed.
Lemma fs_write_only w : only_net false (write w).
Proof. by split. Qed.
Lemma fs_enable : only_net false (enable rd).
Proof.
  apply only_net_bind; [apply fs_read_only|]. intros [current|e]; [|done].
  apply only_net_bind; [by split|]. intros there. apply only_net_bind.
  - destruct there; [done|]. split; [done|]. by intros [[]|e]; [split|].
  - intros [[]|e]; [|done]. destruct current; [done|].
    apply only_net_bind; [apply fs_write_only|]. by intros [[]|e].
Qed.
Lemma fs_restore : only_net false (restore rd).
Proof.
  apply only_net_bind; [by split|]. intros [s|e]; [|by destruct (bool_decide _)].
  apply only_net_bind; [apply fs_read_only|]. intros [now|e]; [|done].
  apply only_net_bind; [destruct (Bool.eqb now (is_one s)); [done|apply fs_write_only]|].
  intros [[]|e]; [|done]. split; [done|]. by intros [].
Qed.

(** Socket calls: the files stay. *)
Lemma recoverable_net {A} v T (p : prog A) h :
  only_net true p → recoverable v T h →
  always (λ h', delete TABLE (tables h') = delete TABLE (tables h)) (λ _ _, True) p h →
  always (recoverable v T) (λ _ _, True) p h.
Proof.
  intros Hp [Hk HT] Hal.
  assert (always (keeps rd v) (λ _ _, True) p h) as Hf.
  { apply always_net; [done|done|]. intros h1 h2 Hf Hpl (Hs & Hi & Ho). split_and!.
    - intros o Ho'. apply Hs. rewrite Hpl in Ho'. destruct (plan h1); [done|by right].
    - by rewrite Hf.
    - revert Ho. unfold original, saved, forwards. by rewrite Hf. }
  eapply always_weaken; [|exact (always_both _ _ _ _ Hf Hal)].
  intros h' [H1 H2]. split; [done|congruence].
Qed.

(** File calls: the kernel stays. *)
Lemma recoverable_fs {A} v T (p : prog A) h :
  only_net false p → recoverable v T h → always (keeps rd v) (λ _ _, True) p h →
  always (recoverable v T) (λ _ _, True) p h.
Proof.
  intros Hp [Hk HT] Hf.
  eapply always_weaken; [|exact (always_both _ _ _ _ Hf (always_fs _ _ Hp))].
  intros h' [H1 H2]. split; [done|]. unfold tables in *. by rewrite H2.
Qed.

(** *** Every point of a convergence or a sweep *)

Section points.
Context (v : bool) (T : Tables).

Lemma recoverable_open h :
  recoverable v T h → always (recoverable v T) (λ _ _, True) NfSocket.open h.
Proof.
  intros Hr. apply recoverable_net; [by split|done|].
  cbn [always NfSocket.open bind call handle]. split; [done|].
  destruct (fault _); [done|]. unfold tables. cbn [kernel].
  by rewrite (proj1 (nf_open_spec (kernel h))).
Qed.

Lemma recoverable_apply s rules h :
  recoverable v T h → always (recoverable v T) (λ _ _, True) (NfSocket.apply be fuel s rules) h.
Proof.
  intros Hr. apply recoverable_net; [apply net_apply|done|].
  eapply always_weaken; [|apply always_apply].
  intros h' [E|[[E0 E]|E]]; rewrite E; by rewrite ?delete_insert_eq.
Qed.

Lemma recoverable_clear s h :
  recoverable v T h → always (recoverable v T) (λ _ _, True) (NfSocket.clear fuel s) h.
Proof.
  intros Hr. apply recoverable_net; [apply net_clear|done|].
  eapply always_weaken; [|apply always_clear].
  intros h' [E|E]; rewrite E; [done|]. apply delete_delete_eq.
Qed.

Lemma recoverable_exists s h :
  recoverable v T h → always (recoverable v T) (λ _ _, True) (NfSocket.table_exists s) h.
Proof.
  intros Hr. apply recoverable_net; [apply net_exists|done|].
  eapply always_weaken; [|by apply (always_exists_tables s h (tables h))]. by intros h' ->.
Qed.

Lemma recoverable_enable h :
  recoverable v T h → always (recoverable v T) (λ _ _, True) (enable rd) h.
Proof. intros Hr. apply recoverable_fs; [apply fs_enable|done|apply always_enable, Hr]. Qed.
Lemma recoverable_restore h :
  recoverable v T h → always (recoverable v T) (λ _ _, True) (restore rd) h.
Proof. intros Hr. apply recoverable_fs; [apply fs_restore|done|apply always_restore, Hr]. Qed.

(** The steps compose. *)
Lemma recoverable_bind {A B} (p : prog A) (f : A → prog B) h :
  always (recoverable v T) (λ _ _, True) p h →
  (∀ a h', recoverable v T h' → always (recoverable v T) (λ _ _, True) (f a) h') →
  always (recoverable v T) (λ _ _, True) (bind p f) h.
Proof.
  intros Hp Hf. apply always_bind. eapply always_mono; [|exact Hp]. intros a h' Hr _. by apply Hf.
Qed.

Lemma recoverable_ret {A} (a : A) h :
  recoverable v T h → always (recoverable v T) (λ _ _, True) (Ret a) h.
Proof. by split. Qed.

Hint Resolve recoverable_open recoverable_apply recoverable_clear recoverable_exists
  recoverable_enable recoverable_restore recoverable_ret : recoverable.

Ltac recover :=
  repeat (first [ solve [auto with recoverable]
                | apply recoverable_bind; [solve [auto with recoverable]|intros]
                | case_match ]).

Lemma recoverable_converge want current h :
  recoverable v T h →
  always (recoverable v T) (λ _ _, True) (converge be fuel rd want current) h.
Proof.
  intros Hr. unfold converge. case_decide; [auto with recoverable|].
  apply recoverable_bind; [unfold converge_system; recover|auto with recoverable].
Qed.

Lemma recoverable_sweep h :
  recoverable v T h → always (recoverable v T) (λ _ _, True) (sweep_leftovers fuel rd) h.
Proof. intros Hr. unfold sweep_leftovers. recover. Qed.
End points.

(** *** Undisturbed runs *)

Lemma run_open h :
  healthy h →
  ∃ h', run NfSocket.open h = (h', Some (Ok (NfSocket.MkSocket 1))) ∧ healthy h' ∧
    files h' = files h ∧ tables h' = tables h ∧ queue h' = [].
Proof.
  intros Hh. unfold NfSocket.open. cbn [bind call run handle]. rewrite Hh. cbn [hd fault tl].
  destruct (nf_open_spec (kernel h)) as [Ht Hq]. eexists. by split_and!.
Qed.

(** Nothing of ours is left: the sysctl is [v], no copy is saved, the tables are [T]. *)
Definition clean (v : bool) (T : Tables) (h : Host K) : Prop :=
  forwards h = Some v ∧ saved rd h = None ∧ tables h = T.

Lemma clean_restore v h1 :
  healthy h1 → is_Some (files h1 !! IP_FORWARD) → original rd h1 = Some v →
  ∃ h2 b, run (restore rd) h1 = (h2, Some (Ok b)) ∧ healthy h2 ∧ clean v (tables h1) h2.
Proof.
  intros Hh Hf Ho. destruct (run_restore rd v h1 Hh Hf Ho) as (fs & Hr & H1 & H2 & _).
  do 2 eexists. split; [exact Hr|]. split; [done|]. unfold clean, forwards, saved. cbn.
  by rewrite H1, H2.
Qed.

Hypothesis Haccepts : ∀ k ms, nf_refuse k ms = None.
Hypothesis Hfuel : (10 ≤ fuel)%nat.

Lemma same_original v h h' :
  files h' = files h → is_Some (files h !! IP_FORWARD) ∧ original rd h = Some v →
  is_Some (files h' !! IP_FORWARD) ∧ original rd h' = Some v.
Proof. intros Hf. unfold original, saved, forwards. by rewrite Hf. Qed.

Lemma run_teardown v T h current :
  healthy h → recoverable v T h → current ≠ None →
  ∃ h', run (converge be fuel rd None current) h = (h', Some None) ∧ healthy h' ∧ clean v T h'.
Proof.
  intros Hh [(_ & Hor) HT] Hc. unfold converge. rewrite decide_False by done.
  unfold converge_system. rewrite !run_bind.
  destruct (run_open h Hh) as (h1 & -> & Hh1 & Hf1 & Ht1 & Hq1). cbn [run].
  rewrite run_bind.
  destruct (clear_completes fuel (NfSocket.MkSocket 1) h1 Hh1 Hq1 ltac:(lia))
    as (h2 & s2 & r & -> & Hh2 & Hf2 & Hr). destruct (Hr Haccepts) as [-> Ht2].
  rewrite run_bind.
  destruct (same_original v h h2 ltac:(congruence) Hor) as [Hi Ho].
  destruct (clean_restore v h2 Hh2 Hi Ho) as (h3 & b & -> & Hh3 & Hcl). cbn.
  exists h3. rewrite Ht2, Ht1, HT in Hcl. done.
Qed.

Lemma run_sweep v T h :
  healthy h → recoverable v T h →
  ∃ h' r, run (sweep_leftovers fuel rd) h = (h', Some (Ok r)) ∧ healthy h' ∧ clean v T h'.
Proof.
  intros Hh [(_ & Hi & Ho) HT]. unfold sweep_leftovers. rewrite run_bind.
  destruct (clean_restore v h Hh Hi Ho) as (h1 & b & -> & Hh1 & Hf1 & Hs1 & Ht1). rewrite run_bind.
  destruct (run_open h1 Hh1) as (h2 & -> & Hh2 & Hf2 & Ht2 & Hq2). rewrite run_bind.
  destruct (exists_completes (NfSocket.MkSocket 1) h2 Hh2 Hq2) as (h3 & s3 & -> & Hh3 & Hf3 & Ht3 & Hq3).
  assert (clean v (tables h) h3) as Hc3.
  { unfold clean, forwards, saved in *. rewrite Hf3, Hf2. split_and!; [done..|congruence]. }
  case_bool_decide as Hex.
  - rewrite run_bind.
    destruct (clear_completes fuel s3 h3 Hh3 Hq3 ltac:(lia)) as (h4 & s4 & r & -> & Hh4 & Hf4 & Hr).
    destruct (Hr Haccepts) as [-> Ht4]. cbn. do 2 eexists. split; [reflexivity|]. split; [done|].
    destruct Hc3 as (H1 & H2 & H3). unfold clean, forwards, saved in *. rewrite Hf4, Ht4, H3. done.
  - cbn. do 2 eexists. split; [reflexivity|]. split; [done|].
    destruct Hc3 as (H1 & H2 & H3). split_and!; [done|done|]. rewrite H3, <-HT, delete_id; [done|].
    apply eq_None_not_Some. by rewrite Ht2, Ht1 in Hex.
Qed.

Lemma run_setup v T h t current rules :
  healthy h → recoverable v T h → current ≠ Some t →
  Ruleset.new (nat_overlay t) (nat_lan_if t) (nat_tun_if t) true = Ok rules →
  ∃ h', run (converge be fuel rd (Some t) current) h = (h', Some (Some t)) ∧ healthy h' ∧
    tables h' = <[TABLE := contents be rules]> T ∧ forwards h' = Some true ∧ saved rd h' = Some v.
Proof.
  intros Hh [(_ & Hor) HT] Hc Hru. unfold converge. rewrite decide_False by done.
  unfold converge_system. rewrite !run_bind.
  destruct (run_open h Hh) as (h1 & -> & Hh1 & Hf1 & Ht1 & Hq1). cbn [run]. rewrite Hru, run_bind.
  destruct (apply_completes be fuel (NfSocket.MkSocket 1) rules h1 Hh1 Hq1 Hfuel)
    as (h2 & s2 & r & Hrun & Hh2 & Hf2 & Hr). rewrite (Hr Haccepts) in Hrun. rewrite Hrun.
  destruct (apply_Ok _ _ _ _ _ _ _ Hq1 Hrun) as [Ht2 _]. rewrite run_bind.
  destruct (same_original v h h2 ltac:(congruence) Hor) as [[w Hw] Ho].
  destruct (run_enable rd (is_one w) h2 Hh2) as (fs & -> & H1 & H2 & _);
    [unfold forwards; by rewrite Hw|]. cbn.
  eexists. split; [reflexivity|]. split; [done|]. unfold forwards, saved. cbn.
  rewrite H1, H2, Ho. split; [|done]. change (tables (MkHost fs (kernel h2) [])) with (tables h2).
  by rewrite Ht2, Ht1, <-HT, insert_delete_eq.
Qed.
End system.

(** ** Lives *)

Section lives.
Context {K : Type} {NK : NetlinkKernel K} {NL : NfLaws K} (be : bool) (fuel : nat) (rd : string).

(** A process converges towards anything from anything, or sweeps, with any failures,
    and may die after any number of system calls. *)
Inductive nat_life : Host K → Host K → Prop :=
  | life_converge h p n want current :
      steady (with_plan p h) →
      nat_life h (exec n (converge be fuel rd want current) (with_plan p h)).1
  | life_sweep h p n :
      steady (with_plan p h) →
      nat_life h (exec n (sweep_leftovers fuel rd) (with_plan p h)).1.

Lemma steady_idle (h : Host K) : steady (with_plan [] h).
Proof. intros o Ho. by apply not_elem_of_nil in Ho. Qed.

(** [recoverable] without the plan, which every life brings anew. *)
Definition restorable (v : bool) (T : Tables) (h : Host K) : Prop :=
  is_Some (files h !! IP_FORWARD) ∧ original rd h = Some v ∧ delete TABLE (tables h) = T.

Lemma restorable_recoverable v T h p :
  restorable v T h → steady (with_plan p h) → recoverable rd v T (with_plan p h).
Proof. intros (Hf & Ho & HT) Hs. by repeat split. Qed.

Lemma life_restorable v T h h' : restorable v T h → nat_life h h' → restorable v T h'.
Proof.
  intros Hr Hl. enough (recoverable rd v T h') as [(_ & ? & ?) ?] by done.
  destruct Hl as [h p n want current Hs|h p n Hs];
    pose proof (restorable_recoverable v T h p Hr Hs) as Hrec.
  - exact (always_exec _ _ _ _ n (recoverable_converge be fuel rd v T want current _ Hrec)).
  - exact (always_exec _ _ _ _ n (recoverable_sweep fuel rd v T _ Hrec)).
Qed.
End lives.

(** C15. A subnet router leaves the host as it found it. Start from a host with no
    table of ours and nothing saved, and let the program live any number of times,
    each time with any failing calls and dying after any call (no write torn, no file
    overlooked). Then a start-up sweep returns and leaves the sysctl's original value,
    no saved copy, and exactly the tables there were before. So does a convergence to
    nothing, as long as something is recorded as applied; a convergence to a valid
    target other than the recorded one installs exactly its rules beside the other
    tables, with forwarding on and the original kept. A convergence to what is recorded
    leaves the host as it is: after a set-up that failed half-way, which records
    nothing, that is with the rules still there ([failed_setup_leaks]). *)
Theorem subnet_router_clean {K} {NK : NetlinkKernel K} {NL : NfLaws K} be fuel rd v (h h' : Host K) :
  (∀ k ms, nf_refuse k ms = None) → (10 ≤ fuel)%nat →
  forwards h = Some v → saved rd h = None → tables h !! TABLE = None →
  rtc (nat_life be fuel rd) h h' →
  (∃ h2 r, run (sweep_leftovers fuel rd) (with_plan [] h') = (h2, Some (Ok r)) ∧
     clean rd v (tables h) h2) ∧
  (∀ current,
     ∃ h2, run (converge be fuel rd None current) (with_plan [] h') = (h2, Some None) ∧
       (current ≠ None → clean rd v (tables h) h2) ∧
       (current = None → h2 = with_plan [] h')) ∧
  (∀ t rules current,
     Ruleset.new (nat_overlay t) (nat_lan_if t) (nat_tun_if t) true = Ok rules →
     ∃ h2, run (converge be fuel rd (Some t) current) (with_plan [] h') = (h2, Some (Some t)) ∧
       (current ≠ Some t → tables h2 = <[TABLE := contents be rules]> (tables h) ∧
          forwards h2 = Some true ∧ saved rd h2 = Some v) ∧
       (current = Some t → h2 = with_plan [] h')).
Proof.
  intros Hacc Hfuel Hf Hs Ht Hl.
  assert (restorable rd v (tables h) h') as Hr.
  { eapply (rtc_invariant _ (restorable rd v (tables h)));
      [intros ? ?; apply life_restorable|exact Hl|].
    unfold restorable, original. rewrite Hs. split_and!; [|done|by rewrite delete_id].
    unfold forwards in Hf. apply fmap_Some in Hf as (? & -> & _). eauto. }
  pose proof (restorable_recoverable rd v (tables h) h' [] Hr (steady_idle h')) as Hrec.
  assert (healthy (with_plan [] h')) as Hh by done.
  split_and!.
  - destruct (run_sweep fuel rd Hacc Hfuel v _ _ Hh Hrec) as (h2 & r & Hrun & _ & Hc). eauto.
  - intros current. destruct (decide (current = None)) as [->|Hc]; [by eexists|].
    destruct (run_teardown be fuel rd Hacc Hfuel v _ _ current Hh Hrec Hc) as (h2 & Hrun & _ & Hcl).
    by exists h2.
  - intros t rules current Hru. destruct (decide (current = Some t)) as [->|Hc].
    { eexists. split; [unfold converge; by rewrite decide_True|done]. }
    destruct (run_setup be fuel rd Hacc Hfuel v _ _ t current rules Hh Hrec Hc Hru)
      as (h2 & Hrun & _ & H). by exists h2.
Qed.

(** A host that does not forward and has another table; the first life dies in the
    middle of the batch, the second after the rules are in but forwarding is refused. *)
Definition ex_target : AppliedNat := MkApplied (ipv4 110 20 0 0, 28) "eth1" "noeio0".
Definition ex_machine : Host NfModel :=
  MkHost {[ IP_FORWARD := line "0" ]} (MkNf {[ "nat" := [] ]} []) [].
Definition denied : list Outcome := (replicate 18 Works ++ [Fails (from_raw_os_error EACCES)])%list.
Definition ex_life1 : Host NfModel :=
  (exec 4 (converge false 10 "/run/noeio" (Some ex_target) None) (with_plan [] ex_machine)).1.
Definition ex_life2 : Host NfModel :=
  (exec 99 (converge false 10 "/run/noeio" (Some ex_target) None) (with_plan denied ex_life1)).1.

Lemma denied_steady {K} (h : Host K) : steady (with_plan denied h).
Proof.
  intros o Ho%list_elem_of_In. unfold denied in Ho. cbn in Ho.
  repeat (destruct Ho as [<-|Ho]; [done|]). done.
Qed.

Lemma subnet_router_clean_witness :
  tables ex_life2 !! TABLE ≠ None ∧
  ∃ h2 r, run (sweep_leftovers 10 "/run/noeio") (with_plan [] ex_life2) = (h2, Some (Ok r)) ∧
    forwards h2 = Some false ∧ tables h2 = {[ "nat" := [] ]}.
Proof.
  split.
  { intros H. apply (f_equal (λ x, match x with None => true | Some _ => false end)) in H.
    vm_compute in H. discriminate H. }
  assert (rtc (nat_life false 10 "/run/noeio") ex_machine ex_life2) as Hl.
  { eapply rtc_l; [apply (life_converge false 10 "/run/noeio" _ [] 4); apply steady_idle|].
    eapply rtc_l; [apply (life_converge false 10 "/run/noeio" _ denied 99); apply denied_steady|].
    apply rtc_refl. }
  assert (∀ (k : NfModel) ms, nf_refuse k ms = None) as Ha by reflexivity.
  assert (forwards ex_machine = Some false) as Hf by by vm_compute.
  assert (saved "/run/noeio" ex_machine = None) as Hs by by vm_compute.
  assert (tables ex_machine !! TABLE = None) as Ht by by vm_compute.
  destruct (subnet_router_clean false 10 "/run/noeio" false ex_machine ex_life2
    Ha (le_n 10) Hf Hs Ht Hl) as ((h2 & r & H1 & H2 & _ & H3) & _).
  exists h2, r. split; [exact H1|]. split; [exact H2|exact H3].
Defined.

(** A set-up that gets as far as the rules but cannot switch forwarding on leaks
    them: the rules are installed, yet the daemon records nothing as applied, so
    withdrawing every route, or the clean shutdown, finds nothing to do and makes no
    system call; the table stays until the next start's sweep. *)
Theorem failed_setup_leaks {K} {NK : NetlinkKernel K} {NL : NfLaws K} be fuel rd t rules
    (h h2 : Host K) e :
  Ruleset.new (nat_overlay t) (nat_lan_if t) (nat_tun_if t) true = Ok rules →
  run (converge_system be fuel rd (Some t)) h = (h2, Some (Err (NatIo e))) →
  run (converge be fuel rd (Some t) None) h = (h2, Some None) ∧
  tables h2 = <[TABLE := contents be rules]> (tables h) ∧
  run (converge be fuel rd None None) h2 = (h2, Some None).
Proof.
  intros Hru Hrun. split_and!.
  - unfold converge. rewrite decide_False by done. by rewrite run_bind, Hrun.
  - revert Hrun. unfold converge_system. rewrite run_bind.
    destruct (run NfSocket.open h) as [h1 [[s|e1]|]] eqn:Ho; [|done|done].
    assert (tables h1 = tables h ∧ queue h1 = []) as [Ht1 Hq1].
    { revert Ho. unfold NfSocket.open. cbn [bind call run handle].
      destruct (fault _); [done|]. intros [= <- _]. apply (nf_open_spec (kernel h)). }
    rewrite Hru, run_bind.
    destruct (run (NfSocket.apply be fuel s rules) h1) as [h3 [[s3 [[]|e3]]|]] eqn:Ha; [|done|done].
    destruct (apply_Ok _ _ _ _ _ _ _ Hq1 Ha) as [Ht3 _]. rewrite run_bind.
    pose proof (always_run _ _ _ _ (always_fs (enable rd) h3 (fs_enable rd))) as [Hk _].
    destruct (run (enable rd) h3) as [h4 [[b|e4]|]]; [done| |done]. cbn in Hk |- *.
    intros [= <- _]. unfold tables in *. by rewrite Hk, Ht3, Ht1.
  - unfold converge. by rewrite decide_True.
Qed.

Lemma failed_setup_leaks_witness :
  ∃ h2, run (converge false 10 "/run/noeio" (Some ex_target) None) (with_plan denied ex_machine)
      = (h2, Some None) ∧ tables h2 !! TABLE ≠ None ∧
    run (converge false 10 "/run/noeio" None None) h2 = (h2, Some None).
Proof.
  pose (st := run (converge_system false 10 "/run/noeio" (Some ex_target)) (with_plan denied ex_machine)).
  destruct (failed_setup_leaks false 10 "/run/noeio" ex_target
    (Ruleset.MkRuleset (ipv4 110 20 0 0, 28) "eth1" "noeio0" true) (with_plan denied ex_machine) st.1
    (io_error PermissionDenied ("cannot write " +:+ IP_FORWARD +:+ ": . noeio needs CAP_NET_ADMIN (and a writable /proc/sys) to act as a subnet router")))
    as (H1 & H2 & H3); [by vm_compute|by vm_compute|].
  exists st.1. split_and!; [exact H1|by rewrite H2, lookup_insert_eq|exact H3].
Defined.
