(* ===== verification/Lifecycle.v ===== *)
(** How a daemon starts and stops: the [Boot] command of [noeio/src/main.rs],
    [NoeioDaemon::new] and [shutdown] of [noeio/src/daemon.rs], the loop of
    [daemon/reconciler.rs::spawn], [resolve_control_plane] and the STUN servers of
    [daemon/stun.rs]. A node is the daemon with its reconciler, its configuration
    and the NAT it has applied; the kernel's routes, the state file and the host
    with its sysctl and netfilter tables are around it. *)

From Stdlib Require Import ZArith Lia.
From Stdlib Require Import Strings.Byte Strings.String.
From stdpp Require Import base list strings gmap sorting sets.
From S2P Require Import Prelude Text NetTypes CidrModel HostInfo Routes RoutingTable NetRoute HostCodec CodecModel Reconcile Session Wireguard Peer DerperClient Daemon Config RouteService.
From S2P Require Import Syscalls Forwarding Nftables NftRules NftKernel SubnetNat.

Local Open Scope string_scope.
Local Open Scope Z_scope.

(** ** [daemon/stun.rs] *)

Module StunManager.
(** A [DashSet]; it has no order, so [pick_server] is the first of some listing. *)
Definition StunManager : Type := gset string.

Definition from (servers : list string) : StunManager := list_to_set servers.
Definition append_server (m : StunManager) (server : string) : StunManager := {[ server ]} ∪ m.
Definition remove_server (m : StunManager) (server : string) : StunManager * bool :=
  (m ∖ {[ server ]}, bool_decide (server ∈ m)).
Definition pick_server (m : StunManager) : option string := head (elements m).
End StunManager.
Notation StunManager := StunManager.StunManager.

Definition is_ipv4_sock (a : SocketAddr) : bool :=
  match a with SockV4 _ _ => true | SockV6 _ _ _ _ => false end.

(** Where [send_stun_probe] sends the request, from what the name resolves to. *)
Definition stun_server_addr (addrs : list SocketAddr) : option SocketAddr :=
  match List.find is_ipv4_sock addrs with Some a => Some a | None => head addrs end.

Definition send_stun_probe (m : StunManager) (lookup : string → option (list SocketAddr))
    (request : list byte) : option (SocketAddr * list byte) :=
  server ← StunManager.pick_server m;
  addrs ← lookup server;
  to ← stun_server_addr addrs;
  Some (to, request).

(** [stun_probe]: when, in minutes from the start, a probe is sent. The task sends one
    before its loop and the loop begins with one. *)
Definition STUN_PROBE_INTERVAL_MINS : Z := 10.
Definition stun_probe (rounds : nat) : list Z :=
  0 :: map (λ k, STUN_PROBE_INTERVAL_MINS * Z.of_nat k) (seq 0 rounds).

(** ** [resolve_control_plane] *)

(** The derived order of [IpAddr]. *)
Definition ip_le (a b : IpAddr) : Prop :=
  match a, b with
  | IpV4 x, IpV4 y => x ≤ y
  | IpV4 _, IpV6 _ => True
  | IpV6 _, IpV4 _ => False
  | IpV6 x, IpV6 y => x ≤ y
  end.
#[export] Instance ip_le_dec : RelDecision ip_le.
Proof. intros [x|x] [y|y]; cbn; apply _. Defined.

Definition resolve_control_plane (lookup : string → option (list SocketAddr)) (c : Config) :
    list IpAddr :=
  let hosts := (map address (derper_servers c) ++ stun_servers c)%list in
  dedup (merge_sort ip_le (flat_map (λ host, map sock_ip (default [] (lookup host))) hosts)).

(** ** Start-up *)

Section boot.
Context {CA : CidrApi} {KA : KeyApi} {TA : TunnApi} {S : Type}.

(** [NoeioDaemon::new]; [wake] is clear and no task has run. *)
Definition new (c : Config) (relays : list DerperEntry.DerperEntry)
    (lookup : string → option (list SocketAddr)) : NoeioDaemon S :=
  NoeioDaemon.MkDaemon NicManager.new (DerperManager.new relays) None Router.new false
    (initial_advertised c) (resolve_control_plane lookup c) [] ∅ (cfg_accept_routes (router c)).

Inductive Boot : Type :=
  | Running (c : Config) (d : NoeioDaemon S)
  | Exit2 (errors : list RouteError)
  | BootPanic.

(** [boot]: names are looked up twice, for the check and by [new]. *)
Definition boot (pf : Platform) (c : Config) (stun servers tokens advertise : list string)
    (accept : bool) (lookup lookup' : string → option (list SocketAddr))
    (relays : Config → list DerperEntry.DerperEntry) : Boot :=
  match append_derpers (append_stuns c stun) servers tokens with
  | None => BootPanic
  | Some c =>
      let c := append_routes c advertise accept in
      let protected := {| overlay_ips := []; control_plane := resolve_control_plane lookup c |} in
      match validate_routes pf c protected with
      | (_, Err errors) => Exit2 errors
      | (c, Ok _) => Running c (new c (relays c) lookup')
      end
  end.
End boot.
Arguments Boot {CA KA TA} S : rename.

(** ** The loop and the exit *)

Section node.
Context {CA : CidrApi} {KA : KeyApi} {TA : TunnApi} {S : Type} {TS : TunnelSession S} {SO : SessionOpen S}.
Context {K : Type} {RH : RouteHandle K} {N : Type} {NK : NetlinkKernel N}.
Context (big_endian : bool) (fuel : nat) (run_dir : string).

Record Node : Type := MkNode {
  daemon : NoeioDaemon S;
  reconciler : Reconciler.Reconciler;
  config : RouterConfig;
  applied : option AppliedNat;
}.

(** The kernel's routes, the file system of the state file, and the host. *)
Record World : Type := MkWorld {
  routes : K;
  state_fs : Fs;
  host : Host N;
}.

(** [nat::converge] on the daemon's data; a run that does not return leaves what is
    applied as it was. *)
Definition nat_wanted (interfaces : list NetworkInterface) (n : Node) : option AppliedNat :=
  wanted interfaces (NoeioDaemon.nics (daemon n)) (Router.ips (NoeioDaemon.router (daemon n)))
    (NoeioDaemon.advertised (daemon n)) (config n).

Definition nat_converge (interfaces : list NetworkInterface) (n : Node) (w : World) : Node * World :=
  let '(h, a) := run (converge big_endian fuel run_dir (nat_wanted interfaces n) (applied n)) (host w) in
  (MkNode (daemon n) (reconciler n) (config n) (default (applied n) a),
   MkWorld (routes w) (state_fs w) h).

(** Before the loop of [spawn]. *)
Definition spawn_begin (n : Node) (w : World) : Node * World :=
  let r := Reconciler.restore (reconciler n) (state_fs w) in
  let '(h, _) := run (sweep_leftovers fuel run_dir) (host w) in
  (MkNode (daemon n) r (config n) (applied n), MkWorld (routes w) (state_fs w) h).

(** One pass of the loop. *)
Definition loop_turn (interfaces : list NetworkInterface) (n : Node) (w : World) : Node * World :=
  let '(d, (r, k, fs, _)) :=
    NoeioDaemon.reconcile_routes (daemon n) interfaces (reconciler n) (routes w) (state_fs w) in
  nat_converge interfaces (MkNode d r (config n) (applied n)) (MkWorld k fs (host w)).

(** [self.advertised.write().unwrap().clear()]: no new version, no wake-up. *)
Definition clear_advertised (d : NoeioDaemon S) : NoeioDaemon S :=
  NoeioDaemon.MkDaemon (NoeioDaemon.nics d) (NoeioDaemon.derper d) (NoeioDaemon.host_info d)
    (NoeioDaemon.router d) (NoeioDaemon.wake d) [] (NoeioDaemon.control_plane d)
    (NoeioDaemon.decisions d) (NoeioDaemon.allowed_ips_drops d) (NoeioDaemon.accept_routes d).

Definition shutdown (interfaces : list NetworkInterface) (n : Node) (w : World) : Node * World :=
  let '(r, k, fs, _) := Reconciler.reconcile (reconciler n) (routes w) (state_fs w) ∅
                          (NoeioDaemon.ifindex_of (daemon n)) in
  nat_converge interfaces (MkNode (clear_advertised (daemon n)) r (config n) (applied n))
    (MkWorld k fs (host w)).
End node.
Arguments Node {CA KA TA} S : rename.

(** ** Facts about start-up *)

Section boot_facts.
Context {CA : CidrApi} {CL : CidrLaws} {U : UuidApi} {KA : KeyApi} {TA : TunnApi} {S : Type}.

(** A booted daemon advertises exactly what passed the check. *)
Lemma boot_Running pf c stun servers tokens advertise accept lookup lookup' relays c' (d : NoeioDaemon S) :
  boot pf c stun servers tokens advertise accept lookup lookup' relays = Running c' d →
  ∃ c0, append_derpers (append_stuns c stun) servers tokens = Some c0 ∧
    let c1 := append_routes c0 advertise accept in
    let p := {| overlay_ips := []; control_plane := resolve_control_plane lookup c1 |} in
    d = new c' (relays c') lookup' ∧ NoDup (initial_advertised c') ∧
    (∀ cidr, cidr ∈ initial_advertised c' ↔
       ∃ raw, raw ∈ advertise_routes (router c1) ∧ validate_advertisement pf raw p = Ok cidr) ∧
    (∀ raw, raw ∈ advertise_routes (router c1) → is_err (validate_advertisement pf raw p) = false).
Proof.
  unfold boot. destruct (append_derpers _ _ _) as [c0|]; [|done]. intros Hb. exists c0. split; [done|].
  cbv zeta in Hb |- *. set (c1 := append_routes c0 advertise accept) in *.
  set (p := {| overlay_ips := [] |}) in *. revert Hb. unfold validate_routes.
  pose proof (validate_fold pf p (advertise_routes (router c1)) [] []) as Hv.
  destruct (foldl _ _ _) as [ok [|e errors]]; [|done]. intros [= <- <-].
  destruct Hv as ((more & Hmore & Hm) & Hnd & Hin). cbn in Hmore. subst more. unfold initial_advertised. cbn [router advertise_routes].
  rewrite parse_map_to_string. split_and!; [done|apply Hnd; constructor| |by apply Hm].
  intros cidr. rewrite Hin. split; [intros [[]%not_elem_of_nil|?]; done|by right].
Qed.

(** [boot] after the flags: it exits with the errors of the check, or runs. *)
Lemma boot_checked pf c p (mk : Config → NoeioDaemon S) :
  let check raw := validate_advertisement pf raw p in
  let raws := advertise_routes (router c) in
  let b := match validate_routes pf c p with
           | (_, Err errors) => Exit2 errors
           | (c', Ok _) => Running c' (mk c')
           end in
  (∀ errors, b = Exit2 errors ↔ errors ≠ [] ∧ errors = errors_of check raws) ∧
  ((∃ c' d, b = Running c' d) ↔ ∀ raw, raw ∈ raws → ∃ cidr, check raw = Ok cidr).
Proof.
  intros check raws b. pose proof (λ errors, validate_routes_Err pf c p errors) as He.
  rewrite <-errors_of_nil. unfold b. destruct (validate_routes pf c p) as [c' [ok|errors]]; cbn in He.
  - assert (errors_of check raws = []) as Hnil.
    { destruct (errors_of check raws) as [|e es] eqn:Herr; [done|].
      assert (Ok ok = Err (e :: es)); [|done]. by apply He. }
    split; [|naive_solver]. intros errors. split; [done|]. rewrite Hnil. by intros [H ->].
  - destruct (proj1 (He errors) eq_refl) as [Hne Herr]. split; [|split; [naive_solver|]].
    + intros errors'. split; [by intros [= <-]|]. intros H. apply (proj2 (He errors')) in H. congruence.
    + intros Hnil. destruct Hne. etrans; [exact Herr|exact Hnil].
Qed.

(** The gate refuses what covers one of our overlay addresses. *)
Lemma covers_overlay_refused pf raw p cidr v4 :
  parse_cidr raw = Ok cidr → cidr_contains_addr cidr v4 = true → IpV4 v4 ∈ overlay_ips p →
  is_err (validate_advertisement pf raw p) = true.
Proof.
  intros Hp Hc Hin. unfold validate_advertisement. rewrite Hp.
  destruct (negb _); [done|]. destruct (validate_cidr cidr p) as [[]|] eqn:Hv; [|done].
  apply validate_cidr_Ok in Hv as (_ & _ & Hov & _). apply Hov in Hin. congruence.
Qed.

Lemma register_nic_daemon (d : NoeioDaemon S) id nic network :
  let d' := (NoeioDaemon.register_nic d id nic network).1 in
  NoeioDaemon.advertised d' = NoeioDaemon.advertised d ∧
  (∀ q, PeerInfo.new id (nic_ip nic) network = Ok q →
     NoeioDaemon.nics d' = NicManager.register (NoeioDaemon.nics d) id nic).
Proof.
  unfold NoeioDaemon.register_nic. destruct (PeerInfo.new _ _ _) as [q|]; [|done].
  unfold NoeioDaemon.add_peer. cbn. by destruct (NoeioDaemon.host_info d).
Qed.

Lemma ips_register (m : NicManager) id nic : nic_ip nic ∈ NicManager.ips (NicManager.register m id nic).
Proof.
  unfold NicManager.ips, NicManager.register. apply list_elem_of_fmap. exists nic. split; [done|].
  apply list_elem_of_fmap. exists (id, nic). split; [done|].
  apply elem_of_map_to_list. apply lookup_insert_eq.
Qed.
End boot_facts.

(** ** Facts about the loop and the exit *)

Section route_facts.
Context {CA : CidrApi} {CL : CidrLaws} {KA : KeyApi} {TA : TunnApi} {S : Type} {TS : TunnelSession S} {SO : SessionOpen S}.
Context {K : Type} {RH : RouteHandle K} {KL : KernelLaws} {N : Type} {NK : NetlinkKernel N}.
Context (be : bool) (fuel : nat) (rd : string).
Implicit Types n : Node S.

(** Nothing advertised, nothing wanted. *)
Lemma nat_wanted_none interfaces n :
  NoeioDaemon.advertised (daemon n) = [] → nat_wanted interfaces n = None.
Proof. intros H. unfold nat_wanted, wanted. by rewrite H. Qed.
(** Routes: a pass towards nothing, and one from nothing. *)
Lemma reconcile_nothing M r (k : K) fs ifindex :
  Reconciler.installed r ⊆ M → one_nic (Reconciler.installed r) →
  in_sync ifindex M k (Reconciler.installed r) →
  let '(r', k', _, _) := Reconciler.reconcile r k fs ∅ ifindex in
  Reconciler.installed r' = ∅ ∧ in_sync ifindex M k' ∅.
Proof.
  intros HM Ho Hs. unfold Reconciler.reconcile.
  pose proof (pass_sync ifindex M k ∅ _ HM (empty_subseteq _) Ho one_nic_empty Hs) as Hp.
  destruct (Reconciler.reconcile_pass _ _ _ _) as [[k' L] c]. destruct Hp as [Hs' Hiff]. cbn.
  assert (L = ∅) as -> by (apply set_eq; intros x; rewrite Hiff; set_solver). done.
Qed.

Lemma loop_restores M interfaces n (w : World (K := K) (N := N)) :
  let D := (NoeioDaemon.desired_routes_of (daemon n) interfaces).2 in
  let ifindex := NoeioDaemon.ifindex_of (daemon n) in
  NoeioDaemon.advertised (daemon n) = [] → applied n = None →
  Reconciler.installed (reconciler n) = ∅ → in_sync ifindex M (routes w) ∅ → D ⊆ M → one_nic D →
  let '(n', w') := loop_turn be fuel rd interfaces n w in
  host w' = host w ∧
  ∀ key, key ∈ Reconciler.installed (reconciler n') ↔
    key ∈ D ∧ is_Some (ifindex (Reconciler.nic key)).
Proof.
  cbv zeta. intros Hadv Hap Hr Hs HDM HoD. unfold loop_turn, NoeioDaemon.reconcile_routes.
  unfold NoeioDaemon.desired_routes_of in *. cbn [snd] in *.
  set (d := NoeioDaemon.refresh_subnets (daemon n) interfaces) in *.
  set (D := Reconciler.desired _ _) in *.
  change (NoeioDaemon.ifindex_of d) with (NoeioDaemon.ifindex_of (daemon n)).
  unfold Reconciler.reconcile. rewrite Hr.
  pose proof (pass_sync _ M (routes w) D ∅ (empty_subseteq _) HDM one_nic_empty HoD Hs) as Hp.
  destruct (Reconciler.reconcile_pass _ _ _ _) as [[k L] c]. destruct Hp as [_ Hiff].
  unfold nat_converge. rewrite nat_wanted_none by done. cbn [applied]. rewrite Hap.
  unfold converge. rewrite decide_True by done. cbn. split; [done|]. intros key. rewrite Hiff. set_solver.
Qed.
End route_facts.

Section node_facts.
Context {CA : CidrApi} {CL : CidrLaws} {KA : KeyApi} {TA : TunnApi} {S : Type} {TS : TunnelSession S} {SO : SessionOpen S}.
Context {K : Type} {RH : RouteHandle K} {N : Type} {NK : NetlinkKernel N} {NL : NfLaws N}.
Context (be : bool) (fuel : nat) (rd : string) (v : bool) (T : Tables).
Hypothesis Haccepts : ∀ k ms, nf_refuse k ms = None.
Hypothesis Hfuel : (10 ≤ fuel)%nat.
Hypothesis Hours : T !! TABLE = None.
Implicit Types (h : Host N) (n : Node S).

(** What the daemon remembers of its NAT is true: nothing applied, nothing there. *)
Definition tracks (a : option AppliedNat) h : Prop :=
  healthy h ∧ recoverable rd v T h ∧ (a = None → clean rd v T h).

Lemma clean_recoverable h : healthy h → clean rd v T h → recoverable rd v T h.
Proof.
  intros Hh (Hf & Hs & Ht). unfold recoverable, keeps, original. rewrite Hs, Ht. split_and!.
  - intros o Ho. unfold healthy in Hh. rewrite Hh in Ho. by apply not_elem_of_nil in Ho.
  - unfold forwards in Hf. apply fmap_Some in Hf as (? & -> & _). eauto.
  - done.
  - by apply delete_id.
Qed.

Lemma recoverable_run want current h h' a :
  recoverable rd v T h → run (converge be fuel rd want current) h = (h', a) → recoverable rd v T h'.
Proof.
  intros Hr Hrun.
  pose proof (always_run _ _ _ _ (recoverable_converge be fuel rd v T want current h Hr)) as [Hp _].
  by rewrite Hrun in Hp.
Qed.

(** Rules that cannot be built: nothing happens but a socket. *)
Lemma run_refused t current h e :
  healthy h → current ≠ Some t → Ruleset.new (nat_overlay t) (nat_lan_if t) (nat_tun_if t) true = Err e →
  ∃ h', run (converge be fuel rd (Some t) current) h = (h', Some current) ∧ healthy h' ∧
    files h' = files h ∧ tables h' = tables h.
Proof.
  intros Hh Hc He. unfold converge. rewrite decide_False by done.
  unfold converge_system. rewrite !run_bind.
  destruct (run_open h Hh) as (h1 & -> & Hh1 & Hf1 & Ht1 & _). cbn [run]. rewrite He. cbn. eauto.
Qed.

Lemma tracks_converge want current h :
  tracks current h →
  ∃ h' a, run (converge be fuel rd want current) h = (h', Some a) ∧ tracks a h' ∧
    (want = None → a = None).
Proof.
  intros (Hh & Hr & Hc). destruct (decide (current = want)) as [->|Hne].
  { exists h, want. unfold converge. rewrite decide_True by done. by split_and!. }
  destruct want as [t|].
  - destruct (Ruleset.new (nat_overlay t) (nat_lan_if t) (nat_tun_if t) true) as [rules|e] eqn:Hru.
    + destruct (run_setup be fuel rd Haccepts Hfuel v T h t current rules Hh Hr Hne Hru)
        as (h' & Hrun & Hh' & _).
      exists h', (Some t). split_and!; [done| |done]. split_and!; [done| |done].
      by eapply recoverable_run.
    + destruct (run_refused t current h e Hh Hne Hru) as (h' & Hrun & Hh' & Hf & Ht).
      exists h', current. split_and!; [done| |done]. split_and!; [done|by eapply recoverable_run|].
      intros Hn. destruct (Hc Hn) as (H1 & H2 & H3).
      unfold clean, forwards, saved. rewrite Hf, Ht. done.
  - destruct (run_teardown be fuel rd Haccepts Hfuel v T h current Hh Hr Hne) as (h' & Hrun & Hh' & Hcl).
    exists h', None. split_and!; [done| |done]. split_and!; [done|by apply clean_recoverable|done].
Qed.

(** The turns of a node that is not disturbed: a pass of the loop, or any change of
    the daemon's data and reconciler by the other tasks. *)
Inductive node_step : Node S * World (K := K) (N := N) → Node S * World → Prop :=
  | node_loop interfaces n w : node_step (n, w) (loop_turn be fuel rd interfaces n w)
  | node_other n w d : node_step (n, w) (MkNode d (reconciler n) (config n) (applied n), w).

Lemma tracks_nat interfaces n (w : World (K := K)) :
  tracks (applied n) (host w) →
  let st := nat_converge be fuel rd interfaces n w in
  tracks (applied st.1) (host st.2) ∧ daemon st.1 = daemon n ∧ reconciler st.1 = reconciler n ∧
  routes st.2 = routes w ∧ (nat_wanted interfaces n = None → applied st.1 = None).
Proof.
  intros Ht. unfold nat_converge.
  destruct (tracks_converge (nat_wanted interfaces n) _ _ Ht) as (h' & a & -> & Ha & Hnone). done.
Qed.

Lemma tracks_step st st' :
  node_step st st' → tracks (applied st.1) (host st.2) → tracks (applied st'.1) (host st'.2).
Proof.
  destruct 1 as [interfaces n w|n w d]; intros Ht; [|done]. unfold loop_turn.
  destruct (NoeioDaemon.reconcile_routes _ _ _ _ _) as [d [[[r k] fs] c]].
  by apply tracks_nat.
Qed.

Lemma tracks_spawn n (w : World (K := K)) :
  healthy (host w) → restorable rd v T (host w) → applied n = None →
  let st := spawn_begin fuel rd n w in tracks (applied st.1) (host st.2).
Proof.
  intros Hh Hr Ha. unfold spawn_begin.
  assert (recoverable rd v T (host w)) as Hrec.
  { destruct Hr as (? & ? & ?). repeat split; try done. intros o Ho. unfold healthy in Hh.
    rewrite Hh in Ho. by apply not_elem_of_nil in Ho. }
  destruct (run_sweep fuel rd Haccepts Hfuel v T (host w) Hh Hrec) as (h' & r & -> & Hh' & Hcl).
  cbn. rewrite Ha. split_and!; [done|by apply clean_recoverable|done].
Qed.

Lemma tracks_rtc st st' :
  rtc node_step st st' → tracks (applied st.1) (host st.2) → tracks (applied st'.1) (host st'.2).
Proof. induction 1; eauto using tracks_step. Qed.

End node_facts.

(** ** Properties *)

(** C32. What a node advertises from the start. [boot] panics exactly when there are
    more relay tokens than relays; it exits exactly when a prefix that the file or the
    flags name fails the check, with the errors of all that do, in their order; a
    daemon that runs advertises, without duplicates, exactly the prefixes named, every
    one of which passed the check - but the check knows no overlay address, and nothing
    repeats it: a nic registered later inside an advertised prefix leaves it advertised,
    although the same request would be refused from then on. *)
Theorem boot_advertises {CA : CidrApi} {CL : CidrLaws} {U : UuidApi} {KA : KeyApi} {TA : TunnApi} {S}
    pf c stun servers tokens advertise accept lookup lookup' relays :
  let b := boot (S := S) pf c stun servers tokens advertise accept lookup lookup' relays in
  (b = BootPanic ↔ (length servers < length tokens)%nat) ∧
  (∀ c0, append_derpers (append_stuns c stun) servers tokens = Some c0 →
     let c1 := append_routes c0 advertise accept in
     let p := {| overlay_ips := []; control_plane := resolve_control_plane lookup c1 |} in
     let failed := errors_of (λ raw, validate_advertisement pf raw p) (advertise_routes (router c1)) in
     (∀ errors, b = Exit2 errors ↔ errors ≠ [] ∧ errors = failed) ∧
     ((∃ c' d, b = Running c' d) ↔
        ∀ raw, raw ∈ advertise_routes (router c1) → ∃ cidr, validate_advertisement pf raw p = Ok cidr)) ∧
  (∀ c' d, b = Running c' d →
     NoDup (NoeioDaemon.advertised d) ∧ NoeioDaemon.nics d = ∅ ∧ Router.ips (NoeioDaemon.router d) = [] ∧
     (∃ c0, append_derpers (append_stuns c stun) servers tokens = Some c0 ∧
      let c1 := append_routes c0 advertise accept in
      let p := {| overlay_ips := []; control_plane := resolve_control_plane lookup c1 |} in
      NoeioDaemon.accept_routes d = (if accept then true else cfg_accept_routes (router c)) ∧
      ∀ cidr, cidr ∈ NoeioDaemon.advertised d ↔
        ∃ raw, raw ∈ advertise_routes (router c1) ∧ validate_advertisement pf raw p = Ok cidr) ∧
     (∀ cidr id nic network q v4,
        cidr ∈ NoeioDaemon.advertised d → PeerInfo.new id (nic_ip nic) network = Ok q →
        nic_ip nic = IpV4 v4 → cidr_contains_addr cidr v4 = true →
        let d' := (NoeioDaemon.register_nic d id nic network).1 in
        cidr ∈ NoeioDaemon.advertised d' ∧
        ∀ raw, parse_cidr raw = Ok cidr →
          is_err (validate_advertisement pf raw (protected_of d')) = true)).
Proof.
  intros b. split_and!.
  - unfold b, boot, append_derpers. destruct (Nat.ltb_spec (length servers) (length tokens)) as [Hlt|Hge].
    + done.
    + split; [|lia]. by destruct (validate_routes _ _ _) as [c' [ok|errors]].
  - intros c0 Hc0. unfold b, boot. rewrite Hc0. by apply boot_checked.
  - intros c' d Hb. pose proof Hb as Hrun. apply boot_Running in Hb as (c0 & Hc0 & -> & Hnd & Hin & Hall).
    split_and!; [exact Hnd|done|by vm_compute| |].
    + exists c0. split; [done|]. split; [|exact Hin]. cbn.
      unfold b, boot in Hrun. rewrite Hc0 in Hrun. revert Hrun. unfold validate_routes.
      destruct (foldl _ _ _) as [ok [|e errors]]; [|done]. intros [= <- _]. cbn.
      unfold append_derpers in Hc0. destruct (_ <? _)%nat; [done|]. by injection Hc0 as <-.
    + intros cidr id nic network q v4 Hadv Hq Hip Hcov d'.
      destruct (register_nic_daemon (S := S) (new c' (relays c') lookup') id nic network) as [Ha Hn].
      fold d' in Ha, Hn. split; [by rewrite Ha|]. intros raw Hraw.
      eapply covers_overlay_refused; [exact Hraw|exact Hcov|]. cbn. rewrite (Hn q Hq), <-Hip.
      apply ips_register.
Qed.

(** C14. A clean exit leaves nothing behind. Start a node on a host in whatever state a
    crashed run left it, let its loop and its other tasks take any turns with no
    failing call, and shut it down: the sysctl, the saved copy and the netfilter
    tables are as before noeio came; and when the kernel's routes are those the
    reconciler remembers, it remembers none and the kernel has none of them. But
    shutdown does not stop the loop: a pass that starts after it installs every
    wanted route again. *)
Theorem clean_exit {CA : CidrApi} {CL : CidrLaws} {KA : KeyApi} {TA : TunnApi} {S} {TS : TunnelSession S}
    {SO : SessionOpen S} {K} {RH : RouteHandle K} {KL : KernelLaws} {N} {NK : NetlinkKernel N} {NL : NfLaws N}
    be fuel rd v T interfaces (n0 n : Node S) (w0 w : World) :
  (∀ (k : N) ms, nf_refuse k ms = None) → (10 ≤ fuel)%nat → T !! TABLE = None →
  healthy (host w0) → restorable rd v T (host w0) → applied n0 = None →
  rtc (node_step be fuel rd) (spawn_begin fuel rd n0 w0) (n, w) →
  let '(n', w') := shutdown be fuel rd interfaces n w in
  clean rd v T (host w') ∧ applied n' = None ∧
  ∀ M, let ifindex := NoeioDaemon.ifindex_of (daemon n) in
    let S := Reconciler.installed (reconciler n) in
    S ⊆ M → one_nic S → in_sync ifindex M (routes w) S →
    Reconciler.installed (reconciler n') = ∅ ∧ (∀ rt, managed M rt → rt ∉ table (routes w')) ∧
    ∀ interfaces', let D := (NoeioDaemon.desired_routes_of (daemon n') interfaces').2 in
      D ⊆ M → one_nic D →
      let '(n'', w'') := loop_turn be fuel rd interfaces' n' w' in
      host w'' = host w' ∧
      ∀ key, key ∈ Reconciler.installed (reconciler n'') ↔
        key ∈ D ∧ is_Some (ifindex (Reconciler.nic key)).
Proof.
  intros Hacc Hfuel HT Hh Hr Ha Hsteps.
  assert (tracks rd v T (applied n) (host w)) as Htr.
  { apply (tracks_rtc be fuel rd v T Hacc Hfuel HT _ _ Hsteps). by apply tracks_spawn. }
  unfold shutdown.
  destruct (Reconciler.reconcile _ _ _ _ _) as [[[r k] fs] changed] eqn:Hrec.
  set (n1 := MkNode (clear_advertised (daemon n)) r (config n) (applied n)).
  pose proof (tracks_nat be fuel rd v T Hacc Hfuel HT interfaces n1 (MkWorld k fs (host w)) Htr) as Hnat.
  destruct (nat_converge _ _ _ _ _ _) as [n' w'].
  destruct Hnat as ((_ & _ & Hclean) & Hd & Hre & Hk & Hnone).
  pose proof (Hnone (nat_wanted_none _ n1 eq_refl)) as Hap. cbn [fst snd] in *.
  split; [by apply Hclean|]. split; [exact Hap|]. intros M. cbv zeta. intros HLM HoL Hsync.
  pose proof (reconcile_nothing M _ _ (state_fs w) _ HLM HoL Hsync) as Hnothing.
  rewrite Hrec in Hnothing. destruct Hnothing as [HL Hs].
  change (routes w' = k) in Hk. rewrite <-Hk in Hs. change r with (reconciler n1) in HL. rewrite <-Hre in HL.
  split; [exact HL|]. split.
  { intros rt Hm Hin. apply (Hs rt Hm) in Hin as (? & ? & []%not_elem_of_empty & _). }
  intros interfaces' HDM HoD.
  assert (NoeioDaemon.ifindex_of (daemon n') = NoeioDaemon.ifindex_of (daemon n)) as Hif by by rewrite Hd.
  rewrite <-Hif in Hs |- *. apply (loop_restores be fuel rd M); try done. by rewrite Hd.
Qed.

(** An exit during the set-up of NAT is not clean. The convergences of the loop and of
    the shutdown each read what is applied, do their system calls and only then record
    the result: a shutdown that runs after the loop has read and before it has
    recorded finds nothing applied and makes no system call; the set-up then completes
    and the process ends with the rules installed, forwarding on and the copy of the
    original value saved. *)
Theorem exit_during_setup {CA : CidrApi} {CL : CidrLaws} {KA : KeyApi} {TA : TunnApi} {S} {TS : TunnelSession S}
    {SO : SessionOpen S} {K} {RH : RouteHandle K} {N} {NK : NetlinkKernel N} {NL : NfLaws N}
    be fuel rd v T interfaces (n : Node S) (w : World (K := K)) t rules :
  (∀ (k : N) ms, nf_refuse k ms = None) → (10 ≤ fuel)%nat → T !! TABLE = None →
  tracks rd v T (applied n) (host w) → applied n = None →
  Ruleset.new (nat_overlay t) (nat_lan_if t) (nat_tun_if t) true = Ok rules →
  let '(n', w') := shutdown be fuel rd interfaces n w in
  host w' = host w ∧ applied n' = None ∧
  ∃ h', run (converge be fuel rd (Some t) (applied n)) (host w') = (h', Some (Some t)) ∧
    tables h' = <[TABLE := contents be rules]> T ∧ forwards h' = Some true ∧ saved rd h' = Some v.
Proof.
  intros Hacc Hfuel HT (Hh & Hr & _) Ha Hru. unfold shutdown.
  destruct (Reconciler.reconcile _ _ _ _ _) as [[[r k] fs] changed].
  set (n1 := MkNode (clear_advertised (daemon n)) r (config n) (applied n)).
  unfold nat_converge. rewrite (nat_wanted_none interfaces n1 eq_refl).
  change (applied n1) with (applied n). rewrite Ha. unfold converge at 1. rewrite decide_True by done. cbn.
  split; [done|]. split; [done|].
  destruct (run_setup be fuel rd Hacc Hfuel v T (host w) t None rules Hh Hr ltac:(done) Hru)
    as (h' & Hrun & _ & Hres). by exists h'.
Qed.

(** A node told to advertise the network its own overlay address turns out to be in. *)
Definition ex_network : string := "07070707070707070707070707070707".
Definition ex_overlay_nic : VirtualNic := MkNic (IpV4 (ipv4 110 20 0 9)) "noeio0" 3 [].
Definition ex_boot : Boot UdpTunnelSession :=
  boot linux config_default [] [] [] ["110.20.0.7/24"] false (λ _, None) (λ _, None) (λ _, []).

Lemma boot_advertises_witness :
  ∃ c' d, ex_boot = Running c' d ∧ cidr_new (ipv4 110 20 0 0) 24 ∈ NoeioDaemon.advertised d ∧
    let d' := (NoeioDaemon.register_nic d 12 ex_overlay_nic ex_network).1 in
    cidr_new (ipv4 110 20 0 0) 24 ∈ NoeioDaemon.advertised d' ∧
    is_err (validate_advertisement linux "110.20.0.7/24" (protected_of d')) = true.
Proof.
  assert (match ex_boot with Running _ _ => true | _ => false end = true) as Hok
    by (vm_compute; reflexivity).
  destruct ex_boot as [c' d|errors|] eqn:Hb; [clear Hok|discriminate Hok..].
  exists c', d. split; [reflexivity|].
  destruct (boot_advertises (S := UdpTunnelSession) linux config_default [] [] [] ["110.20.0.7/24"] false (λ _, None) (λ _, None) (λ _, []))
    as (_ & _ & Hrun).
  destruct (Hrun c' d Hb) as (_ & _ & _ & (c0 & Hc0 & _ & Hin) & Hgap).
  assert (cidr_new (ipv4 110 20 0 0) 24 ∈ NoeioDaemon.advertised d) as Hadv.
  { apply Hin. injection Hc0 as <-. exists "110.20.0.7/24". split; [by left|reflexivity]. }
  split; [exact Hadv|].
  assert (is_err (PeerInfo.new 12 (nic_ip ex_overlay_nic) ex_network) = false) as Hok
    by (vm_compute; reflexivity).
  destruct (PeerInfo.new 12 (nic_ip ex_overlay_nic) ex_network) as [q|e] eqn:Hq; [|discriminate Hok].
  destruct (Hgap _ 12 ex_overlay_nic ex_network q _ Hadv Hq eq_refl eq_refl) as [H1 H2].
  split; [exact H1|]. apply H2. reflexivity.
Defined.

(** A node that starts on the remains of two crashed runs, is given a nic and a
    subnet, sets its NAT up and exits. *)
Definition ex_router_config : RouterConfig := MkRouterConfig [] false true "eth1".
Definition ex_node : Node UdpTunnelSession :=
  MkNode Example.start (Reconciler.new (Some "/run/noeio/routes")) ex_router_config None.
Definition ex_world : World (K := fib) (N := NfModel) :=
  MkWorld ∅ (MkFs ∅ true) (with_plan [] ex_life2).
Definition ex_started : Node UdpTunnelSession * World (K := fib) (N := NfModel) :=
  spawn_begin 10 "/run/noeio" ex_node ex_world.
Definition ex_subnet_router : NoeioDaemon UdpTunnelSession :=
  NoeioDaemon.set_advertised Example.start 0 [cidr_new (ipv4 192 168 10 0) 24].
Definition ex_running : Node UdpTunnelSession * World (K := fib) (N := NfModel) :=
  loop_turn false 10 "/run/noeio" []
    (MkNode ex_subnet_router (reconciler ex_started.1) (config ex_started.1) (applied ex_started.1))
    ex_started.2.

Lemma clean_exit_witness :
  is_Some (applied ex_running.1) ∧
  let '(n, w) := shutdown false 10 "/run/noeio" [] ex_running.1 ex_running.2 in
  clean "/run/noeio" false {[ "nat" := [] ]} (host w) ∧ Reconciler.installed (reconciler n) = ∅.
Proof.
  split; [apply (bool_decide_unpack _); vm_compute; exact I|].
  assert (rtc (node_step false 10 "/run/noeio") (spawn_begin 10 "/run/noeio" ex_node ex_world)
    (ex_running.1, ex_running.2)) as Hsteps.
  { rewrite <-surjective_pairing. change (spawn_begin 10 "/run/noeio" ex_node ex_world) with ex_started.
    rewrite (surjective_pairing ex_started) at 1.
    eapply rtc_l; [apply (node_other _ _ _ _ _ ex_subnet_router)|]. apply rtc_once, node_loop. }
  pose proof (clean_exit false 10 "/run/noeio" false {[ "nat" := [] ]} [] ex_node ex_running.1 ex_world ex_running.2) as Hexit.
  destruct (shutdown _ _ _ _ _ _) as [n w].
  destruct Hexit as (Hclean & _ & Hroutes); [done|done|by vm_compute|done| |done|exact Hsteps|].
  { split_and!; [apply (bool_decide_unpack _)..|]; vm_compute; [exact I|exact I|reflexivity]. }
  split; [exact Hclean|].
  assert (Reconciler.installed (reconciler ex_running.1) = ∅) as Hnone
    by (apply (bool_decide_unpack _); vm_compute; exact I).
  apply (Hroutes ∅); [by rewrite Hnone|rewrite Hnone; apply one_nic_empty|].
  intros rt (key & []%not_elem_of_empty & _).
Defined.
