(* ===== verification/Console.v ===== *)
(** The command line of [noeio]: what the RPC handlers of [rpc/service/daemon.rs] and
    [rpc/service/nic.rs] do, what [rpc/client.rs] prints and what [main.rs] makes of
    it, over the daemon and the handlers of [RouteService]. *)

From Stdlib Require Import ZArith Lia.
From Stdlib Require Import Strings.String Strings.Ascii.
From stdpp Require Import base list strings gmap sets.
From S2P Require Import Prelude Text NetTypes CidrModel NetText HostInfo Packet HostCodec CodecModel Routes RoutingTable Session Wireguard Peer DerperClient Daemon RouteService SubnetNat.

Local Open Scope string_scope.
Local Open Scope Z_scope.

(** ** Columns *)

(** [{:<n}] pads to [n] characters, which are the bytes that do not continue one. *)
Fixpoint chars (s : string) : nat :=
  match s with
  | EmptyString => 0
  | String c s => if (128 <=? code c) && (code c <=? 191) then chars s else S (chars s)
  end.
Fixpoint spaces (n : nat) : string :=
  match n with O => "" | S n => String " " (spaces n) end.
Definition pad (n : nat) (s : string) : string := s +:+ spaces (n - chars s).

Definition line (s : string) : string := s +:+ String LF "".
Definition unlines (l : list string) : string := foldr (λ s t, s +:+ String LF t) "" l.

(** ** [route list] *)

Record ListRoutesResponse : Type := MkListing {
  routes : list RouteEntry;
  can_advertise : bool;
  platform : string;
  accept_routes : bool;
  nat_applied : bool;
}.

Section listing.
Context {CA : CidrApi} {KA : KeyApi} {TA : TunnApi} {S : Type} {TS : TunnelSession S}.

(** The answer of the [list_routes] handler; [nat] is the applied state of [daemon/nat.rs]. *)
Definition list_routes_response (pf : Platform) (nat : option AppliedNat)
    (d : NoeioDaemon.NoeioDaemon S) : ListRoutesResponse :=
  MkListing (list_routes d) (platform_can_advertise pf) (platform_name pf)
    (NoeioDaemon.accept_routes d) (bool_decide (is_Some nat)).
End listing.

Definition source_text (s : RouteSource) : string :=
  match s with Local => "local" | Remote => "remote" | SourceUnspecified => "?" end.
Definition state_text (s : RouteState) : string :=
  match s with
  | Active => "active" | StandbyState => "standby" | RejectedState => "rejected"
  | StateUnspecified => "?"
  end.
Definition path_text (r : RouteEntry) : string :=
  match entry_source r with
  | Local => "-"
  | _ => match entry_path r with
         | Direct => "direct " +:+ path_addr r
         | Relay => "relay (derper)"
         | NoPath => "none"
         | PathUnspecified => "?"
         end
  end.
Definition peer_text (r : RouteEntry) : string :=
  if entry_peer_id r =? 0 then "-" else show_uint (entry_peer_id r).
Definition via_text (r : RouteEntry) : string :=
  if bool_decide (entry_via r = "") then "-" else entry_via r.

Definition columns (a b c d e f g : string) : string :=
  pad 20 a +:+ " " +:+ pad 7 b +:+ " " +:+ pad 11 c +:+ " " +:+ pad 16 d +:+ " " +:+
  pad 9 e +:+ " " +:+ pad 30 f +:+ " " +:+ g.
Definition route_row (r : RouteEntry) : string :=
  columns (entry_cidr r) (source_text (entry_source r)) (peer_text r) (via_text r)
    (state_text (entry_state r)) (path_text r) (reject_reason r).

Definition ADVERTISER : string := "advertiser + consumer".
Definition CONSUMER : string :=
  "consumer-only (this platform cannot advertise subnet routes; it can use routes advertised by Linux nodes)".
Definition HEADINGS : string := columns "CIDR" "SOURCE" "PEER" "VIA" "STATE" "PATH" "REASON".
Definition NO_ROUTES : string := "no subnet routes".

Definition preamble (r : ListRoutesResponse) : list string :=
  (["platform:      " +:+ platform r +:+ " — " +:+ (if can_advertise r then ADVERTISER else CONSUMER);
    "accept_routes: " +:+ (if accept_routes r then "on" else "off")]
   ++ (if can_advertise r
       then ["nat/forward:   " +:+ (if nat_applied r then "applied" else "not applied")] else [])
   ++ [""])%list.

Definition table (l : list RouteEntry) : list string :=
  match l with [] => [NO_ROUTES] | _ => HEADINGS :: map route_row l end.

Definition render_route_list (r : ListRoutesResponse) : string :=
  unlines (preamble r ++ table (routes r)).

(** ** [netcheck] *)

Record DerperRtt : Type := MkRtt { rtt_address : string; rtt_ms : Z }.

Definition rtt_line (d : DerperRtt) : string :=
  if rtt_ms d =? 0 then rtt_address d +:+ String "009" "-"
  else rtt_address d +:+ String "009" (show_uint (rtt_ms d)) +:+ "ms".

Definition NET_CHECK : string :=
  "Derper server RTT latency. noeio selects the lowest-latency Derper server for relay forwarding.".
Definition render_net_check (l : list DerperRtt) : string :=
  match l with
  | [] => line "No Derper servers configured."
  | _ => unlines (NET_CHECK :: "" :: map rtt_line l)
  end.

(** ** The commands *)

(** What [create_virtual_nic] is asked for. *)
Record CreateVirtualNicRequest : Type := MkCreateVnic {
  vnic_ip : string;
  vnic_ip_version : string;
  vnic_network_id : string;
}.

(** [str::parse::<Ipv4Addr>]. *)
Definition parse_ipv4 (s : string) : option Z :=
  if (15 <? String.length s)%nat then None else parse_with read_ipv4 s.

Section commands.
Context {CA : CidrApi} {KA : KeyApi} {TA : TunnApi} {U : UuidApi} {S : Type} {TS : TunnelSession S}.
Notation NoeioDaemon := (NoeioDaemon.NoeioDaemon S).

Definition net_check (d : NoeioDaemon) : list DerperRtt :=
  map (λ r, MkRtt (r_address r) (default 0 (r_rtt_ms r))) (DerperManager.list_ (NoeioDaemon.derper d)).

(** [create_ipv4_nic] is the TUN crate's: the name and the index of the new interface,
    or why there is none. [id] is the random peer id. *)
Definition create_virtual_nic (create_ipv4_nic : Z → result (string * Z) string) (id : PeerId)
    (d : NoeioDaemon) (req : CreateVirtualNicRequest) : NoeioDaemon * result string Status :=
  match parse_ipv4 (vnic_ip req) with
  | None => (d, Err (MkStatus InvalidArgument ("invalid ip address: '" +:+ vnic_ip req +:+ "'")))
  | Some ip =>
      match create_ipv4_nic ip with
      | Err err =>
          (d, Err (MkStatus FailedPrecondition
             ("failed to create virtual nic for " +:+ vnic_ip req +:+ ": " +:+ err)))
      | Ok (tun_name, tun_index) =>
          let '(d, r) := NoeioDaemon.register_nic d id (MkNic (IpV4 ip) tun_name tun_index [])
                           (vnic_network_id req) in
          (d, match r with
              | Ok _ => Ok tun_name
              | Err m => Err (MkStatus FailedPrecondition m)
              end)
      end
  end.

Inductive RouteCommand : Type :=
  | Advertise (cidrs : list string) | Withdraw (cidrs : list string) | List.
Inductive Command : Type :=
  | Create (req : CreateVirtualNicRequest) | Netcheck | Route (c : RouteCommand).

(** How a command ends: [exit] with what it printed, or a panic. *)
Inductive Outcome : Type := Exit (code : Z) (out err : string) | Panicked.

Definition print_advertised (l : list string) : string :=
  match l with
  | [] => line "advertising: (none)"
  | _ => line ("advertising: " +:+ join ", " l)
  end.

Definition render_status (r : result (list string) Status) : Outcome :=
  match r with
  | Ok l => Exit 0 (print_advertised l) ""
  | Err st => Exit 1 "" (line (status_message st))
  end.

(** The methods of [CliRpcClient]. *)
Definition client_create_vnic (tun : Z → result (string * Z) string) (id : PeerId) (d : NoeioDaemon)
    (req : CreateVirtualNicRequest) : NoeioDaemon * result string Status :=
  let '(d, r) := create_virtual_nic tun id d req in
  (d, match r with Ok name => Ok (line ("Vnic created, tun: " +:+ name)) | Err st => Err st end).
Definition client_net_check (d : NoeioDaemon) : string := render_net_check (net_check d).
Definition client_advertise (pf : Platform) (now : Z) (d : NoeioDaemon) (cidrs : list string) :
    NoeioDaemon * Outcome :=
  let '(d, r) := advertise_route pf d now cidrs in (d, render_status r).
Definition client_withdraw (now : Z) (d : NoeioDaemon) (cidrs : list string) : NoeioDaemon * Outcome :=
  let '(d, r) := withdraw_route d now cidrs in (d, render_status r).
Definition client_list (pf : Platform) (nat : option AppliedNat) (d : NoeioDaemon) : string :=
  render_route_list (list_routes_response pf nat d).

(** [main] for the commands that talk to the daemon; [unreachable] is why it cannot be
    reached. *)
Definition main (pf : Platform) (nat : option AppliedNat) (tun : Z → result (string * Z) string)
    (now : Z) (id : PeerId) (unreachable : option string) (d : NoeioDaemon) (c : Command) :
    NoeioDaemon * Outcome :=
  match unreachable, c with
  | Some err, Route _ =>
      (d, Exit 1 "" (unlines ["failed to connect to daemon: " +:+ err; "Is `noeio boot` running?"]))
  | Some _, (Create _ | Netcheck) => (d, Panicked)
  | None, Create req =>
      let '(d, r) := client_create_vnic tun id d req in
      (d, match r with Ok out => Exit 0 out "" | Err _ => Panicked end)
  | None, Netcheck => (d, Exit 0 (client_net_check d) "")
  | None, Route (Advertise cidrs) => client_advertise pf now d cidrs
  | None, Route (Withdraw cidrs) => client_withdraw now d cidrs
  | None, Route List => (d, Exit 0 (client_list pf nat d) "")
  end.
End commands.

(** *** Reading it back *)

Definition no_space (c : ascii) : bool := negb (bool_decide (c = " "%char)).
Definition word_char (c : ascii) : bool := no_space c && not_lf c.

Fixpoint skip (s : string) : string :=
  match s with
  | String c t => if bool_decide (c = " "%char) then skip t else s
  | EmptyString => s
  end.
Fixpoint span (s : string) : string * string :=
  match s with
  | String c t => if bool_decide (c = " "%char) then ("", s) else let '(w, r) := span t in (String c w, r)
  | EmptyString => ("", s)
  end.
Definition next_word (s : string) : string * string := let '(w, r) := span s in (w, skip r).

Definition read_source (s : string) : option RouteSource :=
  if bool_decide (s = "local") then Some Local
  else if bool_decide (s = "remote") then Some Remote else None.
Definition read_state (s : string) : option RouteState :=
  if bool_decide (s = "active") then Some Active
  else if bool_decide (s = "standby") then Some StandbyState
  else if bool_decide (s = "rejected") then Some RejectedState else None.
Definition read_path (s : string) : option (PathKind * string * string) :=
  let '(p, s) := next_word s in
  if bool_decide (p = "-") then Some (PathUnspecified, "", s)
  else if bool_decide (p = "none") then Some (NoPath, "", s)
  else if bool_decide (p = "direct") then let '(a, s) := next_word s in Some (Direct, a, s)
  else if bool_decide (p = "relay") then Some (Relay, "", (next_word s).2)
  else None.
Definition read_row (s : string) : option RouteEntry :=
  let '(cidr, s) := next_word s in
  let '(source, s) := next_word s in
  let '(peer, s) := next_word s in
  let '(via, s) := next_word s in
  let '(state, s) := next_word s in
  source ← read_source source;
  id ← (if bool_decide (peer = "-") then Some 0 else parse_uint 32 peer);
  state ← read_state state;
  '(path, addr, reason) ← read_path s;
  Some (MkEntry cidr source id (if bool_decide (via = "-") then "" else via) state reason path addr).

Definition read_body (l : list string) : option (list RouteEntry) :=
  match l with
  | h :: rows => if bool_decide (h = HEADINGS) then mapM read_row rows else Some []
  | [] => None
  end.
Definition read_route_list (s : string) : option ListRoutesResponse :=
  match lines s with
  | first :: second :: l =>
      let '(platform, role) := next_word (next_word first).2 in
      let can := bool_decide (role = "— " +:+ ADVERTISER) in
      let accept := bool_decide (second = "accept_routes: on") in
      let '(nat, body) :=
        (if can then match l with
                     | n :: l => (bool_decide (n = "nat/forward:   applied"), tail l)
                     | [] => (false, [])
                     end
         else (false, tail l)) in
      routes ← read_body body;
      Some (MkListing routes can platform accept nat)
  | _ => None
  end.

Lemma skip_spaces n s : skip (spaces n +:+ s) = skip s.
Proof. induction n as [|n IH]; [done|exact IH]. Qed.

Lemma skip_word s : string_all no_space s = true → skip s = s.
Proof.
  destruct s as [|c s]; [done|]. cbn. unfold no_space. by destruct (bool_decide _).
Qed.

Lemma span_word w rest :
  string_all no_space w = true → span (w +:+ String " " rest) = (w, String " " rest).
Proof.
  induction w as [|c w IH]; [done|]. cbn [string_all]. intros [Hc Hw]%andb_true_iff.
  change (String c w +:+ String " " rest) with (String c (w +:+ String " " rest)). cbn [span].
  unfold no_space in Hc. destruct (bool_decide _); [done|]. by rewrite (IH Hw).
Qed.

(** A word, however padded. *)
Lemma next_word_spaces w k rest :
  string_all no_space w = true → next_word (w +:+ spaces k +:+ " " +:+ rest) = (w, skip rest).
Proof.
  intros Hw. unfold next_word. destruct k as [|k]; cbn [spaces].
  - change ("" +:+ " " +:+ rest) with (String " " rest). rewrite span_word by done. done.
  - change ((String " " (spaces k)) +:+ " " +:+ rest) with (String " " (spaces k +:+ " " +:+ rest)).
    rewrite span_word by done. cbn [skip]. rewrite bool_decide_true by done.
    rewrite skip_spaces. done.
Qed.

Lemma next_word_pad n w rest :
  string_all no_space w = true → next_word (pad n w +:+ " " +:+ rest) = (w, skip rest).
Proof. intros Hw. unfold pad. rewrite string_app_assoc. by apply next_word_spaces. Qed.

(** The columns of a row are words, and tell the entry apart from every other. *)
Definition word (s : string) : Prop := string_all word_char s = true.

Definition row_ok (r : RouteEntry) : Prop :=
  word (entry_cidr r) ∧ is_uint 32 (entry_peer_id r) ∧ word (entry_via r) ∧ entry_via r ≠ "-" ∧
  word (path_addr r) ∧ (skip (reject_reason r) = reject_reason r ∧ string_all not_lf (reject_reason r) = true) ∧
  entry_state r ≠ StateUnspecified ∧ (entry_path r = Direct ↔ path_addr r ≠ "") ∧
  match entry_source r with
  | Local => entry_path r = PathUnspecified
  | Remote => entry_path r ≠ PathUnspecified
  | SourceUnspecified => False
  end.

Lemma word_no_space s : word s → string_all no_space s = true.
Proof. apply string_all_impl. intros c [Hc _]%andb_true_iff. done. Qed.
Lemma word_not_lf s : word s → string_all not_lf s = true.
Proof. apply string_all_impl. intros c [_ Hc]%andb_true_iff. done. Qed.

Lemma digits_word s : string_all is_digit s = true → word s.
Proof.
  apply string_all_impl. intros c Hc.
  destruct c as [[] [] [] [] [] [] [] []]; vm_compute in Hc |- *; done.
Qed.
Lemma addr_word s : string_all addr_char s = true → word s.
Proof.
  apply string_all_impl. intros c Hc.
  destruct c as [[] [] [] [] [] [] [] []]; vm_compute in Hc |- *; done.
Qed.
Lemma cidr_word s : string_all cidr_char s = true → word s.
Proof.
  apply string_all_impl. intros c Hc.
  destruct c as [[] [] [] [] [] [] [] []]; vm_compute in Hc |- *; done.
Qed.

Lemma peer_word r : is_uint 32 (entry_peer_id r) → word (peer_text r).
Proof.
  intros [H0 _]. unfold peer_text. destruct (_ =? _); [done|]. by apply digits_word, show_uint_digits.
Qed.
Lemma via_word r : word (entry_via r) → word (via_text r).
Proof. unfold via_text. by destruct (bool_decide _). Qed.

Lemma read_peer r : is_uint 32 (entry_peer_id r) →
  (if bool_decide (peer_text r = "-") then Some 0 else parse_uint 32 (peer_text r)) = Some (entry_peer_id r).
Proof.
  intros Hi. unfold peer_text. destruct (Z.eqb_spec (entry_peer_id r) 0) as [->|]; [done|].
  rewrite bool_decide_false, parse_show_uint; [done|lia|done|].
  destruct (show_uint_head (entry_peer_id r)) as (d & s & Hd & ->); [apply Hi|].
  intros [= E _]. unfold digit_char in E. apply (f_equal nat_of_ascii) in E.
  rewrite nat_ascii_embedding in E by lia. change (nat_of_ascii "-") with 45%nat in E. lia.
Qed.

Lemma read_via r : entry_via r ≠ "-" →
  (if bool_decide (via_text r = "-") then "" else via_text r) = entry_via r.
Proof.
  intros Hv. unfold via_text. destruct (bool_decide (entry_via r = "")) eqn:E.
  - by apply bool_decide_eq_true in E.
  - by rewrite bool_decide_false.
Qed.

Lemma next_word_cons w rest :
  string_all no_space w = true → next_word (w +:+ String " " rest) = (w, skip rest).
Proof. intros Hw. exact (next_word_spaces w 0 rest Hw). Qed.

Definition starts (s : string) : bool :=
  match s with String c _ => no_space c | EmptyString => false end.

Lemma skip_starts s rest : starts s = true → skip (s +:+ rest) = s +:+ rest.
Proof.
  destruct s as [|c s]; [done|]. cbn [starts]. intros Hc.
  change (String c s +:+ rest) with (String c (s +:+ rest)). cbn [skip].
  unfold no_space in Hc. by destruct (bool_decide _).
Qed.

Lemma word_starts w : string_all no_space w = true → w ≠ "" → starts w = true.
Proof. destruct w as [|c w]; [done|]. cbn [string_all]. by intros [Hc _]%andb_true_iff _. Qed.

(** The next column, whatever follows. *)
Lemma skip_column n s rest : starts s = true → skip (pad n s +:+ rest) = pad n s +:+ rest.
Proof. intros Hs. unfold pad. rewrite !string_app_assoc. by apply skip_starts. Qed.

Lemma read_path_text r : row_ok r →
  read_path (pad 30 (path_text r) +:+ " " +:+ reject_reason r) =
    Some (entry_path r, path_addr r, reject_reason r).
Proof.
  intros (_ & _ & _ & _ & Ha & [Hr _] & _ & Hd & Hs). unfold read_path, path_text.
  assert (Hne : entry_path r ≠ Direct → path_addr r = "").
  { intros Hp. destruct (decide (path_addr r = "")); [done|]. tauto. }
  destruct (entry_source r); [| |done].
  - rewrite Hs, next_word_pad by done. rewrite Hr, Hne by congruence. done.
  - destruct (entry_path r) eqn:Hp; [| | |done].
    + unfold pad. rewrite !string_app_assoc.
      change ("direct " +:+ ?x) with ("direct" +:+ String " " x). rewrite next_word_cons by done.
      rewrite skip_starts by (apply word_starts; [by apply word_no_space|tauto]).
      cbn [bool_decide decide_rel]. rewrite next_word_spaces by (by apply word_no_space). by rewrite Hr.
    + rewrite Hne by done. unfold pad. rewrite string_app_assoc.
      change ("relay (derper)" +:+ ?x) with ("relay" +:+ String " " ("(derper)" +:+ x)).
      rewrite next_word_cons by done. rewrite skip_starts by done.
      rewrite next_word_spaces by done. by rewrite Hr.
    + rewrite next_word_pad by done. by rewrite Hr, Hne.
Qed.

Lemma read_route_row r : row_ok r → read_row (route_row r) = Some r.
Proof.
  intros Hok. pose proof (read_path_text r Hok) as Hpath.
  destruct Hok as (Hc & Hi & Hv & Hdash & _ & _ & Hst & _ & Hs).
  assert (peer_text r ≠ "") as Hpeer.
  { unfold peer_text. destruct (_ =? _); [done|]. apply show_uint_ne, Hi. }
  assert (via_text r ≠ "") as Hvia.
  { unfold via_text. by destruct (bool_decide (entry_via r = "")) eqn:E;
      [|apply bool_decide_eq_false in E]. }
  pose proof (word_no_space _ (peer_word r Hi)). pose proof (word_no_space _ (via_word r Hv)).
  unfold read_row, route_row, columns.
  rewrite next_word_pad by (by apply word_no_space).
  rewrite skip_column, next_word_pad by (by destruct (entry_source r)).
  rewrite skip_column, next_word_pad by (done || by apply word_starts).
  rewrite skip_column, next_word_pad by (done || by apply word_starts).
  rewrite skip_column, next_word_pad by (by destruct (entry_state r)).
  rewrite skip_column by (unfold path_text; destruct (entry_source r), (entry_path r); done).
  rewrite Hpath, (read_peer r Hi), (read_via r Hdash). destruct r as [c s i v st rr p a].
  cbn [entry_source entry_state] in *. by destruct s, st.
Qed.

Lemma spaces_not_lf n : string_all not_lf (spaces n) = true.
Proof. induction n as [|n IH]; [done|exact IH]. Qed.
Lemma pad_not_lf n s : string_all not_lf s = true → string_all not_lf (pad n s) = true.
Proof. intros Hs. unfold pad. by rewrite string_all_app, Hs, spaces_not_lf. Qed.

Lemma columns_not_lf a b c d e f g :
  Forall (λ s, string_all not_lf s = true) [a; b; c; d; e; f; g] →
  string_all not_lf (columns a b c d e f g) = true.
Proof.
  rewrite !Forall_cons. intros (? & ? & ? & ? & ? & ? & Hg & _). unfold columns.
  rewrite !string_all_app, Hg, !pad_not_lf by done. done.
Qed.

Lemma route_row_not_lf r : row_ok r → string_all not_lf (route_row r) = true.
Proof.
  intros (Hc & Hi & Hv & _ & Ha & [_ Hr] & _). apply columns_not_lf.
  assert (string_all not_lf (path_text r) = true).
  { unfold path_text. destruct (entry_source r), (entry_path r); try done; exact (word_not_lf _ Ha). }
  rewrite !Forall_cons. split_and!; auto using word_not_lf, peer_word, via_word.
  - by destruct (entry_source r).
  - by destruct (entry_state r).
Qed.

Lemma lines_unlines l : Forall (λ s, string_all not_lf s = true) l → lines (unlines l) = l.
Proof. induction 1 as [|s l Hs _ IH]; [done|].
  change (unlines (s :: l)) with (s +:+ String LF (unlines l)). by rewrite lines_cons, IH.
Qed.

(** What a listing has to be for the table to be read back. *)
Record printable (r : ListRoutesResponse) : Prop := MkPrintable {
  rows_ok : Forall row_ok (routes r);
  platform_word : word (platform r);
  platform_ne : platform r ≠ "";
  consumer_no_nat : can_advertise r = false → nat_applied r = false;
}.

Lemma preamble_lines r : printable r → Forall (λ s, string_all not_lf s = true) (preamble r).
Proof.
  intros [_ Hp _ _]. unfold preamble. repeat rewrite Forall_app. split_and!; [|by destruct (can_advertise r), (nat_applied r); repeat constructor|by repeat constructor].
  apply Forall_cons; split; [|by destruct (accept_routes r); repeat constructor].
  rewrite !string_all_app, (word_not_lf _ Hp). by destruct (can_advertise r).
Qed.

Lemma read_first r : printable r →
  next_word (next_word ("platform:      " +:+ platform r +:+ " — " +:+
    (if can_advertise r then ADVERTISER else CONSUMER))).2 =
  (platform r, "— " +:+ (if can_advertise r then ADVERTISER else CONSUMER)).
Proof.
  intros [_ Hp%word_no_space Hne _].
  change ("platform:      " +:+ ?x) with ("platform:" +:+ spaces 5 +:+ " " +:+ x).
  rewrite next_word_spaces by done. cbn [snd]. rewrite skip_starts by (by apply word_starts).
  change (" — " +:+ ?x) with (String " " ("— " +:+ x)). rewrite next_word_cons by done.
  by rewrite skip_starts.
Qed.

Lemma read_rows l : Forall row_ok l → read_body (table l) = Some l.
Proof.
  intros Hl. destruct l as [|e l]; [done|]. change (mapM read_row (map route_row (e :: l)) = Some (e :: l)).
  apply mapM_fmap_Forall_Some. eapply Forall_impl; [exact Hl|exact read_route_row].
Qed.

Lemma read_rendered r : printable r → read_route_list (render_route_list r) = Some r.
Proof.
  intros Hr. unfold read_route_list, render_route_list. rewrite lines_unlines.
  2:{ apply Forall_app; split; [by apply preamble_lines|]. pose proof (rows_ok _ Hr) as Hrows.
      destruct (routes r) as [|e l]; [by repeat constructor|]. apply Forall_cons; split; [done|].
      apply Forall_map. eapply Forall_impl; [exact Hrows|exact route_row_not_lf]. }
  unfold preamble. cbn [app]. rewrite (read_first r Hr).
  pose proof (read_rows _ (rows_ok _ Hr)) as Hrows. pose proof (consumer_no_nat _ Hr) as Hnat.
  destruct r as [l can plat acc nat]. cbn [routes can_advertise platform accept_routes nat_applied] in *.
  destruct can; cbn [app tail].
  - rewrite !bool_decide_true by done. rewrite Hrows. by destruct acc, nat.
  - rewrite Hnat by done. rewrite (bool_decide_false (_ = _)) by done. rewrite Hrows. by destruct acc.
Qed.

Section listing_facts.
Context {CA : CidrApi} {CL : CidrLaws} {KA : KeyApi} {TA : TunnApi} {S : Type} {TS : TunnelSession S}.

(** Addresses and ids of the sizes their types have. *)
Definition known_ok (d : NoeioDaemon.NoeioDaemon S) : Prop :=
  (∀ l p, NoeioDaemon.peer_at d l = Some p →
     ip_wf (PeerInfo.noeio_ip (Peer.info p)) ∧ ∀ a, Peer.address p = Some a → sock_wf a) ∧
  Forall (λ dec, is_uint 32 (peer_id dec)) (NoeioDaemon.decisions d).

Lemma show_ip_word_chars i : ip_wf i → string_all addr_char (show_ip i) = true.
Proof. destruct i; cbn; [apply show_ipv4_chars|intros _; apply show_ipv6_chars]. Qed.

Lemma local_row_ok c : row_ok (local_entry c).
Proof.
  unfold row_ok. cbn. split_and!; try done. by apply cidr_word, cidr_to_string_chars.
Qed.

Lemma remote_row_ok (d : NoeioDaemon.NoeioDaemon S) dec :
  known_ok d → is_uint 32 (peer_id dec) → row_ok (remote_entry d dec).
Proof.
  intros [Hk _] Hi. unfold remote_entry.
  assert (∃ state reason, (match rejected dec with
      | None => (Active, "")
      | Some Standby => (StandbyState, show_rejection Standby)
      | Some why => (RejectedState, show_rejection why)
      end) = (state, reason) ∧ state ≠ StateUnspecified ∧ skip reason = reason ∧
        string_all not_lf reason = true) as (state & reason & -> & Hs & Hr1 & Hr2)
    by (destruct (rejected dec) as [[]|]; by eexists _, _).
  assert (word (cidr_to_string (cidr dec))) by apply cidr_word, cidr_to_string_chars.
  destruct (_ ← _; _) as [p|] eqn:Hp.
  - destruct (Router.get_by_peer_id _ _) as [l|]; [|done]. cbn in Hp.
    destruct (Hk l p Hp) as [Hip Hsock]. pose proof (show_ip_word_chars _ Hip) as Hvia.
    assert (show_ip (PeerInfo.noeio_ip (Peer.info p)) ≠ "-") by (by intros E; rewrite E in Hvia).
    destruct (Peer.address p) as [a|]; unfold row_ok; cbn; split_and!; auto using addr_word.
    + by apply addr_word, show_sock_chars, Hsock.
    + split; [intros _; by apply show_sock_ne, Hsock|done].
    + done.
  - unfold row_ok; cbn. by split_and!.
Qed.

Lemma listing_printable pf nat (d : NoeioDaemon.NoeioDaemon S) :
  known_ok d → word (platform_name pf) → platform_name pf ≠ "" →
  (platform_can_advertise pf = false → nat = None) →
  printable (list_routes_response pf nat d).
Proof.
  intros Hk Hw Hne Hn. split; cbn; [|done|done|by intros ->%Hn].
  apply Forall_app; split; apply Forall_map.
  - apply Forall_forall. intros c _. apply local_row_ok.
  - eapply Forall_impl; [apply Hk|]. intros dec. by apply remote_row_ok.
Qed.
End listing_facts.

(** C37. The table [route list] prints tells the operator everything the daemon
    answered: it can be read back, row by row and column by column, to the very
    response, whatever the widths of the columns and the addresses in them, so two
    answers that differ in a prefix, its source, its peer, the way to it, its state, its
    path or the reason it is not installed print differently. On a platform that may
    not advertise the line about the NAT is missing, and there is none. *)
Theorem route_list_readable {CA : CidrApi} {CL : CidrLaws} {KA : KeyApi} {TA : TunnApi} {S}
    {TS : TunnelSession S} pf nat (d : NoeioDaemon.NoeioDaemon S)
    (Hd : known_ok d) (Hw : word (platform_name pf)) (Hne : platform_name pf ≠ "")
    (Hn : platform_can_advertise pf = false → nat = None) :
  read_route_list (render_route_list (list_routes_response pf nat d)) =
    Some (list_routes_response pf nat d).
Proof. by apply read_rendered, listing_printable. Qed.

Module Listing.
Import Daemon.Example.
(** A peer that advertises a prefix, and one of our own. *)
Definition routed : PeerInfo := PeerInfo.with_advertised_routes ex_info [Routes.lan24].
Definition told : NoeioDaemon.NoeioDaemon UdpTunnelSession := (NoeioDaemon.apply_sync_route start routed 12).1.
Definition busy : NoeioDaemon.NoeioDaemon UdpTunnelSession :=
  NoeioDaemon.refresh_subnets (NoeioDaemon.set_advertised told 5 [cidr_new (ipv4 172 20 0 0) 16]) [].

Lemma busy_known : known_ok busy.
Proof.
  split.
  - intros l p Hl. assert (∃ q, Router.heap (NoeioDaemon.router busy) = {[ 0%nat := q ]} ∧
      PeerInfo.noeio_ip (Peer.info q) = IpV4 (ipv4 110 20 0 1) ∧ Peer.address q = None)
      as (q & Hq & Hip & Ha) by (eexists; split; [reflexivity|by split]).
    unfold NoeioDaemon.peer_at in Hl. rewrite Hq in Hl. apply lookup_singleton_Some in Hl as [_ <-].
    rewrite Hip, Ha. by split.
  - apply (bool_decide_unpack _). vm_compute. exact I.
Qed.
End Listing.

Lemma route_list_readable_witness :
  read_route_list (render_route_list (list_routes_response Routes.linux None Listing.busy)) =
    Some (list_routes_response Routes.linux None Listing.busy).
Proof. apply (route_list_readable Routes.linux None Listing.busy); [exact Listing.busy_known|done..]. Defined.

Example busy_table :
  drop 4 (lines (render_route_list (list_routes_response Routes.linux None Listing.busy))) =
  ["CIDR                 SOURCE  PEER        VIA              STATE     PATH                           REASON";
   "172.20.0.0/16        local   -           -                active    -                              ";
   "192.168.10.0/24      remote  11          110.20.0.1       active    relay (derper)                 "].
Proof. vm_compute. reflexivity. Qed.

(** *** The route commands *)

Section command_facts.
Context {CA : CidrApi} {CL : CidrLaws} {KA : KeyApi} {TA : TunnApi} {U : UuidApi} {S : Type} {TS : TunnelSession S}.

Lemma set_advertised_known (d : NoeioDaemon.NoeioDaemon S) now set :
  known_ok d → known_ok (NoeioDaemon.set_advertised d now set).
Proof. unfold NoeioDaemon.set_advertised. by destruct (decide _). Qed.

Definition own_prefixes (l : ListRoutesResponse) : list string :=
  map entry_cidr (List.filter (λ r, match entry_source r with Local => true | _ => false end) (routes l)).

Lemma own_prefixes_listing pf nat (d : NoeioDaemon.NoeioDaemon S) :
  own_prefixes (list_routes_response pf nat d) = advertised_strings d.
Proof.
  unfold own_prefixes, list_routes_response, list_routes, advertised_strings. cbn [routes].
  rewrite List.filter_app, map_app.
  assert (List.filter (λ r, match entry_source r with Local => true | _ => false end)
    (map (remote_entry d) (NoeioDaemon.decisions d)) = []) as ->.
  { induction (NoeioDaemon.decisions d) as [|dec l IH]; [done|]. cbn [map List.filter].
    replace (entry_source (remote_entry d dec)) with Remote; [exact IH|].
    unfold remote_entry. by destruct (_ ← _; _) as [p|]; [destruct (Peer.address p)|];
      destruct (rejected dec) as [[]|]. }
  rewrite app_nil_r. induction (NoeioDaemon.advertised d) as [|c l IH]; [done|]. cbn. by rewrite <-IH.
Qed.
End command_facts.

(** [noeio route advertise] exits with 0 exactly when it names a prefix and every one it
    names passed the admission check; then the daemon advertises them beside the old ones, prints the whole
    set, and a [route list] after it shows that very set as its own, in a table that
    can be read back. A refusal exits with 1, says why on standard error only and
    changes nothing; so does every command while the daemon cannot be reached, except
    that [create] and [netcheck] panic instead of exiting. *)
Theorem route_commands {CA : CidrApi} {CL : CidrLaws} {KA : KeyApi} {TA : TunnApi} {U : UuidApi} {S}
    {TS : TunnelSession S} pf nat tun now id (d : NoeioDaemon.NoeioDaemon S) cidrs
    (Hd : known_ok d) (Hw : word (platform_name pf)) (Hne : platform_name pf ≠ "")
    (Hn : platform_can_advertise pf = false → nat = None) :
  (match main pf nat tun now id None d (Route (Advertise cidrs)) with
   | (d', Exit 0 out err) =>
       cidrs ≠ [] ∧ err = "" ∧ out = print_advertised (advertised_strings d') ∧
       (∀ c, c ∈ NoeioDaemon.advertised d' ↔ c ∈ NoeioDaemon.advertised d ∨
          ∃ raw, raw ∈ cidrs ∧ validate_advertisement pf raw (protected_of d) = Ok c) ∧
       (∀ raw, raw ∈ cidrs → ∃ c, validate_advertisement pf raw (protected_of d) = Ok c) ∧
       ∃ table listing, main pf nat tun now id None d' (Route List) = (d', Exit 0 table "") ∧
         read_route_list table = Some listing ∧ own_prefixes listing = advertised_strings d'
   | (d', Exit code out _) => code = 1 ∧ d' = d ∧ out = "" ∧
       (cidrs = [] ∨ ∃ raw e, raw ∈ cidrs ∧ validate_advertisement pf raw (protected_of d) = Err e)
   | (_, Panicked) => False
   end) ∧
  ∀ why c, main pf nat tun now id (Some why) d c =
    (d, match c with
        | Route _ => Exit 1 "" (unlines ["failed to connect to daemon: " +:+ why; "Is `noeio boot` running?"])
        | _ => Panicked
        end).
Proof.
  split; [|by intros why []]. cbn [main].
  unfold client_advertise, client_list, advertise_route, advertise_write.
  destruct (advertise_read pf d cidrs) as [set|st] eqn:Hr; cbn [render_status].
  - destruct (set_advertised_spec d now set) as (Ha & _ & _).
    apply advertise_read_Ok in Hr as (Hne' & _ & Hall & Hin). rewrite Ha. split_and!; [done|done|done|done|done|].
    eexists _, _. split; [reflexivity|]. split; [|apply (own_prefixes_listing pf nat)].
    by apply read_rendered, listing_printable, Hn; [apply set_advertised_known|..].
  - apply advertise_read_Err in Hr as [Hr _]. by split_and!.
Qed.

Lemma route_commands_witness :
  ∃ d' out, main Routes.linux None (λ _, Err "no tun") 9 1 None Listing.busy
    (Route (Advertise ["10.1.0.0/16"])) = (d', Exit 0 out "") ∧
  out = line "advertising: 172.20.0.0/16, 10.1.0.0/16" ∧
  ∃ table listing, main Routes.linux None (λ _, Err "no tun") 9 1 None d' (Route List) = (d', Exit 0 table "") ∧
    read_route_list table = Some listing ∧
    own_prefixes listing = ["172.20.0.0/16"; "10.1.0.0/16"].
Proof.
  pose proof (route_commands Routes.linux None (λ _, Err "no tun") 9 1 Listing.busy ["10.1.0.0/16"]
    Listing.busy_known eq_refl ltac:(done) ltac:(done)) as [H _].
  assert (E : (main Routes.linux None (λ _, Err "no tun") 9 1 None Listing.busy
    (Route (Advertise ["10.1.0.0/16"]))).2 = Exit 0 (line "advertising: 172.20.0.0/16, 10.1.0.0/16") "")
    by (vm_compute; reflexivity).
  assert (Ea : advertised_strings (main Routes.linux None (λ _, Err "no tun") 9 1 None Listing.busy
    (Route (Advertise ["10.1.0.0/16"]))).1 = ["172.20.0.0/16"; "10.1.0.0/16"])
    by (vm_compute; reflexivity).
  destruct (main Routes.linux None (λ _, Err "no tun") 9 1 None Listing.busy
    (Route (Advertise ["10.1.0.0/16"]))) as [d' o]. cbn [fst snd] in E, Ea. subst o.
  destruct H as (_ & _ & _ & _ & _ & table & listing & H1 & H2 & H3).
  exists d', (line "advertising: 172.20.0.0/16, 10.1.0.0/16"). split; [done|]. split; [done|].
  exists table, listing. rewrite <-Ea. by split_and!.
Defined.

(** *** Creating an interface *)

Section vnic_facts.
Context {CA : CidrApi} {CL : CidrLaws} {KA : KeyApi} {TA : TunnApi} {U : UuidApi} {S : Type} {TS : TunnelSession S}.

Lemma rename_peer_Some ip id l l' :
  NoeioDaemon.rename_peer ip id l = Some l' →
  ∃ l1 p l2, l = (l1 ++ p :: l2)%list ∧ PeerInfo.noeio_ip p = ip ∧
    l' = (l1 ++ PeerInfo.MkPeerInfo (PeerInfo.resource_version p) id (PeerInfo.noeio_ip p)
             (PeerInfo.network_id p) (PeerInfo.nat_type p) (PeerInfo.nat_addr p)
             (PeerInfo.local_addrs p) (PeerInfo.advertised_routes p) (PeerInfo.withdrawn p) :: l2)%list.
Proof.
  revert l'. induction l as [|p l IH]; intros l'; cbn; [done|]. destruct (decide _) as [Hp|Hp].
  - intros [= <-]. by exists [], p, l.
  - destruct (NoeioDaemon.rename_peer ip id l) as [r|]; [|done]. intros [= <-].
    destruct (IH r eq_refl) as (l1 & q & l2 & -> & Hq & ->). by exists (p :: l1), q, l2.
Qed.

Lemma rename_peer_None ip id l :
  NoeioDaemon.rename_peer ip id l = None → ∀ p, p ∈ l → PeerInfo.noeio_ip p ≠ ip.
Proof.
  induction l as [|p l IH]; cbn; [by intros _ p ?%not_elem_of_nil|]. destruct (decide _) as [|Hp]; [done|].
  destruct (NoeioDaemon.rename_peer ip id l); [done|]. intros _ q [->|Hq]%elem_of_cons; [done|by apply IH].
Qed.
End vnic_facts.

(** [create vnic]. It succeeds exactly for a good address and network on a machine
    that gives it an interface, once the host's own address is known; the interface is
    then registered under the fresh id and the next report names that id at that
    address. A refused address, interface or network changes nothing. But before the first
    STUN answer it fails with the interface already registered: it stays, routes
    are installed through it, nobody reads what the host sends into it, and no later report
    ever names it. And an address that is already reported keeps the network it was
    reported in, whatever the request says: success in another network reports the new
    id under the old one. *)
Theorem vnic_created {CA : CidrApi} {KA : KeyApi} {TA : TunnApi} {U : UuidApi} {S}
    {TS : TunnelSession S} tun id (d : NoeioDaemon.NoeioDaemon S) req ip name index network :
  parse_ipv4 (vnic_ip req) = Some ip → tun ip = Ok (name, index) →
  uuid_parse (vnic_network_id req) = Some network →
  (∀ req', parse_ipv4 (vnic_ip req') = None ∨ uuid_parse (vnic_network_id req') = None →
     (create_virtual_nic tun id d req').1 = d ∧ is_err (create_virtual_nic tun id d req').2 = true) ∧
  let '(d', r) := create_virtual_nic tun id d req in
  NicManager.get (NoeioDaemon.nics d') id = Some (MkNic (IpV4 ip) name index []) ∧
  match NoeioDaemon.host_info d with
  | Some h =>
      r = Ok name ∧
      ∃ h' p, NoeioDaemon.host_info d' = Some h' ∧ p ∈ HostInfo.peers h' ∧
        PeerInfo.peer_id p = id ∧ PeerInfo.noeio_ip p = IpV4 ip ∧
        ((∀ q, q ∈ HostInfo.peers h → PeerInfo.noeio_ip q ≠ IpV4 ip) →
           HostInfo.peers h' = (HostInfo.peers h ++ [p])%list ∧ PeerInfo.network_id p = network) ∧
        ((∃ q, q ∈ HostInfo.peers h ∧ PeerInfo.noeio_ip q = IpV4 ip) →
           PeerInfo.network_id <$> HostInfo.peers h' = PeerInfo.network_id <$> HostInfo.peers h)
  | None =>
      r = Err (MkStatus FailedPrecondition "host info not initialized") ∧
      ∀ now hostname addr, ∃ h', NoeioDaemon.host_info (NoeioDaemon.on_stun d' now hostname addr) = Some h' ∧
        HostInfo.peers h' = []
  end.
Proof.
  intros Hip Htun Hnet. split.
  { intros req'. unfold create_virtual_nic, NoeioDaemon.register_nic, PeerInfo.new.
    destruct (parse_ipv4 (vnic_ip req')) as [ip'|]; [|done]. intros [H|H]; [done|]. rewrite H.
    by destruct (tun ip') as [[]|]. }
  unfold create_virtual_nic. rewrite Hip, Htun.
  unfold NoeioDaemon.register_nic, PeerInfo.new. rewrite Hnet. cbn [ok_or].
  unfold NoeioDaemon.add_peer.
  cbn [nic_ip NoeioDaemon.host_info NoeioDaemon.notify NoeioDaemon.set_nics PeerInfo.noeio_ip
    PeerInfo.peer_id PeerInfo.with_advertised_routes].
  destruct (NoeioDaemon.host_info d) as [h|] eqn:Hh.
  - split; [apply lookup_insert_eq|]. split; [done|].
    cbn [NoeioDaemon.set_host NoeioDaemon.host_info].
    destruct (NoeioDaemon.rename_peer _ _ _) as [l|] eqn:Hren.
    + apply rename_peer_Some in Hren as (l1 & q & l2 & Hl & Hq & ->).
      assert (q ∈ HostInfo.peers h) by (rewrite Hl; apply elem_of_app; right; left).
      eexists _, _. split; [reflexivity|]. split; [apply elem_of_app; right; left|].
      split_and!; [done|done|by intros Hno; destruct (Hno q)|].
      intros _. cbn [HostInfo.peers HostInfo.with_networks]. rewrite Hl, !fmap_app. done.
    + pose proof (rename_peer_None _ _ _ Hren) as Hno.
      eexists _, _. split; [reflexivity|]. split; [apply elem_of_app; right; left|].
      split_and!; [done|done|done|]. intros (q & Hq & Hqip). by destruct (Hno q).
  - split; [apply lookup_insert_eq|]. split; [done|]. intros now hostname addr.
    unfold NoeioDaemon.on_stun. cbn [NoeioDaemon.host_info NoeioDaemon.notify NoeioDaemon.set_nics].
    rewrite Hh. eexists. by split.
Qed.

Module Vnic.
Import Daemon.Example.
Definition net_a : string := "0a1b2c3d4e5f60718293a4b5c6d7e8f9".
Definition req : CreateVirtualNicRequest := MkCreateVnic "110.20.0.9" "v4" net_a.
Definition tun (_ : Z) : result (string * Z) string := Ok ("noeio0", 3).
End Vnic.

(** Before the first STUN answer. *)
Lemma vnic_created_witness :
  ∃ d', create_virtual_nic Vnic.tun 77 Daemon.Example.start Vnic.req =
    (d', Err (MkStatus FailedPrecondition "host info not initialized")) ∧
  NicManager.get (NoeioDaemon.nics d') 77 = Some (MkNic (IpV4 (ipv4 110 20 0 9)) "noeio0" 3 []).
Proof.
  destruct (uuid_parse (vnic_network_id Vnic.req)) as [network|] eqn:Hn; [|discriminate].
  destruct (vnic_created Vnic.tun 77 Daemon.Example.start Vnic.req (ipv4 110 20 0 9) "noeio0" 3 network)
    as [_ H]; [reflexivity|reflexivity|exact Hn|].
  destruct (create_virtual_nic Vnic.tun 77 Daemon.Example.start Vnic.req) as [d' r].
  destruct H as (Hnic & -> & _). by exists d'.
Defined.

(** *** Which relay the latencies choose *)

Lemma resolved_rtt e r : DerperEntry.resolved e = Some r → r_rtt_ms r = DerperEntry.rtt e.
Proof.
  unfold DerperEntry.resolved, DerperEntry.rtt. destruct (DerperEntry.addr e); [|done].
  by intros [= <-].
Qed.

(** The list [netcheck] prints is the configured relays that resolved, in order,
    and the one in use is among them; after a ranking turn with any relay measured it is
    one with the smallest latency printed. But a latency under a millisecond is kept as 0,
    which the answer also uses for a relay nobody has measured: the relay in use is then
    printed with a dash, as if it did not answer. *)
Theorem net_check_choice {CA : CidrApi} {KA : KeyApi} {TA : TunnApi} {U : UuidApi} {S}
    {TS : TunnelSession S} (d : NoeioDaemon.NoeioDaemon S) m r :
  NoeioDaemon.derper d = DerperManager.rank_turn m → DerperManager.current (NoeioDaemon.derper d) = Some r →
  let l := DerperManager.list_ (NoeioDaemon.derper d) in
  r ∈ l ∧
  (∀ r' ms', r' ∈ l → r_rtt_ms r' = Some ms' → ∃ ms, r_rtt_ms r = Some ms ∧ ms ≤ ms') ∧
  (∀ a, a ∈ net_check d → ∃ r', r' ∈ l ∧ rtt_address a = r_address r' ∧
     rtt_line a = r_address r' +:+ String "009" (match r_rtt_ms r' with
       | None => "-"
       | Some ms => if ms =? 0 then "-" else show_uint ms +:+ "ms"
       end)).
Proof.
  intros Hd. unfold net_check. rewrite Hd. intros Hcur. cbv zeta. cbn in Hcur.
  unfold DerperManager.list_. change (DerperManager.entries (DerperManager.rank_turn m)) with (DerperManager.entries m).
  set (es := DerperManager.entries m) in *.
  split_and!.
  - pose proof (best_spec es) as Hb. destruct (min_by_key fst (measured es)) as [[t q]|].
    + destruct Hb as (Hq & (e & He & _ & Hr)%elem_measured & _). rewrite Hcur in Hq. injection Hq as <-.
      apply list_elem_of_omap. eauto.
    + destruct Hb as [Hq _]. rewrite Hcur in Hq. symmetry in Hq. apply head_omap_Some in Hq as (e & He & Hr).
      apply list_elem_of_omap. eauto.
  - intros r' ms' (e & He & Hr)%list_elem_of_omap Hms. rewrite (resolved_rtt e r' Hr) in Hms.
    assert (Hin : (ms', r') ∈ measured es) by (apply elem_measured; eauto).
    pose proof (best_spec es) as Hb. destruct (min_by_key fst (measured es)) as [[t q]|].
    + destruct Hb as (Hq & (e' & _ & Ht & Hr')%elem_measured & Hle). rewrite Hcur in Hq. injection Hq as <-.
      exists t. split; [by rewrite (resolved_rtt e' r Hr')|by eapply Hle].
    + destruct Hb as [_ E]. rewrite E in Hin. by apply not_elem_of_nil in Hin.
  - intros a (r' & -> & Hr)%list_elem_of_fmap. exists r'. split; [exact Hr|]. split; [done|].
    unfold rtt_line. cbn [rtt_ms rtt_address]. destruct (r_rtt_ms r') as [ms|]; [|done].
    change (default 0 (Some ms)) with ms. by destruct (ms =? 0).
Qed.

Module Relays.
(** Two measured relays, one on the same network. *)
Definition entry (name : string) (port ms : Z) : DerperEntry :=
  DerperEntry.MkEntry name "" (Some (SockV4 (ipv4 198 51 100 1) port)) ms 0 None 0.
Definition ranked : DerperManager :=
  DerperManager.rank_turn (DerperManager.new [entry "far:1" 1 30; entry "near:2" 2 0]).
Definition node : NoeioDaemon.NoeioDaemon UdpTunnelSession :=
  NoeioDaemon.MkDaemon ∅ ranked None Router.new false [] [] [] ∅ true.
End Relays.

Lemma net_check_choice_witness :
  DerperManager.current Relays.ranked =
    Some (MkResolved "near:2" "" (SockV4 (ipv4 198 51 100 1) 2) (Some 0)) ∧
  MkResolved "near:2" "" (SockV4 (ipv4 198 51 100 1) 2) (Some 0) ∈ DerperManager.list_ Relays.ranked ∧
  map rtt_line (net_check Relays.node) =
    ["far:1" +:+ String "009" "30ms"; "near:2" +:+ String "009" "-"].
Proof.
  split; [reflexivity|]. split; [|reflexivity].
  apply (net_check_choice Relays.node (DerperManager.new [Relays.entry "far:1" 1 30; Relays.entry "near:2" 2 0])
    (MkResolved "near:2" "" (SockV4 (ipv4 198 51 100 1) 2) (Some 0))); reflexivity.
Defined.
