(* ===== verification/TokenCli.v ===== *)
(** The [token] commands of [noeio-derp]: [main.rs] and [cli.rs] over the handlers of
    [Token], from the lifetime an operator types to what is printed. *)

From Stdlib Require Import ZArith Lia.
From Stdlib Require Import Strings.String Strings.Ascii.
From stdpp Require Import base list strings.
From S2P Require Import Prelude Text NetTypes HostInfo HostCodec CodecModel Token Console.

Local Open Scope string_scope.
Local Open Scope Z_scope.

(** ** Output *)

Inductive OutputFormat : Type := OText | OJson | OYaml | OToml.

Record TokenOutput : Type := MkTokenOutput { out_token : string; expires_at : option Z }.

Definition from_response (r : CreateTokenResponse) : TokenOutput :=
  MkTokenOutput (ct_token r) (ct_expires_at r).

(** The serializers of [serde_json] and [toml], which print or fail, and [tonic]'s text
    for a call that failed with a status or without one. *)
Class CliTexts : Type := {
  to_json_pretty : TokenOutput → result string string;
  to_toml_pretty : TokenOutput → result string string;
  show_status : option Status → string;
}.

(** The [Display] of [ParseIntError] for a text [parse_uint] refuses. *)
Fixpoint digits_error (w acc : Z) (s : string) : string :=
  match s with
  | EmptyString => ""
  | String c s =>
      match digit_val c with
      | None => "invalid digit found in string"
      | Some d => if acc * 10 + d <? 2 ^ w then digits_error w (acc * 10 + d) s
                  else "number too large to fit in target type"
      end
  end.
Definition int_error (w : Z) (s : string) : string :=
  match s with
  | EmptyString => "cannot parse integer from empty string"
  | String c t =>
      if bool_decide (c = "+"%char)
      then match t with
           | EmptyString => "invalid digit found in string"
           | _ => digits_error w 0 t
           end
      else digits_error w 0 s
  end.

(** [parse_ttl]'s messages; the number is what stands before the unit, if there is one. *)
Definition show_ttl_error (e : TtlError) : string :=
  match e with
  | EmptyDuration => "empty duration"
  | InvalidDuration s =>
      "invalid duration '" +:+ s +:+ "': " +:+
      int_error 64 (if string_all is_digit s then s
                    else match split_last s with Some (value, _) => value | None => "" end)
  | InvalidUnit unit => "invalid duration unit '" +:+ unit +:+ "', expected s/m/h/d"
  end.

Section commands.
Context {U : UuidApi} {J : JwtApi} {CT : CliTexts}.

(** [TokenOutput::print]: standard output and standard error. *)
Definition print (o : TokenOutput) (f : OutputFormat) : result (string * string) string :=
  match f with
  | OText =>
      Ok (line (out_token o),
          match expires_at o with
          | Some exp => line ("expires_at (unix): " +:+ show_uint exp)
          | None => line "expires_at: never"
          end)
  | OJson => let? s := to_json_pretty o in Ok (line s, "")
  | OYaml =>
      Ok (line ("token: " +:+ out_token o) +:+
          match expires_at o with
          | Some exp => line ("expires_at: " +:+ show_uint exp)
          | None => line "expires_at: null"
          end, "")
  | OToml => let? s := to_toml_pretty o in Ok (s, "")
  end.

Definition not_reachable (err : string) : Outcome :=
  Exit 1 "" (unlines ["failed to connect to derper: " +:+ err; "Have you started the derper service?"]).

(** [token create] against a relay that is reachable with [auth] or is not. *)
Definition token_create (checks : bool) (now : Z) (relay : result Auth string) (network : string)
    (ttl : option string) (f : OutputFormat) : Outcome :=
  match (match ttl with
         | None => Some (Ok None)
         | Some s => r ← parse_ttl checks s;
                     Some (match r with Ok secs => Ok (Some secs) | Err e => Err e end)
         end : option (result (option Z) TtlError)) with
  | None => Panicked
  | Some (Err e) => Exit 1 "" (line ("invalid --ttl: " +:+ show_ttl_error e))
  | Some (Ok ttl_seconds) =>
      match relay with
      | Err err => not_reachable err
      | Ok auth =>
          match create_token checks now auth network ttl_seconds with
          | None => Exit 1 "" (line ("failed to create token: " +:+ show_status None))
          | Some (Err st) => Exit 1 "" (line ("failed to create token: " +:+ show_status (Some st)))
          | Some (Ok resp) =>
              match print (from_response resp) f with
              | Ok (out, err) => Exit 0 out err
              | Err err => Exit 1 "" (line ("failed to render output: " +:+ err))
              end
          end
      end
  end.

(** [token verify]; colours only on a terminal. *)
Definition colour (terminal : bool) (code : string) : string :=
  if terminal then String "027" ("[" +:+ code +:+ "m") else "".

Definition token_verify (now : Z) (relay : result Auth string) (terminal : bool) (token : string) : Outcome :=
  match relay with
  | Err err => not_reachable err
  | Ok auth =>
      let resp := verify_token now auth token in
      let say c v := line ("valid: " +:+ colour terminal c +:+ v +:+ colour terminal "0") in
      if vt_valid resp then Exit 0 (say "32" "true") ""
      else Exit 1 (say "31" "false" +:+ line ("reason: " +:+ default "unknown" (vt_reason resp))) ""
  end.
End commands.

Lemma line_inj s t : line s = line t → s = t.
Proof.
  intros H%(f_equal string_rev). unfold line in H. rewrite !string_rev_app in H.
  change (String LF (string_rev s) = String LF (string_rev t)) in H. injection H as H.
  by rewrite <-(string_rev_involutive s), H, string_rev_involutive.
Qed.

(** ** Lifetimes *)

(** The seconds in a unit. *)
Definition unit_seconds (c : ascii) : option Z :=
  if bool_decide (c = "s"%char) then Some 1
  else if bool_decide (c = "m"%char) then Some 60
  else if bool_decide (c = "h"%char) then Some 3600
  else if bool_decide (c = "d"%char) then Some 86400 else None.

Lemma split_last_snoc s c : code c <? 128 = true →
  split_last (s +:+ String c "") = Some (s, String c "").
Proof.
  intros Hc. induction s as [|a s IH]; cbn [split_last].
  - change ("" +:+ String c "") with (String c ""). cbn [split_last].
    apply Z.ltb_lt in Hc. destruct (Z.leb_spec 128 (code c)); [lia|done].
  - change (String a s +:+ String c "") with (String a (s +:+ String c "")). cbn [split_last].
    rewrite IH. by destruct s.
Qed.

Lemma unit_ascii c k : unit_seconds c = Some k →
  is_ascii c = true ∧ is_digit c = false ∧ ws1 c = false ∧ 1 ≤ k.
Proof.
  unfold unit_seconds. repeat (case_bool_decide; [subst c; intros [= <-]; by split_and!|]). done.
Qed.

Lemma digit_ascii c : is_digit c = true → is_ascii c = true.
Proof. destruct c as [[] [] [] [] [] [] [] []]; vm_compute; done. Qed.

Lemma trim_lifetime n c k : unit_seconds c = Some k → 0 ≤ n →
  trim (show_uint n +:+ String c "") = show_uint n +:+ String c "".
Proof.
  intros (Ha & _ & Hw & _)%unit_ascii Hn. apply trim_id.
  - rewrite string_all_app. cbn [string_all]. rewrite Ha.
    by rewrite (string_all_impl is_digit is_ascii _ digit_ascii (show_uint_digits n Hn)).
  - destruct (show_uint_head n Hn) as (d & s & Hd & ->).
    change (head_not_ws (String (digit_char d) s +:+ String c "")) with (negb (ws1 (digit_char d))).
    by rewrite is_digit_not_ws by (by apply is_digit_char).
  - rewrite string_rev_app.
    change (head_not_ws (string_rev (String c "") +:+ string_rev (show_uint n))) with (negb (ws1 c)).
    by rewrite Hw.
Qed.

Lemma parse_ttl_show checks n c k :
  unit_seconds c = Some k → 0 ≤ n → n * k < 2 ^ 64 →
  parse_ttl checks (show_uint n +:+ String c "") = Some (Ok (n * k)).
Proof.
  intros Hu Hn Hfit. unfold parse_ttl. rewrite (trim_lifetime n c k) by done.
  destruct (unit_ascii c k Hu) as (Ha & Hd & Hw & Hk).
  rewrite bool_decide_false by (by destruct (show_uint n)).
  rewrite string_all_app. cbn [string_all]. rewrite Hd, andb_false_r.
  rewrite split_last_snoc by done. cbn [mbind option_bind].
  rewrite parse_show_uint by (unfold is_uint; nia).
  assert (Hop : ∀ z, 0 ≤ z ≤ n * k → u64_op checks z = Some z)
    by (intros z Hz; apply u64_op_fit; unfold is_uint; lia).
  revert Hu. unfold unit_seconds.
  repeat (case_bool_decide; [subst c; intros [= <-]; cbn [bool_decide decide_rel];
    repeat (rewrite Hop by lia; cbn [mbind option_bind]); do 2 f_equal; lia|]). done.
Qed.

(** ** From the command line to the relay and back *)

Section facts.
Context {U : UuidApi} {UL : UuidLaws} {J : JwtApi} {JL : JwtLaws} {CT : CliTexts}.

(** What a lifetime of [secs] seconds means to the relay: 0 is for ever. *)
Definition expiry (now secs : Z) : option Z := if secs =? 0 then None else Some (now + secs).

Lemma create_token_spec checks now auth network_id network secs :
  auth_local auth = true → uuid_parse network_id = Some network → 0 ≤ now → 0 ≤ secs → now + secs < 2 ^ 64 →
  let claims := MkClaims LOCAL_ISSUER (uuid_hyphenated network) now (expiry now secs) in
  create_token checks now auth network_id (Some secs) =
    Some (match jwt_encode (auth_secret auth) claims with
          | Ok token => Ok (MkCreateTokenResponse token (expiry now secs))
          | Err e => Err (Internal e)
          end).
Proof.
  intros Hl Hn H0 H1 Hfit. cbv zeta. unfold create_token, issue, expiry. rewrite Hl, Hn. cbn [negb].
  destruct (Z.eqb_spec secs 0) as [->|Hne].
  - cbn [mbind option_bind]. by destruct (jwt_encode _ _).
  - rewrite u64_op_fit by (unfold is_uint; lia). cbn [mbind option_bind fmap option_fmap option_map].
    by destruct (jwt_encode _ _).
Qed.

Lemma verify_token_spec now later auth network e token :
  is_uint 64 now → (∀ z, e = Some z → is_uint 64 z) →
  jwt_encode (auth_secret auth) (MkClaims LOCAL_ISSUER (uuid_hyphenated network) now e) = Ok token →
  let resp := verify_token later auth token in
  match e with
  | Some z => if z <? later then vt_valid resp = false ∧ vt_reason resp = Some "expired"
              else vt_valid resp = true
  | None => vt_valid resp = true
  end.
Proof.
  intros Hn He Henc. cbv zeta. unfold verify_token.
  rewrite (verify_issued now later _ network e token Hn He Henc).
  destruct e as [z|]; [|done]. by destruct (z <? later).
Qed.
End facts.

(** A lifetime typed as a number and a unit is what the token gets: on a relay that
    issues tokens, [token create --ttl <n><unit>] for a network it can read prints the
    token alone on standard output and its expiry on standard error, and [token verify]
    of that token says true and exits with 0 up to and including the second [now + n
    units] and false, expired, with 1 after it; a lifetime of no units never expires. The
    only failure left is the signer's, which exits with 1 and prints no token, as do a
    relay that does not issue tokens and a network that is none. *)
Theorem token_commands {U : UuidApi} {UL : UuidLaws} {J : JwtApi} {JL : JwtLaws} {CT : CliTexts}
    checks now auth network_id network n c k
    (Hlocal : auth_local auth = true) (Hnet : uuid_parse network_id = Some network)
    (Hunit : unit_seconds c = Some k) (Hn : 0 ≤ n) (Hnow : 0 ≤ now) (Hfit : now + n * k < 2 ^ 64) :
  let ttl := show_uint n +:+ String c "" in
  match token_create checks now (Ok auth) network_id (Some ttl) OText with
  | Exit 0 out err =>
      ∃ token, out = line token ∧
        err = line (if n =? 0 then "expires_at: never"
                    else "expires_at (unix): " +:+ show_uint (now + n * k)) ∧
        ∀ later, token_verify later (Ok auth) false token =
          if (n =? 0) || (later <=? now + n * k) then Exit 0 (line "valid: true") ""
          else Exit 1 (line "valid: false" +:+ line "reason: expired") ""
  | Exit code out _ => code = 1 ∧ out = "" ∧
      ∃ e, jwt_encode (auth_secret auth)
        (MkClaims LOCAL_ISSUER (uuid_hyphenated network) now (expiry now (n * k))) = Err e
  | Panicked => False
  end ∧
  ∀ auth' network_id', auth_local auth' = false ∨ uuid_parse network_id' = None →
    ∃ err, token_create checks now (Ok auth') network_id' (Some ttl) OText = Exit 1 "" err.
Proof.
  destruct (unit_ascii c k Hunit) as (_ & _ & _ & Hk). cbv zeta. unfold token_create.
  rewrite (parse_ttl_show checks n c k) by (done || nia). cbn [mbind option_bind]. split.
  - rewrite (create_token_spec checks now auth network_id network (n * k)) by (done || nia).
    destruct (jwt_encode _ _) as [token|e] eqn:Henc; [|by split_and!; eauto].
    assert (Hz : (n * k =? 0) = (n =? 0)) by (destruct (Z.eqb_spec (n * k) 0), (Z.eqb_spec n 0); nia || done).
    assert (He : ∀ z, expiry now (n * k) = Some z → is_uint 64 z)
      by (unfold expiry; intros z; destruct (_ =? _); [done|]; intros [= <-]; unfold is_uint; nia).
    pose proof (λ later, verify_token_spec now later auth network _ token ltac:(unfold is_uint; nia) He Henc) as Hv.
    cbn [print from_response ct_token ct_expires_at out_token expires_at].
    unfold expiry in *. rewrite Hz in *. exists token. destruct (n =? 0); split_and!; try done;
      intros later; specialize (Hv later); cbv zeta in Hv; unfold token_verify.
    + by rewrite Hv.
    + destruct (Z.ltb_spec (now + n * k) later), (Z.leb_spec later (now + n * k)); try lia; cbn [orb].
      * destruct Hv as [Hv1 Hv2]. by rewrite Hv1, Hv2.
      * by rewrite Hv.
  - intros auth' network_id' H. unfold create_token, issue. destruct (auth_local auth'); [|by eexists].
    destruct H as [H|H]; [done|]. rewrite H. cbn. by eexists.
Qed.

Import PlainJwt.

(** Serializers for the examples. *)
#[local] Instance plain_texts : CliTexts := {|
  to_json_pretty _ := Err "json"; to_toml_pretty _ := Err "toml"; show_status _ := "status" |}.

Lemma token_commands_witness :
  let relay := MkAuth true "k" in
  ∃ token, token_create true 100 (Ok relay) ex_network (Some "2m") OText =
    Exit 0 (line token) (line "expires_at (unix): 220") ∧
  token_verify 220 (Ok relay) false token = Exit 0 (line "valid: true") "" ∧
  token_verify 221 (Ok relay) false token = Exit 1 (line "valid: false" +:+ line "reason: expired") "".
Proof.
  cbv zeta. destruct (uuid_parse ex_network) as [network|] eqn:Hn; [|discriminate].
  destruct (token_commands true 100 (MkAuth true "k") ex_network network 2 "m"%char 60) as [H _];
    [reflexivity|exact Hn|reflexivity|lia|lia|lia|].
  change (show_uint 2 +:+ String "m" "") with "2m" in H.
  exists (ex_token 100 (Some 220)).
  assert (E : token_create true 100 (Ok (MkAuth true "k")) ex_network (Some "2m") OText =
    Exit 0 (line (ex_token 100 (Some 220))) (line "expires_at (unix): 220")) by (vm_compute; reflexivity).
  rewrite E in H. destruct H as (token & Hout & _ & Hv).
  assert (token = ex_token 100 (Some 220)) as ->.
  { by apply line_inj. }
  split; [exact E|]. split; [exact (Hv 220)|exact (Hv 221)].
Defined.

Example ttl_messages :
  show_ttl_error (InvalidDuration "d") = "invalid duration 'd': cannot parse integer from empty string" ∧
  show_ttl_error (InvalidDuration "1x5s") = "invalid duration '1x5s': invalid digit found in string" ∧
  show_ttl_error (InvalidDuration "18446744073709551616") =
    "invalid duration '18446744073709551616': number too large to fit in target type".
Proof. split_and!; reflexivity. Qed.
